(* ===== verification/_CoqProject ===== *)
-Q . S2P
Prelude.v
Version.v
Crc32.v
Packet.v
Fragment.v
Crypto.v
Sealed.v
Session.v
Handshake.v
Message.v
Db.v
Queue.v
Store.v
Transport.v
Net.v
Core.v
ContextOps.v
Delivery.v
Example.v
Event.v
Ring.v
Plugin.v
Presence.v
Revoke.v
Media.v
Channel.v
Audio.v
Identity.v
Ghost.v
Account.v
Files.v
Backup.v
Matrix.v
Lifecycle.v
Layout.v
Program.v
