(* ===== verification/Prelude.v ===== *)
(** * Koe-core: a verification development

    Koe-core (the C files of src/src and src/include) is the C core of a peer-to-peer
    messenger: a wire format with a checksum and fragmentation, a cryptographic
    layer over libsodium, a signed key exchange, sessions, sealed messages,
    storage and an offline queue over SQLite, transports, an event loop, and
    the features on top of them. This library models it function by function
    and proves what makes the functions correct; where the code does not do
    what it is there for, that is a theorem or a lemma too.

    ** Conventions

    Data. Bytes are [Z] between 0 and 255, buffers and arrays are lists of
    them ([bytes]), structures are records whose fields carry a short prefix,
    enumerations are inductive types with the constructors of the source.
    Fixed-width integers are [Z] with the conversion written where C converts
    ([u8], [u32], [u64], [i32], [i64]); signed 64-bit subtractions and additions
    whose overflow is undefined are [sub64] and [add64]. A pointer that may be
    NULL is an [option]. Structures that the code copies byte by byte into a
    packet or a file (revocations, media offers, account descriptors, backup
    headers) have an image function with the x86-64 layout, little-endian, which
    Layout.v checks against their declarations. Paths and other strings are lists
    without their terminator, arrays that hold strings are whole arrays. Linked
    lists (contacts, subscribers) are lists from the head on, and the number of
    contacts, an [int] in the code, is an unbounded integer.

    Effects. A function that uses its environment is a computation of the monad
    [M]: it passes a [world], which holds what comes from outside (the clock,
    whether each allocation and each system call succeeds, random bytes, the
    files) as oracles indexed by call number. A theorem for every [world] is
    therefore a theorem for every behaviour of the environment. Undefined
    behaviour (an access outside an object, a signed overflow) is the absence of
    a result, and [w |- m || r -| w'], written with the symbols below, says that
    [m] started in [w] returns [r] and leaves [w']: it includes that nothing
    undefined happened. Output parameters are returned along with the code, and
    are what they were before the call when the code leaves them alone.
    Allocations are not numbered beyond their success; [free] is forgetting.
    Where two structures share a pointer that one of them closes (the database
    connection of the context and of its queue), it is a handle into a table and
    a closed handle is undefined to follow. [runs w m Q] is total correctness:
    [m] returns and the result satisfies [Q]; [total] and [quiet] say that a
    computation is always defined and that it writes no files, and have a
    tactic each.

    Files. Most components read and write whole files by path: the table of
    files of the [world]. Opening a file for reading may fail although it is
    there, and every write may fail, leaving any part of its bytes short of all
    of them; reading a file that is open succeeds up to its end. Components that create or list directories use the
    tree of Files.v, passed as a value. The two are not connected: no component
    reaches the same file through both.

    Libraries the program calls are parameters: libsodium is the class [Sodium]
    with the laws the program relies on in [SodiumLaws] (sizes of keys,
    signatures and plaintexts, signatures that verify, a Diffie-Hellman exchange
    that agrees, encryption that inverts; neither secrecy nor unforgeability), with a concrete instance of both in
    Crypto.v for the witnesses; libopus is the class [Opus] of Audio.v; the
    order in which SQLite returns rows with equal sort keys is [SqlOrder], that
    in which a directory lists its entries [ReaddirOrder], and the descriptors
    the system hands out [FdAlloc]; mruby is the class [Mruby] of Plugin.v, with
    no laws: a script may do anything, and where it makes the interpreter raise in
    the host (it took the module KoeEvent away, or left a body with a NUL) the
    process ends, which is the absence of a result; libcurl and the server behind
    it are the class [Curl] of Matrix.v. Callbacks are functions, or computations
    of [M], over a state of their own; a listener may also post, register and
    unregister while it runs, and the measure by which its posts get smaller, if
    they do, is a hypothesis ([posts_less]).

    Loops. A loop over an array is a structural recursion or a search; a loop
    that is not (the queue drain, the poll loop, the presence sweep, reading and
    writing on sockets) takes fuel, and the theorem about it gives a fuel that
    is enough: the number of queued packets plus one, the 512 slots of the ring
    (the measure of the pending events when listeners post),
    the number of entries, the number of bytes, 256 levels of a directory walk
    (more than a path of 511 bytes can have), the size of an archive for its
    extraction.

    ** Files

    - Prelude.v: the conventions above, the monad, the automation, shared lemmas
      on integers, byte images, C strings, selections and keyed lists, and the
      class [Simulation] with which components are related to their abstract
      specifications.
    - Version.v (koe_version.c): compatibility and negotiation.
    - Crc32.v (koe_packet.c): the table-driven checksum, equal to bit-by-bit
      division, and its detection of bursts.
    - Packet.v (koe_packet.c): header, checksum, validation, serialisation and
      parsing; round trip, totality of the parser on arbitrary input, detection
      of corruption, and the 32-bit overflow of the size computation.
    - Fragment.v (koe_packet.c): fragmentation and reassembly in any order, and
      the eight-bit truncation of the fragment count.
    - Crypto.v (koe_crypto.c): identities and their file, short ids, session
      keys, encryption, signatures, verification tokens.
    - Sealed.v: the packet-sealing sequence shared by presence, channels, media
      and audio.
    - Session.v (koe_session.c): the session table, a refinement of a bag of
      sessions and, when no peer is added twice, of a finite map.
    - Handshake.v (koe_handshake.c): the key exchange; agreement of the two
      sides, safety on arbitrary input, and the missing check of the responder's
      identity.
    - Message.v (koe_message.c): identifiers, timers, signing, sealing.
    - Db.v (koe_db.c): the SQLite tables as lists of rows, one definition per
      query, and the invariant of reachable databases.
    - Queue.v (koe_queue.c) and Store.v (koe_store.c): bounded per-peer queues
      and the encrypted store, over Db.v.
    - Transport.v (koe_transport.c): streams cut into arbitrary pieces, framing,
      WebSocket frames, discovery. Net.v (koe_transport.c): opening and closing
      sockets over a table of descriptors, connecting, the WebSocket upgrade.
    - Core.v (koe_core.c): the part of the context that messages need; sessions,
      handshakes and messages end to end. The queue is an interface, the class
      [PacketQueue]. ContextOps.v: the calls of the context as one interface with
      the types of their arguments and the invariant they keep, for any queue that
      is a [SoundQueue].
    - Delivery.v: texts from [koe_send_text] through the queue and the transport
      to the other side. Example.v (examples/send_message.c): the example program
      and what it prints.
    - Event.v (koe_event.c): the ring with 32-bit indices, listeners, dispatch, on
      one thread. Ring.v (koe_event.c): the memory accesses of posting and polling
      threads, one step each, interleaved.
    - Plugin.v (koe_plugin.c): the registry, loading and dispatching, and the
      plugins in the event loop.
    - Presence.v (koe_presence.c), Revoke.v (koe_revoke.c), Media.v
      (koe_media.c), Channel.v (koe_channel.c), Audio.v (koe_audio.c), Identity.v
      (koe_identity.c), Ghost.v (koe_ghost.c), Account.v (koe_account.c): the
      features, each over the components it calls.
    - Files.v: the directory tree. Backup.v (koe_backup.c): archiving,
      encryption, extraction over it.
    - Matrix.v (koe_matrix.c): requests, the response buffer, field extraction,
      login, rooms, synchronisation, media.
    - Lifecycle.v (koe_core.c): the whole context; start, shutdown, account
      switch and the calls for files, contacts, calls and groups. Its queue is
      the second implementation of [PacketQueue].
    - Layout.v (structures of the headers): offsets and sizes by the System V ABI,
      and the images of the other files against them.
    - Program.v: whole runs, from start over any calls, voice calls and turns of
      the event loop to shutdown.

    ** What the theorems show

    Round trips: packets, fragments, frames of both transports, identity files,
    sealed messages, revocations, the account registry, backups and whole file
    transfers come back as they were, and a restart finds the account the first
    start created. Safety on arbitrary input: the parser, the two receiving steps
    of the handshake and the extraction of fields from a server's answer never
    leave their buffers and accept only what they should. Whole programs: starting,
    making any well-typed calls, polling for events and shutting down is always
    defined, and every call keeps the invariant of the context whatever statements,
    sockets and files fail around it; memory may fail too except where the Matrix
    client is used, accounts are not switched, and the caller has initialised the
    packet in which a HELLO is answered. Threads: one
    posting and one polling thread see every event once and in order as long as
    none is dropped, without a data race, in every interleaving. Errors: a drain
    that is refused a packet stops there and keeps the others. Resources: whatever
    fails, connecting and setting up the transport lose no descriptor, and
    shutdown after any sequence of defined operations gives back every descriptor
    and database connection and, if the context had come up, erases the secrets.
    Termination: polling empties the queue through plugins and listeners, unless
    listeners post without end or a script ends the process, and importing a
    backup ends. Refinement: the presence table and the contact book behave as
    finite maps over any sequence of operations, the session table as a bag. Functional behaviour: key agreement,
    message delivery end to end and by way of the queue, queue order and bounds,
    event order and drop policy, plugin dispatch, discovery, tokens, timers,
    identifiers, sweeps, channel posts, login, the output of the example program.
    Defects, as
    theorems and lemmas about what the code does instead: session keys that are
    public after [koe_handshake_process] or a voice frame, a store that cannot be
    read or wiped, impersonation in the handshake, sizes and counts that wrap,
    packets lost by a failing drain, files that cannot be opened for a moment and
    are replaced as if they were not there, events torn or lost by a full ring or by two
    posting threads, peers that are never connected, sealed messages that
    validation rejects, a queue that uses a closed connection after an account
    switch, archives that write outside their target, a packet read before it is
    written, channel posts nobody can open, tokens that can be used again, a
    listener that keeps the event loop busy for ever, secrets that a failed start
    leaves in memory. The lemmas are at the end of
    the file they concern.

    ** What is not modelled

    Nothing of the C files is left out but the following. The declarations of
    koe_ffi.h, which has no code: of the functions it declares most are defined
    nowhere in the repository, and three with other parameters; the prototypes and comments of the other
    headers, and the structures of koe_matrix.h that no function uses; diagnostics on standard
    error; socket options, whose results are ignored; the builds without libcurl
    or mruby, in which the functions of Matrix.v and Plugin.v return -1 at once.
    Secrecy is not stated. Threads appear only on the event ring (Ring.v), where
    the accesses of the threads interleave in one order: what the code gains from
    relaxed ones is not modelled. *)

From Stdlib Require Strings.String.
From stdpp Require Export base numbers list gmap.

Declare Scope koe_scope.
Delimit Scope koe_scope with koe.
#[global] Open Scope koe_scope.
#[global] Open Scope Z_scope.

(** Let [lia] reason about division and remainder by constants. *)
#[global] Ltac Zify.zify_post_hook ::= Z.div_mod_to_equations.

(** * Bytes and machine integers *)

(** A buffer of octets. *)
Abbreviation bytes := (list Z).

(** Conversions to the C integer types: reduction modulo the width for the
    unsigned ones, two's complement for the signed ones. *)
Definition u8 (x : Z) : Z := x `mod` 2 ^ 8.
Definition u16 (x : Z) : Z := x `mod` 2 ^ 16.
Definition u32 (x : Z) : Z := x `mod` 2 ^ 32.
Definition u64 (x : Z) : Z := x `mod` 2 ^ 64.
Definition i32 (x : Z) : Z := (x + 2 ^ 31) `mod` 2 ^ 32 - 2 ^ 31.
Definition i64 (x : Z) : Z := (x + 2 ^ 63) `mod` 2 ^ 64 - 2 ^ 63.

(** Signed 64-bit arithmetic: overflow is undefined. *)
Definition chk64 (x : Z) : option Z :=
  if (- 2 ^ 63 <=? x) && (x <? 2 ^ 63) then Some x else None.
Definition add64 (x y : Z) : option Z := chk64 (x + y).
Definition sub64 (x y : Z) : option Z := chk64 (x - y).

Definition byte_ok (b : Z) : Prop := 0 ≤ b < 256.
Definition bytes_ok (l : bytes) : Prop := Forall byte_ok l.

(** An array [uint8_t a[n]]. *)
Definition array_ok (n : nat) (l : bytes) : Prop := length l = n ∧ bytes_ok l.

(** Length of a buffer as a [size_t]. *)
Definition zlen {A} (l : list A) : Z := Z.of_nat (length l).

#[export] Instance byte_ok_dec b : Decision (byte_ok b).
Proof. unfold byte_ok; apply _. Defined.
#[export] Instance bytes_ok_dec l : Decision (bytes_ok l).
Proof. unfold bytes_ok; apply _. Defined.
#[export] Instance array_ok_dec n l : Decision (array_ok n l).
Proof. unfold array_ok; apply _. Defined.

(** Little-endian and big-endian images of an unsigned integer. *)
Fixpoint le_bytes (n : nat) (x : Z) : bytes :=
  match n with
  | O => []
  | S n' => x `mod` 256 :: le_bytes n' (x `div` 256)
  end.

Fixpoint le_val (l : bytes) : Z :=
  match l with
  | [] => 0
  | b :: l' => b + 256 * le_val l'
  end.

Definition be_bytes (n : nat) (x : Z) : bytes := reverse (le_bytes n x).
Definition be_val (l : bytes) : Z := le_val (reverse l).

(** The image of an [int64_t] or [time_t] on a little-endian machine. *)
Definition le64 (x : Z) : bytes := le_bytes 8 (u64 x).

(** [htonl] followed by a four-byte [memcpy], and its inverse. *)
Definition be32 (x : Z) : bytes := be_bytes 4 x.
Definition of_be32 (l : bytes) : Z := be_val l.

#[global] Arguments be_bytes : simpl never.
#[global] Arguments be32 : simpl never.
#[global] Arguments le64 : simpl never.
#[global] Arguments of_be32 : simpl never.
#[global] Arguments u8 : simpl never.
#[global] Arguments u16 : simpl never.
#[global] Arguments u32 : simpl never.
#[global] Arguments u64 : simpl never.
#[global] Arguments i32 : simpl never.
#[global] Arguments i64 : simpl never.

(** * Memory accesses

    [None] is undefined behaviour: an access outside the object. *)
Definition peek (buf : bytes) (off n : nat) : option bytes :=
  if decide (off + n ≤ length buf)%nat then Some (take n (drop off buf)) else None.

Definition poke (buf : bytes) (off : nat) (src : bytes) : option bytes :=
  if decide (off + length src ≤ length buf)%nat
  then Some (take off buf ++ src ++ drop (off + length src) buf) else None.

#[global] Arguments peek : simpl never.
#[global] Arguments poke : simpl never.

(** [memcmp(a, b, n) == 0]. *)
Definition memeq (n : nat) (a b : bytes) : bool := bool_decide (take n a = take n b).

(** [memset(a, 0, n)] on a fresh object. *)
Definition zeros (n : nat) : bytes := replicate n 0.

(** C strings are the byte lists before their terminator. [cstr] reads one out
    of an array, [strncpy dst src n] writes at most [n] bytes and pads with NULs. *)
Fixpoint cstr (a : bytes) : bytes :=
  match a with
  | [] => []
  | b :: a' => if b =? 0 then [] else b :: cstr a'
  end.

(** A string literal. *)
Definition str (s : String.string) : bytes :=
  (λ c, Z.of_N (Ascii.N_of_ascii c)) <$> String.list_ascii_of_string s.
#[global] Arguments str s%_string_scope.

Definition strncpy (dst src : bytes) (n : nat) : bytes :=
  take n (src ++ zeros n) ++ drop n dst.

(** The string [snprintf(buf, n, "%s", s)] leaves in [buf]. *)
Definition snprintf_trunc (n : nat) (s : bytes) : bytes := take (n - 1) s.

(** [%u]: decimal digits, at most ten for 32 bits. *)
Fixpoint dec_digits (fuel : nat) (x : Z) : bytes :=
  match fuel with
  | O => []
  | S f => if x <? 10 then [48 + x] else dec_digits f (x `div` 10) ++ [48 + x `mod` 10]
  end.
Definition dec_string (x : Z) : bytes := dec_digits 10 x.

(** [%d]: a 32-bit signed integer. *)
Definition dec_int (x : Z) : bytes := if x <? 0 then 45 :: dec_string (- x) else dec_string x.

(** [PRId64]: 64 bits have at most 19 digits. *)
Definition dec_int64 (x : Z) : bytes := if x <? 0 then 45 :: dec_digits 19 (- x) else dec_digits 19 x.

(** [%02x] of a byte. *)
Definition hex_digit (x : Z) : Z := if x <? 10 then 48 + x else 87 + x.
Definition hex_byte (b : Z) : bytes := [hex_digit (b `div` 16); hex_digit (b `mod` 16)].

(** The string from the first occurrence of [needle] on. *)
Fixpoint strstr (hay needle : bytes) : option bytes :=
  if bool_decide (take (length needle) hay = needle) then Some hay
  else match hay with [] => None | _ :: hay' => strstr hay' needle end.

(** [while ( *p == ' ') p++]. *)
Fixpoint skip_spaces (p : bytes) : bytes :=
  match p with b :: p' => if b =? 32 then skip_spaces p' else p | [] => [] end.

(** At most [n] characters up to the first [stop] or the end of the string. *)
Fixpoint read_until (stop : Z) (n : nat) (p : bytes) : bytes :=
  match n, p with
  | S n', b :: p' => if b =? stop then [] else b :: read_until stop n' p'
  | _, _ => []
  end.

(** * The environment

    Everything a function of the library obtains from outside it: successive
    results of [time(NULL)], the success of successive [malloc] calls, the
    random bytes libsodium draws, the success of successive fallible system
    calls (opening a file for writing, compiling or stepping an SQL statement)
    and the contents of the file system. The oracles are arbitrary functions of
    the call number, so a theorem about every [world] covers every behaviour of
    the environment. *)
Record world := World {
  w_clock : nat → Z;
  w_tick : nat;
  w_heap : nat → bool;
  w_allocs : nat;
  w_rng : nat → nat → Z;
  w_draws : nat;
  w_io : nat → bool;
  w_ios : nat;
  w_fs : gmap bytes bytes;
}.

Definition tick (w : world) : world :=
  World (w_clock w) (S (w_tick w)) (w_heap w) (w_allocs w) (w_rng w) (w_draws w)
        (w_io w) (w_ios w) (w_fs w).
Definition alloc (w : world) : world :=
  World (w_clock w) (w_tick w) (w_heap w) (S (w_allocs w)) (w_rng w) (w_draws w)
        (w_io w) (w_ios w) (w_fs w).
Definition draw (w : world) : world :=
  World (w_clock w) (w_tick w) (w_heap w) (w_allocs w) (w_rng w) (S (w_draws w))
        (w_io w) (w_ios w) (w_fs w).
Definition iotick (w : world) : world :=
  World (w_clock w) (w_tick w) (w_heap w) (w_allocs w) (w_rng w) (w_draws w)
        (w_io w) (S (w_ios w)) (w_fs w).
Definition set_fs (fs : gmap bytes bytes) (w : world) : world :=
  World (w_clock w) (w_tick w) (w_heap w) (w_allocs w) (w_rng w) (w_draws w)
        (w_io w) (w_ios w) fs.

(** The second the next call to [time(NULL)] returns. *)
Definition now (w : world) : Z := w_clock w (w_tick w).

(** Environments in which no allocation fails, no system call fails, and the
    clock never runs backwards. *)
Definition heap_ok (w : world) : Prop := ∀ i, w_heap w i = true.
Definition io_ok (w : world) : Prop := ∀ i, w_io w i = true.
Definition clock_mono (w : world) : Prop := ∀ i j, (i ≤ j)%nat → w_clock w i ≤ w_clock w j.

(** The oracles never change; only the call numbers and the files do. *)
Definition same_env (w w' : world) : Prop :=
  w_clock w' = w_clock w ∧ w_heap w' = w_heap w ∧ w_rng w' = w_rng w ∧ w_io w' = w_io w.

#[export] Instance same_env_refl : Reflexive same_env.
Proof. by intros w. Qed.
#[export] Instance same_env_trans : Transitive same_env.
Proof. unfold same_env. intros w1 w2 w3 (?&?&?&?) (?&?&?&?). split_and!; congruence. Qed.
Lemma heap_ok_env w w' : same_env w w' → heap_ok w → heap_ok w'.
Proof. intros (_ & E & _) H i. rewrite E. apply H. Qed.
Lemma io_ok_env w w' : same_env w w' → io_ok w → io_ok w'.
Proof. intros (_ & _ & _ & E) H i. rewrite E. apply H. Qed.

(** A concrete environment for examples: the clock stands at [t], nothing fails
    and there are no files. *)
Definition world_at (t : Z) : world :=
  World (λ _, t) 0 (λ _, true) 0 (λ _ _, 5) 0 (λ _, true) 0 ∅.

(** * The effect monad: state passing over the environment, with undefined
    behaviour as the absence of a result *)
Definition M (A : Type) : Type := world → option (A * world).

#[export] Instance M_ret : MRet M := λ A a w, Some (a, w).
#[export] Instance M_bind : MBind M :=
  λ A B f m w, match m w with Some (a, w') => f a w' | None => None end.

Definition ub {A} : M A := λ _, None.
Definition lift {A} (o : option A) : M A := λ w, match o with Some a => Some (a, w) | None => None end.

Definition time_null : M Z := λ w, Some (now w, tick w).
Definition malloc : M bool := λ w, Some (w_heap w (w_allocs w), alloc w).
Definition syscall : M bool := λ w, Some (w_io w (w_ios w), iotick w).

Definition random_bytes (w : world) (n : nat) : bytes :=
  (λ i, w_rng w (w_draws w) i `mod` 256) <$> seq 0 n.
#[global] Arguments random_bytes : simpl never.
Definition randombytes_buf (n : nat) : M bytes := λ w, Some (random_bytes w n, draw w).

(** [malloc(n)] whose contents matter: uninitialised memory holds any bytes. *)
Definition malloc_bytes (n : nat) : M (option bytes) :=
  λ w, Some (if w_heap w (w_allocs w) then Some (random_bytes w n) else None, alloc (draw w)).

(** [clock_gettime(CLOCK_REALTIME)]: seconds, and nanoseconds below a billion
    that the environment chooses. *)
Definition clock_gettime : M (Z * Z) :=
  λ w, Some ((now w, w_rng w (w_draws w) 0%nat `mod` 1000000000), tick (draw w)).

(** Files: the contents of [path], or nothing when it is not there or cannot be
    opened for reading; writing replaces the contents when the open succeeds. *)
Definition fopen_rb (path : bytes) : M (option bytes) :=
  λ w, Some (if w_io w (w_ios w) then w_fs w !! path else None, iotick w).
Definition fwrite_file (path content : bytes) : M unit :=
  λ w, Some ((), set_fs (<[path := content]> (w_fs w)) w).
Definition fremove (path : bytes) : M unit := λ w, Some ((), set_fs (delete path (w_fs w)) w).

(** Started in [w], [m] returns [r] and leaves the environment in [w']. *)
Notation "w ⊢ m ⇓ r ⊣ w'" := (m w = Some (r, w'))
  (at level 70, m at next level, r at next level, w' at next level, no associativity) : koe_scope.

(** No undefined behaviour when started in [w]. *)
Definition safe {A} (m : M A) (w : world) : Prop := is_Some (m w).

(** * Automation *)
Create HintDb koe.

#[export] Hint Resolve heap_ok_env io_ok_env : koe.
#[export] Hint Extern 1 (same_env _ _) => reflexivity : koe.

(** Evaluate the monad, its primitives and record projections. *)
Ltac mrun :=
  repeat (unfold mbind, M_bind, mret, M_ret, time_null, malloc, syscall, randombytes_buf,
    fopen_rb, fwrite_file, fremove, lift, ub in *; cbn in * ).

(** Split every conditional of the goal, keeping the equations. *)
Ltac split_ifs :=
  repeat (case_match; simplify_eq/=).

(** Open a known run of a bind. *)
Lemma bind_inv {A B} (m : M A) (f : A → M B) w b w' :
  (m ≫= f) w = Some (b, w') → ∃ a w1, m w = Some (a, w1) ∧ f a w1 = Some (b, w').
Proof. unfold mbind, M_bind. destruct (m w) as [[a w1]|]; naive_solver. Qed.

Lemma bind_run {A B} (m : M A) (f : A → M B) w a w1 :
  m w = Some (a, w1) → (m ≫= f) w = f a w1.
Proof. unfold mbind, M_bind. by intros ->. Qed.

(** One step of a computation, by the primitive it starts with. *)
Lemma bind_lift {A B} (o : option A) (f : A → M B) w a : o = Some a → (lift o ≫= f) w = f a w.
Proof. by intros ->. Qed.
Lemma bind_malloc_ok {B} (f : bool → M B) w : heap_ok w → (malloc ≫= f) w = f true (alloc w).
Proof. intros H. unfold mbind, M_bind, malloc. by rewrite H. Qed.
Lemma bind_malloc_bytes_ok {B} (f : option bytes → M B) n w :
  heap_ok w → (malloc_bytes n ≫= f) w = f (Some (random_bytes w n)) (alloc (draw w)).
Proof. intros H. unfold mbind, M_bind, malloc_bytes. by rewrite H. Qed.
Lemma bind_syscall_ok {B} (f : bool → M B) w : io_ok w → (syscall ≫= f) w = f true (iotick w).
Proof. intros H. unfold mbind, M_bind, syscall. by rewrite H. Qed.
Lemma bind_fopen_ok {B} (f : option bytes → M B) path w :
  io_ok w → (fopen_rb path ≫= f) w = f (w_fs w !! path) (iotick w).
Proof. intros H. unfold mbind, M_bind, fopen_rb. by rewrite H. Qed.
Lemma bind_fopen_absent {B} (f : option bytes → M B) path w :
  w_fs w !! path = None → (fopen_rb path ≫= f) w = f None (iotick w).
Proof. intros H. unfold mbind, M_bind, fopen_rb. rewrite H. by case_match. Qed.
Lemma bind_time {B} (f : Z → M B) w : (time_null ≫= f) w = f (now w) (tick w).
Proof. done. Qed.
Lemma bind_random {B} (f : bytes → M B) n w :
  (randombytes_buf n ≫= f) w = f (random_bytes w n) (draw w).
Proof. done. Qed.
Lemma bind_ret {A B} (a : A) (f : A → M B) w : (mret a ≫= f) w = f a w.
Proof. done. Qed.

(** * Total correctness

    Started in [w], [m] returns (nothing undefined happens) and its result and the
    final environment satisfy [Q]. *)
Definition runs {A} (w : world) (m : M A) (Q : A → world → Prop) : Prop :=
  ∃ a w', w ⊢ m ⇓ a ⊣ w' ∧ same_env w w' ∧ Q a w'.

Section Runs.
Context {A B : Type}.
Implicit Types (w : world) (Q : A → world → Prop) (R : B → world → Prop).

Lemma runs_ret w (a : A) Q : Q a w → runs w (mret a) Q.
Proof. intros Hq. by exists a, w. Qed.
Lemma runs_bind w (m : M A) (f : A → M B) Q R :
  runs w m Q → (∀ a w', same_env w w' → Q a w' → runs w' (f a) R) → runs w (m ≫= f) R.
Proof.
  intros (a & w1 & Hm & E1 & Hq) Hf. destruct (Hf a w1 E1 Hq) as (b & w2 & Hr & E2 & HR).
  exists b, w2. split; [by erewrite bind_run|]. split; [by etrans|done].
Qed.
Lemma runs_mono w (m : M A) Q Q' : runs w m Q → (∀ a w', same_env w w' → Q a w' → Q' a w') → runs w m Q'.
Proof. intros (a & w' & Hm & E & Hq) Hm'. exists a, w'. by auto. Qed.

(** One step, by the primitive a computation starts with. *)
Lemma runs_lift w (o : option A) a (f : A → M B) R : o = Some a → runs w (f a) R → runs w (lift o ≫= f) R.
Proof. intros Ho Hr. unfold runs. by rewrite (bind_lift _ _ _ _ Ho). Qed.
Lemma runs_syscall w (f : bool → M B) R : runs (iotick w) (f (w_io w (w_ios w))) R → runs w (syscall ≫= f) R.
Proof. done. Qed.
Lemma runs_syscall_ok w (f : bool → M B) R : io_ok w → runs (iotick w) (f true) R → runs w (syscall ≫= f) R.
Proof. intros Hio Hr. apply runs_syscall. by rewrite Hio. Qed.
Lemma runs_malloc w (f : bool → M B) R : runs (alloc w) (f (w_heap w (w_allocs w))) R → runs w (malloc ≫= f) R.
Proof. done. Qed.
Lemma runs_malloc_ok w (f : bool → M B) R : heap_ok w → runs (alloc w) (f true) R → runs w (malloc ≫= f) R.
Proof. intros Hh Hr. apply runs_malloc. by rewrite Hh. Qed.
Lemma runs_fopen w path (f : option bytes → M B) R :
  (∀ o, runs (iotick w) (f o) R) → runs w (fopen_rb path ≫= f) R.
Proof. intros Hr. apply Hr. Qed.
Lemma runs_time w (f : Z → M B) R : runs (tick w) (f (now w)) R → runs w (time_null ≫= f) R.
Proof. done. Qed.
Lemma runs_random w n (f : bytes → M B) R : runs (draw w) (f (random_bytes w n)) R → runs w (randombytes_buf n ≫= f) R.
Proof. done. Qed.
End Runs.

(** A pointer that is NULL or points to something in shape. *)
Definition opt_ok {A} (P : A → Prop) (o : option A) : Prop := match o with Some a => P a | None => True end.

(** * Computations without undefined behaviour *)
Definition total {A} (m : M A) : Prop := ∀ w, runs w m (λ _ _, True).

Section Total.
Context {A B : Type}.

Lemma total_ret (a : A) : total (mret a).
Proof. intros w. by apply runs_ret. Qed.
Lemma total_bind (m : M A) (f : A → M B) : total m → (∀ a, total (f a)) → total (m ≫= f).
Proof. intros Hm Hf w. eapply runs_bind; [apply Hm|]. intros a w' _ _. apply Hf. Qed.
Lemma total_bind_runs (m : M A) (f : A → M B) w R :
  total m → (∀ a w', same_env w w' → runs w' (f a) R) → runs w (m ≫= f) R.
Proof. intros Hm Hf. eapply runs_bind; [apply Hm|]. intros a w' E _. by apply Hf. Qed.
End Total.

Lemma total_syscall : total syscall.
Proof. by intros w; eexists _, _. Qed.
Lemma total_malloc : total malloc.
Proof. by intros w; eexists _, _. Qed.
Lemma total_time : total time_null.
Proof. by intros w; eexists _, _. Qed.
Lemma total_random n : total (randombytes_buf n).
Proof. by intros w; eexists _, _. Qed.
Lemma total_fopen_rb path : total (fopen_rb path).
Proof. by intros w; eexists _, _. Qed.
Lemma total_fwrite_file path content : total (fwrite_file path content).
Proof. by intros w; eexists _, _. Qed.

Create HintDb total.
#[export] Hint Resolve total_ret total_syscall total_malloc total_time total_random total_fopen_rb
  total_fwrite_file : total.

(** Follow the structure of a computation down to the calls known to be total. *)
Ltac total :=
  intros;
  repeat lazymatch goal with
    | |- total (_ ≫= _) => apply total_bind; [|intros]
    | |- total (match ?x with _ => _ end) => destruct x
    | |- total (let _ := _ in _) => cbv zeta
    | |- total _ => solve [auto with total]
    end.

(** * Computations that leave the files alone *)
Definition quiet {A} (m : M A) : Prop := ∀ w a w', w ⊢ m ⇓ a ⊣ w' → w_fs w' = w_fs w.

Section Quiet.
Context {A B : Type}.

Lemma quiet_ret (a : A) : quiet (mret a).
Proof. by intros w ? ? [= <- <-]. Qed.
Lemma quiet_bind (m : M A) (f : A → M B) : quiet m → (∀ a, quiet (f a)) → quiet (m ≫= f).
Proof. intros Hm Hf w b w' (a & w1 & H1 & H2)%bind_inv. by rewrite (Hf _ _ _ _ H2), (Hm _ _ _ H1). Qed.
Lemma quiet_lift (o : option A) : quiet (lift o).
Proof. intros w a w'. unfold lift. destruct o; naive_solver. Qed.
Lemma quiet_ub : quiet (@ub A).
Proof. done. Qed.
Lemma quiet_runs w (m : M A) Q : quiet m → runs w m Q → runs w m (λ a w', Q a w' ∧ w_fs w' = w_fs w).
Proof. intros Hm (a & w' & R & E & Hq). exists a, w'. naive_solver. Qed.
End Quiet.

Lemma quiet_syscall : quiet syscall.
Proof. by intros w ? ? [= <- <-]. Qed.
Lemma quiet_malloc : quiet malloc.
Proof. by intros w ? ? [= <- <-]. Qed.
Lemma quiet_time : quiet time_null.
Proof. by intros w ? ? [= <- <-]. Qed.
Lemma quiet_random n : quiet (randombytes_buf n).
Proof. by intros w ? ? [= <- <-]. Qed.
Lemma quiet_fopen_rb path : quiet (fopen_rb path).
Proof. by intros w ? ? [= <- <-]. Qed.

Create HintDb quiet.
#[export] Hint Resolve quiet_ret quiet_lift quiet_ub quiet_syscall quiet_malloc quiet_time quiet_random
  quiet_fopen_rb : quiet.

(** Follow the structure of a computation down to the calls known to be quiet. *)
Ltac quiet :=
  intros;
  repeat lazymatch goal with
    | |- quiet (_ ≫= _) => apply quiet_bind; [|intros]
    | |- quiet (match ?x with _ => _ end) => destruct x
    | |- quiet (let _ := _ in _) => cbv zeta
    | |- quiet _ => solve [auto with quiet]
    end.

(** * Shared lemmas: integers *)
Lemma u8_byte_ok x : byte_ok (u8 x).
Proof. unfold byte_ok, u8. lia. Qed.
Lemma u8_id x : byte_ok x → u8 x = x.
Proof. unfold byte_ok, u8. intros. apply Z.mod_small. lia. Qed.
Lemma u16_id x : 0 ≤ x < 2 ^ 16 → u16 x = x.
Proof. intros. apply Z.mod_small. lia. Qed.
Lemma u32_id x : 0 ≤ x < 2 ^ 32 → u32 x = x.
Proof. intros. apply Z.mod_small. lia. Qed.
Lemma u64_id x : 0 ≤ x < 2 ^ 64 → u64 x = x.
Proof. intros. apply Z.mod_small. lia. Qed.
Lemma i32_id x : - 2 ^ 31 ≤ x < 2 ^ 31 → i32 x = x.
Proof. intros. unfold i32. rewrite Z.mod_small; lia. Qed.
Lemma lor_shiftl_byte v b : byte_ok b → Z.lor (Z.shiftl v 8) b = 256 * v + b.
Proof.
  intros Hb. rewrite <-Z.add_nocarry_lor; [rewrite Z.shiftl_mul_pow2 by lia; lia|].
  apply Z.bits_inj'. intros k Hk. rewrite Z.land_spec, Z.bits_0, Z.shiftl_spec by done.
  rewrite <-(u8_id b Hb). unfold u8. destruct (decide (k < 8)).
  - by rewrite Z.testbit_neg_r by lia.
  - rewrite Z.mod_pow2_bits_high by lia. apply andb_false_r.
Qed.
Lemma chk64_Some x : - 2 ^ 63 ≤ x < 2 ^ 63 → chk64 x = Some x.
Proof.
  intros. unfold chk64. destruct (Z.leb_spec (- 2 ^ 63) x), (Z.ltb_spec x (2 ^ 63)); done || lia.
Qed.
#[export] Hint Resolve u8_byte_ok : koe.

(** * Shared lemmas: byte images *)
Lemma length_le_bytes n x : length (le_bytes n x) = n.
Proof. revert x; induction n; intros; simpl; auto. Qed.
Lemma length_be_bytes n x : length (be_bytes n x) = n.
Proof. unfold be_bytes. by rewrite length_reverse, length_le_bytes. Qed.
Lemma length_be32 x : length (be32 x) = 4%nat.
Proof. apply length_be_bytes. Qed.

Lemma le_bytes_ok n x : bytes_ok (le_bytes n x).
Proof.
  revert x; induction n as [|n IH]; intros; simpl; constructor; [|apply IH].
  unfold byte_ok. lia.
Qed.
Lemma bytes_ok_reverse l : bytes_ok l → bytes_ok (reverse l).
Proof. unfold bytes_ok. by rewrite Forall_reverse. Qed.
Lemma be_bytes_ok n x : bytes_ok (be_bytes n x).
Proof. apply bytes_ok_reverse, le_bytes_ok. Qed.

Lemma le_val_le_bytes n x : 0 ≤ x < 256 ^ Z.of_nat n → le_val (le_bytes n x) = x.
Proof.
  revert x; induction n as [|n IH]; intros x Hx; simpl in *; [lia|].
  rewrite IH; [lia|].
  rewrite Nat2Z.inj_succ, Z.pow_succ_r in Hx by lia. lia.
Qed.
Lemma le_bytes_le_val l : bytes_ok l → le_bytes (length l) (le_val l) = l.
Proof.
  induction 1 as [|b l Hb _ IH]; simpl; [done|].
  unfold byte_ok in Hb. f_equal; [lia|].
  by replace ((b + 256 * le_val l) `div` 256) with (le_val l) by lia.
Qed.
Lemma le_val_bound l : bytes_ok l → 0 ≤ le_val l < 256 ^ zlen l.
Proof.
  unfold zlen. induction 1 as [|b l Hb _ IH]; simpl length; [simpl; lia|].
  unfold byte_ok in Hb. rewrite Nat2Z.inj_succ, Z.pow_succ_r by lia. simpl. lia.
Qed.

Lemma be_val_be_bytes n x : 0 ≤ x < 256 ^ Z.of_nat n → be_val (be_bytes n x) = x.
Proof. intros. unfold be_val, be_bytes. rewrite reverse_involutive. by apply le_val_le_bytes. Qed.
Lemma be_bytes_be_val l : bytes_ok l → be_bytes (length l) (be_val l) = l.
Proof.
  intros Hl. unfold be_val, be_bytes. rewrite <-(length_reverse l).
  rewrite le_bytes_le_val by by apply bytes_ok_reverse. apply reverse_involutive.
Qed.
Lemma of_be32_be32 x : 0 ≤ x < 2 ^ 32 → of_be32 (be32 x) = x.
Proof. intros. apply be_val_be_bytes. simpl. lia. Qed.
Lemma of_be32_bound l : array_ok 4 l → 0 ≤ of_be32 l < 2 ^ 32.
Proof.
  intros [Hlen Hok]. unfold of_be32, be_val.
  pose proof (le_val_bound (reverse l) (bytes_ok_reverse _ Hok)) as H.
  unfold zlen in H. rewrite length_reverse, Hlen in H. lia.
Qed.

Lemma length_le64 x : length (le64 x) = 8%nat.
Proof. apply length_le_bytes. Qed.
Lemma i64_le64 x : - 2 ^ 63 ≤ x < 2 ^ 63 → i64 (le_val (le64 x)) = x.
Proof.
  intros Hx. unfold le64. rewrite le_val_le_bytes by (unfold u64; simpl; lia). unfold i64, u64. lia.
Qed.

Lemma be_val_inj l1 l2 :
  bytes_ok l1 → bytes_ok l2 → length l1 = length l2 → be_val l1 = be_val l2 → l1 = l2.
Proof.
  intros H1 H2 Hlen Heq.
  rewrite <-(be_bytes_be_val l1), <-(be_bytes_be_val l2) by done. by rewrite Hlen, Heq.
Qed.

Lemma bytes_ok_app l1 l2 : bytes_ok (l1 ++ l2) ↔ bytes_ok l1 ∧ bytes_ok l2.
Proof. apply Forall_app. Qed.
Lemma bytes_ok_take n l : bytes_ok l → bytes_ok (take n l).
Proof. apply Forall_take. Qed.
Lemma bytes_ok_drop n l : bytes_ok l → bytes_ok (drop n l).
Proof. apply Forall_drop. Qed.
Lemma bytes_ok_zeros n : bytes_ok (zeros n).
Proof. apply Forall_replicate. unfold byte_ok. lia. Qed.
#[export] Hint Resolve le_bytes_ok be_bytes_ok bytes_ok_take bytes_ok_drop bytes_ok_zeros : koe.

Lemma length_random_bytes w n : length (random_bytes w n) = n.
Proof. unfold random_bytes. by rewrite length_fmap, length_seq. Qed.
Lemma random_bytes_ok w n : bytes_ok (random_bytes w n).
Proof.
  apply Forall_forall. intros b Hb. unfold random_bytes in Hb.
  apply list_elem_of_fmap in Hb as (i & -> & _). unfold byte_ok. lia.
Qed.
Lemma random_array_ok w n : array_ok n (random_bytes w n).
Proof. split; [apply length_random_bytes|apply random_bytes_ok]. Qed.
#[export] Hint Resolve random_bytes_ok random_array_ok : koe.

(** * Shared lemmas: memory *)
Lemma memeq_true n a b : length a = n → length b = n → memeq n a b = true ↔ a = b.
Proof.
  intros Ha Hb. unfold memeq. rewrite bool_decide_eq_true.
  by rewrite !take_ge by lia.
Qed.
Lemma memeq_refl n a : memeq n a a = true.
Proof. unfold memeq. by apply bool_decide_eq_true. Qed.
Lemma memeq_sym n a b : memeq n a b = memeq n b a.
Proof. unfold memeq. apply bool_decide_ext. done. Qed.

Lemma peek_app l1 l2 l3 off n :
  length l1 = off → length l2 = n → peek (l1 ++ l2 ++ l3) off n = Some l2.
Proof.
  intros <- <-. unfold peek. rewrite decide_True by (rewrite !length_app; lia).
  by rewrite drop_app_length, take_app_length.
Qed.
Lemma peek_skip l1 l2 off n :
  (length l1 ≤ off)%nat → peek (l1 ++ l2) off n = peek l2 (off - length l1) n.
Proof.
  intros. unfold peek. rewrite length_app, drop_app_ge by lia.
  repeat case_decide; done || lia.
Qed.
Lemma peek_here l1 l2 off n : off = 0%nat → length l1 = n → peek (l1 ++ l2) off n = Some l1.
Proof. intros -> <-. by apply (peek_app []). Qed.
Lemma lookup_skip (l1 l2 : bytes) (i : nat) :
  (length l1 ≤ i)%nat → (l1 ++ l2) !! i = l2 !! (i - length l1)%nat.
Proof. apply lookup_app_r. Qed.
Lemma peek_Some buf off n l : peek buf off n = Some l → length l = n ∧ l = take n (drop off buf).
Proof.
  unfold peek. case_decide as Hd; intros; simplify_eq.
  rewrite length_take, length_drop. split; [lia|done].
Qed.
Lemma peek_all l : peek l 0 (length l) = Some l.
Proof. unfold peek. rewrite decide_True by lia. rewrite drop_0. by rewrite take_ge. Qed.

Lemma poke_app buf l off :
  (off + length l ≤ length buf)%nat →
  poke buf off l = Some (take off buf ++ l ++ drop (off + length l) buf).
Proof. intros. unfold poke. by rewrite decide_True. Qed.
Lemma length_poke buf off l buf' : poke buf off l = Some buf' → length buf' = length buf.
Proof.
  unfold poke. case_decide; intros; simplify_eq.
  rewrite !length_app, length_take, length_drop. lia.
Qed.

(** Reading what was written, next to what was written, and inside what was read. *)
Lemma peek_poke buf off l buf' : poke buf off l = Some buf' → peek buf' off (length l) = Some l.
Proof.
  unfold poke. case_decide; intros; simplify_eq. apply peek_app; [rewrite length_take; lia|done].
Qed.
Lemma peek_poke_before buf off l buf' i n :
  poke buf off l = Some buf' → (i + n ≤ off)%nat → peek buf' i n = peek buf i n.
Proof.
  intros Hp Hi. pose proof (length_poke _ _ _ _ Hp) as Hl. unfold poke in Hp. case_decide; simplify_eq.
  unfold peek. rewrite Hl. case_decide; [|done]. f_equal.
  rewrite !take_drop_commute, take_app_le by (rewrite length_take; lia). by rewrite take_take, Nat.min_l by lia.
Qed.
Lemma peek_peek buf off n b i k :
  peek buf off n = Some b → (i + k ≤ n)%nat → peek b i k = peek buf (off + i) k.
Proof.
  intros Hb Hi. pose proof (peek_Some _ _ _ _ Hb) as [Hl ->]. unfold peek in *. rewrite length_take, length_drop in *.
  case_decide; [|done]. rewrite !decide_True by lia. f_equal.
  rewrite <-drop_drop, !take_drop_commute, take_take, Nat.min_l by lia. done.
Qed.

(** * Shared lemmas: C strings *)
Lemma length_strncpy dst src n : (n ≤ length dst)%nat → length (strncpy dst src n) = length dst.
Proof.
  intros. unfold strncpy, zeros. rewrite length_app, length_take, length_app, length_replicate, length_drop.
  lia.
Qed.

Definition nonul (s : bytes) : Prop := Forall (λ b, b ≠ 0) s.

Lemma cstr_app_nul s t : nonul s → cstr (s ++ 0 :: t) = s.
Proof.
  induction 1 as [|b s Hb _ IH]; simpl; [done|].
  destruct (Z.eqb_spec b 0); [done|]. by rewrite IH.
Qed.
Lemma cstr_nonul s : nonul s → cstr s = s.
Proof. induction 1 as [|b s Hb _ IH]; cbn; [done|]. destruct (Z.eqb_spec b 0); [done|]. by rewrite IH. Qed.
Lemma length_cstr s : (length (cstr s) ≤ length s)%nat.
Proof. induction s as [|b s IH]; cbn; [done|]. destruct (b =? 0); cbn; lia. Qed.
Lemma cstr_zeros n t : (0 < n)%nat → cstr (zeros n ++ t) = [].
Proof. by destruct n; [lia|]. Qed.

Lemma nonul_cstr a : nonul (cstr a).
Proof.
  induction a as [|b a IH]; simpl; [constructor|]. destruct (Z.eqb_spec b 0); [constructor|by constructor].
Qed.
Lemma bytes_ok_strncpy n m src : bytes_ok src → bytes_ok (strncpy (zeros n) src m).
Proof.
  intros Hs. unfold strncpy. rewrite bytes_ok_app. split; [apply bytes_ok_take, bytes_ok_app|]; auto with koe.
Qed.


Lemma bytes_ok_cstr a : bytes_ok a → bytes_ok (cstr a).
Proof.
  intros Ha. induction Ha as [|b a Hb _ IH]; cbn [cstr]; [constructor|].
  destruct (b =? 0); [constructor|by constructor].
Qed.
Lemma strncpy_zeros s n m :
  (n ≤ m)%nat → strncpy (zeros m) s n = take n s ++ zeros (n - length s + (m - n)).
Proof.
  intros. unfold strncpy, zeros.
  rewrite take_app, take_replicate, drop_replicate, replicate_add, <-app_assoc.
  by replace ((n - length s) `min` n)%nat with (n - length s)%nat by lia.
Qed.

Lemma cstr_strncpy_zeros s n m :
  nonul s → (n < m)%nat → cstr (strncpy (zeros m) s n) = take n s.
Proof.
  intros Hs Hnm. rewrite strncpy_zeros by lia.
  destruct (n - length s + (m - n))%nat as [|k] eqn:Hk; [lia|].
  apply cstr_app_nul. by apply Forall_take.
Qed.

(** A string shorter than the limit is terminated by the padding. *)
Lemma cstr_strncpy_short dst s n : nonul s → (length s < n)%nat → cstr (strncpy dst s n) = s.
Proof.
  intros Hs Hl. unfold strncpy, zeros. rewrite take_app_ge, take_replicate by lia.
  destruct (Nat.min _ _) as [|k] eqn:E; [lia|]. rewrite <-app_assoc. by apply cstr_app_nul.
Qed.

Lemma strstr_Some hay needle p : strstr hay needle = Some p → ∃ pre post, hay = pre ++ p ∧ p = needle ++ post.
Proof.
  revert p. induction hay as [|b hay IH]; intros p; cbn [strstr]; case_bool_decide as Hn; intros E; simplify_eq.
  - exists [], []. by rewrite app_nil_r, <-Hn, take_nil.
  - exists [], (drop (length needle) (b :: hay)). split; [done|]. rewrite <-Hn at 1. by rewrite take_drop.
  - destruct (IH p E) as (pre & post & -> & ->). by exists (b :: pre), post.
Qed.
Lemma strstr_first pre needle post :
  (∀ k, (k < length pre)%nat → take (length needle) (drop k (pre ++ needle ++ post)) ≠ needle) →
  strstr (pre ++ needle ++ post) needle = Some (needle ++ post).
Proof.
  induction pre as [|b pre IH]; intros Hn.
  - cbn [app]. destruct (needle ++ post) eqn:E; cbn [strstr]; rewrite <-E, take_app_length, bool_decide_true; done.
  - cbn [app strstr]. rewrite bool_decide_false by (apply (Hn 0%nat); cbn; lia). apply IH.
    intros k Hk. apply (Hn (S k)). cbn. lia.
Qed.
Lemma skip_spaces_app sp p : Forall (λ b, b = 32) sp → head p ≠ Some 32 → skip_spaces (sp ++ p) = p.
Proof.
  induction 1 as [|b sp -> _ IH]; intros Hp; [|by apply IH]. destruct p as [|b p]; [done|]. cbn [app skip_spaces].
  destruct (Z.eqb_spec b 32); [by subst|done].
Qed.
Lemma length_read_until stop n p : (length (read_until stop n p) ≤ n)%nat.
Proof.
  revert p. induction n as [|n IH]; intros p; cbn [read_until]; [done|].
  destruct p as [|b p]; [cbn; lia|]. destruct (b =? stop); cbn; [lia|]. specialize (IH p). lia.
Qed.
Lemma read_until_stop stop n v p : stop ∉ v → (length v ≤ n)%nat → read_until stop n (v ++ stop :: p) = v.
Proof.
  revert n. induction v as [|b v IH]; intros n Hv Hn; cbn [app].
  - destruct n; cbn [read_until]; [done|]. by rewrite Z.eqb_refl.
  - destruct n as [|n]; [cbn in Hn; lia|]. apply not_elem_of_cons in Hv as [Hb Hv]. cbn [read_until].
    destruct (Z.eqb_spec b stop); [congruence|]. rewrite IH; [done|done|cbn in Hn; lia].
Qed.

(** * Shared lemmas: selections *)
Lemma filter_none {A} (P : A → Prop) `{∀ x, Decision (P x)} (l : list A) :
  (∀ x, x ∈ l → ¬ P x) → filter P l = [].
Proof.
  induction l as [|x l IH]; intros Hn; [done|].
  rewrite filter_cons_False by (apply Hn; left). apply IH. intros y Hy. apply Hn. by right.
Qed.
Lemma filter_all {A} (P : A → Prop) `{∀ x, Decision (P x)} (l : list A) :
  (∀ x, x ∈ l → P x) → filter P l = l.
Proof.
  induction l as [|x l IH]; intros Hn; [done|].
  rewrite filter_cons_True by (apply Hn; left). f_equal. apply IH. intros y Hy. apply Hn. by right.
Qed.
Lemma filter_absorb {A} (P Q : A → Prop) `{∀ x, Decision (P x), ∀ x, Decision (Q x)} (l : list A) :
  (∀ x, x ∈ l → P x → Q x) → filter P (filter Q l) = filter P l.
Proof.
  induction l as [|x l IH]; intros Hn; [done|].
  assert (IH' : filter P (filter Q l) = filter P l) by (apply IH; intros; apply Hn; [by right|done]).
  rewrite (filter_cons Q). case_decide as HQ; rewrite !filter_cons, IH'; [done|].
  rewrite (decide_False (P := P x)); [done|]. intros HP. apply HQ, Hn; [left|done].
Qed.

(** Removing an element by moving the last one into its place. *)
Lemma swap_remove {A} (l : list A) (i : nat) (x lst : A) :
  l !! i = Some x → l !! (length l - 1)%nat = Some lst →
  take (length l - 1) (<[i := lst]> l) ≡ₚ take i l ++ drop (S i) l.
Proof.
  intros Hi Hlst. pose proof (lookup_lt_Some _ _ _ Hi) as Hlt.
  rewrite insert_take_drop by done. destruct (decide (i = length l - 1)%nat) as [->|Hne].
  - rewrite take_app_le, take_ge by (rewrite length_take; lia).
    rewrite drop_ge by lia. by rewrite app_nil_r.
  - rewrite take_app_ge, length_take by (rewrite length_take; lia).
    replace (length l - 1 - i `min` length l)%nat with (S (length l - 2 - i)) by lia.
    cbn [firstn]. apply Permutation_app_head.
    rewrite <-(take_drop (length l - 2 - i) (drop (S i) l)) at 2.
    rewrite drop_drop. replace (S i + (length l - 2 - i))%nat with (length l - 1)%nat by lia.
    rewrite (drop_S _ _ _ Hlst), (drop_ge l (S (length l - 1))) by lia. apply Permutation_cons_append.
Qed.

(** * Shared lemmas: keyed lists as finite maps *)
Section Keyed.
Context {A V : Type} (key : A → bytes) (val : A → V).

Definition entry (x : A) : bytes * V := (key x, val x).
Definition keyed_map (l : list A) : gmap bytes V := list_to_map (entry <$> l).

Lemma entry_fst l : (entry <$> l).*1 = key <$> l.
Proof. by rewrite <-list_fmap_compose. Qed.

Lemma keyed_map_perm l l' : NoDup (key <$> l) → l ≡ₚ l' → keyed_map l = keyed_map l'.
Proof. intros Hnd Hp. apply list_to_map_proper; [by rewrite entry_fst|]. by rewrite Hp. Qed.

Lemma keyed_map_Some l x : NoDup (key <$> l) → x ∈ l → keyed_map l !! key x = Some (val x).
Proof.
  intros Hnd Hx. apply elem_of_list_to_map_1; [by rewrite entry_fst|].
  apply list_elem_of_fmap. by exists x.
Qed.
Lemma keyed_map_None l k : keyed_map l !! k = None ↔ k ∉ key <$> l.
Proof. unfold keyed_map. rewrite <-not_elem_of_list_to_map. by rewrite entry_fst. Qed.

(** Removing the element at an index. *)
Lemma keyed_map_delete l i x :
  NoDup (key <$> l) → l !! i = Some x →
  keyed_map (take i l ++ drop (S i) l) = delete (key x) (keyed_map l)
  ∧ NoDup (key <$> take i l ++ drop (S i) l).
Proof.
  intros Hnd Hi.
  assert (Hp : l ≡ₚ x :: (take i l ++ drop (S i) l))
    by (rewrite <-(take_drop_middle l i x Hi) at 1; by rewrite Permutation_middle).
  set (rest := take i l ++ drop (S i) l) in *.
  pose proof Hnd as Hnd'. rewrite Hp, fmap_cons in Hnd'. apply NoDup_cons in Hnd' as [Hn Hnd'].
  split; [|done]. rewrite (keyed_map_perm l (x :: rest)) by done.
  change (keyed_map (x :: rest)) with (<[key x := val x]> (keyed_map rest)).
  rewrite delete_insert_eq, delete_id; [done|]. by apply keyed_map_None.
Qed.

Lemma keyed_map_size l : NoDup (key <$> l) → size (keyed_map l) = length l.
Proof.
  intros Hnd. unfold keyed_map. rewrite map_size_list_to_map by by rewrite entry_fst.
  by rewrite length_fmap.
Qed.

Lemma keyed_map_snoc l x : key x ∉ key <$> l → keyed_map (l ++ [x]) = <[key x := val x]> (keyed_map l).
Proof.
  intros Hx. unfold keyed_map. rewrite fmap_app. cbn. unfold entry at 2. rewrite list_to_map_snoc; [done|].
  by rewrite entry_fst.
Qed.

Lemma keyed_map_insert l i x x' :
  NoDup (key <$> l) → l !! i = Some x → key x' = key x →
  keyed_map (<[i := x']> l) = <[key x := val x']> (keyed_map l) ∧ key <$> <[i := x']> l = key <$> l.
Proof.
  intros Hnd Hi Hk. pose proof (take_drop_middle l i x Hi) as Hs.
  assert (Hlt : (i < length l)%nat) by (by eapply lookup_lt_Some).
  assert (Hkeys : key <$> <[i := x']> l = key <$> l).
  { rewrite list_fmap_insert, Hk. apply list_insert_id. by rewrite list_lookup_fmap, Hi. }
  split; [|done].
  rewrite (keyed_map_perm (<[i := x']> l) (x' :: take i l ++ drop (S i) l)).
  - rewrite (keyed_map_perm l (x :: take i l ++ drop (S i) l)); [|done|].
    + unfold keyed_map. simpl. by rewrite Hk, insert_insert_eq.
    + rewrite <-Hs at 1. by rewrite Permutation_middle.
  - by rewrite Hkeys.
  - rewrite insert_take_drop by done. by rewrite Permutation_middle.
Qed.

Lemma keyed_map_filter (P : A → Prop) `{∀ x, Decision (P x)} (Q : bytes * V → Prop)
    `{∀ x, Decision (Q x)} l :
  NoDup (key <$> l) → (∀ x, P x ↔ Q (entry x)) →
  keyed_map (filter P l) = filter Q (keyed_map l).
Proof.
  intros Hnd HPQ. induction l as [|x l IH]; [symmetry; apply map_filter_empty|].
  rewrite fmap_cons in Hnd. apply NoDup_cons in Hnd as [Hn Hnd]. specialize (IH Hnd).
  assert (Hnone : keyed_map l !! key x = None) by (by apply keyed_map_None).
  change (keyed_map (x :: l)) with (<[key x := val x]> (keyed_map l)).
  rewrite filter_cons. case_decide as Hd; rewrite HPQ in Hd.
  - rewrite map_filter_insert_True by done. by rewrite <-IH.
  - rewrite map_filter_insert_False by done. by rewrite delete_id.
Qed.

(** The search loops compare 32-byte keys. *)
Lemma find_key pk l :
  Forall (λ x, length (key x) = 32%nat) l → length pk = 32%nat → NoDup (key <$> l) →
  match list_find (λ x, memeq 32 (key x) pk = true) l with
  | Some (i, x) => l !! i = Some x ∧ (i < length l)%nat ∧ key x = pk ∧ keyed_map l !! pk = Some (val x)
  | None => (pk ∉ key <$> l) ∧ keyed_map l !! pk = None
  end.
Proof.
  intros Hall Hpk Hnd. rewrite Forall_forall in Hall. destruct (list_find _ _) as [[i x]|] eqn:Hf.
  - apply list_find_Some in Hf as (Hi & Hx & _). pose proof (list_elem_of_lookup_2 _ _ _ Hi) as Hin.
    apply memeq_true in Hx; [|by apply Hall|done]. subst pk.
    split_and!; [done|by eapply lookup_lt_Some|done|by apply keyed_map_Some].
  - apply list_find_None in Hf. rewrite Forall_forall in Hf.
    assert (Hn : pk ∉ key <$> l) by (intros (x & -> & Hx)%list_elem_of_fmap; apply (Hf x Hx), memeq_refl).
    split; [done|by apply keyed_map_None].
Qed.

End Keyed.

(** * Simulations

    A component with operations [O] returning [R] on concrete states [S], and
    its specification on abstract states [A]. Whatever the specification does
    within its contract ([ub] marks what is outside it), the component does on a
    related state: same result, same use of the environment, related state. *)
Class Simulation {O R S A : Type} (conc : O → S → M (R * S)) (spec : O → A → M (R * A))
    (rel : S → A → Prop) : Prop :=
  simulate op s a ret a' w w' :
    rel s a → w ⊢ spec op a ⇓ (ret, a') ⊣ w' → ∃ s', w ⊢ conc op s ⇓ (ret, s') ⊣ w' ∧ rel s' a'.

(** A sequence of operations and its results. *)
Fixpoint run_ops {O R S} (f : O → S → M (R * S)) (ops : list O) (s : S) : M (list R * S) :=
  match ops with
  | [] => mret ([], s)
  | op :: ops' => r ← f op s; r' ← run_ops f ops' r.2; mret (r.1 :: r'.1, r'.2)
  end.

(** Simulations extend to sequences. *)
Lemma run_ops_simulates {O R S A} (conc : O → S → M (R * S)) (spec : O → A → M (R * A)) rel
    `{!Simulation conc spec rel} ops s a rets a' w w' :
  rel s a → w ⊢ run_ops spec ops a ⇓ (rets, a') ⊣ w' →
  ∃ s', w ⊢ run_ops conc ops s ⇓ (rets, s') ⊣ w' ∧ rel s' a'.
Proof.
  revert s a rets w. induction ops as [|op ops IH]; intros s a rets w Hr Hrun; simpl in *.
  { injection Hrun as <- <- <-. by exists s. }
  apply bind_inv in Hrun as ([ret a1] & w1 & Hop & Hrun).
  apply bind_inv in Hrun as ([rets1 a2] & w2 & Hops & [= <- <- <-]).
  destruct (simulate op s a ret a1 w w1 Hr Hop) as (s1 & Hop1 & Hr1).
  destruct (IH s1 a1 rets1 w1 Hr1 Hops) as (s2 & Hops2 & Hr2).
  exists s2. erewrite bind_run by exact Hop1. cbn [fst snd]. by erewrite bind_run by exact Hops2.
Qed.
