(* ===== verification/Version.v ===== *)
(** Protocol versions (src/koe_version.c, include/koe_version.h): the local
    version, the compatibility predicate, negotiation and printing. *)

From S2P Require Import Prelude.

Definition KOE_PROTO_MAJOR : Z := 0.
Definition KOE_PROTO_MINOR : Z := 1.

Record koe_version_t := KoeVersion { major : Z; minor : Z }.

#[export] Instance koe_version_t_eq_dec : EqDecision koe_version_t.
Proof. solve_decision. Defined.

Definition version_ok (v : koe_version_t) : Prop := byte_ok (major v) ∧ byte_ok (minor v).

Definition koe_version_local : koe_version_t := KoeVersion KOE_PROTO_MAJOR KOE_PROTO_MINOR.

Definition koe_version_compatible (a b : koe_version_t) : bool :=
  if major a =? major b then true
  else
    let diff := major a - major b in
    let diff := if diff <? 0 then - diff else diff in
    if negb (diff =? 1) then false
    else if major b <? major a then minor a =? 0 else minor b =? 0.

(** The [Z] is the return code; the option is what is stored in [*out]. *)
Definition koe_version_negotiate (local remote : koe_version_t) : Z * option koe_version_t :=
  if negb (koe_version_compatible local remote) then (-1, None)
  else if (major local <? major remote)
          || ((major local =? major remote) && (minor local <=? minor remote))
       then (0, Some local) else (0, Some remote).

(** [snprintf(buf, (size_t)buf_len, "%u.%u", ...)]: the string left in [buf],
    nothing when the size is zero. *)
Definition koe_version_string (v : koe_version_t) (buf_len : Z) : option bytes :=
  let s := dec_string (major v) ++ [46] ++ dec_string (minor v) in
  let n := u64 buf_len in
  if n =? 0 then None else Some (take (Z.to_nat (n - 1)) s).

(** * Specification *)

(** The order the negotiation minimises. *)
Definition version_le (a b : koe_version_t) : Prop :=
  major a < major b ∨ (major a = major b ∧ minor a ≤ minor b).

(** Two versions may talk: same series, or the higher one opens the next series. *)
Definition may_talk (a b : koe_version_t) : Prop :=
  major a = major b
  ∨ (major a = major b + 1 ∧ minor a = 0)
  ∨ (major b = major a + 1 ∧ minor b = 0).

Lemma koe_version_compatible_iff a b : koe_version_compatible a b = true ↔ may_talk a b.
Proof.
  unfold koe_version_compatible, may_talk.
  repeat (case_match; simplify_eq); rewrite ?Z.eqb_eq in *; lia.
Qed.

Lemma koe_version_compatible_sym a b : koe_version_compatible a b = koe_version_compatible b a.
Proof. apply eq_bool_prop_intro. rewrite !Is_true_true, !koe_version_compatible_iff. unfold may_talk. lia. Qed.

Lemma version_le_total a b : version_le a b ∨ version_le b a.
Proof. unfold version_le. lia. Qed.
Lemma version_le_antisym a b : version_le a b → version_le b a → a = b.
Proof. destruct a, b. unfold version_le. simpl. intros. f_equal; lia. Qed.

Lemma koe_version_negotiate_case a b :
  (koe_version_negotiate a b = (-1, None) ∧ ¬ may_talk a b)
  ∨ (koe_version_negotiate a b = (0, Some a) ∧ may_talk a b ∧ version_le a b)
  ∨ (koe_version_negotiate a b = (0, Some b) ∧ may_talk a b ∧ version_le b a).
Proof.
  unfold koe_version_negotiate.
  destruct (koe_version_compatible a b) eqn:Hc; simpl.
  - apply koe_version_compatible_iff in Hc. right.
    destruct ((major a <? major b) || _) eqn:Hle.
    + left. split; [done|]. split; [done|]. unfold version_le. lia.
    + right. split; [done|]. split; [done|]. unfold version_le. lia.
  - left. split; [done|]. intros Ht%koe_version_compatible_iff. congruence.
Qed.

(** Negotiation succeeds exactly on versions that may talk; the result is
    then the lower of the two versions, and both peers compute the same one
    whichever of them calls itself local. *)
Lemma koe_version_negotiate_spec (a b : koe_version_t) :
  koe_version_negotiate a b = koe_version_negotiate b a
  ∧ ((koe_version_negotiate a b).1 = 0 ↔ may_talk a b)
  ∧ (∀ v, (koe_version_negotiate a b).2 = Some v →
       (v = a ∨ v = b) ∧ version_le v a ∧ version_le v b).
Proof.
  assert (Hsym : may_talk a b ↔ may_talk b a) by (unfold may_talk; lia).
  assert (Hrefl : ∀ v, version_le v v) by (unfold version_le; lia).
  destruct (koe_version_negotiate_case a b) as [[E H]|[[E [H Hl]]|[E [H Hl]]]],
    (koe_version_negotiate_case b a) as [[E' H']|[[E' [H' Hl']]|[E' [H' Hl']]]];
    rewrite E, E'; try (exfalso; tauto); simpl; repeat split; intros; simplify_eq;
    auto; try tauto; try lia.
  - by rewrite (version_le_antisym _ _ Hl Hl').
  - by rewrite (version_le_antisym _ _ Hl Hl').
Qed.

(** * Printing *)
Lemma dec_string_u8 x : byte_ok x →
  (1 ≤ length (dec_string x) ≤ 3)%nat ∧ Forall (λ d, 48 ≤ d < 58) (dec_string x).
Proof.
  intros [H0 H1].
  assert (Hall : Forall (λ x, (1 ≤ length (dec_string x) ≤ 3)%nat
                        ∧ Forall (λ d, 48 ≤ d < 58) (dec_string x)) (Z.of_nat <$> seq 0 256)).
  { apply (bool_decide_unpack _). vm_compute. exact I. }
  rewrite Forall_forall in Hall. apply Hall.
  apply list_elem_of_fmap. exists (Z.to_nat x). rewrite elem_of_seq. lia.
Qed.

Fixpoint dec_val (acc : Z) (s : bytes) : Z :=
  match s with [] => acc | d :: s' => dec_val (10 * acc + (d - 48)) s' end.

Lemma dec_val_string x : byte_ok x → dec_val 0 (dec_string x) = x.
Proof.
  intros [H0 H1].
  assert (Hall : Forall (λ x, dec_val 0 (dec_string x) = x) (Z.of_nat <$> seq 0 256)).
  { apply (bool_decide_unpack _). vm_compute. exact I. }
  rewrite Forall_forall in Hall. apply Hall.
  apply list_elem_of_fmap. exists (Z.to_nat x). rewrite elem_of_seq. lia.
Qed.

Lemma split_at_sep (sep : Z) l1 l2 r1 r2 :
  sep ∉ l1 → sep ∉ r1 → l1 ++ sep :: l2 = r1 ++ sep :: r2 → l1 = r1 ∧ l2 = r2.
Proof.
  revert r1; induction l1 as [|x l1 IH]; intros [|y r1] Hl Hr Heq; simplify_eq/=.
  - done.
  - set_solver.
  - set_solver.
  - destruct (IH r1) as [-> ->]; set_solver.
Qed.

Lemma dot_not_digit x : byte_ok x → 46 ∉ dec_string x.
Proof.
  intros [_ Hd]%dec_string_u8 Hin. rewrite Forall_forall in Hd. specialize (Hd _ Hin). lia.
Qed.

(** Eight bytes are enough for any version, as the header promises: the
    printed string is never truncated, and it determines the version. *)
Lemma koe_version_string_fits (a b : koe_version_t) :
  version_ok a → version_ok b →
  koe_version_string a 8 = Some (dec_string (major a) ++ [46] ++ dec_string (minor a))
  ∧ (koe_version_string a 8 = koe_version_string b 8 → a = b).
Proof.
  intros [Ha1 Ha2] [Hb1 Hb2].
  assert (Hfull : ∀ v, version_ok v → koe_version_string v 8
            = Some (dec_string (major v) ++ [46] ++ dec_string (minor v))).
  { intros v [[? _]%dec_string_u8 [? _]%dec_string_u8]. unfold koe_version_string.
    change (u64 8 =? 0) with false. cbv iota. f_equal. apply take_ge.
    rewrite !length_app. change (Z.to_nat (u64 8 - 1)) with 7%nat. simpl. lia. }
  rewrite !Hfull by done. split; [done|]. intros Heq. simplify_eq.
  apply split_at_sep in Heq as [E1 E2]; [|by apply dot_not_digit..].
  apply (f_equal (dec_val 0)) in E1, E2. rewrite !dec_val_string in E1, E2 by done.
  destruct a, b; simpl in *; congruence.
Qed.

Lemma koe_version_string_fits_witness :
  koe_version_string (KoeVersion 255 255) 8 = Some [50;53;53;46;50;53;53]
  ∧ (koe_version_string (KoeVersion 255 255) 8 = koe_version_string (KoeVersion 0 1) 8 →
     KoeVersion 255 255 = KoeVersion 0 1).
Proof.
  apply (koe_version_string_fits (KoeVersion 255 255) (KoeVersion 0 1));
    split; unfold byte_ok; simpl; lia.
Defined.

(** The header promises that v1.x clients accept every v0.y; only v1.0 does. *)
Lemma v1_later_rejects_v0 x y :
  x ≠ 0 → koe_version_compatible (KoeVersion 1 x) (KoeVersion 0 y) = false.
Proof.
  intros Hx. apply not_true_iff_false. rewrite koe_version_compatible_iff.
  unfold may_talk. simpl. lia.
Qed.
