(* ===== verification/Crc32.v ===== *)
(** The CRC-32 of src/koe_packet.c: the table and the table-driven loop, the
    bit-by-bit division they implement, and the corruptions they detect. *)

From S2P Require Import Prelude.

(** One step of the inner loop of [crc32_init]:
    [c = (c & 1) ? (0xEDB88320u ^ (c >> 1)) : (c >> 1)]. *)
Definition crc_poly : Z := 0xEDB88320.
Definition crc_bit (c : Z) : Z :=
  if Z.land c 1 =? 0 then Z.shiftr c 1 else Z.lxor crc_poly (Z.shiftr c 1).

(** [crc32_table] after [crc32_init]. *)
Definition crc32_table : list Z := Nat.iter 8 crc_bit ∘ Z.of_nat <$> seq 0 256.

(** The body of the loop of [crc32], and [crc32]. *)
Definition crc32_step (c b : Z) : Z :=
  Z.lxor (nth (Z.to_nat (Z.land (Z.lxor c b) 0xFF)) crc32_table 0) (Z.shiftr c 8).
Definition crc32 (buf : bytes) : Z :=
  Z.lxor (foldl crc32_step 0xFFFFFFFF buf) 0xFFFFFFFF.

(** * The reference: polynomial division one bit at a time *)
Definition crc_byte (c b : Z) : Z := Nat.iter 8 crc_bit (Z.lxor c b).
Definition crc32_bitwise (buf : bytes) : Z :=
  Z.lxor (foldl crc_byte 0xFFFFFFFF buf) 0xFFFFFFFF.

Example crc32_check_value : crc32 [49;50;51;52;53;54;55;56;57] = 0xCBF43926.
Proof. vm_compute. reflexivity. Qed.

(** * Linearity of the bit step *)
Lemma crc_bit_alt c : crc_bit c = Z.lxor (if Z.testbit c 0 then crc_poly else 0) (Z.shiftr c 1).
Proof.
  unfold crc_bit. rewrite Z.bit0_odd.
  replace (Z.land c 1) with (c `mod` 2 ^ 1) by (rewrite <-Z.land_ones by lia; done).
  change (2 ^ 1) with 2. rewrite Zmod_odd.
  destruct (Z.odd c); simpl; [done|]. by rewrite Z.lxor_0_l.
Qed.

Ltac zbits := apply Z.bits_inj'; intros ?n ?Hn;
  rewrite ?Z.lxor_spec, ?Z.land_spec, ?Z.shiftr_spec, ?Z.lxor_spec by lia.

Lemma lxor_swap a b c d : Z.lxor (Z.lxor a b) (Z.lxor c d) = Z.lxor (Z.lxor a c) (Z.lxor b d).
Proof. zbits. by destruct (Z.testbit a n), (Z.testbit b n), (Z.testbit c n), (Z.testbit d n). Qed.

Lemma crc_bit_lxor x y : crc_bit (Z.lxor x y) = Z.lxor (crc_bit x) (crc_bit y).
Proof.
  rewrite !crc_bit_alt, Z.lxor_spec, Z.shiftr_lxor, lxor_swap. f_equal.
  destruct (Z.testbit x 0), (Z.testbit y 0); simpl;
    by rewrite ?Z.lxor_0_l, ?Z.lxor_0_r, ?Z.lxor_nilpotent.
Qed.

Lemma crc_iter_lxor n x y :
  Nat.iter n crc_bit (Z.lxor x y) = Z.lxor (Nat.iter n crc_bit x) (Nat.iter n crc_bit y).
Proof. induction n as [|n IH]; simpl; [done|]. by rewrite IH, crc_bit_lxor. Qed.

Lemma crc_iter_shiftl n y : Nat.iter n crc_bit (Z.shiftl y (Z.of_nat n)) = y.
Proof.
  revert y. induction n as [|n IH]; intros y; [apply Z.shiftl_0_r|].
  rewrite Nat.iter_succ_r. rewrite Nat2Z.inj_succ, crc_bit_alt.
  rewrite Z.shiftl_spec_low by lia. rewrite Z.lxor_0_l, Z.shiftr_shiftl_l by lia.
  replace (Z.succ (Z.of_nat n) - 1) with (Z.of_nat n) by lia. apply IH.
Qed.

Lemma lxor_split8 x : x = Z.lxor (Z.land x 0xFF) (Z.shiftl (Z.shiftr x 8) 8).
Proof.
  zbits. change 0xFF with (Z.ones 8).
  destruct (decide (n < 8)).
  - rewrite Z.ones_spec_low, Z.shiftl_spec_low, xorb_false_r, andb_true_r by lia. done.
  - rewrite Z.ones_spec_high, Z.shiftl_spec, Z.shiftr_spec, andb_false_r by lia. simpl. f_equal. lia.
Qed.

Lemma shiftr_byte b : byte_ok b → Z.shiftr b 8 = 0.
Proof. unfold byte_ok. intros. rewrite Z.shiftr_div_pow2 by lia. apply Z.div_small. lia. Qed.

Lemma land_255_bound x : 0 ≤ Z.land x 0xFF < 256.
Proof. change 0xFF with (Z.ones 8). rewrite Z.land_ones by lia. apply Z.mod_pos_bound. lia. Qed.

Lemma crc32_table_lookup i : 0 ≤ i < 256 → nth (Z.to_nat i) crc32_table 0 = Nat.iter 8 crc_bit i.
Proof.
  intros Hi. unfold crc32_table. rewrite nth_lookup, list_lookup_fmap, lookup_seq_lt by lia.
  cbn [fmap option_fmap option_map default from_option compose id]. f_equal. lia.
Qed.

Lemma crc32_step_bitwise c b : byte_ok b → crc32_step c b = crc_byte c b.
Proof.
  intros Hb. unfold crc32_step, crc_byte.
  rewrite crc32_table_lookup by apply land_255_bound.
  rewrite (lxor_split8 (Z.lxor c b)) at 2. rewrite crc_iter_lxor.
  rewrite (crc_iter_shiftl 8), Z.shiftr_lxor, (shiftr_byte b) by done. by rewrite Z.lxor_0_r.
Qed.

Lemma crc32_fold_bitwise buf c : bytes_ok buf → foldl crc32_step c buf = foldl crc_byte c buf.
Proof.
  intros Hb; revert c; induction Hb as [|b buf Hb _ IH]; intros c; simpl; [done|].
  by rewrite IH, crc32_step_bitwise.
Qed.

(** C38: the table-driven checksum of every byte buffer is the remainder of the
    bit-by-bit polynomial division. *)
Theorem crc32_equiv_bitwise buf : bytes_ok buf → crc32 buf = crc32_bitwise buf.
Proof. intros. unfold crc32, crc32_bitwise. by rewrite crc32_fold_bitwise. Qed.

Lemma crc32_equiv_bitwise_witness : crc32 [75; 79; 69; 1] = crc32_bitwise [75; 79; 69; 1].
Proof. apply crc32_equiv_bitwise. apply (bool_decide_unpack _). vm_compute. exact I. Defined.

(** * Ranges *)
Lemma lt_pow2_bits n x : 0 ≤ n → 0 ≤ x → (∀ i, n ≤ i → Z.testbit x i = false) → x < 2 ^ n.
Proof.
  intros Hn Hx Hb. destruct (decide (x = 0)) as [->|]; [by apply Z.pow_pos_nonneg|].
  apply Z.log2_lt_pow2; [lia|]. destruct (Z.lt_ge_cases (Z.log2 x) n) as [|Hge]; [done|].
  specialize (Hb _ Hge). rewrite Z.bit_log2 in Hb by lia. done.
Qed.

Lemma lxor_u32 x y : 0 ≤ x < 2 ^ 32 → 0 ≤ y < 2 ^ 32 → 0 ≤ Z.lxor x y < 2 ^ 32.
Proof.
  intros Hx Hy. split; [apply Z.lxor_nonneg; lia|].
  apply lt_pow2_bits; [lia|apply Z.lxor_nonneg; lia|]. intros i Hi.
  rewrite Z.lxor_spec, <-(Z.mod_small x (2 ^ 32)), <-(Z.mod_small y (2 ^ 32)) by done.
  by rewrite !Z.mod_pow2_bits_high by lia.
Qed.

Lemma shiftr_u32 x k : 0 ≤ k → 0 ≤ x < 2 ^ 32 → 0 ≤ Z.shiftr x k < 2 ^ 32.
Proof.
  intros Hk Hx. rewrite Z.shiftr_div_pow2 by done.
  assert (0 < 2 ^ k) by by apply Z.pow_pos_nonneg.
  split; [apply Z.div_pos; lia|]. apply Z.div_lt_upper_bound; nia.
Qed.

Lemma crc_bit_u32 c : 0 ≤ c < 2 ^ 32 → 0 ≤ crc_bit c < 2 ^ 32.
Proof.
  intros. rewrite crc_bit_alt. apply lxor_u32; [|by apply shiftr_u32].
  destruct (Z.testbit c 0); unfold crc_poly; lia.
Qed.
Lemma crc_iter_u32 n c : 0 ≤ c < 2 ^ 32 → 0 ≤ Nat.iter n crc_bit c < 2 ^ 32.
Proof. intros. induction n as [|n IH]; simpl; [done|]. by apply crc_bit_u32. Qed.
Lemma crc_byte_u32 c b : 0 ≤ c < 2 ^ 32 → byte_ok b → 0 ≤ crc_byte c b < 2 ^ 32.
Proof. unfold byte_ok. intros. apply crc_iter_u32, lxor_u32; lia. Qed.
Lemma crc_fold_u32 buf c :
  0 ≤ c < 2 ^ 32 → bytes_ok buf → 0 ≤ foldl crc_byte c buf < 2 ^ 32.
Proof.
  intros Hc Hb; revert c Hc; induction Hb as [|b buf Hb _ IH]; intros; simpl; [done|].
  by apply IH, crc_byte_u32.
Qed.
Lemma crc32_u32 buf : bytes_ok buf → 0 ≤ crc32 buf < 2 ^ 32.
Proof. intros. rewrite crc32_equiv_bitwise by done. apply lxor_u32; [apply crc_fold_u32|]; auto; lia. Qed.

(** * Injectivity, hence detection *)
Lemma crc_bit_zero z : 0 ≤ z < 2 ^ 32 → crc_bit z = 0 → z = 0.
Proof.
  intros Hz. rewrite crc_bit_alt. rewrite Z.bit0_odd, Z.shiftr_div_pow2 by lia.
  change (2 ^ 1) with 2. pose proof (Zmod_odd z) as Hm.
  destruct (Z.odd z); intros H.
  - apply Z.lxor_eq in H. unfold crc_poly in H. lia.
  - rewrite Z.lxor_0_l in H. lia.
Qed.
Lemma crc_iter_zero n z : 0 ≤ z < 2 ^ 32 → Nat.iter n crc_bit z = 0 → z = 0.
Proof.
  intros Hz. induction n as [|n IH]; simpl; [done|].
  intros H. apply IH, crc_bit_zero; [by apply crc_iter_u32|done].
Qed.
Lemma crc_iter_inj n x y :
  0 ≤ x < 2 ^ 32 → 0 ≤ y < 2 ^ 32 → Nat.iter n crc_bit x = Nat.iter n crc_bit y → x = y.
Proof.
  intros Hx Hy H. apply Z.lxor_eq, (crc_iter_zero n); [by apply lxor_u32|].
  by rewrite crc_iter_lxor, H, Z.lxor_nilpotent.
Qed.

Lemma le_val_cons_lxor b v : byte_ok b → 0 ≤ v → b + 256 * v = Z.lxor b (Z.shiftl v 8).
Proof.
  intros Hb Hv. rewrite <-Z.add_nocarry_lxor.
  - rewrite Z.shiftl_mul_pow2 by lia. lia.
  - apply Z.bits_inj'. intros n Hn. rewrite Z.land_spec, Z.bits_0.
    destruct (decide (n < 8)); [rewrite (Z.shiftl_spec_low v) by lia; apply andb_false_r|].
    unfold byte_ok in Hb. rewrite <-(Z.mod_small b (2 ^ 8)) by lia.
    by rewrite Z.mod_pow2_bits_high by lia.
Qed.

(** Running the division over [bs] shifts the state by as many bits and adds
    [bs], read as a little-endian integer. *)
Lemma crc_fold_iter bs c :
  bytes_ok bs → foldl crc_byte c bs = Nat.iter (8 * length bs) crc_bit (Z.lxor c (le_val bs)).
Proof.
  intros Hb; revert c; induction Hb as [|b bs Hb Hbs IH]; intros c.
  - simpl. by rewrite Z.lxor_0_r.
  - cbn [foldl length le_val]. rewrite IH. unfold crc_byte.
    rewrite le_val_cons_lxor, <-Z.lxor_assoc by (done || (apply le_val_bound; done)).
    replace (8 * S (length bs))%nat with (8 * length bs + 8)%nat by lia.
    rewrite Nat.iter_add. f_equal.
    by rewrite (crc_iter_lxor 8 (Z.lxor c b)), (crc_iter_shiftl 8).
Qed.

Lemma crc_fold_inj s c d :
  0 ≤ c < 2 ^ 32 → 0 ≤ d < 2 ^ 32 → bytes_ok s →
  foldl crc_byte c s = foldl crc_byte d s → c = d.
Proof.
  intros Hc Hd Hs; revert c d Hc Hd; induction Hs as [|b s Hb _ IH]; intros c d Hc Hd H; simpl in H.
  - done.
  - apply IH in H; [|by apply crc_byte_u32..].
    unfold crc_byte in H. unfold byte_ok in Hb.
    apply crc_iter_inj in H; [|apply lxor_u32; lia..].
    apply (f_equal (λ z, Z.lxor z b)) in H.
    by rewrite !Z.lxor_assoc, !Z.lxor_nilpotent, !Z.lxor_0_r in H.
Qed.

(** Two buffers that differ only in a window of at most four bytes have
    different checksums. *)
Lemma crc32_detects_burst p x y s :
  bytes_ok (p ++ x ++ s) → bytes_ok y → length x = length y → (length x ≤ 4)%nat → x ≠ y →
  crc32 (p ++ x ++ s) ≠ crc32 (p ++ y ++ s).
Proof.
  rewrite !bytes_ok_app. intros (Hp & Hx & Hs) Hy Hlen H4 Hne Heq.
  rewrite !crc32_equiv_bitwise in Heq by by rewrite !bytes_ok_app.
  unfold crc32_bitwise in Heq. apply (f_equal (λ z, Z.lxor z 0xFFFFFFFF)) in Heq.
  rewrite !Z.lxor_assoc, !Z.lxor_nilpotent, !Z.lxor_0_r, !foldl_app in Heq.
  set (c := foldl crc_byte 0xFFFFFFFF p) in *.
  assert (Hc : 0 ≤ c < 2 ^ 32) by (apply crc_fold_u32; [lia|done]).
  assert (Hw : ∀ l, bytes_ok l → length l = length x → 0 ≤ le_val l < 2 ^ 32).
  { intros l Hl Hll. pose proof (le_val_bound l Hl) as Hb. unfold zlen in Hb.
    assert (256 ^ Z.of_nat (length l) ≤ 256 ^ 4) by (apply Z.pow_le_mono_r; lia). lia. }
  apply crc_fold_inj in Heq; [|by apply crc_fold_u32..|done].
  rewrite !crc_fold_iter, Hlen in Heq by done.
  apply crc_iter_inj in Heq; [|apply lxor_u32; auto..].
  apply (f_equal (Z.lxor c)) in Heq.
  rewrite <-!Z.lxor_assoc, !Z.lxor_nilpotent, !Z.lxor_0_l in Heq.
  apply Hne. rewrite <-(le_bytes_le_val x), <-(le_bytes_le_val y) by done. by rewrite Hlen, Heq.
Qed.
