(* ===== verification/Packet.v ===== *)
(** The wire packet (src/koe_packet.c, include/koe_packet.h): header layout,
    checksum, validation, serialisation and deserialisation. *)

From S2P Require Import Prelude Version Crc32.

(** * Constants and types of koe_packet.h *)
Definition KOE_MAGIC : bytes := [75; 79; 69; 1].
Definition KOE_HEADER_SIZE : Z := 106.
Definition KOE_MAX_PAYLOAD : Z := 1024 * 1024.

Inductive koe_packet_type_t :=
  | KOE_TYPE_HELLO | KOE_TYPE_HELLO_ACK | KOE_TYPE_ACK | KOE_TYPE_MSG | KOE_TYPE_AUDIO
  | KOE_TYPE_PING | KOE_TYPE_PONG | KOE_TYPE_QUEUE | KOE_TYPE_DESTRUCT | KOE_TYPE_CHANNEL
  | KOE_TYPE_MIGRATE | KOE_TYPE_BACKUP_ACK | KOE_TYPE_VERIFY | KOE_TYPE_REVOKE
  | KOE_TYPE_MEDIA_OFFER | KOE_TYPE_MEDIA_ACK | KOE_TYPE_MEDIA_CHUNK | KOE_TYPE_MEDIA_DONE
  | KOE_TYPE_GROUP_META | KOE_TYPE_PRESENCE | KOE_TYPE_TYPING | KOE_TYPE_READ.

Definition type_code (t : koe_packet_type_t) : Z :=
  match t with
  | KOE_TYPE_HELLO => 0x01 | KOE_TYPE_HELLO_ACK => 0x02 | KOE_TYPE_ACK => 0x03
  | KOE_TYPE_MSG => 0x04 | KOE_TYPE_AUDIO => 0x05 | KOE_TYPE_PING => 0x06
  | KOE_TYPE_PONG => 0x07 | KOE_TYPE_QUEUE => 0x08 | KOE_TYPE_DESTRUCT => 0x09
  | KOE_TYPE_CHANNEL => 0x0A | KOE_TYPE_MIGRATE => 0x0B | KOE_TYPE_BACKUP_ACK => 0x0C
  | KOE_TYPE_VERIFY => 0x0D | KOE_TYPE_REVOKE => 0x0E | KOE_TYPE_MEDIA_OFFER => 0x0F
  | KOE_TYPE_MEDIA_ACK => 0x10 | KOE_TYPE_MEDIA_CHUNK => 0x11 | KOE_TYPE_MEDIA_DONE => 0x12
  | KOE_TYPE_GROUP_META => 0x13 | KOE_TYPE_PRESENCE => 0x14 | KOE_TYPE_TYPING => 0x15
  | KOE_TYPE_READ => 0x16
  end.

Definition KOE_FLAG_ENCRYPTED : Z := 0x01.
Definition KOE_FLAG_SIGNED : Z := 0x02.
Definition KOE_FLAG_FRAGMENTED : Z := 0x04.
Definition KOE_FLAG_LAST_FRAG : Z := 0x08.

Record koe_header_t := KoeHeader {
  h_magic : bytes;
  h_proto_major : Z;
  h_proto_minor : Z;
  h_type : Z;
  h_flags : Z;
  h_length : Z;
  h_from : bytes;
  h_to : bytes;
  h_nonce : bytes;
  h_checksum : Z;
  h_reserved : bytes;
}.

(** [p_payload] is [None] for a NULL pointer; otherwise the allocation it
    points to, whose length is the size given to [malloc]. *)
Record koe_packet_t := KoePacket { p_header : koe_header_t; p_payload : option bytes }.

#[export] Instance koe_header_t_eq_dec : EqDecision koe_header_t.
Proof. solve_decision. Defined.
#[export] Instance koe_packet_t_eq_dec : EqDecision koe_packet_t.
Proof. solve_decision. Defined.

#[export] Instance koe_packet_t_inhabited : Inhabited koe_packet_t :=
  populate (KoePacket (KoeHeader [] 0 0 0 0 0 [] [] [] 0 []) None).

(** Field assignments. *)
Definition set_flags (f : Z) (h : koe_header_t) : koe_header_t :=
  KoeHeader (h_magic h) (h_proto_major h) (h_proto_minor h) (h_type h) f (h_length h)
            (h_from h) (h_to h) (h_nonce h) (h_checksum h) (h_reserved h).
Definition set_length (l : Z) (h : koe_header_t) : koe_header_t :=
  KoeHeader (h_magic h) (h_proto_major h) (h_proto_minor h) (h_type h) (h_flags h) l
            (h_from h) (h_to h) (h_nonce h) (h_checksum h) (h_reserved h).
Definition set_from (a : bytes) (h : koe_header_t) : koe_header_t :=
  KoeHeader (h_magic h) (h_proto_major h) (h_proto_minor h) (h_type h) (h_flags h) (h_length h)
            a (h_to h) (h_nonce h) (h_checksum h) (h_reserved h).
Definition set_to (a : bytes) (h : koe_header_t) : koe_header_t :=
  KoeHeader (h_magic h) (h_proto_major h) (h_proto_minor h) (h_type h) (h_flags h) (h_length h)
            (h_from h) a (h_nonce h) (h_checksum h) (h_reserved h).
Definition set_nonce (n : bytes) (h : koe_header_t) : koe_header_t :=
  KoeHeader (h_magic h) (h_proto_major h) (h_proto_minor h) (h_type h) (h_flags h) (h_length h)
            (h_from h) (h_to h) n (h_checksum h) (h_reserved h).
Definition set_checksum (c : Z) (h : koe_header_t) : koe_header_t :=
  KoeHeader (h_magic h) (h_proto_major h) (h_proto_minor h) (h_type h) (h_flags h) (h_length h)
            (h_from h) (h_to h) (h_nonce h) c (h_reserved h).

(** * Operations of koe_packet.c *)
Definition zero_header : koe_header_t :=
  KoeHeader (zeros 4) 0 0 0 0 0 (zeros 32) (zeros 32) (zeros 24) 0 (zeros 2).

Definition koe_packet_init (type flags : Z) : koe_packet_t :=
  KoePacket (KoeHeader KOE_MAGIC KOE_PROTO_MAJOR KOE_PROTO_MINOR type flags 0
                       (zeros 32) (zeros 32) (zeros 24) 0 (zeros 2)) None.

Definition koe_packet_free (pkt : koe_packet_t) : koe_packet_t :=
  KoePacket (set_length 0 (p_header pkt)) None.

(** The hundred bytes both the checksum and the wire image start with. *)
Definition header_prefix (h : koe_header_t) : bytes :=
  h_magic h ++ [h_proto_major h; h_proto_minor h; h_type h; h_flags h]
  ++ be32 (h_length h) ++ h_from h ++ h_to h ++ h_nonce h.

Definition koe_packet_checksum (h : koe_header_t) : Z := crc32 (header_prefix h).

Definition koe_packet_validate (pkt : koe_packet_t) : Z :=
  let h := p_header pkt in
  if negb (memeq 4 (h_magic h) KOE_MAGIC) then -1
  else if negb (koe_version_compatible koe_version_local
                  (KoeVersion (h_proto_major h) (h_proto_minor h))) then -1
  else if negb (koe_packet_checksum h =? h_checksum h) then -1
  else 0.

(** [total] is computed in [uint32_t], the type of [KOE_HEADER_SIZE + length];
    the copies that leave a buffer are undefined. Returns the code and the
    buffer. *)
Definition koe_packet_serialise (pkt : koe_packet_t) (buf : bytes) (buf_len : Z)
  : option (Z * bytes) :=
  let h := p_header pkt in
  let total := u32 (KOE_HEADER_SIZE + h_length h) in
  if buf_len <? total then Some (-1, buf)
  else
    buf ← poke buf 0 (header_prefix h ++ be32 (h_checksum h) ++ [0; 0]);
    match p_payload pkt with
    | Some payload =>
        if 0 <? h_length h then
          src ← peek payload 0 (Z.to_nat (h_length h));
          buf ← poke buf 106 src;
          Some (i32 total, buf)
        else Some (i32 total, buf)
    | None => Some (i32 total, buf)
    end.

(** The header read out of the first 106 bytes, after the [memset]. *)
Definition read_header (buf : bytes) : option koe_header_t :=
  magic ← peek buf 0 4;
  proto_major ← buf !! 4%nat;
  proto_minor ← buf !! 5%nat;
  type ← buf !! 6%nat;
  flags ← buf !! 7%nat;
  len_be ← peek buf 8 4;
  from ← peek buf 12 32;
  to ← peek buf 44 32;
  nonce ← peek buf 76 24;
  ck_be ← peek buf 100 4;
  Some (KoeHeader magic proto_major proto_minor type flags (of_be32 len_be)
                  from to nonce (of_be32 ck_be) (zeros 2)).

Definition koe_packet_deserialise (pkt : koe_packet_t) (buf : bytes) (buf_len : Z)
  : M (Z * koe_packet_t) :=
  if buf_len <? KOE_HEADER_SIZE then mret (-1, pkt)
  else
    h ← lift (read_header buf);
    if 0 <? h_length h then
      if buf_len <? 106 + h_length h then mret (-1, KoePacket h None)
      else if KOE_MAX_PAYLOAD <? h_length h then mret (-1, KoePacket h None)
      else
        ok ← malloc;
        if negb ok then mret (-1, KoePacket h None)
        else
          payload ← lift (peek buf 106 (Z.to_nat (h_length h)));
          mret (0, KoePacket h (Some payload))
    else mret (0, KoePacket h None).

(** * Well-formed packets *)
Definition header_ok (h : koe_header_t) : Prop :=
  array_ok 4 (h_magic h) ∧ byte_ok (h_proto_major h) ∧ byte_ok (h_proto_minor h)
  ∧ byte_ok (h_type h) ∧ byte_ok (h_flags h) ∧ 0 ≤ h_length h < 2 ^ 32
  ∧ array_ok 32 (h_from h) ∧ array_ok 32 (h_to h) ∧ array_ok 24 (h_nonce h)
  ∧ 0 ≤ h_checksum h < 2 ^ 32 ∧ h_reserved h = zeros 2.

(** A packet owns a payload exactly when its length is positive. *)
Definition packet_ok (pkt : koe_packet_t) : Prop :=
  header_ok (p_header pkt)
  ∧ match p_payload pkt with
    | Some l => bytes_ok l ∧ zlen l = h_length (p_header pkt) ∧ 0 < h_length (p_header pkt)
    | None => h_length (p_header pkt) = 0
    end.

#[export] Instance header_ok_dec h : Decision (header_ok h).
Proof. unfold header_ok. apply _. Defined.
#[export] Instance packet_ok_dec p : Decision (packet_ok p).
Proof. unfold packet_ok. destruct (p_payload p); apply _. Defined.

(** The bytes a well-formed packet has on the wire. *)
Definition wire (pkt : koe_packet_t) : bytes :=
  header_prefix (p_header pkt) ++ be32 (h_checksum (p_header pkt)) ++ [0; 0]
  ++ default [] (p_payload pkt).

Lemma length_header_prefix h : header_ok h → length (header_prefix h) = 100%nat.
Proof.
  intros ([] & _ & _ & _ & _ & _ & [] & [] & [] & _). unfold header_prefix.
  rewrite !length_app, length_be32. simpl. lia.
Qed.

Lemma header_prefix_ok h : header_ok h → bytes_ok (header_prefix h).
Proof.
  intros ([] & ? & ? & ? & ? & _ & [] & [] & [] & _). unfold header_prefix.
  rewrite !bytes_ok_app. repeat split; auto with koe.
  - repeat (constructor; [done|]). constructor.
  - apply be_bytes_ok.
Qed.

Lemma koe_packet_checksum_u32 h : header_ok h → 0 ≤ koe_packet_checksum h < 2 ^ 32.
Proof. intros. by apply crc32_u32, header_prefix_ok. Qed.
#[export] Hint Resolve koe_packet_checksum_u32 : koe.

Lemma koe_packet_init_ok t f : byte_ok t → byte_ok f → packet_ok (koe_packet_init t f).
Proof.
  intros. split; [|done]. unfold header_ok; simpl.
  repeat split; try done; try (unfold byte_ok in *; lia); try apply bytes_ok_zeros.
  repeat (constructor; [unfold byte_ok; lia|]). constructor.
Qed.

Lemma koe_packet_free_ok pkt : packet_ok pkt → packet_ok (koe_packet_free pkt).
Proof.
  intros [Hh _]. split; [|done].
  destruct Hh as (? & ? & ? & ? & ? & ? & ? & ? & ? & ? & ?).
  unfold header_ok, koe_packet_free, set_length; simpl. split_and!; done || lia.
Qed.

Lemma length_wire pkt : packet_ok pkt → zlen (wire pkt) = 106 + h_length (p_header pkt).
Proof.
  intros [Hh Hp]. unfold wire, zlen.
  rewrite !length_app, length_header_prefix, length_be32 by done. simpl.
  destruct (p_payload pkt); simpl in *; unfold zlen in *; lia.
Qed.

(** * Serialisation *)

(** A buffer big enough receives exactly the wire image, in front. *)
Lemma koe_packet_serialise_wire pkt buf :
  packet_ok pkt → h_length (p_header pkt) ≤ 2 ^ 32 - 107 →
  106 + h_length (p_header pkt) ≤ zlen buf →
  koe_packet_serialise pkt buf (zlen buf)
    = Some (i32 (106 + h_length (p_header pkt)),
            wire pkt ++ drop (Z.to_nat (106 + h_length (p_header pkt))) buf).
Proof.
  intros Hok Hmax Hbuf. pose proof Hok as [Hh Hp].
  assert (Hlen : 0 ≤ h_length (p_header pkt)) by apply Hh.
  unfold koe_packet_serialise. set (L := h_length (p_header pkt)) in *.
  change KOE_HEADER_SIZE with 106. rewrite (u32_id (106 + L)) by lia.
  destruct (Z.ltb_spec (zlen buf) (106 + L)); [lia|].
  set (hdr := header_prefix (p_header pkt) ++ be32 (h_checksum (p_header pkt)) ++ [0; 0]).
  assert (Hhdr : length hdr = 106%nat).
  { unfold hdr. rewrite !length_app, length_header_prefix, length_be32 by done. done. }
  unfold zlen in *. rewrite poke_app by (rewrite Hhdr; lia). rewrite Hhdr. simpl.
  unfold wire. destruct (p_payload pkt) as [payload|] eqn:Hpay; simpl in *.
  - destruct Hp as (Hbytes & Hplen & Hpos). fold L in Hplen, Hpos.
    destruct (Z.ltb_spec 0 L); [|lia].
    replace (Z.to_nat L) with (length payload) by lia. rewrite peek_all. simpl.
    rewrite poke_app by (rewrite !length_app, length_drop, Hhdr; lia).
    cbn [mbind option_bind].
    assert (Hw : header_prefix (p_header pkt) ++ be32 (h_checksum (p_header pkt))
                 ++ [0; 0] ++ payload = hdr ++ payload) by (unfold hdr; by rewrite <-!app_assoc).
    simpl in Hw. rewrite Hw. clearbody hdr.
    rewrite take_app_le, take_ge by lia. rewrite <-(app_assoc hdr). do 4 f_equal.
    rewrite drop_app_ge by lia. rewrite Hhdr, drop_drop. f_equal. lia.
  - assert (HL : L = 0) by done. rewrite HL. unfold hdr. by rewrite <-!app_assoc.
Qed.

(** A packet within the payload cap, and its image in a buffer of just the size. *)
Definition packet_fits (p : koe_packet_t) : Prop :=
  packet_ok p ∧ h_length (p_header p) ≤ KOE_MAX_PAYLOAD.

Lemma koe_packet_serialise_exact pkt buf :
  packet_fits pkt → zlen buf = 106 + h_length (p_header pkt) →
  koe_packet_serialise pkt buf (106 + h_length (p_header pkt))
    = Some (106 + h_length (p_header pkt), wire pkt).
Proof.
  intros [Hok Hmax] Hbuf. assert (0 ≤ h_length (p_header pkt)) by apply Hok.
  unfold KOE_MAX_PAYLOAD in Hmax.
  rewrite <-Hbuf, koe_packet_serialise_wire by (done || lia). rewrite Hbuf.
  rewrite drop_ge by (unfold zlen in Hbuf; lia). by rewrite app_nil_r, i32_id by lia.
Qed.

(** Walk over the segments of a concatenation to the field at an offset. *)
Ltac seg_len :=
  repeat match goal with H : length _ = _ |- _ => rewrite H end; rewrite ?length_be32; simpl; lia.
Ltac find_fields :=
  repeat match goal with
  | |- context [peek (?a ++ ?b) ?o ?n] =>
      first [ rewrite (peek_here a b o n) by seg_len | rewrite (peek_skip a b o n) by seg_len ];
      cbn [mbind option_bind]
  | |- context [(?a ++ ?b) !! ?i] =>
      rewrite (lookup_skip a b i) by seg_len;
      match goal with H : length a = _ |- _ => rewrite H end;
      cbn [lookup list_lookup Nat.sub app mbind option_bind]
  end.

Lemma read_header_wire h rest :
  header_ok h → read_header (header_prefix h ++ be32 (h_checksum h) ++ [0; 0] ++ rest) = Some h.
Proof.
  intros ([Hm _] & _ & _ & _ & _ & Hl & [Hf _] & [Ht _] & [Hn _] & Hck & Hr).
  unfold read_header, header_prefix. destruct h as [m vj vn t f l fr to n ck r]; simpl h_magic in *;
    cbn [h_magic h_proto_major h_proto_minor h_type h_flags h_length h_from h_to h_nonce
         h_checksum h_reserved] in *.
  rewrite <-!app_assoc.
  find_fields.
  rewrite !of_be32_be32 by done. by rewrite Hr.
Qed.

Lemma read_header_of_wire pkt rest :
  packet_ok pkt → read_header (wire pkt ++ rest) = Some (p_header pkt).
Proof.
  intros [Hh _]. unfold wire. rewrite <-!app_assoc. by apply read_header_wire.
Qed.

(** Deserialising a wire image, whatever follows it. *)
Lemma koe_packet_deserialise_env old buf len r w w' :
  w ⊢ koe_packet_deserialise old buf len ⇓ r ⊣ w' → same_env w w'.
Proof. unfold koe_packet_deserialise. intros Hd. mrun. repeat (case_match; mrun); simplify_eq; done. Qed.

Lemma koe_packet_deserialise_wire old pkt rest w :
  packet_ok pkt → h_length (p_header pkt) ≤ KOE_MAX_PAYLOAD → heap_ok w →
  ∃ w', w ⊢ koe_packet_deserialise old (wire pkt ++ rest) (zlen (wire pkt ++ rest)) ⇓ (0, pkt) ⊣ w'.
Proof.
  intros Hok Hmax Hheap. pose proof Hok as [Hh Hp].
  pose proof (length_wire pkt Hok) as Hlen.
  assert (Hpos : 0 ≤ h_length (p_header pkt)) by apply Hh.
  assert (Htot : zlen (wire pkt ++ rest) = 106 + h_length (p_header pkt) + zlen rest).
  { unfold zlen in *. rewrite length_app. lia. }
  assert (0 ≤ zlen rest) by (unfold zlen; lia).
  unfold koe_packet_deserialise. change KOE_HEADER_SIZE with 106.
  destruct (Z.ltb_spec (zlen (wire pkt ++ rest)) 106); [lia|].
  rewrite read_header_of_wire by done. mrun.
  destruct (Z.ltb_spec 0 (h_length (p_header pkt))) as [Hl|Hl].
  - destruct (Z.ltb_spec (zlen (wire pkt ++ rest)) (106 + h_length (p_header pkt))); [lia|].
    destruct (Z.ltb_spec KOE_MAX_PAYLOAD (h_length (p_header pkt))); [lia|].
    mrun. rewrite Hheap. mrun.
    destruct (p_payload pkt) as [payload|] eqn:Hpay; [|lia].
    destruct Hp as (_ & Hpl & _).
    unfold wire. rewrite Hpay. simpl default.
    rewrite <-!app_assoc. change (0 :: 0 :: ?z) with ([0; 0] ++ z).
    rewrite peek_skip by (rewrite length_header_prefix by done; lia).
    rewrite peek_skip by (rewrite length_header_prefix, length_be32 by done; lia).
    rewrite peek_skip by (rewrite length_header_prefix, length_be32 by done; simpl; lia).
    rewrite peek_here by (rewrite ?length_header_prefix, ?length_be32 by done; unfold zlen in *; simpl; lia).
    eexists. destruct pkt; simpl in *; by rewrite Hpay.
  - destruct (p_payload pkt) as [payload|] eqn:Hpay; [lia|].
    eexists. destruct pkt; simpl in *; by rewrite Hpay.
Qed.

(** C1: a well-formed packet within the payload cap, written into any buffer
    large enough, is read back unchanged; the code is the number of bytes. *)
Theorem koe_packet_roundtrip (pkt old : koe_packet_t) (buf : bytes) (w : world) :
  packet_ok pkt → h_length (p_header pkt) ≤ KOE_MAX_PAYLOAD →
  106 + h_length (p_header pkt) ≤ zlen buf → heap_ok w →
  ∃ buf' w',
    koe_packet_serialise pkt buf (zlen buf) = Some (106 + h_length (p_header pkt), buf')
    ∧ zlen buf' = zlen buf
    ∧ w ⊢ koe_packet_deserialise old buf' (zlen buf') ⇓ (0, pkt) ⊣ w'.
Proof.
  intros Hok Hmax Hbuf Hheap. pose proof (length_wire pkt Hok) as Hlw.
  assert (Hpos : 0 ≤ h_length (p_header pkt)) by apply Hok.
  unfold KOE_MAX_PAYLOAD in Hmax.
  exists (wire pkt ++ drop (Z.to_nat (106 + h_length (p_header pkt))) buf).
  edestruct (koe_packet_deserialise_wire old pkt
    (drop (Z.to_nat (106 + h_length (p_header pkt))) buf) w) as [w' Hw']; [done|done|done|].
  exists w'. split_and!; [|unfold zlen in *; rewrite length_app, length_drop; lia|done].
  rewrite koe_packet_serialise_wire by (done || lia). by rewrite i32_id by lia.
Qed.

Definition witness_packet : koe_packet_t :=
  KoePacket (KoeHeader KOE_MAGIC 0 1 6 0 3 (zeros 32) (zeros 32) (zeros 24) 7 (zeros 2))
            (Some [112; 105; 110]).
Definition witness_world : world :=
  World (λ i, 1000 + Z.of_nat i) 0 (λ _, true) 0 (λ i j, Z.of_nat (7 * i + j)) 0 (λ _, true) 0 ∅.

Lemma koe_packet_roundtrip_witness :
  ∃ buf' w',
    koe_packet_serialise witness_packet (zeros 200) (zlen (zeros 200)) = Some (109, buf')
    ∧ zlen buf' = zlen (zeros 200)
    ∧ witness_world ⊢ koe_packet_deserialise witness_packet buf' (zlen buf')
        ⇓ (0, witness_packet) ⊣ w'.
Proof.
  apply (koe_packet_roundtrip witness_packet witness_packet (zeros 200) witness_world).
  - apply (bool_decide_unpack _). vm_compute. exact I.
  - vm_compute. discriminate.
  - vm_compute. discriminate.
  - intros i. reflexivity.
Defined.

(** * Deserialising hostile input *)
Lemma peek_defined buf off n : (off + n ≤ length buf)%nat → peek buf off n = Some (take n (drop off buf)).
Proof. intros. unfold peek. by rewrite decide_True. Qed.

Lemma read_header_defined buf :
  bytes_ok buf → (106 ≤ length buf)%nat →
  ∃ h, read_header buf = Some h ∧ header_ok h
       ∧ header_prefix h ++ be32 (h_checksum h) = take 104 buf.
Proof.
  intros Hb Hlen.
  assert (Harr : ∀ off n, (off + n ≤ length buf)%nat → array_ok n (take n (drop off buf))).
  { intros off n Hn. split; [rewrite length_take, length_drop; lia|auto with koe]. }
  assert (Hbyte : ∀ i : nat, (i < length buf)%nat → ∃ b, buf !! i = Some b ∧ byte_ok b).
  { intros i [b Hi]%lookup_lt_is_Some_2. exists b. split; [done|].
    by eapply Forall_lookup_1 in Hi. }
  destruct (Hbyte 4%nat) as (vj & E4 & ?), (Hbyte 5%nat) as (vn & E5 & ?),
    (Hbyte 6%nat) as (t & E6 & ?), (Hbyte 7%nat) as (f & E7 & ?); [lia..|].
  pose proof (of_be32_bound _ (Harr 8%nat 4%nat ltac:(lia))).
  pose proof (of_be32_bound _ (Harr 100%nat 4%nat ltac:(lia))).
  eexists. unfold read_header. rewrite E4, E5, E6, E7.
  rewrite !peek_defined by lia. simpl. split; [reflexivity|]. split.
  { unfold header_ok. simpl. split_and!; done || lia || (apply (Harr 0%nat); lia) || (apply Harr; lia). }
  unfold header_prefix, be32, of_be32.
  cbn [h_magic h_proto_major h_proto_minor h_type h_flags h_length h_from h_to h_nonce h_checksum].
  assert (Hbe : ∀ off, (off + 4 ≤ length buf)%nat →
            be_bytes 4 (be_val (take 4 (drop off buf))) = take 4 (drop off buf)).
  { intros off Ho. destruct (Harr off 4%nat Ho) as [Hl ?]. rewrite <-Hl at 1. by apply be_bytes_be_val. }
  rewrite !Hbe, drop_0 by lia.
  assert (Hseg : ∀ a n, take a buf ++ take n (drop a buf) = take (a + n) buf).
  { intros a n. by rewrite take_take_drop. }
  assert (H48 : [vj; vn; t; f] = take 4 (drop 4 buf)).
  { rewrite (drop_S _ _ _ E4), (drop_S _ _ _ E5), (drop_S _ _ _ E6), (drop_S _ _ _ E7). done. }
  rewrite H48, <-!app_assoc, (app_assoc (take 4 buf)), Hseg. simpl Nat.add.
  rewrite (app_assoc (take 8 buf)), Hseg. simpl Nat.add.
  rewrite (app_assoc (take 12 buf)), Hseg. simpl Nat.add.
  rewrite (app_assoc (take 44 buf)), Hseg. simpl Nat.add.
  rewrite (app_assoc (take 76 buf)), Hseg. simpl Nat.add.
  apply Hseg.
Qed.

(** C2: parsing is total on arbitrary input: no byte sequence makes it read or
    write out of bounds, it answers 0 or -1, an accepted packet is well formed,
    within the cap of one mebibyte and re-encodes to the input, the two reserved
    bytes and whatever follows the payload apart; with memory available, the
    buffers accepted are exactly those that hold a header which announces a
    payload within the cap, and that payload. *)
Theorem koe_packet_deserialise_total (old : koe_packet_t) (buf : bytes) (w : world) :
  bytes_ok buf →
  ∃ rc pkt w',
    w ⊢ koe_packet_deserialise old buf (zlen buf) ⇓ (rc, pkt) ⊣ w'
    ∧ (rc = 0 ∨ rc = -1)
    ∧ (rc = 0 →
         packet_ok pkt ∧ h_length (p_header pkt) ≤ KOE_MAX_PAYLOAD
         ∧ 106 + h_length (p_header pkt) ≤ zlen buf
         ∧ take 104 (wire pkt) = take 104 buf
         ∧ drop 106 (wire pkt) = take (Z.to_nat (h_length (p_header pkt))) (drop 106 buf))
    ∧ (heap_ok w →
         rc = 0 ↔ 106 ≤ zlen buf ∧ ∃ h, read_header buf = Some h
                    ∧ h_length h ≤ KOE_MAX_PAYLOAD ∧ 106 + h_length h ≤ zlen buf).
Proof.
  intros Hb. unfold koe_packet_deserialise. change KOE_HEADER_SIZE with 106.
  destruct (Z.ltb_spec (zlen buf) 106) as [Hs|Hs].
  { do 3 eexists. split; [reflexivity|]. split_and!; [by right|done|]. intros _. split; [done|lia]. }
  destruct (read_header_defined buf Hb) as (h & Hrd & Hh & Hpre); [unfold zlen in Hs; lia|].
  rewrite Hrd. mrun.
  assert (Hpos : 0 ≤ h_length h) by apply Hh.
  assert (Hw : ∀ l, length (header_prefix h ++ be32 (h_checksum h)) = 104%nat ∧
      wire (KoePacket h l) = (header_prefix h ++ be32 (h_checksum h)) ++ [0; 0] ++ default [] l).
  { intros l. rewrite length_app, length_header_prefix, length_be32 by done. split; [done|].
    unfold wire. simpl. by rewrite <-!app_assoc. }
  assert (Hacc : ∀ l, take 104 (wire (KoePacket h l)) = take 104 buf
                      ∧ drop 106 (wire (KoePacket h l)) = default [] l).
  { intros l. destruct (Hw l) as [Hl ->]. split; [by rewrite take_app_le, take_ge by lia|].
    rewrite drop_app_ge, Hl by lia. done. }
  destruct (Z.ltb_spec 0 (h_length h)) as [Hl|Hl].
  2:{ do 3 eexists. split; [reflexivity|]. split; [by left|].
      split; [|intros _; split; [intros _; split; [lia|exists h; unfold KOE_MAX_PAYLOAD; split_and!; [done|lia|lia]]|done]].
      intros _. destruct (Hacc None) as [H1 H2]. simpl.
      replace (h_length h) with 0 by lia. rewrite H2.
      split_and!; [split; [done|simpl; lia]|unfold KOE_MAX_PAYLOAD; lia|lia|done|done]. }
  destruct (Z.ltb_spec (zlen buf) (106 + h_length h)) as [Hsh|Hsh].
  { do 3 eexists. split; [reflexivity|]. split_and!; [by right|done|]. intros _.
    split; [done|]. intros (_ & h' & [= <-] & _ & Hl'). lia. }
  destruct (Z.ltb_spec KOE_MAX_PAYLOAD (h_length h)) as [Hcap|Hcap].
  { do 3 eexists. split; [reflexivity|]. split_and!; [by right|done|]. intros _.
    split; [done|]. intros (_ & h' & [= <-] & Hl' & _). lia. }
  mrun. destruct (w_heap w (w_allocs w)) eqn:Hm; mrun.
  2:{ do 3 eexists. split; [reflexivity|]. split_and!; [by right|done|].
      intros Hheap. by rewrite Hheap in Hm. }
  rewrite peek_defined by (unfold zlen in *; lia). mrun.
  do 3 eexists. split; [reflexivity|]. split; [by left|].
  split; [|intros _; split; [intros _; split; [lia|by exists h]|done]].
  intros _. destruct (Hacc (Some (take (Z.to_nat (h_length h)) (drop 106 buf)))) as [H1 H2].
  split_and!; [split; [done|]|done|done|done|done]. simpl.
  split_and!; [auto with koe| |done].
  unfold zlen in *. rewrite length_take, length_drop. lia.
Qed.

Lemma koe_packet_deserialise_total_witness :
  ∃ rc pkt w',
    witness_world ⊢ koe_packet_deserialise witness_packet (zeros 120) (zlen (zeros 120))
      ⇓ (rc, pkt) ⊣ w' ∧ (rc = 0 ∨ rc = -1).
Proof.
  destruct (koe_packet_deserialise_total witness_packet (zeros 120) witness_world)
    as (rc & pkt & w' & H1 & H2 & _); [apply bytes_ok_zeros|].
  exists rc, pkt, w'. split; assumption.
Defined.

(** * Validation *)
Lemma koe_packet_validate_iff pkt :
  header_ok (p_header pkt) →
  koe_packet_validate pkt = 0 ↔
    h_magic (p_header pkt) = KOE_MAGIC
    ∧ may_talk koe_version_local
        (KoeVersion (h_proto_major (p_header pkt)) (h_proto_minor (p_header pkt)))
    ∧ h_checksum (p_header pkt) = koe_packet_checksum (p_header pkt).
Proof.
  intros ([Hm _] & _). unfold koe_packet_validate.
  rewrite <-koe_version_compatible_iff, <-(memeq_true 4 _ KOE_MAGIC) by done.
  destruct (memeq _ _ _); simpl; [|naive_solver].
  destruct (koe_version_compatible _ _); simpl; [|naive_solver].
  destruct (Z.eqb_spec (koe_packet_checksum (p_header pkt)) (h_checksum (p_header pkt))); simpl; naive_solver.
Qed.

(** C37: of the first 104 bytes of a header, the 100 that are summed and the
    checksum: corruption that stays within four consecutive bytes of the former,
    or within the checksum, never passes validation, whatever the corrupted bytes
    are. (A burst across the border of the two may, and the reserved bytes behind
    them are not checked.) *)
Theorem koe_packet_validate_detects_burst
    (h h' : koe_header_t) (payload payload' : option bytes) :
  header_ok h → header_ok h' →
  (h_checksum h' = h_checksum h
     ∧ (∃ pre x y post, header_prefix h = pre ++ x ++ post ∧ header_prefix h' = pre ++ y ++ post
          ∧ length x = length y ∧ (length x ≤ 4)%nat ∧ x ≠ y)
   ∨ header_prefix h' = header_prefix h ∧ h_checksum h' ≠ h_checksum h) →
  koe_packet_validate (KoePacket h payload) = 0 →
  koe_packet_validate (KoePacket h' payload') = -1.
Proof.
  intros Hh Hh' Hburst Hv.
  apply koe_packet_validate_iff in Hv as (_ & _ & Hv); [|done]. simpl in Hv.
  assert (Hd : koe_packet_checksum h' ≠ h_checksum h').
  { destruct Hburst as [(Hck & pre & x & y & post & E & E' & Hlen & H4 & Hne)|[E Hck]].
    2:{ unfold koe_packet_checksum in *. rewrite E. congruence. }
    rewrite Hck, Hv. unfold koe_packet_checksum. rewrite E, E'. apply not_eq_sym.
    pose proof (header_prefix_ok h Hh) as Hb. pose proof (header_prefix_ok h' Hh') as Hb'.
    rewrite E in Hb. rewrite E', !bytes_ok_app in Hb'. apply crc32_detects_burst; try done. apply Hb'. }
  unfold koe_packet_validate. simpl.
  repeat (case_match; try done). apply negb_false_iff, Z.eqb_eq in H1. done.
Qed.

Definition burst_header (t : Z) : koe_header_t :=
  set_checksum (koe_packet_checksum (p_header (koe_packet_init 4 1)))
    (p_header (koe_packet_init t 1)).

Lemma koe_packet_validate_detects_burst_witness :
  koe_packet_validate (KoePacket (burst_header 5) None) = -1.
Proof.
  apply (koe_packet_validate_detects_burst (burst_header 4) (burst_header 5) None None).
  - apply (bool_decide_unpack _). vm_compute. exact I.
  - apply (bool_decide_unpack _). vm_compute. exact I.
  - left. split; [reflexivity|]. exists (KOE_MAGIC ++ [0; 1]), [4], [5], ([1] ++ zeros 92).
    split; [reflexivity|]. split; [reflexivity|]. split; [reflexivity|]. split; [simpl; lia|discriminate].
  - vm_compute. reflexivity.
Defined.

(** A burst of four bytes across the end of the nonce and the start of the
    checksum that validation does not notice. *)
Lemma border_burst_accepted :
  let h := p_header (koe_packet_init 4 1) in
  let summed h := set_checksum (koe_packet_checksum h) h in
  let h' := KoeHeader (h_magic h) (h_proto_major h) (h_proto_minor h) (h_type h) (h_flags h) (h_length h)
              (h_from h) (h_to h) (zeros 22 ++ [97; 216]) (Z.lxor (koe_packet_checksum h) 4109238272) (h_reserved h) in
  koe_packet_validate (KoePacket (summed h) None) = 0 ∧ koe_packet_validate (KoePacket h' None) = 0.
Proof. split; vm_compute; reflexivity. Qed.

(** * The 32-bit size computation *)

(** The callers that allocate [KOE_HEADER_SIZE + length] bytes compute that
    sum in 32 bits: for the 106 largest lengths it wraps, the size check of
    [koe_packet_serialise] passes and the copy leaves the buffer. *)
Lemma koe_packet_serialise_length_overflow (pkt : koe_packet_t) (buf : bytes) :
  packet_ok pkt → 2 ^ 32 - 106 ≤ h_length (p_header pkt) →
  zlen buf = u32 (KOE_HEADER_SIZE + h_length (p_header pkt)) →
  koe_packet_serialise pkt buf (zlen buf) = None.
Proof.
  intros Hok Hbig Hbuf. pose proof Hok as [Hh _].
  assert (h_length (p_header pkt) < 2 ^ 32) by apply Hh.
  unfold koe_packet_serialise. rewrite <-Hbuf, Z.ltb_irrefl.
  unfold KOE_HEADER_SIZE, u32 in Hbuf.
  unfold poke. rewrite decide_False; [done|].
  rewrite !length_app, length_header_prefix, length_be32 by done.
  unfold zlen in Hbuf. simpl. lia.
Qed.

(** A packet whose payload is [n] zero bytes. *)
Definition zero_payload_packet (n : nat) : koe_packet_t :=
  KoePacket (set_length (Z.of_nat n) zero_header) (Some (zeros n)).
Lemma zero_payload_packet_ok n : 0 < Z.of_nat n < 2 ^ 32 → packet_ok (zero_payload_packet n).
Proof.
  intros Hn. split; simpl.
  - unfold header_ok; simpl.
    split_and!; try done; try (split; [done|apply bytes_ok_zeros]); unfold byte_ok; lia.
  - unfold zlen, zeros. rewrite length_replicate. split_and!; [apply bytes_ok_zeros|lia|lia].
Qed.

Lemma koe_packet_serialise_length_overflow_witness :
  koe_packet_serialise (zero_payload_packet (Z.to_nat 4294967290)) (zeros 100) 100 = None.
Proof.
  apply (koe_packet_serialise_length_overflow (zero_payload_packet (Z.to_nat 4294967290)) (zeros 100)).
  - apply zero_payload_packet_ok. rewrite Z2Nat.id; lia.
  - change (h_length (p_header (zero_payload_packet (Z.to_nat 4294967290))))
      with (Z.of_nat (Z.to_nat 4294967290)). rewrite Z2Nat.id; lia.
  - change (h_length (p_header (zero_payload_packet (Z.to_nat 4294967290))))
      with (Z.of_nat (Z.to_nat 4294967290)). rewrite Z2Nat.id by lia. reflexivity.
Defined.
