(* ===== verification/Fragment.v ===== *)
(** Fragmentation and reassembly of packets (src/koe_packet.c), with the
    round trip for fragments that arrive in any order. *)

From S2P Require Import Prelude Version Crc32 Packet.

Record koe_reassembly_t := KoeReassembly {
  r_msg_id : bytes;
  r_total_fragments : Z;
  r_received : Z;
  r_fragments : list (option bytes);
  r_frag_lengths : list Z;
}.

(** A context zeroed by its owner before the first fragment. *)
Definition reassembly_zero : koe_reassembly_t :=
  KoeReassembly (zeros 16) 0 0 (replicate 256 None) (replicate 256 0).

(** * koe_packet_fragment *)
Definition FRAG_PREFIX : Z := 18.

(** The header of fragment [i]: length, flags and checksum are reassigned. *)
Definition frag_header (h : koe_header_t) (i total_frags pay_len : Z) : koe_header_t :=
  let h := set_length (u32 pay_len) h in
  let h := set_flags (u8 (Z.lor (h_flags h) KOE_FLAG_FRAGMENTED)) h in
  let h := if i =? total_frags - 1
           then set_flags (u8 (Z.lor (h_flags h) KOE_FLAG_LAST_FRAG)) h else h in
  set_checksum (koe_packet_checksum h) h.

(** The [for] loop: [n] iterations are left, [i] is the loop variable. *)
Fixpoint fragment_loop (n : nat) (pkt : koe_packet_t) (payload msg_id : bytes)
    (mtu total_frags i offset : Z) : M (bool * list koe_packet_t) :=
  match n with
  | O => mret (true, [])
  | S n' =>
      let total := h_length (p_header pkt) in
      let chunk := if total <? u64 (offset + mtu) then total - offset else mtu in
      ok ← malloc;
      if negb ok then mret (false, [])
      else
        data ← lift (peek payload (Z.to_nat offset) (Z.to_nat chunk));
        let pay := msg_id ++ [i; total_frags] ++ data in
        let frag := KoePacket (frag_header (p_header pkt) i total_frags (18 + chunk)) (Some pay) in
        r ← fragment_loop n' pkt payload msg_id mtu total_frags (i + 1) (offset + chunk);
        mret (r.1, frag :: r.2)
  end.

(** The code and the packets stored in [out_frags]; [mtu = 0] divides by zero. *)
Definition koe_packet_fragment (pkt : koe_packet_t) (max_frags mtu : Z)
  : M (Z * list koe_packet_t) :=
  match p_payload pkt with
  | None => mret (-1, [])
  | Some payload =>
      let total := h_length (p_header pkt) in
      if total =? 0 then mret (-1, [])
      else
        msg_id ← randombytes_buf 16;
        if mtu =? 0 then ub
        else
          let total_frags := u8 (u64 (total + mtu - 1) `div` mtu) in
          if (max_frags <? total_frags) || (total_frags =? 0) then mret (-1, [])
          else
            r ← fragment_loop (Z.to_nat total_frags) pkt payload msg_id mtu total_frags 0 0;
            if (r.1 : bool) then mret (zlen r.2, r.2) else mret (-1, r.2)
  end.

(** * koe_packet_reassemble *)

(** The copy loop: the first [n] fragments in order. A NULL fragment with a
    nonzero length is an invalid read. *)
Fixpoint copy_fragments (n : nat) (frags : list (option bytes)) (lens : list Z) : option bytes :=
  match n with
  | O => Some []
  | S n' =>
      match frags, lens with
      | f :: frags', len :: lens' =>
          piece ← (if len =? 0 then Some []
                   else match f with Some d => peek d 0 (Z.to_nat len) | None => None end);
          rest ← copy_fragments n' frags' lens';
          Some (piece ++ rest)
      | _, _ => None
      end
  end.

Definition clear_fragments (n : nat) (frags : list (option bytes)) : list (option bytes) :=
  replicate (n `min` length frags) None ++ drop n frags.

Definition koe_packet_reassemble (ctx : koe_reassembly_t) (frag out_pkt : koe_packet_t)
  : M (Z * koe_reassembly_t * koe_packet_t) :=
  match p_payload frag with
  | None => mret (-1, ctx, out_pkt)
  | Some payload =>
      if h_length (p_header frag) <? 18 then mret (-1, ctx, out_pkt)
      else
        frag_index ← lift (payload !! 16%nat);
        total ← lift (payload !! 17%nat);
        msg_id ← lift (peek payload 0 16);
        if negb (r_received ctx =? 0) && negb (memeq 16 (r_msg_id ctx) msg_id)
        then mret (-1, ctx, out_pkt)
        else
          let ctx1 := if r_received ctx =? 0
            then KoeReassembly msg_id total (r_received ctx) (r_fragments ctx) (r_frag_lengths ctx)
            else ctx in
          let data_len := h_length (p_header frag) - 18 in
          ok ← malloc;
          if negb ok then mret (-1, ctx1, out_pkt)
          else
            data ← lift (peek payload 18 (Z.to_nat data_len));
            let ctx2 := KoeReassembly (r_msg_id ctx1) (r_total_fragments ctx1)
              (u8 (r_received ctx1 + 1))
              (<[Z.to_nat frag_index := Some data]> (r_fragments ctx1))
              (<[Z.to_nat frag_index := u32 data_len]> (r_frag_lengths ctx1)) in
            if r_received ctx2 <? r_total_fragments ctx2 then mret (0, ctx2, out_pkt)
            else
              let n := Z.to_nat (r_total_fragments ctx2) in
              let total_len := foldr Z.add 0 (take n (r_frag_lengths ctx2)) in
              ok ← malloc;
              if negb ok then mret (-1, ctx2, KoePacket (p_header frag) None)
              else
                body ← lift (copy_fragments n (r_fragments ctx2) (r_frag_lengths ctx2));
                let ctx3 := KoeReassembly (r_msg_id ctx2) (r_total_fragments ctx2)
                  (r_received ctx2) (clear_fragments n (r_fragments ctx2)) (r_frag_lengths ctx2) in
                let h := set_length (u32 total_len) (p_header frag) in
                let h := set_flags (u8 (Z.land (h_flags h)
                           (Z.lnot (Z.lor KOE_FLAG_FRAGMENTED KOE_FLAG_LAST_FRAG)))) h in
                let h := set_checksum (koe_packet_checksum h) h in
                mret (1, ctx3, KoePacket h (Some body))
  end.

(** A receiver feeding the fragments it gets, one after the other. *)
Fixpoint feed (ctx : koe_reassembly_t) (frags : list koe_packet_t) (out : koe_packet_t)
  : M (list Z * koe_reassembly_t * koe_packet_t) :=
  match frags with
  | [] => mret ([], ctx, out)
  | f :: frags' =>
      r ← koe_packet_reassemble ctx f out;
      r' ← feed r.1.2 frags' r.2;
      mret (r.1.1 :: r'.1.1, r'.1.2, r'.2)
  end.

(** * What the fragments carry *)
Definition chunk_of (m : nat) (payload : bytes) (i : nat) : bytes := take m (drop (i * m) payload).

Definition fragment_of (pkt : koe_packet_t) (payload msg_id : bytes) (m n i : nat) : koe_packet_t :=
  KoePacket (frag_header (p_header pkt) (Z.of_nat i) (Z.of_nat n) (18 + zlen (chunk_of m payload i)))
            (Some (msg_id ++ [Z.of_nat i; Z.of_nat n] ++ chunk_of m payload i)).

Lemma concat_chunks m payload k :
  mjoin (chunk_of m payload <$> seq 0 k) = take (k * m) payload.
Proof.
  induction k as [|k IH]; [done|].
  rewrite seq_S, fmap_app, join_app, IH. simpl. unfold chunk_of. rewrite app_nil_r.
  rewrite take_take_drop. f_equal. lia.
Qed.

Lemma length_chunk m payload i n :
  (i < n)%nat → (length payload ≤ n * m)%nat → ((n - 1) * m < length payload)%nat →
  length (chunk_of m payload i) = (if decide (S i = n) then length payload - (n - 1) * m else m)%nat.
Proof.
  intros Hi Hle Hlt. unfold chunk_of. rewrite length_take, length_drop.
  case_decide as Hd; [subst n; simpl in *; nia|].
  assert (S i * m ≤ (n - 1) * m)%nat by (apply Nat.mul_le_mono_r; lia). simpl in *. nia.
Qed.

Section Fragmenting.
Context (pkt : koe_packet_t) (payload : bytes) (m n : nat).
Hypothesis (Hok : packet_ok pkt) (Hpay : p_payload pkt = Some payload).
Hypothesis (Hm : (0 < m)%nat) (Hn1 : ((n - 1) * m < length payload)%nat)
           (Hm64 : Z.of_nat (length payload + m) < 2 ^ 64).

Lemma payload_length : zlen payload = h_length (p_header pkt) ∧ bytes_ok payload
                       ∧ 0 < h_length (p_header pkt).
Proof. destruct Hok as [_ Hp]. rewrite Hpay in Hp. tauto. Qed.

Lemma fragment_loop_run k i msg_id w :
  heap_ok w → (i + k = n)%nat →
  ∃ w', same_env w w' ∧ w ⊢ fragment_loop k pkt payload msg_id (Z.of_nat m) (Z.of_nat n) (Z.of_nat i)
              (Z.of_nat (i * m))
          ⇓ (true, fragment_of pkt payload msg_id m n <$> seq i k) ⊣ w'.
Proof.
  destruct payload_length as (Hlen & _ & _). unfold zlen in Hlen.
  revert i w. induction k as [|k IH]; intros i w Hheap Hi; [by exists w|].
  cbn [fragment_loop]. mrun. rewrite Hheap. mrun.
  assert (Hil : (i * m < length payload)%nat).
  { assert (i * m ≤ (n - 1) * m)%nat by (apply Nat.mul_le_mono_r; lia). lia. }
  rewrite <-Hlen, u64_id by lia.
  set (chunk := if _ <? _ then _ else _).
  assert (Hchunk : chunk = zlen (chunk_of m payload i)).
  { unfold chunk, zlen, chunk_of. rewrite length_take, length_drop.
    destruct (Z.ltb_spec (Z.of_nat (length payload)) (Z.of_nat (i * m) + Z.of_nat m)); lia. }
  rewrite peek_defined by (rewrite Hchunk; unfold zlen, chunk_of; rewrite length_take, length_drop; lia).
  mrun.
  assert (Hdata : take (Z.to_nat chunk) (drop (Z.to_nat (Z.of_nat (i * m))) payload)
                  = chunk_of m payload i).
  { rewrite Nat2Z.id, Hchunk. unfold zlen. rewrite Nat2Z.id. unfold chunk_of.
    rewrite length_take, length_drop.
    destruct (decide (m ≤ length payload - i * m)%nat).
    - by rewrite Nat.min_l by lia.
    - rewrite Nat.min_r by lia. rewrite !take_ge; rewrite ?length_drop; lia || done. }
  rewrite Hdata.
  destruct k as [|k'].
  { cbn. exists (alloc w). unfold fragment_of. by rewrite Hchunk. }
  assert (Hfull : chunk = Z.of_nat m).
  { unfold chunk. assert (S i * m ≤ (n - 1) * m)%nat by (apply Nat.mul_le_mono_r; lia).
    simpl in *. destruct (Z.ltb_spec (Z.of_nat (length payload)) (Z.of_nat (i * m) + Z.of_nat m)); lia. }
  destruct (IH (S i) (alloc w)) as (w' & Henv & Hw'); [done|lia|].
  replace (Z.of_nat i + 1) with (Z.of_nat (S i)) by lia.
  replace (Z.of_nat (i * m) + chunk) with (Z.of_nat (S i * m)) by (simpl; lia).
  rewrite Hw'. exists w'. unfold fragment_of at 2. by rewrite Hchunk.
Qed.

Lemma fragment_count_run max_frags w :
  heap_ok w → Z.of_nat n ≤ max_frags → (0 < n)%nat →
  u8 ((zlen payload + Z.of_nat m - 1) `div` Z.of_nat m) = Z.of_nat n →
  ∃ w', same_env w w' ∧
    w ⊢ koe_packet_fragment pkt max_frags (Z.of_nat m)
      ⇓ (Z.of_nat n, fragment_of pkt payload (random_bytes w 16) m n <$> seq 0 n) ⊣ w'.
Proof.
  intros Hheap Hmax Hn0 Hcount. destruct payload_length as (Hlen & _ & Hpos).
  unfold koe_packet_fragment. rewrite Hpay.
  destruct (Z.eqb_spec (h_length (p_header pkt)) 0); [lia|]. mrun.
  destruct (Z.eqb_spec (Z.of_nat m) 0); [lia|].
  rewrite <-Hlen, u64_id, Hcount by (unfold zlen; lia).
  destruct (Z.ltb_spec max_frags (Z.of_nat n)); [lia|].
  destruct (Z.eqb_spec (Z.of_nat n) 0); [nia|]. simpl.
  destruct (fragment_loop_run (Z.to_nat (Z.of_nat n)) 0 (random_bytes w 16) (draw w)) as (w' & Henv & Hw');
    [done|lia|].
  exists w'. change (Z.of_nat 0) with 0 in Hw'. change (Z.of_nat (0 * m)) with 0 in Hw'.
  rewrite Hw'. cbn. rewrite Nat2Z.id. unfold zlen. rewrite length_fmap, length_seq.
  done.
Qed.

Lemma koe_packet_fragment_run max_frags w :
  (length payload ≤ n * m)%nat → (n ≤ 255)%nat → heap_ok w → Z.of_nat n ≤ max_frags →
  ∃ w', same_env w w' ∧
    w ⊢ koe_packet_fragment pkt max_frags (Z.of_nat m)
      ⇓ (Z.of_nat n, fragment_of pkt payload (random_bytes w 16) m n <$> seq 0 n) ⊣ w'.
Proof.
  intros Hn2 Hn255 Hheap Hmax. destruct payload_length as (Hlen & _ & Hpos). unfold zlen in Hlen.
  apply fragment_count_run; [done..|nia|]. unfold zlen.
  replace ((Z.of_nat (length payload) + Z.of_nat m - 1) `div` Z.of_nat m) with (Z.of_nat n).
  - apply u8_id. unfold byte_ok. lia.
  - apply (Z.div_unique_pos _ _ _ (h_length (p_header pkt) + Z.of_nat m - 1 - Z.of_nat n * Z.of_nat m)); nia.
Qed.
End Fragmenting.

(** * Reassembly in any order *)

(** [ctx] has received exactly the fragments numbered in [got]. *)
Definition ctx_holds (msg_id : bytes) (m n : nat) (payload : bytes) (got : list nat)
    (ctx : koe_reassembly_t) : Prop :=
  length (r_fragments ctx) = 256%nat ∧ length (r_frag_lengths ctx) = 256%nat
  ∧ r_received ctx = zlen got
  ∧ (got ≠ [] → r_msg_id ctx = msg_id ∧ r_total_fragments ctx = Z.of_nat n)
  ∧ ∀ i, i ∈ got → r_fragments ctx !! i = Some (Some (chunk_of m payload i))
                   ∧ r_frag_lengths ctx !! i = Some (zlen (chunk_of m payload i)).

(** The packet reassembly is meant to give back. *)
Definition unfragmented (h : koe_header_t) : koe_header_t :=
  let h := set_flags (u8 (Z.land (h_flags h)
             (Z.lnot (Z.lor KOE_FLAG_FRAGMENTED KOE_FLAG_LAST_FRAG)))) h in
  set_checksum (koe_packet_checksum h) h.

Lemma frag_flags_cleared f : byte_ok f →
  let clear x := u8 (Z.land x (Z.lnot (Z.lor KOE_FLAG_FRAGMENTED KOE_FLAG_LAST_FRAG))) in
  let f1 := u8 (Z.lor f KOE_FLAG_FRAGMENTED) in
  clear f1 = clear f ∧ clear (u8 (Z.lor f1 KOE_FLAG_LAST_FRAG)) = clear f.
Proof.
  intros [H0 H1] clear f1.
  assert (Hall : Forall (λ f, clear (u8 (Z.lor f KOE_FLAG_FRAGMENTED)) = clear f
     ∧ clear (u8 (Z.lor (u8 (Z.lor f KOE_FLAG_FRAGMENTED)) KOE_FLAG_LAST_FRAG)) = clear f)
     (Z.of_nat <$> seq 0 256)).
  { apply (bool_decide_unpack _). vm_compute. exact I. }
  rewrite Forall_forall in Hall. apply Hall.
  apply list_elem_of_fmap. exists (Z.to_nat f). rewrite elem_of_seq. lia.
Qed.

Lemma unfragmented_frag_header h i n len :
  byte_ok (h_flags h) →
  (let g := set_length (u32 (h_length h)) (frag_header h i n len) in unfragmented g)
  = unfragmented (set_length (u32 (h_length h)) h).
Proof.
  intros Hf. destruct (frag_flags_cleared _ Hf) as [E1 E2].
  unfold frag_header. destruct (i =? n - 1); unfold unfragmented; simpl; by rewrite ?E1, ?E2.
Qed.

Lemma copy_fragments_all (l : list bytes) frags lens :
  Forall2 (λ c f, f = Some c) l frags → Forall2 (λ c z, z = zlen c) l lens →
  ∀ frags' lens', copy_fragments (length l) (frags ++ frags') (lens ++ lens') = Some (mjoin l).
Proof.
  intros Hf; revert lens; induction Hf as [|c f l frags -> Hf IH]; intros lens Hl frags' lens';
    inversion_clear Hl as [|? ? ? ? Hz Hl']; [done|]. subst. simpl.
  rewrite IH by done. destruct (Z.eqb_spec (zlen c) 0) as [E|E].
  - destruct c; [done|]. unfold zlen in E. simpl in E. lia.
  - unfold zlen. rewrite Nat2Z.id, peek_all. done.
Qed.

Lemma sum_lengths (l : list bytes) lens :
  Forall2 (λ c z, z = zlen c) l lens → foldr Z.add 0 lens = zlen (mjoin l).
Proof.
  induction 1 as [|c z l lens -> _ IH]; [done|]. simpl. rewrite IH. unfold zlen.
  rewrite length_app. lia.
Qed.

Section Reassembling.
Context (pkt : koe_packet_t) (payload msg_id : bytes) (m n : nat).
Hypothesis (Hok : packet_ok pkt) (Hpay : p_payload pkt = Some payload)
           (Hcap : h_length (p_header pkt) ≤ KOE_MAX_PAYLOAD).
Hypothesis (Hid : length msg_id = 16%nat).
Hypothesis (Hn2 : (length payload ≤ n * m)%nat) (Hn255 : (n ≤ 255)%nat).

Let frag := fragment_of pkt payload msg_id m n.
Let holds := ctx_holds msg_id m n payload.

Lemma payload_len : zlen payload = h_length (p_header pkt).
Proof. destruct Hok as [_ Hp]. rewrite Hpay in Hp. tauto. Qed.

Lemma chunk_le i : (length (chunk_of m payload i) ≤ length payload)%nat.
Proof. unfold chunk_of. rewrite length_take, length_drop. lia. Qed.

Lemma frag_length i : h_length (p_header (frag i)) = 18 + zlen (chunk_of m payload i).
Proof.
  pose proof payload_len as Hl. pose proof (chunk_le i). unfold KOE_MAX_PAYLOAD, zlen in *.
  unfold frag, fragment_of, frag_header. simpl. 
  destruct (_ =? _); simpl; rewrite u32_id; unfold zlen; lia.
Qed.

(** The state after storing fragment [i], and what is left to decide. *)
Lemma holds_insert got ctx i (Hg : holds got ctx) (Hi : (i < n)%nat) :
  holds (i :: got)
    (KoeReassembly msg_id (Z.of_nat n) (zlen (i :: got))
       (<[i := Some (chunk_of m payload i)]> (r_fragments ctx))
       (<[i := zlen (chunk_of m payload i)]> (r_frag_lengths ctx))).
Proof.
  destruct Hg as (H1 & H2 & _ & _ & H5). unfold holds, ctx_holds. simpl.
  rewrite !length_insert. split_and!; try done. intros j Hj.
  destruct (decide (j = i)) as [->|Hne].
  - rewrite !list_lookup_insert_eq by lia. done.
  - rewrite !list_lookup_insert_ne by done. apply H5. set_solver.
Qed.

(** Feeding fragment [i] up to the completeness test. *)
Lemma reassemble_store got ctx i out w :
  holds got ctx → (i < n)%nat → (length got < n)%nat → heap_ok w →
  koe_packet_reassemble ctx (frag i) out w =
  (let ctx2 := KoeReassembly msg_id (Z.of_nat n) (zlen (i :: got))
       (<[i := Some (chunk_of m payload i)]> (r_fragments ctx))
       (<[i := zlen (chunk_of m payload i)]> (r_frag_lengths ctx)) in
   if decide (S (length got) < n)%nat then Some (0, ctx2, out, alloc w)
   else
     match copy_fragments n (r_fragments ctx2) (r_frag_lengths ctx2) with
     | None => None
     | Some body =>
         Some (1, KoeReassembly msg_id (Z.of_nat n) (zlen (i :: got))
                    (clear_fragments n (r_fragments ctx2)) (r_frag_lengths ctx2),
               KoePacket (unfragmented (set_length
                   (u32 (foldr Z.add 0 (take n (r_frag_lengths ctx2)))) (p_header (frag i))))
                 (Some body), alloc (alloc w))
     end).
Proof.
  intros (H1 & H2 & Hrec & Hsame & H5) Hi Hlen Hheap.
  pose proof payload_len as Hl. pose proof (chunk_le i) as Hc. unfold KOE_MAX_PAYLOAD, zlen in Hl.
  unfold koe_packet_reassemble. rewrite frag_length.
  change (p_payload (frag i)) with (Some (msg_id ++ [Z.of_nat i; Z.of_nat n] ++ chunk_of m payload i)).
  cbv iota. destruct (Z.ltb_spec (18 + zlen (chunk_of m payload i)) 18); [unfold zlen in *; lia|].
  assert (Hguard : negb (r_received ctx =? 0) && negb (memeq 16 (r_msg_id ctx) msg_id) = false).
  { destruct (Z.eqb_spec (r_received ctx) 0) as [|Hr]; [done|]. simpl. apply negb_false_iff.
    destruct got as [|g got]; [by rewrite Hrec in Hr|]. destruct Hsame as [-> _]; [done|]. apply memeq_refl. }
  erewrite bind_lift by (rewrite lookup_app_r, Hid by lia; reflexivity).
  erewrite bind_lift by (rewrite lookup_app_r, Hid by lia; reflexivity).
  rewrite (bind_lift _ _ _ msg_id) by by apply peek_here.
  rewrite Hguard, bind_malloc_ok by done. clear Hguard. cbn [negb].
  replace (18 + zlen (chunk_of m payload i) - 18) with (zlen (chunk_of m payload i)) by lia.
  rewrite (bind_lift _ _ _ (chunk_of m payload i)).
  2:{ rewrite peek_skip, Hid by lia. unfold zlen. rewrite Nat2Z.id.
      rewrite peek_skip by (simpl; lia). simpl Nat.sub. apply peek_all. }
  rewrite Nat2Z.id.
  rewrite (u32_id (zlen _)) by (unfold zlen, KOE_MAX_PAYLOAD in *; lia).
  set (ctx1 := if r_received ctx =? 0 then _ else _).
  assert (Hctx1 : r_msg_id ctx1 = msg_id ∧ r_total_fragments ctx1 = Z.of_nat n
    ∧ r_received ctx1 = zlen got ∧ r_fragments ctx1 = r_fragments ctx
    ∧ r_frag_lengths ctx1 = r_frag_lengths ctx).
  { unfold ctx1. destruct (Z.eqb_spec (r_received ctx) 0) as [|Hr]; [done|].
    destruct got as [|g got]; [by rewrite Hrec in Hr|]. destruct Hsame as [? ?]; [done|]. done. }
  destruct Hctx1 as (-> & -> & -> & -> & ->).
  rewrite u8_id by (unfold byte_ok, zlen; lia).
  replace (zlen got + 1) with (zlen (i :: got)) by (unfold zlen; simpl; lia).
  cbn [r_received r_total_fragments r_fragments r_frag_lengths r_msg_id].
  case_decide.
  - destruct (Z.ltb_spec (zlen (i :: got)) (Z.of_nat n)); [done|]. unfold zlen in *. simpl in *. lia.
  - destruct (Z.ltb_spec (zlen (i :: got)) (Z.of_nat n)); [unfold zlen in *; simpl in *; lia|].
    rewrite bind_malloc_ok by done. cbn [negb]. rewrite Nat2Z.id.
    unfold mbind, M_bind, lift. by destruct (copy_fragments _ _ _).
Qed.

Lemma all_chunks_forall2 {A} (P : bytes → A → Prop) (l : list A) :
  (n ≤ length l)%nat →
  (∀ i, (i < n)%nat → ∃ x, l !! i = Some x ∧ P (chunk_of m payload i) x) →
  Forall2 P (chunk_of m payload <$> seq 0 n) (take n l).
Proof.
  intros Hl Hx. apply Forall2_same_length_lookup. split.
  - rewrite length_fmap, length_seq, length_take. lia.
  - intros i c x Hc Hi. apply list_lookup_fmap_Some in Hc as (j & -> & Hj).
    apply lookup_seq in Hj as [-> Hj]. rewrite lookup_take_lt in Hi by lia.
    destruct (Hx i Hj) as (x' & E & HP). simpl. congruence.
Qed.

(** Feeding the last missing fragment completes the packet. *)
Lemma reassemble_last got ctx i out w :
  holds got ctx → i :: got ≡ₚ seq 0 n → heap_ok w →
  ∃ ctx' w', same_env w w' ∧
    w ⊢ koe_packet_reassemble ctx (frag i) out
      ⇓ (1, ctx', KoePacket (unfragmented (p_header pkt)) (Some payload)) ⊣ w'.
Proof.
  intros Hg Hperm Hheap.
  assert (Hlen : S (length got) = n) by (apply Permutation_length in Hperm; by rewrite length_seq in Hperm).
  assert (Hi : (i < n)%nat).
  { assert (Hin : i ∈ seq 0 n) by (rewrite <-Hperm; set_solver). rewrite elem_of_seq in Hin. lia. }
  rewrite (reassemble_store got) by (done || lia).
  pose proof (holds_insert got ctx i Hg Hi) as (L1 & L2 & _ & _ & Hall).
  set (ctx2 := KoeReassembly _ _ _ _ _) in *. cbv zeta. rewrite decide_False by lia.
  assert (Hall' : ∀ j, (j < n)%nat → j ∈ i :: got) by (intros; rewrite Hperm, elem_of_seq; lia).
  assert (HF : Forall2 (λ c f, f = Some c) (chunk_of m payload <$> seq 0 n) (take n (r_fragments ctx2))).
  { apply all_chunks_forall2; [lia|]. intros j Hj. eexists. split; [by apply Hall, Hall'|done]. }
  assert (HL : Forall2 (λ c z, z = zlen c) (chunk_of m payload <$> seq 0 n)
                 (take n (r_frag_lengths ctx2))).
  { apply all_chunks_forall2; [lia|]. intros j Hj. eexists. split; [by apply Hall, Hall'|done]. }
  assert (Hjoin : mjoin (chunk_of m payload <$> seq 0 n) = payload)
    by (rewrite concat_chunks; apply take_ge; lia).
  assert (Hcopy : copy_fragments n (r_fragments ctx2) (r_frag_lengths ctx2) = Some payload).
  { rewrite <-(take_drop n (r_fragments ctx2)), <-(take_drop n (r_frag_lengths ctx2)).
    pose proof (copy_fragments_all _ _ _ HF HL) as Hc.
    rewrite length_fmap, length_seq in Hc. by rewrite Hc, Hjoin. }
  rewrite Hcopy, (sum_lengths _ _ HL), Hjoin, payload_len.
  eexists _, (alloc (alloc w)). split; [done|]. do 4 f_equal.
  assert (Hf : header_ok (p_header pkt)) by apply Hok.
  unfold frag, fragment_of. simpl p_header. rewrite unfragmented_frag_header by apply Hf.
  rewrite u32_id by apply Hf. by destruct (p_header pkt).
Qed.

Lemma feed_run order got ctx out w :
  holds got ctx → rev got ++ order ≡ₚ seq 0 n → order ≠ [] → heap_ok w →
  ∃ ctx' w', w ⊢ feed ctx (frag <$> order) out
    ⇓ (replicate (length order - 1) 0 ++ [1], ctx',
       KoePacket (unfragmented (p_header pkt)) (Some payload)) ⊣ w'.
Proof.
  revert got ctx out w. induction order as [|i order IH]; intros got ctx out w Hg Hperm Hne Hheap; [done|].
  assert (Hlen : (length got + S (length order) = n)%nat).
  { apply Permutation_length in Hperm. rewrite length_seq, length_app, length_rev in Hperm. simpl in Hperm. lia. }
  cbn [fmap list_fmap feed]. destruct order as [|j order].
  - destruct (reassemble_last got ctx i out w) as (ctx' & w' & _ & Hrun); [done| |done|].
    { rewrite <-Hperm. rewrite (Permutation_app_comm (rev got)). simpl. apply perm_skip. apply Permutation_rev. }
    erewrite bind_run by exact Hrun. cbn. by eexists _, _.
  - assert (Hi : (i < n)%nat).
    { assert (Hin : i ∈ seq 0 n) by (rewrite <-Hperm; set_solver). rewrite elem_of_seq in Hin. lia. }
    pose proof (reassemble_store got ctx i out w Hg Hi ltac:(lia) Hheap) as Hrun.
    cbv zeta in Hrun. rewrite decide_True in Hrun by (simpl in Hlen; lia).
    erewrite bind_run by exact Hrun. cbn [fst snd].
    edestruct (IH (i :: got)) as (ctx' & w' & Hrun');
      [by apply holds_insert|simpl; rewrite <-app_assoc; exact Hperm|done| |].
    { instantiate (1 := alloc w). done. }
    erewrite bind_run by exact Hrun'. cbn. rewrite Nat.sub_0_r. by eexists _, _.
Qed.
End Reassembling.

Lemma ctx_holds_zero msg_id m n payload : ctx_holds msg_id m n payload [] reassembly_zero.
Proof. split_and!; try done. set_solver. Qed.

(** * Correctness of the pair *)

(** A message of at most 255 fragments, fragmented and fed to a fresh context in
    any order, is reported incomplete until the last fragment arrives and then
    comes back whole: same addressing, same nonce, the fragment flags cleared,
    a fresh checksum. *)
Lemma fragment_reassemble_run pkt payload max_frags m n order out w :
  packet_ok pkt → p_payload pkt = Some payload → h_length (p_header pkt) ≤ KOE_MAX_PAYLOAD →
  (0 < m)%nat → Z.of_nat m ≤ KOE_MAX_PAYLOAD →
  ((n - 1) * m < length payload ≤ n * m)%nat → (n ≤ 255)%nat → Z.of_nat n ≤ max_frags →
  order ≡ₚ seq 0 n → heap_ok w →
  ∃ frags w1 ctx w2,
    w ⊢ koe_packet_fragment pkt max_frags (Z.of_nat m) ⇓ (Z.of_nat n, frags) ⊣ w1
    ∧ length frags = n
    ∧ w1 ⊢ feed reassembly_zero ((λ i, frags !!! i) <$> order) out
        ⇓ (replicate (n - 1) 0 ++ [1], ctx,
           KoePacket (unfragmented (p_header pkt)) (Some payload)) ⊣ w2.
Proof.
  intros Hok Hpay Hcap Hm HmZ [Hn1 Hn2] Hn Hmax Hperm Hheap.
  assert (Hl : zlen payload = h_length (p_header pkt)) by by apply payload_len.
  unfold KOE_MAX_PAYLOAD, zlen in *.
  destruct (koe_packet_fragment_run pkt payload m n Hok Hpay Hm Hn1 ltac:(lia)
              max_frags w Hn2 Hn Hheap Hmax) as (w1 & Henv & Hrun).
  assert (Hne : order ≠ []).
  { intros ->. apply Permutation_length in Hperm. rewrite length_seq in Hperm. simpl in Hperm.
    subst n. simpl in *. assert (0 < h_length (p_header pkt)) by (by eapply payload_length). lia. }
  assert (Hlo : length order = n) by (apply Permutation_length in Hperm; by rewrite length_seq in Hperm).
  destruct (feed_run pkt payload (random_bytes w 16) m n Hok Hpay Hcap (length_random_bytes _ _) Hn2 Hn
              order [] reassembly_zero out w1) as (ctx & w2 & Hfeed);
    [apply ctx_holds_zero|done|done|by eapply heap_ok_env|].
  eexists _, w1, ctx, w2. split; [exact Hrun|]. split; [by rewrite length_fmap, length_seq|].
  rewrite Hlo in Hfeed. rewrite <-Hfeed. f_equal.
  apply list_fmap_ext. intros i j Hj.
  assert (Hin : j ∈ seq 0 n) by (rewrite <-Hperm; by eapply list_elem_of_lookup_2).
  apply elem_of_seq in Hin. apply list_lookup_total_correct.
  rewrite list_lookup_fmap, lookup_seq_lt by lia. done.
Qed.

(** A validated packet that is not itself a fragment. *)
Lemma unfragmented_id h :
  byte_ok (h_flags h) → Z.land (h_flags h) 12 = 0 → h_checksum h = koe_packet_checksum h →
  unfragmented h = h.
Proof.
  intros Hb Hf Hck.
  assert (E : u8 (Z.land (h_flags h) (Z.lnot (Z.lor KOE_FLAG_FRAGMENTED KOE_FLAG_LAST_FRAG))) = h_flags h).
  { change (Z.lor KOE_FLAG_FRAGMENTED KOE_FLAG_LAST_FRAG) with 12.
    rewrite <-Z.ldiff_land.
    replace (Z.ldiff (h_flags h) 12) with (h_flags h); [by apply u8_id|].
    apply Z.bits_inj'. intros k Hk. rewrite Z.ldiff_spec.
    assert (Hz : Z.testbit (Z.land (h_flags h) 12) k = false) by (rewrite Hf; apply Z.testbit_0_l).
    rewrite Z.land_spec in Hz. destruct (Z.testbit (h_flags h) k), (Z.testbit 12 k); done. }
  unfold unfragmented. cbv zeta. rewrite E. replace (set_flags (h_flags h) h) with h by by destruct h.
  rewrite <-Hck. by destruct h.
Qed.

(** C11: the fragments of a valid packet that has neither fragment flag set and
    needs at most 255 of them, as many as the caller allows, each delivered once
    and in any order, reassemble to that very packet while memory lasts; every
    fragment before the last is answered 0, the last 1. (Beyond 255 the packet is
    cut short, [koe_packet_fragment_truncates].) *)
Theorem koe_packet_fragment_reassemble
    (pkt out : koe_packet_t) (payload : bytes) (max_frags : Z) (m n : nat)
    (order : list nat) (w : world) :
  packet_ok pkt → p_payload pkt = Some payload → h_length (p_header pkt) ≤ KOE_MAX_PAYLOAD →
  Z.land (h_flags (p_header pkt)) 12 = 0 → koe_packet_validate pkt = 0 →
  (0 < m)%nat → Z.of_nat m ≤ KOE_MAX_PAYLOAD →
  ((n - 1) * m < length payload ≤ n * m)%nat → (n ≤ 255)%nat → Z.of_nat n ≤ max_frags →
  order ≡ₚ seq 0 n → heap_ok w →
  ∃ frags w1 ctx w2,
    w ⊢ koe_packet_fragment pkt max_frags (Z.of_nat m) ⇓ (Z.of_nat n, frags) ⊣ w1
    ∧ length frags = n
    ∧ w1 ⊢ feed reassembly_zero ((λ i, frags !!! i) <$> order) out
        ⇓ (replicate (n - 1) 0 ++ [1], ctx, pkt) ⊣ w2.
Proof.
  intros Hok Hpay Hcap Hflag Hval Hm HmZ Hn1 Hn Hmax Hperm Hheap.
  destruct (fragment_reassemble_run pkt payload max_frags m n order out w) as (frags & w1 & ctx & w2 & H1 & H2 & H3);
    try done.
  exists frags, w1, ctx, w2. split_and!; try done. rewrite H3.
  apply koe_packet_validate_iff in Hval as (_ & _ & Hck); [|apply Hok].
  rewrite unfragmented_id; [|apply Hok|done|done]. rewrite <-Hpay. by destruct pkt.
Qed.

Definition fragment_witness_packet : koe_packet_t :=
  let h := set_length 7 (p_header (koe_packet_init (type_code KOE_TYPE_MSG) KOE_FLAG_ENCRYPTED)) in
  KoePacket (set_checksum (koe_packet_checksum h) h) (Some [1; 2; 3; 4; 5; 6; 7]).

Lemma koe_packet_fragment_reassemble_witness :
  ∃ frags w1 ctx w2,
    witness_world ⊢ koe_packet_fragment fragment_witness_packet 10 3 ⇓ (3, frags) ⊣ w1
    ∧ length frags = 3%nat
    ∧ w1 ⊢ feed reassembly_zero ((λ i, frags !!! i) <$> [2%nat; 0%nat; 1%nat]) witness_packet
        ⇓ ([0; 0; 1], ctx, fragment_witness_packet) ⊣ w2.
Proof.
  apply (koe_packet_fragment_reassemble fragment_witness_packet witness_packet [1; 2; 3; 4; 5; 6; 7]
           10 3 3 [2%nat; 0%nat; 1%nat] witness_world); try reflexivity.
  - apply (bool_decide_unpack _). vm_compute. exact I.
  - vm_compute. discriminate.
  - lia.
  - vm_compute. discriminate.
  - simpl. lia.
  - lia.
  - vm_compute. discriminate.
  - change (seq 0 3) with ([0%nat; 1%nat] ++ [2%nat]). apply (Permutation_cons_append _ 2%nat).
  - intros i. reflexivity.
Defined.

(** * Where the pair loses data *)

(** The fragment count is kept in eight bits: for a payload of
    [256 * k + r] chunks (0 < r < 256) only the first [r] chunks are emitted, all
    of them numbered "of [r]", and success is reported. *)
Lemma koe_packet_fragment_truncates
    (pkt : koe_packet_t) (payload : bytes) (m k r : nat) (w : world) :
  packet_ok pkt → p_payload pkt = Some payload → (0 < m)%nat → Z.of_nat m ≤ KOE_MAX_PAYLOAD →
  ((256 * k + r - 1) * m < length payload ≤ (256 * k + r) * m)%nat → (0 < r < 256)%nat → heap_ok w →
  ∃ frags w',
    w ⊢ koe_packet_fragment pkt 255 (Z.of_nat m) ⇓ (Z.of_nat r, frags) ⊣ w'
    ∧ mjoin ((λ f, drop 18 (default [] (p_payload f))) <$> frags) = take (r * m) payload.
Proof.
  intros Hok Hpay Hm HmZ [H1 H2] Hr Hheap. unfold KOE_MAX_PAYLOAD in HmZ.
  destruct (payload_length pkt payload Hok Hpay) as (Hlen & _ & _).
  assert (Hh : h_length (p_header pkt) < 2 ^ 32) by apply Hok. unfold zlen in Hlen.
  assert (Hq : (Z.of_nat (length payload) + Z.of_nat m - 1) `div` Z.of_nat m = Z.of_nat (256 * k + r)).
  { assert (HN : (0 < 256 * k + r)%nat) by lia. revert H1 H2 HN.
    generalize (256 * k + r)%nat. intros [|N] H1 H2 HN; [lia|]. simpl in H1. rewrite Nat.sub_0_r in H1.
    symmetry. apply (Z.div_unique_pos _ _ _
      (Z.of_nat (length payload) + Z.of_nat m - 1 - Z.of_nat (S N * m))); [simpl; lia|].
    rewrite Nat2Z.inj_mul. ring. }
  destruct (fragment_count_run pkt payload m r Hok Hpay Hm) with (max_frags := 255) (w := w)
    as (w' & _ & Hrun); try lia; try done.
  { unfold zlen. rewrite Hq. unfold u8. rewrite Nat2Z.inj_add, Nat2Z.inj_mul.
    change (Z.of_nat 256) with 256. lia. }
  eexists _, w'. split; [exact Hrun|]. rewrite <-concat_chunks. f_equal.
  rewrite <-list_fmap_compose. apply list_fmap_ext. intros _ i _.
  unfold compose, fragment_of. cbn [p_payload default from_option id].
  rewrite drop_app_ge by (rewrite length_random_bytes; lia). by rewrite length_random_bytes.
Qed.

Lemma koe_packet_fragment_truncates_witness :
  ∃ frags w',
    witness_world ⊢ koe_packet_fragment (zero_payload_packet 300) 255 1 ⇓ (44, frags) ⊣ w'
    ∧ mjoin ((λ f, drop 18 (default [] (p_payload f))) <$> frags) = zeros 44.
Proof.
  apply (koe_packet_fragment_truncates (zero_payload_packet 300) (zeros 300) 1 1 44 witness_world);
    try reflexivity; try (vm_compute; discriminate).
  - apply zero_payload_packet_ok. lia.
  - lia.
  - change (length (zeros 300)) with 300%nat. lia.
  - lia.
  - intros i. reflexivity.
Defined.

(** Fragment one packet twice and feed a selection of the fragments to one
    context; the codes and the packet last written. *)
Definition replay (pick : list koe_packet_t → list koe_packet_t → list koe_packet_t) (w : world)
  : option (list Z * koe_packet_t) :=
  r ← (f1 ← koe_packet_fragment fragment_witness_packet 10 4;
       f2 ← koe_packet_fragment fragment_witness_packet 10 4;
       feed reassembly_zero (pick f1.2 f2.2) witness_packet) w;
  Some (r.1.1.1, r.1.2).

(** Feeding the same fragment of a two-fragment message twice "completes" it:
    reassembly counts packets, not distinct fragments. The second slot is still
    NULL with length 0, so the message is the first chunk alone, with a valid
    checksum. *)
Lemma duplicate_fragment_completes :
  (λ r, (r.1, p_payload r.2, koe_packet_validate r.2))
    <$> replay (λ f _, [f !!! 0%nat; f !!! 0%nat]) witness_world
  = Some ([0; 1], Some [1; 2; 3; 4], 0).
Proof. vm_compute. reflexivity. Qed.

(** The context is not reset on completion: a second message fed to the same
    context is refused from its first fragment on. *)
Lemma context_not_reusable :
  fst <$> replay (λ f g, f ++ g) witness_world = Some [0; 1; -1; -1].
Proof. vm_compute. reflexivity. Qed.
