(* ===== verification/Crypto.v ===== *)
(** Cryptographic operations (src/koe_crypto.c, include/koe_crypto.h) over an
    interface to libsodium: identities and their encrypted file, short ids,
    session-key derivation, authenticated encryption, signatures and
    verification tokens. *)

From S2P Require Import Prelude.

(** * libsodium

    The functions of libsodium the program calls. [None] is a nonzero return
    code; a call that only fails for lack of memory ([crypto_pwhash]) is total
    here and its failure comes from the allocation oracle. Updates of a streaming
    hash hash the concatenation of their inputs. *)
Class Sodium := {
  sodium_init : Z;
  crypto_sign_seed_keypair : bytes → option (bytes * bytes);
  crypto_sign_detached : bytes → bytes → option bytes;
  crypto_sign_verify_detached : bytes → bytes → bytes → bool;
  crypto_scalarmult_base : bytes → option bytes;
  crypto_scalarmult : bytes → bytes → option bytes;
  aead_encrypt : bytes → bytes → bytes → option bytes;
  aead_decrypt : bytes → bytes → bytes → option bytes;
  generichash : nat → bytes → nat → bytes;
  crypto_pwhash : nat → bytes → bytes → bytes;
  crypto_hash_sha256 : bytes → bytes;
}.

(** What the program relies on: array sizes, signatures that verify, a
    Diffie-Hellman exchange that agrees, and authenticated encryption that
    inverts. Nothing is assumed about secrecy or unforgeability. *)
Class SodiumLaws `{Sodium} : Prop := {
  sign_keypair_total seed :
    array_ok 32 seed →
    ∃ pk sk, crypto_sign_seed_keypair seed = Some (pk, sk) ∧ array_ok 32 pk ∧ array_ok 64 sk;
  sign_verifies seed pk sk msg :
    array_ok 32 seed → crypto_sign_seed_keypair seed = Some (pk, sk) →
    ∃ sig, crypto_sign_detached msg sk = Some sig ∧ array_ok 64 sig
           ∧ crypto_sign_verify_detached sig msg pk = true;
  sign_detached_ok msg sk sig :
    array_ok 64 sk → crypto_sign_detached msg sk = Some sig → array_ok 64 sig;
  scalarmult_base_total sk :
    array_ok 32 sk → ∃ pk, crypto_scalarmult_base sk = Some pk ∧ array_ok 32 pk;
  scalarmult_agrees a b pa pb :
    array_ok 32 a → array_ok 32 b →
    crypto_scalarmult_base a = Some pa → crypto_scalarmult_base b = Some pb →
    ∃ s, crypto_scalarmult a pb = Some s ∧ crypto_scalarmult b pa = Some s ∧ array_ok 32 s;
  aead_roundtrip plain nonce key :
    bytes_ok plain → zlen plain < 2 ^ 32 → array_ok 24 nonce → array_ok 32 key →
    ∃ ct, aead_encrypt plain nonce key = Some ct ∧ array_ok (length plain + 16) ct
          ∧ aead_decrypt ct nonce key = Some plain;
  aead_decrypt_length ct nonce key plain :
    aead_decrypt ct nonce key = Some plain → length ct = (length plain + 16)%nat;
  aead_decrypt_ok ct nonce key plain :
    bytes_ok ct → aead_decrypt ct nonce key = Some plain → bytes_ok plain;
  generichash_ok i m n : (16 ≤ n ≤ 64)%nat → array_ok n (generichash i m n);
  crypto_pwhash_ok n pw salt : (16 ≤ n)%nat → array_ok n (crypto_pwhash n pw salt);
  crypto_hash_sha256_ok m : array_ok 32 (crypto_hash_sha256 m);
}.

(** * Types of koe_crypto.h *)
Record koe_identity_t := KoeIdentity { id_pk : bytes; id_sk : bytes }.
Record koe_ephemeral_t := KoeEphemeral { eph_pk : bytes; eph_sk : bytes }.
Record koe_session_t := KoeSession { tx_key : bytes; rx_key : bytes }.

#[export] Instance koe_identity_t_eq_dec : EqDecision koe_identity_t.
Proof. solve_decision. Defined.
#[export] Instance koe_ephemeral_t_eq_dec : EqDecision koe_ephemeral_t.
Proof. solve_decision. Defined.
#[export] Instance koe_session_t_eq_dec : EqDecision koe_session_t.
Proof. solve_decision. Defined.

Definition KOE_TAG_LEN : nat := 16.
Definition KOE_NONCE_LEN : nat := 24.
Definition KOE_VERIFY_TOKEN_TTL : Z := 30.

Definition identity_ok (id : koe_identity_t) : Prop :=
  array_ok 32 (id_pk id) ∧ array_ok 64 (id_sk id).
Definition ephemeral_ok (e : koe_ephemeral_t) : Prop :=
  array_ok 32 (eph_pk e) ∧ array_ok 32 (eph_sk e).
Definition session_ok (s : koe_session_t) : Prop :=
  array_ok 32 (tx_key s) ∧ array_ok 32 (rx_key s).
#[export] Instance identity_ok_dec id : Decision (identity_ok id).
Proof. unfold identity_ok. apply _. Defined.
#[export] Instance session_ok_dec s : Decision (session_ok s).
Proof. unfold session_ok. apply _. Defined.

(** * Operations of koe_crypto.c *)
Section Operations.
Context `{Sodium}.

Definition koe_crypto_init : Z := if sodium_init <? 0 then -1 else 0.

(** [crypto_sign_keypair] is [crypto_sign_seed_keypair] on a random seed. *)
Definition koe_identity_generate (id : koe_identity_t) : M (Z * koe_identity_t) :=
  seed ← randombytes_buf 32;
  match crypto_sign_seed_keypair seed with
  | Some (pk, sk) => mret (0, KoeIdentity pk sk)
  | None => mret (-1, id)
  end.

Definition koe_nonce_generate : M bytes := randombytes_buf KOE_NONCE_LEN.

(** The ciphertext, or nothing when the code is -1. *)
Definition koe_encrypt (plain nonce key : bytes) : option bytes := aead_encrypt plain nonce key.

Definition koe_decrypt (ct nonce key : bytes) : option bytes :=
  if decide (length ct < KOE_TAG_LEN)%nat then None else aead_decrypt ct nonce key.

Definition koe_sign (msg : bytes) (id : koe_identity_t) : option bytes :=
  crypto_sign_detached msg (id_sk id).

Definition koe_verify (sig msg pk : bytes) : Z :=
  if crypto_sign_verify_detached sig msg pk then 0 else -1.

(** [fwrite] of one chunk: the code ignores its result, so a write that fails
    leaves as much of the chunk in the file as the environment chooses, short of
    all of it. *)
Definition fwrite_chunk (file chunk : bytes) : M bytes :=
  ok ← syscall;
  if (ok : bool) then mret (file ++ chunk)
  else n ← randombytes_buf 4; mret (file ++ take (Z.to_nat (le_val n `mod` zlen chunk)) chunk).

Definition KOEID : bytes := [75; 79; 69; 73; 68].

Definition koe_identity_save (id : koe_identity_t) (path passphrase : bytes) : M Z :=
  salt ← randombytes_buf 16;
  ok ← malloc;
  if negb ok then mret (-1)
  else
    let enc_key := crypto_pwhash 32 passphrase salt in
    let plain := id_pk id ++ id_sk id in
    nonce ← koe_nonce_generate;
    match koe_encrypt plain nonce enc_key with
    | None => mret (-1)
    | Some ct =>
        opened ← syscall;
        if negb opened then mret (-1)
        else
          f ← fwrite_chunk [] KOEID;
          f ← fwrite_chunk f salt;
          f ← fwrite_chunk f nonce;
          f ← fwrite_chunk f ct;
          _ ← fwrite_file path f;
          mret 0
    end.

Definition koe_identity_load (id : koe_identity_t) (path passphrase : bytes)
  : M (Z * koe_identity_t) :=
  file ← fopen_rb path;
  match file with
  | None => mret (-1, id)
  | Some f =>
      match peek f 0 5 with
      | None => mret (-1, id)
      | Some magic =>
          if negb (memeq 5 magic KOEID) then mret (-1, id)
          else
            match peek f 5 16, peek f 21 24, peek f 45 112 with
            | Some salt, Some nonce, Some ct =>
                ok ← malloc;
                if negb ok then mret (-1, id)
                else
                  match koe_decrypt ct nonce (crypto_pwhash 32 passphrase salt) with
                  | None => mret (-1, id)
                  | Some plain =>
                      pk ← lift (peek plain 0 32);
                      sk ← lift (peek plain 32 64);
                      mret (0, KoeIdentity pk sk)
                  end
            | _, _, _ => mret (-1, id)
            end
      end
  end.

(** The base58 alphabet, as ASCII codes. *)
Definition B58_ALPHA : bytes :=
  [49;50;51;52;53;54;55;56;57;
   65;66;67;68;69;70;71;72;74;75;76;77;78;80;81;82;83;84;85;86;87;88;89;90;
   97;98;99;100;101;102;103;104;105;106;107;109;110;111;112;113;114;115;116;117;118;119;120;121;122].

(** The [do]/[while] loop: [pos] is the write position before the iteration and
    [acc] what is already in [tmp[pos..]]. Returns the final position. *)
Fixpoint b58_loop (pos : nat) (val : Z) (acc : bytes) : nat * bytes :=
  match pos with
  | O => (O, acc)
  | S pos' =>
      let acc := B58_ALPHA !!! Z.to_nat (val `mod` 58) :: acc in
      let val := val `div` 58 in
      if negb (val =? 0) && (0 <? pos')%nat then b58_loop pos' val acc else (pos', acc)
  end.

Definition koe_identity_short_id (pk : bytes) : bytes :=
  let val := foldl (λ v b, u64 (Z.lor (Z.shiftl v 8) b)) 0 (take 8 pk) in
  let '(pos, tmp) := b58_loop 15 val [] in
  strncpy (zeros 16) (replicate pos 49 ++ tmp) 15.

(** [crypto_box_keypair]: a random secret and its public point. *)
Definition koe_ephemeral_generate (eph : koe_ephemeral_t) : M (Z * koe_ephemeral_t) :=
  sk ← randombytes_buf 32;
  match crypto_scalarmult_base sk with
  | Some pk => mret (0, KoeEphemeral pk sk)
  | None => mret (-1, KoeEphemeral (eph_pk eph) sk)
  end.

Definition koe_session_derive (sess : koe_session_t) (local_eph : koe_ephemeral_t)
    (remote_eph : bytes) (local_id : koe_identity_t) (remote_pk : bytes) (initiator : bool)
  : Z * koe_session_t * koe_ephemeral_t :=
  match crypto_scalarmult (eph_sk local_eph) remote_eph with
  | None => (-1, sess, local_eph)
  | Some dh =>
      let local_eph := KoeEphemeral (eph_pk local_eph) (zeros 32) in
      let transcript := if initiator then dh ++ id_pk local_id ++ remote_pk
                        else dh ++ remote_pk ++ id_pk local_id in
      let combined := generichash 32 transcript 64 in
      let sess := if initiator then KoeSession (take 32 combined) (drop 32 combined)
                  else KoeSession (drop 32 combined) (take 32 combined) in
      (0, sess, local_eph)
  end.

(** ["%06u"] of a value below a million. *)
Definition six_digits (v : Z) : bytes :=
  (λ k, 48 + (v `div` 10 ^ k) `mod` 10) <$> [5; 4; 3; 2; 1; 0].

Definition token_of (nonce pk : bytes) : bytes :=
  six_digits (le_val (take 4 (generichash 32 (nonce ++ pk) 32)) `mod` 1000000).

(** [token_out] and [nonce_out]. *)
Definition koe_verify_token_generate (pk : bytes) : M (Z * bytes * bytes) :=
  nonce ← randombytes_buf 16;
  mret (0, token_of nonce pk ++ [0], nonce).

(** The subtraction is signed: overflow is undefined. *)
Definition koe_verify_token_check (token nonce pk : bytes) (issued_at_unix : Z) : M Z :=
  now ← time_null;
  age ← lift (sub64 now issued_at_unix);
  if KOE_VERIFY_TOKEN_TTL <? age then mret (-1)
  else
    given ← lift (peek token 0 6);
    mret (if memeq 6 given (token_of nonce pk) then 0 else -1).

Definition koe_memzero (buf : bytes) (len : nat) : option bytes := poke buf 0 (zeros len).

End Operations.

(** * A small implementation of the interface

    Not cryptography: it only shows that the laws are consistent, and lets the
    definitions run on concrete inputs. *)
Definition toy_sum (m : bytes) : Z := foldr (λ b acc, acc * 31 + b + 7) 1 m.
Definition toy_hash (n : nat) (m : bytes) : bytes := le_bytes n (toy_sum m).

Definition toy_base (sk : bytes) : bytes := le_bytes 32 (2 * le_val sk + 1).
#[global] Arguments toy_base : simpl never.
Definition toy_scalarmult (a pb : bytes) : option bytes :=
  if decide (pb = zeros 32) then None
  else Some (le_bytes 32 ((2 * le_val a + 1) * le_val pb)).

Definition toy_decrypt (ct nonce key : bytes) : option bytes :=
  let plain := take (length ct - 16) ct in
  if decide (16 ≤ length ct ∧ drop (length ct - 16) ct = toy_hash 16 (key ++ nonce ++ plain))%nat
  then Some plain else None.

#[local] Instance toy_sodium : Sodium := {|
  sodium_init := 0;
  crypto_sign_seed_keypair seed := Some (seed, seed ++ seed);
  crypto_sign_detached msg sk := Some (take 32 sk ++ toy_hash 32 msg);
  crypto_sign_verify_detached sig msg pk := bool_decide (sig = pk ++ toy_hash 32 msg);
  crypto_scalarmult_base sk := Some (toy_base sk);
  crypto_scalarmult := toy_scalarmult;
  aead_encrypt plain nonce key := Some (plain ++ toy_hash 16 (key ++ nonce ++ plain));
  aead_decrypt := toy_decrypt;
  generichash i m n := toy_hash n (Z.of_nat i :: m);
  crypto_pwhash n pw salt := toy_hash n (pw ++ salt);
  crypto_hash_sha256 m := toy_hash 32 m;
|}.

Lemma toy_hash_ok n m : array_ok n (toy_hash n m).
Proof. split; [apply length_le_bytes|apply le_bytes_ok]. Qed.

Lemma le_bytes_mod n x : le_bytes n (x `mod` 256 ^ Z.of_nat n) = le_bytes n x.
Proof.
  revert x; induction n as [|n IH]; intros x; [done|].
  cbn [le_bytes]. rewrite Nat2Z.inj_succ, Z.pow_succ_r by lia.
  rewrite Z.rem_mul_r by lia. f_equal; [lia|].
  rewrite <-(IH (x `div` 256)), <-(IH ((_ + _) `div` 256)). f_equal.
  replace ((x `mod` 256 + 256 * ((x `div` 256) `mod` 256 ^ Z.of_nat n)) `div` 256)
    with ((x `div` 256) `mod` 256 ^ Z.of_nat n) by lia.
  apply Zmod_mod.
Qed.

Lemma toy_base_odd a :
  (∃ k, le_val (toy_base a) = 2 * le_val a + 1 - 2 ^ 256 * k) ∧ toy_base a ≠ zeros 32.
Proof.
  unfold toy_base. generalize (le_val a). intros x.
  assert (E : le_val (le_bytes 32 (2 * x + 1)) = (2 * x + 1) `mod` 2 ^ 256).
  { rewrite <-le_bytes_mod. apply le_val_le_bytes. change (256 ^ Z.of_nat 32) with (2 ^ 256). lia. }
  split; [exists ((2 * x + 1) `div` 2 ^ 256); rewrite E; lia|].
  intros Hz. rewrite Hz in E. change (le_val (zeros 32)) with 0 in E. lia.
Qed.

#[local] Instance toy_laws : SodiumLaws.
Proof.
  split.
  - intros seed Hs. exists seed, (seed ++ seed). split_and!; [done..|].
    destruct Hs as [Hl Hb]. split; [rewrite length_app; lia|by apply bytes_ok_app].
  - intros seed pk sk msg [Hl Hb] [= <- <-]. eexists. split; [reflexivity|].
    destruct (toy_hash_ok 32 msg) as [Hh1 Hh2].
    cbn [crypto_sign_verify_detached]. rewrite take_app_le, take_ge by lia. split.
    + split; [rewrite length_app; lia|by apply bytes_ok_app].
    + by apply bool_decide_eq_true.
  - intros msg sk sig [Hl Hb] [= <-]. destruct (toy_hash_ok 32 msg) as [Hh1 Hh2].
    split; [rewrite length_app, length_take; lia|]. apply bytes_ok_app. split; [by apply Forall_take|done].
  - intros sk _. eexists. split; [reflexivity|]. split; [apply length_le_bytes|apply le_bytes_ok].
  - intros a b pa pb Ha Hb [= <-] [= <-].
    destruct (toy_base_odd a) as [[k E] Hne], (toy_base_odd b) as [[k' E'] Hne'].
    change crypto_scalarmult with toy_scalarmult. unfold toy_scalarmult.
    rewrite !decide_False by done. rewrite E, E'. eexists. split; [reflexivity|].
    split; [|split; [apply length_le_bytes|apply le_bytes_ok]].
    f_equal. generalize (le_val a), (le_val b). clear. intros x y.
    rewrite <-(le_bytes_mod 32 ((2 * x + 1) * _)), <-(le_bytes_mod 32 ((2 * y + 1) * _)). f_equal.
    change (256 ^ Z.of_nat 32) with (2 ^ 256). generalize (2 ^ 256). intros m.
    replace ((2 * y + 1) * (2 * x + 1 - m * k)) with ((2 * x + 1) * (2 * y + 1) + (- k * (2 * y + 1)) * m) by ring.
    replace ((2 * x + 1) * (2 * y + 1 - m * k')) with ((2 * x + 1) * (2 * y + 1) + (- k' * (2 * x + 1)) * m) by ring.
    by rewrite !Z_mod_plus_full.
  - intros plain nonce key Hp _ _ _. eexists. split; [reflexivity|].
    destruct (toy_hash_ok 16 (key ++ nonce ++ plain)) as [Hh1 Hh2]. split.
    + split; [rewrite length_app; lia|by apply bytes_ok_app].
    + change aead_decrypt with toy_decrypt. unfold toy_decrypt. rewrite length_app, Hh1.
      replace (length plain + 16 - 16)%nat with (length plain) by lia.
      rewrite take_app_length, drop_app_length. by rewrite decide_True by (split; [lia|done]).
  - intros ct nonce key plain. change aead_decrypt with toy_decrypt.
    unfold toy_decrypt. case_decide; [|done].
    intros [= <-]. rewrite length_take. lia.
  - intros ct nonce key plain Hct. change aead_decrypt with toy_decrypt. unfold toy_decrypt.
    case_decide; [|done]. intros [= <-]. by apply bytes_ok_take.
  - intros. apply toy_hash_ok.
  - intros. apply toy_hash_ok.
  - intros. apply toy_hash_ok.
Qed.

(** * Identities *)

(** [id] came out of key generation. *)
Definition keypair `{Sodium} (id : koe_identity_t) : Prop :=
  ∃ seed, array_ok 32 seed ∧ crypto_sign_seed_keypair seed = Some (id_pk id, id_sk id).

Section Identities.
Context `{SodiumLaws}.

Lemma keypair_ok id : keypair id → identity_ok id.
Proof.
  intros (seed & Hs & E). destruct (sign_keypair_total seed Hs) as (pk & sk & E' & ? & ?).
  unfold identity_ok. naive_solver congruence.
Qed.

Lemma koe_identity_generate_run old w :
  ∃ id, w ⊢ koe_identity_generate old ⇓ (0, id) ⊣ draw w ∧ keypair id.
Proof.
  destruct (sign_keypair_total (random_bytes w 32)) as (pk & sk & E & _); [auto with koe|].
  exists (KoeIdentity pk sk). unfold koe_identity_generate. rewrite bind_random, E.
  split; [done|]. exists (random_bytes w 32). auto with koe.
Qed.

Lemma koe_sign_verify id msg :
  keypair id → ∃ sig, koe_sign msg id = Some sig ∧ array_ok 64 sig ∧ koe_verify sig msg (id_pk id) = 0.
Proof.
  intros (seed & Hs & E). destruct (sign_verifies seed _ _ msg Hs E) as (sig & ? & ? & Hv).
  exists sig. unfold koe_verify. by rewrite Hv.
Qed.

Lemma koe_decrypt_encrypt plain nonce key :
  bytes_ok plain → zlen plain < 2 ^ 32 → array_ok 24 nonce → array_ok 32 key →
  ∃ ct, koe_encrypt plain nonce key = Some ct ∧ array_ok (length plain + 16) ct
        ∧ koe_decrypt ct nonce key = Some plain.
Proof.
  intros Hp Hl Hn Hk. destruct (aead_roundtrip plain nonce key) as (ct & E & [Hlen Hb] & D); try done.
  exists ct. split_and!; [done..|]. unfold koe_decrypt, KOE_TAG_LEN.
  by rewrite decide_False by lia.
Qed.

Lemma koe_decrypt_length ct nonce key plain :
  koe_decrypt ct nonce key = Some plain → length ct = (length plain + 16)%nat.
Proof. unfold koe_decrypt. case_decide; [done|]. apply aead_decrypt_length. Qed.

(** The file [koe_identity_save] writes, as the loader splits it. *)
Lemma identity_file_fields salt nonce ct :
  length salt = 16%nat → length nonce = 24%nat → length ct = 112%nat →
  let f := KOEID ++ salt ++ nonce ++ ct in
  peek f 0 5 = Some KOEID ∧ peek f 5 16 = Some salt ∧ peek f 21 24 = Some nonce
  ∧ peek f 45 112 = Some ct.
Proof.
  intros Hs Hn Hc f. unfold f. split_and!.
  - by apply peek_here.
  - by rewrite peek_skip, peek_here.
  - by rewrite peek_skip, peek_skip, peek_here by (simpl; lia).
  - rewrite !peek_skip by (simpl; lia). rewrite Hs, Hn. simpl Nat.sub. rewrite <-Hc. apply peek_all.
Qed.

(** The file at [path] holds [id] under [passphrase]. *)
Definition identity_saved (fs : gmap bytes bytes) (path passphrase : bytes) (id : koe_identity_t) : Prop :=
  ∃ salt nonce ct, length salt = 16%nat ∧ length nonce = 24%nat ∧ length ct = 112%nat
    ∧ fs !! path = Some (KOEID ++ salt ++ nonce ++ ct)
    ∧ koe_decrypt ct nonce (crypto_pwhash 32 passphrase salt) = Some (id_pk id ++ id_sk id).

Lemma bind_fwrite_chunk_ok {B} (k : bytes → M B) f chunk w :
  io_ok w → (fwrite_chunk f chunk ≫= k) w = k (f ++ chunk) (iotick w).
Proof. intros Hio. unfold fwrite_chunk, mbind, M_bind, syscall. by rewrite Hio. Qed.

Lemma fwrite_chunk_any f chunk w : ∃ l w', w ⊢ fwrite_chunk f chunk ⇓ f ++ l ⊣ w' ∧ w_fs w' = w_fs w.
Proof. unfold fwrite_chunk, mbind, M_bind, syscall. destruct (w_io w (w_ios w)); by eexists _, _. Qed.

Lemma koe_identity_save_run id path passphrase w :
  identity_ok id → heap_ok w → io_ok w →
  runs w (koe_identity_save id path passphrase) (λ rc w', rc = 0
    ∧ identity_saved (w_fs w') path passphrase id ∧ ∀ p, p ≠ path → w_fs w' !! p = w_fs w !! p).
Proof.
  intros [[Hpk Hpkb] [Hsk Hskb]] Hheap Hio.
  set (salt := random_bytes w 16). set (nonce := random_bytes (alloc (draw w)) 24).
  destruct (koe_decrypt_encrypt (id_pk id ++ id_sk id) nonce (crypto_pwhash 32 passphrase salt))
    as (ct & Henc & [Hct Hctb] & Hdec).
  { by apply bytes_ok_app. }
  { unfold zlen. rewrite length_app. lia. }
  { apply random_array_ok. }
  { apply crypto_pwhash_ok. lia. }
  rewrite length_app, Hpk, Hsk in Hct.
  eexists _, _. split; [|split; [|split; [reflexivity|split]]].
  - unfold koe_identity_save, koe_nonce_generate, KOE_NONCE_LEN. fold salt.
    rewrite bind_random, bind_malloc_ok by done. cbn [negb].
    rewrite bind_random. fold salt nonce. rewrite Henc.
    rewrite bind_syscall_ok by done. cbn [negb]. do 4 rewrite bind_fwrite_chunk_ok by done. reflexivity.
  - done.
  - exists salt, nonce, ct. split_and!; [apply length_random_bytes..|lia| |done].
    cbn [w_fs set_fs]. by rewrite lookup_insert_eq.
  - intros p Hp. cbn [w_fs set_fs iotick draw alloc]. by rewrite lookup_insert_ne.
Qed.

Lemma koe_identity_load_run id old path passphrase w :
  identity_ok id → heap_ok w → io_ok w → identity_saved (w_fs w) path passphrase id →
  w ⊢ koe_identity_load old path passphrase ⇓ (0, id) ⊣ alloc (iotick w).
Proof.
  intros [[Hpk Hpkb] [Hsk Hskb]] Hheap Hio (salt & nonce & ct & Hs & Hn & Hc & Hf & Hdec).
  destruct (identity_file_fields salt nonce ct) as (F1 & F2 & F3 & F4); [done..|].
  unfold koe_identity_load. rewrite bind_fopen_ok, Hf, F1, memeq_refl, F2, F3, F4 by done.
  cbn [negb]. rewrite bind_malloc_ok by done. cbn [negb]. mrun.
  rewrite Hdec. rewrite peek_here by done. rewrite peek_skip, Hpk by lia.
  cbn [Nat.sub]. rewrite <-Hsk, peek_all. by destruct id.
Qed.

(** C36: an identity saved under a passphrase is loaded back unchanged under the
    same passphrase, whatever else was in the structure and whenever the load
    happens, as long as the file is the one that was written and can be opened
    and read. *)
Theorem koe_identity_save_load (id old : koe_identity_t) (path passphrase : bytes) (w : world) :
  identity_ok id → heap_ok w → io_ok w →
  ∃ w1, w ⊢ koe_identity_save id path passphrase ⇓ 0 ⊣ w1
    ∧ ∀ w2, heap_ok w2 → io_ok w2 → w_fs w2 !! path = w_fs w1 !! path →
      ∃ w3, w2 ⊢ koe_identity_load old path passphrase ⇓ (0, id) ⊣ w3.
Proof.
  intros Hok Hheap Hio.
  destruct (koe_identity_save_run id path passphrase w Hok Hheap Hio) as (rc & w1 & R & _ & -> & Hsaved & _).
  exists w1. split; [done|]. intros w2 Hheap2 Hio2 Hfs. eexists. apply koe_identity_load_run; [done..|].
  unfold identity_saved in *. by rewrite Hfs.
Qed.

(** Loading never reads outside its buffers; when it fails, the identity is
    untouched and the files are as before. *)
Lemma koe_identity_load_total old path passphrase w :
  ∃ rc id w', w ⊢ koe_identity_load old path passphrase ⇓ (rc, id) ⊣ w'
    ∧ w_fs w' = w_fs w ∧ ((rc = -1 ∧ id = old) ∨ rc = 0).
Proof.
  unfold koe_identity_load. mrun. destruct (if w_io _ _ then _ else None) as [f|]; [|by eauto 10].
  destruct (peek f 0 5) as [magic|]; [|by eauto 10].
  destruct (memeq 5 magic KOEID); cbn [negb]; [|by eauto 10].
  destruct (peek f 5 16) as [salt|]; [|by eauto 10].
  destruct (peek f 21 24) as [nonce|]; [|by eauto 10].
  destruct (peek f 45 112) as [ct|] eqn:Hct; [|by eauto 10]. mrun.
  destruct (w_heap w (w_allocs w)); cbn [negb]; [|by eauto 10].
  destruct (koe_decrypt _ _ _) as [plain|] eqn:Hd; [|by eauto 10].
  apply koe_decrypt_length in Hd. apply peek_Some in Hct as [Hct _].
  unfold peek. rewrite !decide_True by lia. by eauto 10.
Qed.
End Identities.

#[export] Hint Resolve keypair_ok : koe.

(** * Short ids *)

(** The value a base58 string stands for. *)
Definition b58_digit (c : Z) : Z := from_option (λ p, Z.of_nat p.1) 0 (list_find (c =.) B58_ALPHA).
Definition b58_value (s : bytes) : Z := foldl (λ v c, v * 58 + b58_digit c) 0 s.

Lemma b58_digit_alpha (d : Z) :
  0 ≤ d < 58 → b58_digit (B58_ALPHA !!! Z.to_nat d) = d ∧ 49 ≤ B58_ALPHA !!! Z.to_nat d ≤ 122.
Proof.
  intros Hd.
  assert (Hall : Forall (λ d : Z, b58_digit (B58_ALPHA !!! Z.to_nat d) = d
                            ∧ 49 ≤ B58_ALPHA !!! Z.to_nat d ≤ 122) (Z.of_nat <$> seq 0 58)).
  { apply (bool_decide_unpack _). vm_compute. exact I. }
  rewrite Forall_forall in Hall. apply Hall.
  apply list_elem_of_fmap. exists (Z.to_nat d). rewrite elem_of_seq. lia.
Qed.

Lemma b58_value_cons c s : b58_value (c :: s) = b58_digit c * 58 ^ zlen s + b58_value s.
Proof.
  unfold b58_value. simpl. generalize (b58_digit c). intros v.
  assert (Hg : ∀ a, foldl (λ v c, v * 58 + b58_digit c) a s
                    = a * 58 ^ zlen s + foldl (λ v c, v * 58 + b58_digit c) 0 s); [|by rewrite Hg].
  induction s as [|c' s IH]; intros a; [unfold zlen; simpl; lia|].
  cbn [foldl]. rewrite (IH (a * 58 + _)), (IH (0 * 58 + _)). unfold zlen. simpl length.
  rewrite Nat2Z.inj_succ, Z.pow_succ_r by lia. ring.
Qed.

Lemma b58_value_ones n s : b58_value (replicate n 49 ++ s) = b58_value s.
Proof.
  induction n as [|n IH]; [done|]. simpl. rewrite b58_value_cons, IH.
  change (b58_digit 49) with 0. lia.
Qed.

Lemma B58_ALPHA_byte i : byte_ok (B58_ALPHA !!! i).
Proof.
  rewrite list_lookup_total_alt. destruct (B58_ALPHA !! i) as [b|] eqn:E; [|done].
  assert (bytes_ok B58_ALPHA) as Hok by (apply (bool_decide_unpack _); vm_compute; exact I).
  exact (Forall_lookup_1 _ _ _ _ Hok E).
Qed.
Lemma b58_loop_bytes pos val acc : bytes_ok acc → bytes_ok (b58_loop pos val acc).2.
Proof.
  revert val acc. induction pos as [|pos IH]; intros val acc Ha; cbn [b58_loop]; [done|].
  destruct (negb _ && _); [apply IH|]; constructor; auto using B58_ALPHA_byte.
Qed.
Lemma koe_identity_short_id_bytes pk : bytes_ok (koe_identity_short_id pk).
Proof.
  unfold koe_identity_short_id. set (val := foldl _ _ _). pose proof (b58_loop_bytes 15 val [] (Forall_nil_2 _)) as Hb.
  destruct (b58_loop 15 val []) as [pos tmp]. apply bytes_ok_strncpy, bytes_ok_app. split; [|exact Hb].
  apply Forall_replicate. unfold byte_ok. lia.
Qed.

(** The loop prepends the digits of [val]; fifteen places are enough. *)
Lemma b58_loop_spec pos val acc :
  (0 < pos)%nat → 0 ≤ val < 58 ^ Z.of_nat pos → Forall (λ c, 49 ≤ c ≤ 122) acc →
  let '(pos', tmp) := b58_loop pos val acc in
  (pos' + length tmp = pos + length acc)%nat
  ∧ b58_value tmp = val * 58 ^ zlen acc + b58_value acc
  ∧ Forall (λ c, 49 ≤ c ≤ 122) tmp.
Proof.
  revert val acc. induction pos as [|pos IH]; intros val acc Hpos Hval Hacc; [lia|].
  rewrite Nat2Z.inj_succ, Z.pow_succ_r in Hval by lia. cbn [b58_loop].
  destruct (b58_digit_alpha (val `mod` 58)) as [Hd Hr]; [lia|].
  set (c := B58_ALPHA !!! _) in *. 
  assert (Hc : b58_value (c :: acc) = val `mod` 58 * 58 ^ zlen acc + b58_value acc)
    by (by rewrite b58_value_cons, Hd).
  assert (Hz : 58 ^ zlen (c :: acc) = 58 * 58 ^ zlen acc).
  { unfold zlen. simpl length. by rewrite Nat2Z.inj_succ, Z.pow_succ_r by lia. }
  destruct (Z.eqb_spec (val `div` 58) 0) as [E|E]; cbn [negb andb].
  - rewrite Hc. split_and!; [simpl; lia| |by constructor]. by replace (val `mod` 58) with val by lia.
  - assert (Hpos' : (0 < pos)%nat) by (destruct pos; [simpl in Hval|]; lia).
    destruct (Nat.ltb_spec 0 pos); [|lia].
    specialize (IH (val `div` 58) (c :: acc) Hpos' ltac:(lia) ltac:(by constructor)).
    destruct (b58_loop _ _ _) as [pos' tmp]. destruct IH as (H1 & H2 & H3).
    split_and!; [simpl in *; lia| |done]. rewrite H2, Hc, Hz.
    rewrite (Z.div_mod val 58) at 3 by lia. ring.
Qed.

Lemma pack_be l : bytes_ok l → (length l ≤ 8)%nat →
  foldl (λ v b, u64 (Z.lor (Z.shiftl v 8) b)) 0 l = be_val l ∧ 0 ≤ be_val l < 256 ^ zlen l.
Proof.
  induction l as [|b l IH] using rev_ind; intros Hl Hlen; [by vm_compute|].
  rewrite length_app in Hlen. simpl in Hlen. apply bytes_ok_app in Hl as [Hl Hb].
  apply Forall_cons_1 in Hb as [Hb _]. destruct IH as [IH Hbd]; [done|lia|].
  rewrite foldl_app, IH. cbn [foldl]. unfold be_val in *. rewrite reverse_app, reverse_singleton.
  cbn [app le_val]. unfold zlen in *. rewrite length_app. simpl length.
  rewrite Nat2Z.inj_add, Z.pow_add_r by lia. change (256 ^ Z.of_nat 1) with 256.
  assert (256 ^ Z.of_nat (length l) ≤ 256 ^ 7) by (apply Z.pow_le_mono_r; lia).
  rewrite lor_shiftl_byte by exact Hb. unfold byte_ok in Hb. rewrite u64_id; lia.
Qed.

(** C40: the short id of a public key is always fifteen base58 characters and a
    terminator, and it decodes to the first eight bytes of the key, read as a
    big-endian number: two keys share a short id exactly when they share those
    bytes. *)
Theorem koe_identity_short_id_injective (pk pk' : bytes) :
  array_ok 32 pk → array_ok 32 pk' →
  length (koe_identity_short_id pk) = 16%nat
  ∧ length (cstr (koe_identity_short_id pk)) = 15%nat
  ∧ b58_value (cstr (koe_identity_short_id pk)) = be_val (take 8 pk)
  ∧ (koe_identity_short_id pk = koe_identity_short_id pk' ↔ take 8 pk = take 8 pk').
Proof.
  assert (Hone : ∀ pk, array_ok 32 pk →
    length (koe_identity_short_id pk) = 16%nat
    ∧ length (cstr (koe_identity_short_id pk)) = 15%nat
    ∧ b58_value (cstr (koe_identity_short_id pk)) = be_val (take 8 pk)).
  { intros k [Hl Hb]. unfold koe_identity_short_id.
    destruct (pack_be (take 8 k)) as [-> Hbd]; [auto with koe|rewrite length_take; lia|].
    unfold zlen in Hbd. rewrite length_take, Hl in Hbd. change (256 ^ Z.of_nat (8 `min` 32)) with (2 ^ 64) in Hbd.
    pose proof (b58_loop_spec 15 (be_val (take 8 k)) [] ltac:(lia)) as Hspec.
    destruct (b58_loop _ _ _) as [pos tmp]. destruct Hspec as (H1 & H2 & H3); [|done|].
    { change (58 ^ Z.of_nat 15) with (58 * 58 ^ 14). lia. }
    simpl in H1. set (s := replicate pos 49 ++ tmp).
    assert (Hs : length s = 15%nat) by (unfold s; rewrite length_app, length_replicate; lia).
    assert (Hnn : nonul s).
    { apply Forall_app. split; [by apply Forall_replicate|]. eapply Forall_impl; [exact H3|]. simpl. lia. }
    rewrite length_strncpy by (unfold zeros; rewrite length_replicate; lia). rewrite cstr_strncpy_zeros, take_ge by (done || lia).
    split_and!; [done..|]. unfold s. rewrite b58_value_ones, H2. change (b58_value []) with 0.
    unfold zlen. simpl. lia. }
  intros Hpk Hpk'. destruct (Hone pk Hpk) as (? & ? & E), (Hone pk' Hpk') as (_ & _ & E').
  split_and!; [done..|]. split.
  - intros Heq. rewrite Heq, E' in E. destruct Hpk, Hpk'.
    apply be_val_inj; auto with koe. rewrite !length_take. lia.
  - unfold koe_identity_short_id. by intros ->.
Qed.

Lemma koe_identity_short_id_injective_witness :
  koe_identity_short_id (1 :: zeros 31) ≠ koe_identity_short_id (2 :: zeros 31).
Proof.
  destruct (koe_identity_short_id_injective (1 :: zeros 31) (2 :: zeros 31)) as (_ & _ & _ & Hiff).
  - apply (bool_decide_unpack _). vm_compute. exact I.
  - apply (bool_decide_unpack _). vm_compute. exact I.
  - intros Heq. apply Hiff in Heq. discriminate Heq.
Defined.

Lemma koe_identity_save_load_witness :
  let id := KoeIdentity (zeros 32) (zeros 64) in
  ∃ w1, world_at 0
        ⊢ koe_identity_save id [107] [112; 119] ⇓ 0 ⊣ w1
    ∧ ∀ w2, heap_ok w2 → io_ok w2 → w_fs w2 !! [107] = w_fs w1 !! [107] →
      ∃ w3, w2 ⊢ koe_identity_load (KoeIdentity [] []) [107] [112; 119] ⇓ (0, id) ⊣ w3.
Proof.
  apply (koe_identity_save_load (KoeIdentity (zeros 32) (zeros 64)) (KoeIdentity [] []) [107] [112; 119]).
  - apply (bool_decide_unpack _). vm_compute. exact I.
  - intros i. reflexivity.
  - intros i. reflexivity.
Defined.

Lemma fwrite_chunk_short f chunk w :
  chunk ≠ [] → w_io w (w_ios w) = false →
  ∃ l w', w ⊢ fwrite_chunk f chunk ⇓ f ++ l ⊣ w' ∧ (length l < length chunk)%nat
    ∧ w_io w' = w_io w ∧ w_ios w' = S (w_ios w).
Proof.
  intros Hne Hf. unfold fwrite_chunk, syscall. unfold mbind at 1, M_bind at 1. rewrite Hf.
  eexists _, _. split; [reflexivity|]. split; [|done]. rewrite length_take.
  assert (0 < zlen chunk) by (destruct chunk; [done|]; unfold zlen; cbn; lia).
  pose proof (Z.mod_pos_bound (le_val (random_bytes (iotick w) 4)) (zlen chunk)). unfold zlen in *. lia.
Qed.

(** [fwrite]'s result is ignored: with every write failing, saving still
    returns 0 and leaves a file that is cut short. *)
Lemma koe_identity_save_ignores_write_errors id path passphrase w ct :
  heap_ok w → w_io w (w_ios w) = true → (∀ i, (w_ios w < i)%nat → w_io w i = false) →
  koe_encrypt (id_pk id ++ id_sk id) (random_bytes (alloc (draw w)) 24)
    (crypto_pwhash 32 passphrase (random_bytes w 16)) = Some ct → ct ≠ [] →
  ∃ f w', w ⊢ koe_identity_save id path passphrase ⇓ 0 ⊣ w' ∧ w_fs w' !! path = Some f ∧ (length f < 45 + length ct)%nat.
Proof.
  intros Hheap Hopen Hfail Henc Hct. unfold koe_identity_save, koe_nonce_generate, KOE_NONCE_LEN.
  rewrite bind_random, bind_malloc_ok by done. cbn [negb]. rewrite bind_random, Henc.
  set (w0 := draw (alloc (draw w))). rewrite (bind_run syscall _ w0 true (iotick w0)) by (unfold syscall; by rewrite <-Hopen).
  cbn [negb]. assert (Hlate : ∀ w1 n, w_io w1 = w_io w → w_ios w1 = (S (w_ios w) + n)%nat → w_io w1 (w_ios w1) = false).
  { intros w1 n -> ->. apply Hfail. lia. }
  destruct (fwrite_chunk_short [] KOEID (iotick w0)) as (l1 & w1 & R1 & L1 & I1 & S1); [done|by apply (Hlate _ 0%nat)|].
  rewrite (bind_run _ _ _ _ _ R1).
  destruct (fwrite_chunk_short ([] ++ l1) (random_bytes w 16) w1) as (l2 & w2 & R2 & L2 & I2 & S2);
    [done|apply (Hlate _ 1%nat); [by rewrite I1|rewrite S1; cbn; lia]|].
  rewrite (bind_run _ _ _ _ _ R2).
  destruct (fwrite_chunk_short (([] ++ l1) ++ l2) (random_bytes (alloc (draw w)) 24) w2) as (l3 & w3 & R3 & L3 & I3 & S3);
    [done|apply (Hlate _ 2%nat); [by rewrite I2, I1|rewrite S2, S1; cbn; lia]|].
  rewrite (bind_run _ _ _ _ _ R3).
  destruct (fwrite_chunk_short ((([] ++ l1) ++ l2) ++ l3) ct w3) as (l4 & w4 & R4 & L4 & _);
    [done|apply (Hlate _ 3%nat); [by rewrite I3, I2, I1|rewrite S3, S2, S1; cbn; lia]|].
  rewrite (bind_run _ _ _ _ _ R4). eexists _, _. split; [reflexivity|]. split; [apply lookup_insert_eq|].
  rewrite length_random_bytes in L2, L3. rewrite !length_app. change (length KOEID) with 5%nat in L1. cbn [length]. lia.
Qed.

(** * Session keys *)

(** [e] came out of [koe_ephemeral_generate]. *)
Definition fresh_ephemeral `{Sodium} (e : koe_ephemeral_t) : Prop :=
  array_ok 32 (eph_sk e) ∧ crypto_scalarmult_base (eph_sk e) = Some (eph_pk e).

Section Sessions.
Context `{SodiumLaws}.

Lemma fresh_ephemeral_ok e : fresh_ephemeral e → ephemeral_ok e.
Proof.
  intros [Hs E]. destruct (scalarmult_base_total _ Hs) as (pk & E' & Hpk). unfold ephemeral_ok.
  naive_solver congruence.
Qed.

Lemma koe_ephemeral_generate_run old w :
  ∃ e, w ⊢ koe_ephemeral_generate old ⇓ (0, e) ⊣ draw w ∧ fresh_ephemeral e.
Proof.
  destruct (scalarmult_base_total (random_bytes w 32)) as (pk & E & Hpk); [auto with koe|].
  exists (KoeEphemeral pk (random_bytes w 32)). unfold koe_ephemeral_generate.
  rewrite bind_random, E. split; [done|]. split; [apply random_array_ok|done].
Qed.

(** Both sides of an exchange, whatever was in their structures before: the
    derivation succeeds, each side's sending key is the other's receiving key,
    and neither keeps its ephemeral secret. *)
Lemma koe_session_derive_agree sa sb ea eb ida idb :
  fresh_ephemeral ea → fresh_ephemeral eb →
  ∃ k1 k2, array_ok 32 k1 ∧ array_ok 32 k2
    ∧ koe_session_derive sa ea (eph_pk eb) ida (id_pk idb) true
      = (0, KoeSession k1 k2, KoeEphemeral (eph_pk ea) (zeros 32))
    ∧ koe_session_derive sb eb (eph_pk ea) idb (id_pk ida) false
      = (0, KoeSession k2 k1, KoeEphemeral (eph_pk eb) (zeros 32)).
Proof.
  intros [Ha Ea] [Hb Eb]. destruct (scalarmult_agrees _ _ _ _ Ha Hb Ea Eb) as (s & E1 & E2 & Hs).
  unfold koe_session_derive. rewrite E1, E2.
  set (c := generichash _ _ _).
  assert (Hc : array_ok 64 c) by (apply generichash_ok; lia). destruct Hc as [Hl Hok].
  exists (take 32 c), (drop 32 c). split_and!; [..|done|done].
  - split; [rewrite length_take; lia|auto with koe].
  - split; [rewrite length_drop; lia|auto with koe].
Qed.
End Sessions.

(** The secret of a failed exchange is not erased. *)
Lemma koe_session_derive_failure_keeps_secret `{Sodium} sess eph remote id pk i :
  crypto_scalarmult (eph_sk eph) remote = None →
  koe_session_derive sess eph remote id pk i = (-1, sess, eph).
Proof. intros E. unfold koe_session_derive. by rewrite E. Qed.

(** * Verification tokens *)
Lemma length_token_of `{Sodium} nonce pk : length (token_of nonce pk) = 6%nat.
Proof. done. Qed.

(** The number a string of decimal digits stands for. *)
Definition decimal_value (s : bytes) : Z := foldl (λ v c, 10 * v + (c - 48)) 0 s.

Lemma decimal_value_six_digits v : 0 ≤ v < 1000000 → decimal_value (six_digits v) = v.
Proof. intros Hv. unfold decimal_value, six_digits. cbn [fmap list_fmap foldl]. cbn. lia. Qed.

(** The check accepts whatever starts with the six digits, at any time up to
    thirty seconds after the issue. *)
Lemma koe_verify_token_check_run `{Sodium} token nonce pk issued w :
  0 ≤ now w < 2 ^ 62 → 0 ≤ issued < 2 ^ 62 → (6 ≤ length token)%nat →
  w ⊢ koe_verify_token_check token nonce pk issued
    ⇓ (if decide (now w ≤ issued + 30 ∧ take 6 token = token_of nonce pk) then 0 else -1) ⊣ tick w.
Proof.
  intros Hnow Hissued Htok. unfold koe_verify_token_check. rewrite bind_time.
  rewrite (bind_lift _ _ _ (now w - issued)) by (apply chk64_Some; lia).
  destruct (Z.ltb_spec KOE_VERIFY_TOKEN_TTL (now w - issued)); unfold KOE_VERIFY_TOKEN_TTL in *.
  { rewrite decide_False by lia. done. }
  rewrite (bind_lift _ _ _ (take 6 token)) by (unfold peek; rewrite decide_True by lia; by rewrite drop_0).
  assert (Hl : length (take 6 token) = 6%nat) by (rewrite length_take; lia).
  destruct (memeq 6 (take 6 token) (token_of nonce pk)) eqn:E.
  - apply memeq_true in E; [|done..]. by rewrite decide_True by (split; [lia|done]).
  - rewrite decide_False; [done|]. intros [_ Ht]. by rewrite Ht, memeq_refl in E.
Qed.

(** C39: a generated token is the six decimal digits of the first four bytes of
    the hash of nonce and public key, modulo a million. With its nonce, a buffer
    of at least six bytes is accepted exactly when its first six are those digits
    and no more than thirty seconds have passed since its issue time (an issue
    time in the future included); it is accepted again as often as it is
    presented in that time, and what follows the six digits is not looked at. *)
Theorem koe_verify_token_correct `{SodiumLaws} (pk : bytes) (w : world) :
  ∃ good nonce,
    w ⊢ koe_verify_token_generate pk ⇓ (0, good ++ [0], nonce) ⊣ draw w
    ∧ length nonce = 16%nat ∧ length good = 6%nat ∧ Forall (λ c, 48 ≤ c ≤ 57) good
    ∧ decimal_value good = le_val (take 4 (generichash 32 (nonce ++ pk) 32)) `mod` 1000000
    ∧ ∀ token issued w1, 0 ≤ now w1 < 2 ^ 62 → 0 ≤ issued < 2 ^ 62 → (6 ≤ length token)%nat →
        w1 ⊢ koe_verify_token_check token nonce pk issued
          ⇓ (if decide (now w1 ≤ issued + 30 ∧ take 6 token = good) then 0 else -1) ⊣ tick w1.
Proof.
  exists (token_of (random_bytes w 16) pk), (random_bytes w 16). split_and!; [done|apply random_array_ok|done| | |].
  - apply Forall_fmap, Forall_true. intros k. unfold compose. lia.
  - apply decimal_value_six_digits. lia.
  - intros token issued w1. apply koe_verify_token_check_run.
Qed.

Lemma koe_verify_token_correct_witness :
  ∃ good nonce,
    world_at 100 ⊢ koe_verify_token_generate (zeros 32) ⇓ (0, good ++ [0], nonce) ⊣ draw (world_at 100)
    ∧ world_at 120 ⊢ koe_verify_token_check [48; 48; 48; 48; 48; 48] nonce (zeros 32) 100
        ⇓ (if decide (120 ≤ 100 + 30 ∧ [48; 48; 48; 48; 48; 48] = good) then 0 else -1)
        ⊣ tick (world_at 120).
Proof.
  destruct (koe_verify_token_correct (zeros 32) (world_at 100)) as (good & nonce & H1 & _ & _ & _ & _ & H2).
  exists good, nonce. split; [exact H1|]. apply H2.
  - vm_compute. split; [discriminate|reflexivity].
  - lia.
  - cbn. lia.
Defined.

(** A token is not used up by a successful check, and more characters behind it
    do not matter. *)
Lemma koe_verify_token_reusable `{Sodium} nonce pk more issued w :
  0 ≤ issued < 2 ^ 62 → 0 ≤ now w < 2 ^ 62 → 0 ≤ now (tick w) < 2 ^ 62 →
  now w ≤ issued + 30 → now (tick w) ≤ issued + 30 →
  w ⊢ koe_verify_token_check (token_of nonce pk) nonce pk issued ⇓ 0 ⊣ tick w
  ∧ tick w ⊢ koe_verify_token_check (token_of nonce pk ++ more) nonce pk issued ⇓ 0 ⊣ tick (tick w).
Proof.
  intros Hi H1 H2 T1 T2. split.
  - rewrite koe_verify_token_check_run by done. by rewrite decide_True.
  - rewrite koe_verify_token_check_run by (rewrite ?length_app, ?length_token_of; done || lia). by rewrite decide_True.
Qed.
