(* ===== verification/Sealed.v ===== *)
(** Sealed packets: the sequence with which koe_presence.c, koe_channel.c,
    koe_media.c and koe_audio.c build an encrypted packet (allocate, draw a
    nonce, encrypt, fill in the header, set the checksum), and what the holder
    of the key gets out of such a packet. *)

From S2P Require Import Prelude Version Crc32 Packet Crypto.

(** The header fields, set one by one after [koe_packet_init], the checksum
    over them, and the payload. *)
Definition sealed_packet (type : koe_packet_type_t) (flags : Z) (from to nonce payload : bytes)
  : koe_packet_t :=
  let h := p_header (koe_packet_init (type_code type) flags) in
  let h := set_length (u32 (zlen payload)) h in
  let h := set_nonce nonce (set_to to (set_from from h)) in
  KoePacket (set_checksum (koe_packet_checksum h) h) (Some payload).

Section Sealing.
Context `{Sodium}.

(** The ciphertext is allocated first. *)
Definition seal_heap (type : koe_packet_type_t) (flags : Z) (from to plain key : bytes)
  : M (option koe_packet_t) :=
  ok ← malloc;
  if negb ok then mret None
  else
    nonce ← koe_nonce_generate;
    match koe_encrypt plain nonce key with
    | None => mret None
    | Some ct => mret (Some (sealed_packet type flags from to nonce ct))
    end.

(** The ciphertext is made on the stack, then copied. *)
Definition seal_stack (type : koe_packet_type_t) (flags : Z) (from to plain key : bytes)
  : M (option koe_packet_t) :=
  nonce ← koe_nonce_generate;
  match koe_encrypt plain nonce key with
  | None => mret None
  | Some ct =>
      ok ← malloc;
      if negb ok then mret None else mret (Some (sealed_packet type flags from to nonce ct))
  end.

(** Return code and output packet of a function that ends by sealing. *)
Definition sealed_result (out : koe_packet_t) (r : option koe_packet_t) : Z * koe_packet_t :=
  match r with Some pkt => (0, pkt) | None => (-1, out) end.

(** [pkt] is well formed, passes validation, and [key] opens it to [plain]. *)
Definition opens (pkt : koe_packet_t) (key plain : bytes) : Prop :=
  packet_ok pkt ∧ koe_packet_validate pkt = 0
  ∧ ∃ ct, p_payload pkt = Some ct ∧ h_length (p_header pkt) = zlen plain + 16
          ∧ koe_decrypt ct (h_nonce (p_header pkt)) key = Some plain.

End Sealing.

Lemma type_code_byte t : byte_ok (type_code t).
Proof. unfold byte_ok. destruct t; simpl; lia. Qed.
#[export] Hint Resolve type_code_byte : koe.

Lemma sealed_packet_ok t flags from to nonce payload :
  byte_ok flags → array_ok 32 from → array_ok 32 to → array_ok 24 nonce →
  bytes_ok payload → 0 < zlen payload < 2 ^ 32 →
  packet_ok (sealed_packet t flags from to nonce payload)
  ∧ koe_packet_validate (sealed_packet t flags from to nonce payload) = 0.
Proof.
  intros Hfl Hf Ht Hn Hb Hl.
  assert (Hinit : packet_ok (koe_packet_init (type_code t) flags)) by (apply koe_packet_init_ok; auto with koe).
  set (h := set_nonce nonce (set_to to (set_from from (set_length (u32 (zlen payload))
              (p_header (koe_packet_init (type_code t) flags)))))).
  assert (Hh : header_ok h).
  { destruct Hinit as [(? & ? & ? & ? & ? & ? & ? & ? & ? & ? & ?) _]. unfold header_ok, h. simpl.
    rewrite u32_id by lia. split_and!; done || lia. }
  assert (Hh' : header_ok (set_checksum (koe_packet_checksum h) h)).
  { pose proof (koe_packet_checksum_u32 h Hh).
    destruct Hh as (? & ? & ? & ? & ? & ? & ? & ? & ? & ? & ?). unfold header_ok. simpl.
    split_and!; done || (unfold u32; lia). }
  change (sealed_packet t flags from to nonce payload)
    with (KoePacket (set_checksum (koe_packet_checksum h) h) (Some payload)).
  split.
  - split; [exact Hh'|]. simpl. rewrite u32_id by lia. split_and!; [done|lia|lia].
  - apply koe_packet_validate_iff; [exact Hh'|]. simpl. split_and!; [done| |done]. by left.
Qed.

Section Correctness.
Context `{SodiumLaws}.

(** What both sequences produce when nothing fails. *)
Lemma sealed_packet_opens t flags from to nonce plain key :
  byte_ok flags → array_ok 32 from → array_ok 32 to → array_ok 24 nonce → array_ok 32 key →
  bytes_ok plain → zlen plain + 16 < 2 ^ 32 →
  ∃ ct, koe_encrypt plain nonce key = Some ct ∧ opens (sealed_packet t flags from to nonce ct) key plain.
Proof.
  intros Hfl Hf Ht Hn Hk Hb Hl.
  destruct (koe_decrypt_encrypt plain nonce key Hb) as (ct & Henc & [Hct Hctb] & Hdec); [lia|done|done|].
  exists ct. split; [done|].
  assert (Hz : zlen ct = zlen plain + 16) by (unfold zlen in *; lia).
  destruct (sealed_packet_ok t flags from to nonce ct) as [Hp Hv]; [done..|unfold zlen in *; lia|].
  split; [done|]. split; [done|]. exists ct. split; [done|]. split; [|done].
  simpl. rewrite u32_id; unfold zlen in *; lia.
Qed.

Lemma seal_heap_run t flags from to plain key w :
  byte_ok flags → array_ok 32 from → array_ok 32 to → array_ok 32 key → bytes_ok plain →
  zlen plain + 16 < 2 ^ 32 → heap_ok w →
  ∃ nonce ct, array_ok 24 nonce
    ∧ w ⊢ seal_heap t flags from to plain key ⇓ Some (sealed_packet t flags from to nonce ct) ⊣ draw (alloc w)
    ∧ opens (sealed_packet t flags from to nonce ct) key plain.
Proof.
  intros Hfl Hf Ht Hk Hb Hl Hw. pose proof (random_array_ok (alloc w) 24) as Hn.
  destruct (sealed_packet_opens t flags from to _ plain key Hfl Hf Ht Hn Hk Hb Hl) as (ct & Henc & Ho).
  exists (random_bytes (alloc w) 24), ct. split_and!; [done| |done].
  unfold seal_heap, koe_nonce_generate, KOE_NONCE_LEN. rewrite bind_malloc_ok by done. cbn [negb].
  rewrite bind_random, Henc. done.
Qed.

(** Whatever fails: a well-formed packet, or none. *)
Lemma seal_heap_sound t flags from to plain key w :
  byte_ok flags → array_ok 32 from → array_ok 32 to → array_ok 32 key → bytes_ok plain →
  zlen plain + 16 < 2 ^ 32 →
  runs w (seal_heap t flags from to plain key) (λ r _,
    match r with Some pkt => packet_ok pkt ∧ h_length (p_header pkt) = zlen plain + 16 | None => True end).
Proof.
  intros Hfl Hf Ht Hk Hb Hl. unfold seal_heap, koe_nonce_generate. apply runs_malloc.
  destruct (w_heap _ _); cbn [negb]; [|by apply runs_ret]. apply runs_random.
  destruct (sealed_packet_opens t flags from to (random_bytes (alloc w) 24) plain key) as (ct & Henc & Hp & _ & _ & _ & Hlen & _);
    [done..|apply random_array_ok|done|done|done|].
  change KOE_NONCE_LEN with 24%nat. rewrite Henc. by apply runs_ret.
Qed.

Lemma seal_stack_run t flags from to plain key w :
  byte_ok flags → array_ok 32 from → array_ok 32 to → array_ok 32 key → bytes_ok plain →
  zlen plain + 16 < 2 ^ 32 → heap_ok w →
  ∃ nonce ct, array_ok 24 nonce
    ∧ w ⊢ seal_stack t flags from to plain key ⇓ Some (sealed_packet t flags from to nonce ct) ⊣ alloc (draw w)
    ∧ opens (sealed_packet t flags from to nonce ct) key plain.
Proof.
  intros Hfl Hf Ht Hk Hb Hl Hw. pose proof (random_array_ok w 24) as Hn.
  destruct (sealed_packet_opens t flags from to _ plain key Hfl Hf Ht Hn Hk Hb Hl) as (ct & Henc & Ho).
  exists (random_bytes w 24), ct. split_and!; [done| |done].
  unfold seal_stack, koe_nonce_generate, KOE_NONCE_LEN. rewrite bind_random, Henc.
  by rewrite bind_malloc_ok by done.
Qed.

(** Reading a sealed packet back: the ciphertext the header announces. *)
Lemma opens_peek pkt key plain :
  opens pkt key plain →
  ∃ ct, p_payload pkt = Some ct ∧ peek ct 0 (Z.to_nat (h_length (p_header pkt))) = Some ct
        ∧ koe_decrypt ct (h_nonce (p_header pkt)) key = Some plain.
Proof.
  intros ([_ Hp] & _ & ct & Hct & Hl & Hd). exists ct. split_and!; [done| |done].
  rewrite Hct in Hp. destruct Hp as (_ & Hz & _). rewrite <-Hz. unfold zlen. rewrite Nat2Z.id. apply peek_all.
Qed.

End Correctness.
