(* ===== verification/Session.v ===== *)
(** The session table (src/koe_session.c, include/koe_session.h), its invariant,
    its refinement of a bag of sessions and, when no peer is added twice, of a
    finite map from peers to sessions. *)

From S2P Require Import Prelude Crypto.

(** * Data *)
Definition KOE_MAX_SESSIONS : nat := 256.

Record koe_session_entry_t := KoeSessionEntry {
  e_peer_pk : bytes;
  e_sess : koe_session_t;
  e_created_at : Z;
  e_last_used : Z;
  e_active : bool;
}.

Record koe_session_table_t := KoeSessionTable {
  t_entries : list koe_session_entry_t;
  t_count : Z;
}.

#[export] Instance koe_session_entry_t_eq_dec : EqDecision koe_session_entry_t.
Proof. solve_decision. Defined.

Definition zero_entry : koe_session_entry_t :=
  KoeSessionEntry (zeros 32) (KoeSession (zeros 32) (zeros 32)) 0 0 false.

(** * Operations

    A search loop over the table is [list_find]; [None] is a NULL argument. *)
Definition koe_session_table_init : koe_session_table_t :=
  KoeSessionTable (replicate KOE_MAX_SESSIONS zero_entry) 0.

Definition koe_session_table_add (tbl : koe_session_table_t) (peer_pk : option bytes)
    (sess : option koe_session_t) : M (Z * koe_session_table_t) :=
  match peer_pk, sess with
  | Some peer_pk, Some sess =>
      if Z.of_nat KOE_MAX_SESSIONS <=? t_count tbl then mret (-1, tbl)
      else
        match list_find (λ e, e_active e = false) (t_entries tbl) with
        | Some (i, _) =>
            created ← time_null;
            used ← time_null;
            mret (0, KoeSessionTable
                       (<[i := KoeSessionEntry peer_pk sess created used true]> (t_entries tbl))
                       (t_count tbl + 1))
        | None => mret (-1, tbl)
        end
  | _, _ => mret (-1, tbl)
  end.

(** The entry test of the lookup loops. *)
Definition peer_is (peer_pk : bytes) (e : koe_session_entry_t) : Prop :=
  e_active e = true ∧ memeq 32 (e_peer_pk e) peer_pk = true.
#[export] Instance peer_is_dec pk e : Decision (peer_is pk e).
Proof. unfold peer_is. apply _. Defined.

Definition touch (t : Z) (e : koe_session_entry_t) : koe_session_entry_t :=
  KoeSessionEntry (e_peer_pk e) (e_sess e) (e_created_at e) t (e_active e).

(** The session the returned pointer designates. *)
Definition koe_session_table_find (tbl : koe_session_table_t) (peer_pk : option bytes)
  : M (option koe_session_t * koe_session_table_t) :=
  match peer_pk with
  | None => mret (None, tbl)
  | Some peer_pk =>
      match list_find (peer_is peer_pk) (t_entries tbl) with
      | Some (i, e) =>
          t ← time_null;
          mret (Some (e_sess e), KoeSessionTable (<[i := touch t e]> (t_entries tbl)) (t_count tbl))
      | None => mret (None, tbl)
      end
  end.

Definition koe_session_table_remove (tbl : koe_session_table_t) (peer_pk : option bytes)
  : Z * koe_session_table_t :=
  match peer_pk with
  | None => (-1, tbl)
  | Some peer_pk =>
      match list_find (peer_is peer_pk) (t_entries tbl) with
      | Some (i, _) =>
          (0, KoeSessionTable (<[i := zero_entry]> (t_entries tbl)) (t_count tbl - 1))
      | None => (-1, tbl)
      end
  end.

(** The sweep: the entries left and how many were cleared. *)
Fixpoint cleanup_loop (now max_age : Z) (es : list koe_session_entry_t)
  : option (list koe_session_entry_t * Z) :=
  match es with
  | [] => Some ([], 0)
  | e :: es' =>
      stale ← (if e_active e then age ← sub64 now (e_last_used e); Some (max_age <? age)
               else Some false);
      r ← cleanup_loop now max_age es';
      Some (if (stale : bool) then (zero_entry :: r.1, r.2 + 1) else (e :: r.1, r.2))
  end.

Definition koe_session_table_cleanup (tbl : koe_session_table_t) (max_age_seconds : Z)
  : M koe_session_table_t :=
  if max_age_seconds <=? 0 then mret tbl
  else
    now ← time_null;
    r ← lift (cleanup_loop now max_age_seconds (t_entries tbl));
    mret (KoeSessionTable r.1 (t_count tbl - r.2)).

(** * Invariant *)
Definition actives (es : list koe_session_entry_t) : list koe_session_entry_t :=
  filter (λ e, e_active e = true) es.
#[global] Arguments actives : simpl never.

Definition slot_ok (e : koe_session_entry_t) : Prop :=
  (e_active e = false → e = zero_entry) ∧ length (e_peer_pk e) = 32%nat.
Lemma zero_slot_ok : slot_ok zero_entry.
Proof. done. Qed.
#[export] Hint Resolve zero_slot_ok : koe.

(** The table has its fixed size, counts its active entries, and keeps nothing
    (in particular no key) in the others. *)
Definition table_ok (tbl : koe_session_table_t) : Prop :=
  length (t_entries tbl) = KOE_MAX_SESSIONS
  ∧ t_count tbl = zlen (actives (t_entries tbl))
  ∧ Forall slot_ok (t_entries tbl).

Lemma actives_app l1 l2 : actives (l1 ++ l2) = actives l1 ++ actives l2.
Proof. apply filter_app. Qed.
Lemma actives_cons e l :
  actives (e :: l) = if e_active e then e :: actives l else actives l.
Proof.
  unfold actives. rewrite filter_cons. destruct (e_active e); [by rewrite decide_True|by rewrite decide_False].
Qed.

(** Overwriting slot [i], seen on the active entries. *)
Lemma actives_insert es i e e' :
  es !! i = Some e →
  ∃ l1 l2,
    actives es = l1 ++ (if e_active e then [e] else []) ++ l2
    ∧ actives (<[i := e']> es) = l1 ++ (if e_active e' then [e'] else []) ++ l2.
Proof.
  intros Hi. exists (actives (take i es)), (actives (drop (S i) es)).
  rewrite <-(take_drop_middle es i e Hi) at 1.
  rewrite insert_take_drop by (by eapply lookup_lt_Some).
  rewrite !actives_app, !actives_cons. by destruct (e_active e), (e_active e').
Qed.

Lemma actives_le es : (length (actives es) ≤ length es)%nat.
Proof. apply length_filter. Qed.

Lemma actives_full es e : e ∈ es → e_active e = false → (length (actives es) < length es)%nat.
Proof.
  intros (l1 & l2 & ->)%list_elem_of_split He.
  rewrite actives_app, actives_cons, He, !length_app. simpl.
  pose proof (actives_le l1). pose proof (actives_le l2). lia.
Qed.

Lemma actives_room es : (length (actives es) < length es)%nat → ∃ e, e ∈ es ∧ e_active e = false.
Proof.
  induction es as [|e es IH]; intros Hlt; [simpl in Hlt; lia|].
  rewrite actives_cons in Hlt. destruct (e_active e) eqn:E.
  - simpl in Hlt. destruct IH as (x & ? & ?); [lia|]. exists x. set_solver.
  - exists e. set_solver.
Qed.

Lemma table_ok_insert tbl i e e' n :
  table_ok tbl → t_entries tbl !! i = Some e →
  (e_active e' = false → e' = zero_entry) → length (e_peer_pk e') = 32%nat →
  n = t_count tbl + (if e_active e' then 1 else 0) - (if e_active e then 1 else 0) →
  table_ok (KoeSessionTable (<[i := e']> (t_entries tbl)) n).
Proof.
  intros (H1 & H2 & H3) Hi Hz Hl ->. destruct (actives_insert _ _ _ e' Hi) as (l1 & l2 & E1 & E2).
  unfold table_ok. simpl. rewrite length_insert, E2. split_and!; [done| |].
  - rewrite H2, E1. unfold zlen. rewrite !length_app. destruct (e_active e), (e_active e'); simpl; lia.
  - apply Forall_insert; [done|]. by split.
Qed.

(** * The abstract map *)
Inductive session_op :=
  | OpAdd (peer_pk : bytes) (sess : koe_session_t)
  | OpFind (peer_pk : bytes)
  | OpRemove (peer_pk : bytes)
  | OpCleanup (max_age : Z).

Inductive session_ret := RetCode (rc : Z) | RetSession (s : option koe_session_t) | RetVoid.

Definition table_op (op : session_op) (tbl : koe_session_table_t) : M (session_ret * koe_session_table_t) :=
  match op with
  | OpAdd pk s => r ← koe_session_table_add tbl (Some pk) (Some s); mret (RetCode r.1, r.2)
  | OpFind pk => r ← koe_session_table_find tbl (Some pk); mret (RetSession r.1, r.2)
  | OpRemove pk => let r := koe_session_table_remove tbl (Some pk) in mret (RetCode r.1, r.2)
  | OpCleanup age => tbl' ← koe_session_table_cleanup tbl age; mret (RetVoid, tbl')
  end.

(** What each operation promises, on a finite map. Adding a peer that is
    already present is outside this contract (the bag below covers it), as are keys that are not 32 bytes
    and ages that overflow 64 bits. *)
Definition map_op (op : session_op) (m : gmap bytes koe_session_entry_t)
  : M (session_ret * gmap bytes koe_session_entry_t) :=
  match op with
  | OpAdd pk s =>
      if decide (length pk ≠ 32%nat) then ub
      else if decide (KOE_MAX_SESSIONS ≤ size m)%nat then mret (RetCode (-1), m)
      else if decide (is_Some (m !! pk)) then ub
      else
        created ← time_null;
        used ← time_null;
        mret (RetCode 0, <[pk := KoeSessionEntry pk s created used true]> m)
  | OpFind pk =>
      if decide (length pk ≠ 32%nat) then ub
      else match m !! pk with
           | Some e => t ← time_null; mret (RetSession (Some (e_sess e)), <[pk := touch t e]> m)
           | None => mret (RetSession None, m)
           end
  | OpRemove pk =>
      if decide (length pk ≠ 32%nat) then ub
      else mret (RetCode (if decide (is_Some (m !! pk)) then 0 else -1), delete pk m)
  | OpCleanup age =>
      if age <=? 0 then mret (RetVoid, m)
      else
        t ← time_null;
        if decide (map_Forall (λ _ e, is_Some (sub64 t (e_last_used e))) m)
        then mret (RetVoid, filter (λ kv, t - e_last_used kv.2 ≤ age) m)
        else ub
  end.

(** * Refinement *)
Definition keyed (l : list koe_session_entry_t) : list (bytes * koe_session_entry_t) :=
  (λ e, (e_peer_pk e, e)) <$> l.
Definition table_map (tbl : koe_session_table_t) : gmap bytes koe_session_entry_t :=
  list_to_map (keyed (actives (t_entries tbl))).

Definition refines (tbl : koe_session_table_t) (m : gmap bytes koe_session_entry_t) : Prop :=
  table_ok tbl ∧ NoDup (e_peer_pk <$> actives (t_entries tbl)) ∧ m = table_map tbl.

Lemma keyed_fst l : (keyed l).*1 = e_peer_pk <$> l.
Proof. unfold keyed. by rewrite <-list_fmap_compose. Qed.

Lemma keyed_mid l1 e l2 :
  NoDup (e_peer_pk <$> l1 ++ e :: l2) →
  (list_to_map (keyed (l1 ++ e :: l2)) : gmap bytes _)
    = <[e_peer_pk e := e]> (list_to_map (keyed (l1 ++ l2)))
  ∧ (list_to_map (keyed (l1 ++ l2)) : gmap bytes _)
    = delete (e_peer_pk e) (list_to_map (keyed (l1 ++ e :: l2))).
Proof.
  intros Hnd.
  assert (E : (list_to_map (keyed (l1 ++ e :: l2)) : gmap bytes _)
    = <[e_peer_pk e := e]> (list_to_map (keyed (l1 ++ l2)))).
  { rewrite <-list_to_map_cons. apply list_to_map_proper; [by rewrite keyed_fst|].
    unfold keyed. rewrite !fmap_app. simpl. by rewrite Permutation_middle. }
  split; [done|]. rewrite E, delete_insert_id; [done|].
  apply not_elem_of_list_to_map_1. rewrite keyed_fst.
  rewrite fmap_app, fmap_cons in Hnd. rewrite <-Permutation_middle in Hnd.
  apply NoDup_cons in Hnd as [Hnd _]. by rewrite fmap_app.
Qed.

Lemma table_map_lookup tbl pk :
  table_ok tbl → NoDup (e_peer_pk <$> actives (t_entries tbl)) → length pk = 32%nat →
  match list_find (peer_is pk) (t_entries tbl) with
  | Some (i, e) => t_entries tbl !! i = Some e ∧ e_active e = true ∧ e_peer_pk e = pk
                   ∧ table_map tbl !! pk = Some e
  | None => table_map tbl !! pk = None
  end.
Proof.
  intros (_ & _ & Hall) Hnd Hpk. destruct (list_find _ _) as [[i e]|] eqn:Hf.
  - apply list_find_Some in Hf as (Hi & [Ha Hm] & _).
    assert (Hl : length (e_peer_pk e) = 32%nat).
    { eapply Forall_lookup_1 in Hi; [|exact Hall]. apply Hi. }
    apply memeq_true in Hm; [|done..]. split_and!; [done..|].
    apply elem_of_list_to_map_1; [by rewrite keyed_fst|].
    apply list_elem_of_fmap. exists e. rewrite Hm. split; [done|].
    apply list_elem_of_filter. split; [done|]. by eapply list_elem_of_lookup_2.
  - apply list_find_None in Hf. apply not_elem_of_list_to_map_1. rewrite keyed_fst.
    intros (e & -> & He)%list_elem_of_fmap. apply list_elem_of_filter in He as [Ha He].
    rewrite Forall_forall in Hf. apply (Hf e He). split; [done|]. apply memeq_refl.
Qed.

Lemma table_map_size tbl :
  table_ok tbl → NoDup (e_peer_pk <$> actives (t_entries tbl)) →
  t_count tbl = Z.of_nat (size (table_map tbl)).
Proof.
  intros (_ & -> & _) Hnd. unfold table_map.
  rewrite map_size_list_to_map by by rewrite keyed_fst. unfold keyed. by rewrite length_fmap.
Qed.

(** Overwriting one slot: the invariant and the map move together. *)
Lemma refines_insert_new tbl i e e' m :
  refines tbl m → t_entries tbl !! i = Some e → e_active e = false → e_active e' = true →
  length (e_peer_pk e') = 32%nat → m !! e_peer_pk e' = None →
  refines (KoeSessionTable (<[i := e']> (t_entries tbl)) (t_count tbl + 1)) (<[e_peer_pk e' := e']> m).
Proof.
  intros (Hok & Hnd & ->) Hi Ha Ha' Hl Hnone. split.
  { eapply table_ok_insert; [done..|congruence|done|]. rewrite Ha, Ha'. lia. }
  destruct (actives_insert _ _ _ e' Hi) as (l1 & l2 & E1 & E2). rewrite Ha in E1. rewrite Ha' in E2.
  simpl in *. unfold table_map in *. simpl. rewrite E2.
  assert (Hnd' : NoDup (e_peer_pk <$> l1 ++ e' :: l2)).
  { rewrite fmap_app, fmap_cons, <-Permutation_middle, <-fmap_app, <-E1. apply NoDup_cons. split; [|done].
    rewrite <-keyed_fst. by apply not_elem_of_list_to_map_2. }
  split; [done|]. rewrite E1. symmetry. by apply keyed_mid.
Qed.

Lemma refines_touch tbl i e t m :
  refines tbl m → t_entries tbl !! i = Some e → e_active e = true →
  refines (KoeSessionTable (<[i := touch t e]> (t_entries tbl)) (t_count tbl))
          (<[e_peer_pk e := touch t e]> m).
Proof.
  intros (Hok & Hnd & ->) Hi Ha.
  assert (Hl : length (e_peer_pk e) = 32%nat).
  { destruct Hok as (_ & _ & Hall). eapply Forall_lookup_1 in Hi; [|exact Hall]. apply Hi. }
  split.
  { eapply table_ok_insert; [done..|simpl; congruence|done|]. simpl. rewrite Ha. lia. }
  destruct (actives_insert _ _ _ (touch t e) Hi) as (l1 & l2 & E1 & E2).
  simpl in *. rewrite Ha in E1, E2. simpl in *. unfold table_map. simpl. rewrite E1 in *. rewrite E2.
  assert (Hk : e_peer_pk <$> l1 ++ touch t e :: l2 = e_peer_pk <$> l1 ++ e :: l2)
    by by rewrite !fmap_app.
  split; [by rewrite Hk|].
  destruct (keyed_mid l1 e l2) as [-> _]; [done|]. 
  destruct (keyed_mid l1 (touch t e) l2) as [-> _]; [by rewrite Hk|]. by rewrite insert_insert_eq.
Qed.

Lemma refines_delete tbl i e m :
  refines tbl m → t_entries tbl !! i = Some e → e_active e = true →
  refines (KoeSessionTable (<[i := zero_entry]> (t_entries tbl)) (t_count tbl - 1))
          (delete (e_peer_pk e) m).
Proof.
  intros (Hok & Hnd & ->) Hi Ha. split.
  { eapply table_ok_insert; [done..|]. rewrite Ha. simpl. lia. }
  destruct (actives_insert _ _ _ zero_entry Hi) as (l1 & l2 & E1 & E2).
  rewrite Ha in E1. simpl in *. unfold table_map. simpl. rewrite E1 in *. rewrite E2.
  destruct (keyed_mid l1 e l2) as [_ E]; [done|]. split; [|done].
  rewrite fmap_app, fmap_cons, <-Permutation_middle in Hnd. apply NoDup_cons in Hnd as [_ Hnd].
  by rewrite fmap_app.
Qed.

(** The sweep keeps exactly the fresh entries. *)
Lemma cleanup_loop_spec t age es :
  Forall (λ e, is_Some (sub64 t (e_last_used e))) (actives es) →
  Forall slot_ok es →
  ∃ es' k, cleanup_loop t age es = Some (es', k)
    ∧ length es' = length es
    ∧ actives es' = filter (λ e, t - e_last_used e ≤ age) (actives es)
    ∧ k = zlen (actives es) - zlen (actives es')
    ∧ Forall slot_ok es'.
Proof.
  intros Hr Hz. induction es as [|e es IH]; [by exists [], 0|].
  apply Forall_cons in Hz as [Hze Hz]. rewrite actives_cons in Hr.
  cbn [cleanup_loop]. destruct (e_active e) eqn:Ha.
  - apply Forall_cons in Hr as [[x Hx] Hr]. destruct (IH Hr Hz) as (es' & k & -> & H1 & H2 & -> & H4).
    rewrite Hx. cbn.
    assert (x = t - e_last_used e) as -> by (unfold sub64, chk64 in Hx; by case_match; simplify_eq).
    destruct (Z.ltb_spec age (t - e_last_used e)).
    + eexists _, _. split; [reflexivity|]. cbn. rewrite !actives_cons, Ha. simpl e_active.
      rewrite filter_cons, decide_False by lia. rewrite <-H2.
      split_and!; [lia|done|unfold zlen; simpl; lia|constructor; auto with koe].
    + eexists _, _. split; [reflexivity|]. cbn. rewrite !actives_cons, Ha.
      rewrite filter_cons, decide_True by lia. rewrite <-H2.
      split_and!; [lia|done|unfold zlen; simpl; lia|constructor; auto with koe].
  - destruct (IH Hr Hz) as (es' & k & -> & H1 & H2 & -> & H4). cbn.
    eexists _, _. split; [reflexivity|]. cbn. rewrite !actives_cons, Ha.
    split_and!; [lia|done|lia|by constructor].
Qed.

Lemma keyed_filter t age l :
  NoDup (e_peer_pk <$> l) →
  (list_to_map (keyed (filter (λ e, t - e_last_used e ≤ age) l)) : gmap bytes _)
    = filter (λ kv, t - e_last_used kv.2 ≤ age) (list_to_map (keyed l) : gmap bytes koe_session_entry_t).
Proof.
  induction l as [|e l IH]; intros Hnd; [symmetry; apply map_filter_empty|].
  rewrite fmap_cons in Hnd. apply NoDup_cons in Hnd as [Hn Hnd].
  assert (Hnone : (list_to_map (keyed l) : gmap bytes koe_session_entry_t) !! e_peer_pk e = None).
  { apply not_elem_of_list_to_map_1. by rewrite keyed_fst. }
  rewrite filter_cons. simpl keyed. cbn [list_to_map]. case_decide as Hd.
  - simpl. by rewrite map_filter_insert_True, IH by done.
  - rewrite IH by done. simpl. rewrite map_filter_insert_False by done.
    by rewrite delete_id by done.
Qed.

Lemma refines_cleanup tbl m t age :
  refines tbl m → map_Forall (λ _ e, is_Some (sub64 t (e_last_used e))) m →
  ∃ r, cleanup_loop t age (t_entries tbl) = Some r
    ∧ refines (KoeSessionTable r.1 (t_count tbl - r.2)) (filter (λ kv, t - e_last_used kv.2 ≤ age) m).
Proof.
  intros (Hok & Hnd & ->) Hm. pose proof Hok as (H1 & H2 & H3).
  destruct (cleanup_loop_spec t age (t_entries tbl)) as (es' & k & E & L1 & L2 & L3 & L4); [|done|].
  { apply Forall_forall. intros e He. apply (Hm (e_peer_pk e) e).
    apply elem_of_list_to_map_1; [by rewrite keyed_fst|]. by apply list_elem_of_fmap_2 with (f := λ e, (e_peer_pk e, e)). }
  eexists. split; [exact E|]. split; [|split]; simpl.
  - split_and!; simpl; [lia|lia|done].
  - rewrite L2. eapply sublist_NoDup; [exact Hnd|]. apply fmap_sublist, sublist_filter.
  - unfold table_map. simpl. by rewrite L2, keyed_filter.
Qed.

(** One operation. *)
#[export] Instance session_simulation : Simulation table_op map_op refines.
Proof.
  intros op tbl m ret m' w w' Hr Hop. pose proof Hr as (Hok & Hnd & Hm). destruct op as [pk s|pk|pk|age]; simpl in *.
  - case_decide as Hpk; [done|].
    unfold koe_session_table_add. rewrite (table_map_size tbl Hok Hnd), <-Hm.
    case_decide as Hsz.
    { rewrite (proj2 (Z.leb_le _ _)) by lia. injection Hop as <- <- <-. by exists tbl. }
    rewrite (proj2 (Z.leb_gt _ _)) by lia. case_decide as Hin; [done|].
    destruct (list_find _ _) as [[i e]|] eqn:Hf.
    + apply list_find_Some in Hf as (Hi & Ha & _). mrun. injection Hop as <- <- <-.
      eexists. split; [by rewrite Hm, <-(table_map_size tbl Hok Hnd)|].
      apply (refines_insert_new tbl i e (KoeSessionEntry pk s _ _ true)); try done.
      by apply eq_None_not_Some.
    + apply list_find_None in Hf. destruct Hok as (H1 & H2 & _).
      destruct (actives_room (t_entries tbl)) as (e & He & Ha).
      { rewrite H1. pose proof (table_map_size tbl) as Hs. unfold zlen in *. rewrite Hm in Hsz.
        rewrite H2 in Hs. specialize (Hs (proj1 Hr) Hnd). lia. }
      rewrite Forall_forall in Hf. by destruct (Hf e He).
  - case_decide as Hpk; [done|].
    pose proof (table_map_lookup tbl pk Hok Hnd Hpk) as Hl. unfold koe_session_table_find.
    destruct (list_find _ _) as [[i e]|].
    + destruct Hl as (Hi & Ha & <- & Hl). rewrite Hm, Hl in Hop. mrun. injection Hop as <- <- <-.
      eexists. split; [done|]. rewrite <-Hm. by eapply refines_touch.
    + rewrite Hm, Hl in Hop. injection Hop as <- <- <-. rewrite <-Hm. by exists tbl.
  - case_decide as Hpk; [done|].
    pose proof (table_map_lookup tbl pk Hok Hnd Hpk) as Hl. unfold koe_session_table_remove.
    destruct (list_find _ _) as [[i e]|].
    + destruct Hl as (Hi & Ha & <- & Hl). rewrite decide_True in Hop by (rewrite Hm, Hl; eauto).
      injection Hop as <- <- <-. eexists. split; [done|]. by eapply refines_delete.
    + rewrite decide_False in Hop by (rewrite Hm, Hl; intros []; done).
      rewrite delete_id in Hop by (by rewrite Hm). injection Hop as <- <- <-. by exists tbl.
  - unfold koe_session_table_cleanup. destruct (age <=? 0).
    { injection Hop as <- <- <-. by exists tbl. }
    mrun. case_decide as Hall; [|done].
    destruct (refines_cleanup tbl m (now w) age Hr Hall) as (r & E & Hr'). rewrite E.
    injection Hop as <- <- <-. by eexists.
Qed.

Lemma koe_session_table_find_run tbl m pk e w :
  refines tbl m → length pk = 32%nat → m !! pk = Some e →
  ∃ tbl', w ⊢ koe_session_table_find tbl (Some pk) ⇓ (Some (e_sess e), tbl') ⊣ tick w
    ∧ refines tbl' (<[pk := touch (now w) e]> m).
Proof.
  intros Hr Hpk He. pose proof Hr as (Hok & Hnd & ->). unfold koe_session_table_find.
  pose proof (table_map_lookup tbl pk Hok Hnd Hpk) as Hl.
  destruct (list_find _ _) as [[i e']|]; [|congruence].
  destruct Hl as (Hi & Ha & <- & Hl). assert (e' = e) as -> by congruence.
  eexists. split; [done|]. by eapply refines_touch.
Qed.

(** * Any sequence of operations

    A peer can be added again while it is present, so in general the table holds
    a bag of sessions: a list up to permutation. *)

(** The clock is between 1970 and far in the future. *)
Definition sane (t : Z) : Prop := 0 ≤ t < 2 ^ 62.
Definition sane_clock (w : world) : Prop := ∀ i, sane (w_clock w i).
Lemma sane_clock_env w w' : same_env w w' → sane_clock w → sane_clock w'.
Proof. intros (E & _) Hc i. rewrite E. apply Hc. Qed.
#[export] Hint Resolve sane_clock_env : koe.

Definition op_ok (op : session_op) : Prop :=
  match op with OpAdd pk _ | OpFind pk | OpRemove pk => length pk = 32%nat | OpCleanup _ => True end.

Definition bag_ok (tbl : koe_session_table_t) : Prop :=
  table_ok tbl ∧ Forall (λ e, sane (e_last_used e)) (actives (t_entries tbl)).

(** One operation on the bag: up to 256 sessions are held; a lookup answers with
    one of the sessions of the peer and renews it, a removal takes one away. *)
Inductive bag_step (w : world)
  : session_op → list koe_session_entry_t → session_ret → list koe_session_entry_t → world → Prop :=
  | bag_full pk s l : (256 ≤ length l)%nat → bag_step w (OpAdd pk s) l (RetCode (-1)) l w
  | bag_add pk s l l' :
      (length l < 256)%nat → l' ≡ₚ KoeSessionEntry pk s (now w) (now (tick w)) true :: l →
      bag_step w (OpAdd pk s) l (RetCode 0) l' (tick (tick w))
  | bag_find pk e rest l l' :
      l ≡ₚ e :: rest → e_peer_pk e = pk →
      l' ≡ₚ KoeSessionEntry pk (e_sess e) (e_created_at e) (now w) true :: rest →
      bag_step w (OpFind pk) l (RetSession (Some (e_sess e))) l' (tick w)
  | bag_miss pk l : pk ∉ e_peer_pk <$> l → bag_step w (OpFind pk) l (RetSession None) l w
  | bag_remove pk e l l' : l ≡ₚ e :: l' → e_peer_pk e = pk → bag_step w (OpRemove pk) l (RetCode 0) l' w
  | bag_absent pk l : pk ∉ e_peer_pk <$> l → bag_step w (OpRemove pk) l (RetCode (-1)) l w
  | bag_keep age l : age ≤ 0 → bag_step w (OpCleanup age) l RetVoid l w
  | bag_expire age l :
      0 < age → bag_step w (OpCleanup age) l RetVoid (filter (λ e, now w - e_last_used e ≤ age) l) (tick w).

Inductive bag_steps
  : list session_op → list koe_session_entry_t → world → list session_ret → list koe_session_entry_t → world → Prop :=
  | bag_nil l w : bag_steps [] l w [] l w
  | bag_cons op ops l w ret l1 w1 rets l' w' :
      bag_step w op l ret l1 w1 → bag_steps ops l1 w1 rets l' w' →
      bag_steps (op :: ops) l w (ret :: rets) l' w'.

(** What the lookup loops find, and what they miss. *)
Lemma peer_find tbl pk :
  table_ok tbl → length pk = 32%nat →
  match list_find (peer_is pk) (t_entries tbl) with
  | Some (i, e) => t_entries tbl !! i = Some e ∧ e_active e = true ∧ e_peer_pk e = pk
                   ∧ e ∈ actives (t_entries tbl)
  | None => pk ∉ e_peer_pk <$> actives (t_entries tbl)
  end.
Proof.
  intros (_ & _ & Hall) Hpk. destruct (list_find _ _) as [[i e]|] eqn:Hf.
  - apply list_find_Some in Hf as (Hi & [Ha Hm] & _). pose proof (list_elem_of_lookup_2 _ _ _ Hi) as He.
    rewrite Forall_forall in Hall. apply memeq_true in Hm; [|apply Hall, He|done].
    split_and!; try done. by apply list_elem_of_filter.
  - apply list_find_None in Hf. intros (e & -> & [Ha He]%list_elem_of_filter)%list_elem_of_fmap.
    rewrite Forall_forall in Hf. apply (Hf e He). split; [done|]. apply memeq_refl.
Qed.

(** Overwriting an active slot. *)
Lemma actives_overwrite es i e e' :
  es !! i = Some e → e_active e = true →
  ∃ rest, actives es ≡ₚ e :: rest ∧ actives (<[i := e']> es) ≡ₚ (if e_active e' then [e'] else []) ++ rest.
Proof.
  intros Hi Ha. destruct (actives_insert es i e e' Hi) as (l1 & l2 & E1 & E2). rewrite Ha in E1.
  exists (l1 ++ l2). rewrite E1, E2. cbn. split; [by rewrite <-Permutation_middle|]. destruct (e_active e'); [|done].
  cbn. by rewrite <-Permutation_middle.
Qed.

Lemma bag_ok_perm tbl l :
  table_ok tbl → actives (t_entries tbl) ≡ₚ l → Forall (λ e, sane (e_last_used e)) l → bag_ok tbl.
Proof. intros Hok Hp Hl. split; [done|]. by rewrite Hp. Qed.

Lemma table_add_bag tbl pk s w :
  bag_ok tbl → length pk = 32%nat → sane_clock w →
  runs w (table_op (OpAdd pk s) tbl) (λ r w',
    bag_ok r.2 ∧ bag_step w (OpAdd pk s) (actives (t_entries tbl)) r.1 (actives (t_entries r.2)) w').
Proof.
  intros [Hok Hs] Hpk Hc. pose proof Hok as (H1 & H2 & H3).
  cbn [table_op]. unfold koe_session_table_add. rewrite H2. unfold KOE_MAX_SESSIONS, zlen in *.
  destruct (Z.leb_spec (Z.of_nat 256) (Z.of_nat (length (actives (t_entries tbl))))) as [Hf|Hf].
  { eexists _, _. split; [reflexivity|]. split; [done|]. split; [done|]. constructor. cbn [fst snd]. lia. }
  destruct (list_find _ _) as [[i e]|] eqn:Hl.
  - apply list_find_Some in Hl as (Hi & Ha & _).
    set (e' := KoeSessionEntry pk s (now w) (now (tick w)) true).
    destruct (actives_insert _ _ _ e' Hi) as (l1 & l2 & E1 & E2). rewrite Ha in E1. cbn in E1, E2.
    assert (Hp : actives (<[i := e']> (t_entries tbl)) ≡ₚ e' :: actives (t_entries tbl))
      by (rewrite E1, E2; by rewrite <-Permutation_middle).
    eexists _, _. split; [reflexivity|]. split; [done|]. split; [|constructor; [lia|exact Hp]].
    eapply bag_ok_perm; [|exact Hp|constructor; [apply Hc|done]].
    eapply table_ok_insert; [done|exact Hi|done|done|]. rewrite Ha. cbn. unfold zlen in *. lia.
  - apply list_find_None in Hl. destruct (actives_room (t_entries tbl)) as (e & He & Ha); [lia|].
    rewrite Forall_forall in Hl. by destruct (Hl e He).
Qed.

Lemma table_find_bag tbl pk w :
  bag_ok tbl → length pk = 32%nat → sane_clock w →
  runs w (table_op (OpFind pk) tbl) (λ r w',
    bag_ok r.2 ∧ bag_step w (OpFind pk) (actives (t_entries tbl)) r.1 (actives (t_entries r.2)) w').
Proof.
  intros [Hok Hs] Hpk Hc. cbn [table_op]. unfold koe_session_table_find. pose proof (peer_find tbl pk Hok Hpk) as Hf.
  destruct (list_find _ _) as [[i e]|].
  - destruct Hf as (Hi & Ha & Hk & _). destruct (actives_overwrite _ _ _ (touch (now w) e) Hi Ha) as (rest & P1 & P2).
    cbn [touch e_active] in P2. rewrite Ha in P2. cbn in P2. rewrite P1 in Hs. apply Forall_cons in Hs as [He Hs].
    eexists _, _. split; [reflexivity|]. split; [done|]. split.
    + eapply bag_ok_perm; [|exact P2|constructor; [apply Hc|done]].
      destruct Hok as (? & ? & Hall). eapply table_ok_insert; [done|exact Hi|cbn; congruence|cbn; by rewrite Hk|cbn; rewrite Ha; lia].
    + econstructor; [exact P1|exact Hk|]. cbn [snd t_entries]. rewrite P2. unfold touch. by rewrite Ha, Hk.
  - eexists _, _. split; [reflexivity|]. split; [done|]. split; [done|]. by constructor.
Qed.

Lemma table_remove_bag tbl pk w :
  bag_ok tbl → length pk = 32%nat →
  runs w (table_op (OpRemove pk) tbl) (λ r w',
    bag_ok r.2 ∧ bag_step w (OpRemove pk) (actives (t_entries tbl)) r.1 (actives (t_entries r.2)) w').
Proof.
  intros [Hok Hs] Hpk. cbn [table_op]. unfold koe_session_table_remove. pose proof (peer_find tbl pk Hok Hpk) as Hf.
  destruct (list_find _ _) as [[i e]|].
  - destruct Hf as (Hi & Ha & Hk & _). destruct (actives_overwrite _ _ _ zero_entry Hi Ha) as (rest & P1 & P2).
    cbn in P2. rewrite P1 in Hs. apply Forall_cons in Hs as [He Hs].
    eexists _, _. split; [reflexivity|]. split; [done|]. split.
    + eapply bag_ok_perm; [|exact P2|done]. eapply table_ok_insert; [done|exact Hi|done|done|]. rewrite Ha. cbn. lia.
    + econstructor; [|exact Hk]. cbn [snd t_entries]. by rewrite P2.
  - eexists _, _. split; [reflexivity|]. split; [done|]. split; [done|]. by constructor.
Qed.

Lemma table_cleanup_bag tbl age w :
  bag_ok tbl → sane_clock w →
  runs w (table_op (OpCleanup age) tbl) (λ r w',
    bag_ok r.2 ∧ bag_step w (OpCleanup age) (actives (t_entries tbl)) r.1 (actives (t_entries r.2)) w').
Proof.
  intros [Hok Hs] Hc. pose proof Hok as (H1 & H2 & H3). cbn [table_op]. unfold koe_session_table_cleanup.
  destruct (Z.leb_spec age 0).
  { eexists _, _. split; [reflexivity|]. split; [done|]. split; [done|]. by constructor. }
  destruct (cleanup_loop_spec (now w) age (t_entries tbl)) as (es' & k & E & L1 & L2 & -> & L4); [|done|].
  { eapply Forall_impl; [exact Hs|]. intros e Hu. specialize (Hc (w_tick w)). fold (now w) in Hc.
    unfold sane, sub64 in *. rewrite chk64_Some by lia. by eexists. }
  eapply runs_bind with (Q := λ t w', t = KoeSessionTable es' (t_count tbl - (zlen (actives (t_entries tbl)) - zlen (actives es'))) ∧ w' = tick w).
  { apply runs_time. eapply runs_lift; [exact E|]. by apply runs_ret. }
  intros ? ? _ [-> ->]. apply runs_ret. cbn [fst snd t_entries]. split; [split|].
  - split_and!; cbn [t_entries t_count]; [lia|lia|done].
  - cbn [t_entries]. rewrite L2. rewrite Forall_forall in Hs |- *. intros e [_ He]%list_elem_of_filter. by apply Hs.
  - rewrite L2. by constructor.
Qed.

Lemma table_op_bag op tbl w :
  bag_ok tbl → op_ok op → sane_clock w →
  runs w (table_op op tbl) (λ r w',
    bag_ok r.2 ∧ bag_step w op (actives (t_entries tbl)) r.1 (actives (t_entries r.2)) w').
Proof.
  intros Hb Ho Hc. destruct op; [by apply table_add_bag|by apply table_find_bag|by apply table_remove_bag|by apply table_cleanup_bag].
Qed.

Lemma table_ops_bag ops tbl w :
  bag_ok tbl → Forall op_ok ops → sane_clock w →
  runs w (run_ops table_op ops tbl) (λ r w',
    bag_ok r.2 ∧ bag_steps ops (actives (t_entries tbl)) w r.1 (actives (t_entries r.2)) w').
Proof.
  intros Hb Ho. revert tbl w Hb. induction Ho as [|op ops Hop Ho IH]; intros tbl w Hb Hc.
  { apply runs_ret. split; [done|constructor]. }
  eapply runs_bind; [by apply table_op_bag|]. intros [ret tbl1] w1 E1 [Hb1 S1].
  eapply runs_bind; [apply IH; [done|by eapply sane_clock_env]|]. intros [rets tbl2] w2 E2 [Hb2 S2].
  apply runs_ret. split; [done|]. by econstructor.
Qed.

(** C10: any sequence of operations on the session table, with keys of 32 bytes
    and a sane clock, is defined and refines a bag of at most 256 sessions: the
    table counts the sessions it holds and keeps no key of a removed or expired
    one, a lookup answers with one of the peer's sessions and renews it, a
    removal takes one away. A sequence that never adds a peer already present
    refines a finite map from peers to sessions: it returns exactly what the map
    returns and leaves a table that represents the resulting map. *)
Theorem koe_session_table_refines (ops : list session_op) (tbl : koe_session_table_t) (w : world) :
  bag_ok tbl → Forall op_ok ops → sane_clock w →
  ∃ rets tbl' w',
    w ⊢ run_ops table_op ops tbl ⇓ (rets, tbl') ⊣ w'
    ∧ bag_ok tbl' ∧ bag_steps ops (actives (t_entries tbl)) w rets (actives (t_entries tbl')) w'
    ∧ ∀ m rets_m m' wm,
        refines tbl m → w ⊢ run_ops map_op ops m ⇓ (rets_m, m') ⊣ wm →
        rets_m = rets ∧ wm = w' ∧ refines tbl' m'.
Proof.
  intros Hb Ho Hc. destruct (table_ops_bag ops tbl w Hb Ho Hc) as ([rets tbl'] & w' & R & _ & Hb' & Hs).
  exists rets, tbl', w'. split_and!; [done..|]. intros m rets_m m' wm Hr Hm.
  destruct (run_ops_simulates table_op map_op refines ops tbl m rets_m m' w wm Hr Hm) as (tbl2 & R2 & Hr2).
  rewrite R in R2. by simplify_eq.
Qed.

Lemma koe_session_table_init_refines : refines koe_session_table_init ∅.
Proof.
  split_and!; [split_and!|constructor|done]; simpl; [done|done|].
  apply (Forall_replicate _ 256 zero_entry), zero_slot_ok.
Qed.

Definition sess_a : koe_session_t := KoeSession (replicate 32 1) (replicate 32 2).
Definition sess_b : koe_session_t := KoeSession (replicate 32 3) (replicate 32 4).

Lemma koe_session_table_refines_witness :
  let ops := [OpAdd (zeros 32) sess_a; OpFind (zeros 32); OpCleanup 60; OpRemove (zeros 32); OpFind (zeros 32)] in
  ∃ tbl' m' w',
    world_at 100 ⊢ run_ops table_op ops koe_session_table_init
      ⇓ ([RetCode 0; RetSession (Some sess_a); RetVoid; RetCode 0; RetSession None], tbl') ⊣ w'
    ∧ refines tbl' m'.
Proof.
  intros ops.
  destruct (koe_session_table_refines ops koe_session_table_init (world_at 100)) as (rets & tbl' & w' & R & _ & _ & Hm).
  - split; [apply koe_session_table_init_refines|]. apply (bool_decide_unpack _). vm_compute. exact I.
  - repeat constructor.
  - intros i. apply (bool_decide_unpack _). vm_compute. exact I.
  - edestruct Hm as (Er & _ & Hr); [exact koe_session_table_init_refines|vm_compute; reflexivity|].
    eexists tbl', _, w'. split; [|exact Hr]. rewrite <-Er in R. exact R.
Defined.

(** * Adding a peer twice

    The table does not replace the session of a peer it already holds: the new
    session goes to another slot and lookups keep answering with the old one,
    and removing the peer uncovers it. *)
Lemma koe_session_table_add_duplicate :
  (λ r, r.1.1) <$> run_ops table_op
     [OpAdd (zeros 32) sess_a; OpAdd (zeros 32) sess_b; OpFind (zeros 32);
      OpRemove (zeros 32); OpFind (zeros 32)] koe_session_table_init (world_at 100)
  = Some [RetCode 0; RetCode 0; RetSession (Some sess_a); RetCode 0; RetSession (Some sess_b)].
Proof. vm_compute. reflexivity. Qed.
