(* ===== verification/Handshake.v ===== *)
(** The two-round key exchange (src/koe_handshake.c, include/koe_handshake.h):
    HELLO, HELLO_ACK and the initiator's final step. *)

From S2P Require Import Prelude Version Crc32 Packet Crypto.

(** * Data *)
Inductive koe_handshake_state_t := KOE_HS_IDLE | KOE_HS_SENT_HELLO | KOE_HS_COMPLETE | KOE_HS_FAILED.

Record koe_handshake_t := KoeHandshake {
  hs_state : koe_handshake_state_t;
  hs_local_eph : koe_ephemeral_t;
  hs_remote_pk : bytes;
  hs_session : koe_session_t;
  hs_negotiated_version : koe_version_t;
}.

#[export] Instance koe_handshake_state_t_eq_dec : EqDecision koe_handshake_state_t.
Proof. solve_decision. Defined.

Definition HELLO_PAYLOAD : Z := 130.
Definition zero_session : koe_session_t := KoeSession (zeros 32) (zeros 32).

(** A structure cleared by [memset]. *)
Definition zero_handshake : koe_handshake_t :=
  KoeHandshake KOE_HS_IDLE (KoeEphemeral (zeros 32) (zeros 32)) (zeros 32) zero_session (KoeVersion 0 0).

(** Field assignments. *)
Definition set_state (s : koe_handshake_state_t) (hs : koe_handshake_t) : koe_handshake_t :=
  KoeHandshake s (hs_local_eph hs) (hs_remote_pk hs) (hs_session hs) (hs_negotiated_version hs).
Definition set_eph (e : koe_ephemeral_t) (hs : koe_handshake_t) : koe_handshake_t :=
  KoeHandshake (hs_state hs) e (hs_remote_pk hs) (hs_session hs) (hs_negotiated_version hs).
Definition set_remote (pk : bytes) (hs : koe_handshake_t) : koe_handshake_t :=
  KoeHandshake (hs_state hs) (hs_local_eph hs) pk (hs_session hs) (hs_negotiated_version hs).
Definition set_session (s : koe_session_t) (hs : koe_handshake_t) : koe_handshake_t :=
  KoeHandshake (hs_state hs) (hs_local_eph hs) (hs_remote_pk hs) s (hs_negotiated_version hs).
Definition set_version (v : koe_version_t) (hs : koe_handshake_t) : koe_handshake_t :=
  KoeHandshake (hs_state hs) (hs_local_eph hs) (hs_remote_pk hs) (hs_session hs) v.

(** * Operations *)
Section Operations.
Context `{Sodium}.

(** The first 66 bytes of a HELLO or HELLO_ACK payload, which are signed. *)
Definition signed_part (v : koe_version_t) (eph_pk id_pk : bytes) : bytes :=
  [major v; minor v] ++ eph_pk ++ id_pk.

(** The packet both messages are sent in: [koe_packet_init], the addresses, the
    length and the checksum, and the payload. *)
Definition hello_packet (type : koe_packet_type_t) (from to payload : bytes) : koe_packet_t :=
  let h := p_header (koe_packet_init (type_code type) KOE_FLAG_SIGNED) in
  let h := set_length HELLO_PAYLOAD h in
  let h := set_from from h in
  let h := set_to to h in
  KoePacket (set_checksum (koe_packet_checksum h) h) (Some payload).

Definition koe_handshake_init (hello_out : koe_packet_t) (local_id : koe_identity_t)
    (remote_pk : bytes) : M (Z * koe_handshake_t * koe_packet_t) :=
  let hs := set_remote remote_pk zero_handshake in
  r ← koe_ephemeral_generate (hs_local_eph hs);
  let hs := set_eph r.2 hs in
  if negb (r.1 =? 0) then mret (-1, hs, hello_out)
  else
    ok ← malloc;
    if negb ok then mret (-1, hs, hello_out)
    else
      let body := signed_part koe_version_local (eph_pk (hs_local_eph hs)) (id_pk local_id) in
      match koe_sign body local_id with
      | None => mret (-1, hs, hello_out)
      | Some sig =>
          mret (0, set_state KOE_HS_SENT_HELLO hs,
                hello_packet KOE_TYPE_HELLO (id_pk local_id) remote_pk (body ++ sig))
      end.

(** The fields of a received payload: version, ephemeral key, identity, the 66
    signed bytes and the signature. *)
Definition read_hello (payload : bytes) : option (koe_version_t * bytes * bytes * bytes * bytes) :=
  vmaj ← payload !! 0%nat;
  vmin ← payload !! 1%nat;
  remote_eph_pk ← peek payload 2 32;
  remote_id_pk ← peek payload 34 32;
  body ← peek payload 0 66;
  sig ← peek payload 66 64;
  Some (KoeVersion vmaj vmin, remote_eph_pk, remote_id_pk, body, sig).

Definition koe_handshake_respond (ack_out hello : koe_packet_t) (local_id : koe_identity_t)
  : M (Z * koe_handshake_t * koe_packet_t) :=
  let hs := zero_handshake in
  match p_payload hello with
  | None => mret (-1, hs, ack_out)
  | Some payload =>
      if h_length (p_header hello) <? HELLO_PAYLOAD then mret (-1, hs, ack_out)
      else
        f ← lift (read_hello payload);
        let '(remote_ver, remote_eph_pk, remote_id_pk, body, sig) := f in
        match koe_version_negotiate koe_version_local remote_ver with
        | (_, None) => mret (-1, hs, ack_out)
        | (_, Some v) =>
            let hs := set_version v hs in
            if negb (koe_verify sig body remote_id_pk =? 0) then mret (-1, hs, ack_out)
            else
              let hs := set_remote remote_id_pk hs in
              r ← koe_ephemeral_generate (hs_local_eph hs);
              let hs := set_eph r.2 hs in
              if negb (r.1 =? 0) then mret (-1, hs, ack_out)
              else
                let '(rc, sess, eph) :=
                  koe_session_derive (hs_session hs) (hs_local_eph hs) remote_eph_pk local_id
                    remote_id_pk false in
                let hs := set_eph eph (set_session sess hs) in
                if negb (rc =? 0) then mret (-1, hs, ack_out)
                else
                  ok ← malloc;
                  if negb ok then mret (-1, hs, ack_out)
                  else
                    let body := signed_part v (eph_pk (hs_local_eph hs)) (id_pk local_id) in
                    match koe_sign body local_id with
                    | None => mret (-1, hs, ack_out)
                    | Some sig =>
                        mret (0, set_state KOE_HS_COMPLETE hs,
                              hello_packet KOE_TYPE_HELLO_ACK (id_pk local_id) remote_id_pk (body ++ sig))
                    end
        end
  end.

Definition koe_handshake_finalise (hs : koe_handshake_t) (ack : koe_packet_t)
    (local_id : koe_identity_t) : option (Z * koe_handshake_t) :=
  match p_payload ack with
  | None => Some (-1, hs)
  | Some payload =>
      if h_length (p_header ack) <? HELLO_PAYLOAD then Some (-1, hs)
      else
        f ← read_hello payload;
        let '(remote_ver, remote_eph_pk, remote_id_pk, body, sig) := f in
        match koe_version_negotiate koe_version_local remote_ver with
        | (_, None) => Some (-1, hs)
        | (_, Some v) =>
            let hs := set_version v hs in
            if negb (koe_verify sig body remote_id_pk =? 0) then Some (-1, hs)
            else
              let '(rc, sess, eph) :=
                koe_session_derive (hs_session hs) (hs_local_eph hs) remote_eph_pk local_id
                  remote_id_pk true in
              let hs := set_eph eph (set_session sess hs) in
              if negb (rc =? 0) then Some (-1, hs)
              else Some (0, set_state KOE_HS_COMPLETE hs)
        end
  end.

End Operations.

(** * Packets *)
Lemma read_hello_body v e i sig :
  length e = 32%nat → length i = 32%nat → length sig = 64%nat →
  read_hello (signed_part v e i ++ sig) = Some (v, e, i, signed_part v e i, sig).
Proof.
  intros He Hi Hs. unfold read_hello.
  assert (Hb : length (signed_part v e i) = 66%nat).
  { unfold signed_part. rewrite !length_app. simpl. lia. }
  rewrite (peek_here (signed_part v e i) sig 0 66) by done.
  rewrite (peek_skip (signed_part v e i) sig 66) by lia. rewrite Hb. simpl Nat.sub.
  replace (peek sig 0 64) with (Some sig) by (symmetry; rewrite <-Hs; apply peek_all).
  unfold signed_part. rewrite <-!app_assoc.
  rewrite (peek_skip _ _ 2), (peek_here e), (peek_skip _ _ 34), (peek_skip e), (peek_here i)
    by (simpl; lia).
  by destruct v.
Qed.

Lemma hello_packet_ok t from to payload :
  array_ok 32 from → array_ok 32 to → array_ok 130 payload →
  packet_ok (hello_packet t from to payload) ∧ koe_packet_validate (hello_packet t from to payload) = 0.
Proof.
  intros Hf Ht [Hl Hb].
  set (h := set_to to (set_from from (set_length HELLO_PAYLOAD
              (p_header (koe_packet_init (type_code t) KOE_FLAG_SIGNED))))).
  assert (Hinit : packet_ok (koe_packet_init (type_code t) KOE_FLAG_SIGNED)).
  { apply koe_packet_init_ok; [|unfold byte_ok, KOE_FLAG_SIGNED; lia].
    unfold byte_ok. destruct t; simpl; lia. }
  assert (Hh : header_ok h).
  { destruct Hinit as [(? & ? & ? & ? & ? & ? & ? & ? & ? & ? & ?) _]. unfold header_ok, h. simpl.
    split_and!; done || (unfold HELLO_PAYLOAD; lia). }
  assert (Hh' : header_ok (set_checksum (koe_packet_checksum h) h)).
  { pose proof (koe_packet_checksum_u32 h Hh).
    destruct Hh as (? & ? & ? & ? & ? & ? & ? & ? & ? & ? & ?). unfold header_ok. simpl.
    split_and!; done || lia. }
  change (hello_packet t from to payload)
    with (KoePacket (set_checksum (koe_packet_checksum h) h) (Some payload)).
  split.
  - split; [exact Hh'|]. simpl. unfold zlen, HELLO_PAYLOAD. rewrite Hl. split_and!; [done|done|lia].
  - apply koe_packet_validate_iff; [exact Hh'|]. simpl. split_and!; [done| |done].
    by left.
Qed.

Section Correctness.
Context `{SodiumLaws}.

Lemma length_signed_part v e i :
  version_ok v → array_ok 32 e → array_ok 32 i → array_ok 66 (signed_part v e i).
Proof.
  intros [? ?] [He ?] [Hi ?]. split.
  - unfold signed_part. rewrite !length_app. simpl. lia.
  - unfold signed_part. rewrite !bytes_ok_app. split; [|done].
    constructor; [done|]. constructor; [done|]. constructor.
Qed.

(** A signed HELLO body, as its receiver reads and checks it. *)
Lemma signed_hello v eph id :
  version_ok v → fresh_ephemeral eph → keypair id →
  let body := signed_part v (eph_pk eph) (id_pk id) in
  ∃ sig, koe_sign body id = Some sig ∧ array_ok 130 (body ++ sig)
    ∧ read_hello (body ++ sig) = Some (v, eph_pk eph, id_pk id, body, sig)
    ∧ koe_verify sig body (id_pk id) = 0.
Proof.
  intros Hv He Hid body. destruct (keypair_ok id Hid) as [Hpk _].
  destruct (fresh_ephemeral_ok eph He) as [Hepk _].
  destruct (koe_sign_verify id body Hid) as (sig & Hs & [Hl Hb] & Hver).
  destruct (length_signed_part v _ _ Hv Hepk Hpk) as [Hl66 Hb66]. fold body in Hl66, Hb66.
  exists sig. split_and!; [done| | |done].
  - split; [rewrite length_app; lia|by apply bytes_ok_app].
  - apply read_hello_body; [apply Hepk|apply Hpk|done].
Qed.

Lemma version_local_ok : version_ok koe_version_local.
Proof. unfold version_ok, byte_ok. simpl. unfold KOE_PROTO_MAJOR, KOE_PROTO_MINOR. lia. Qed.

(** The initiator's first message. *)
Lemma koe_handshake_init_run out id remote_pk w :
  keypair id → array_ok 32 remote_pk → heap_ok w →
  ∃ eph sig,
    fresh_ephemeral eph
    ∧ (let body := signed_part koe_version_local (eph_pk eph) (id_pk id) in
       w ⊢ koe_handshake_init out id remote_pk
         ⇓ (0, set_state KOE_HS_SENT_HELLO (set_eph eph (set_remote remote_pk zero_handshake)),
            hello_packet KOE_TYPE_HELLO (id_pk id) remote_pk (body ++ sig)) ⊣ alloc (draw w)
       ∧ array_ok 130 (body ++ sig)
       ∧ read_hello (body ++ sig) = Some (koe_version_local, eph_pk eph, id_pk id, body, sig)
       ∧ koe_verify sig body (id_pk id) = 0).
Proof.
  intros Hid Hr Hheap. unfold koe_handshake_init.
  destruct (koe_ephemeral_generate_run (hs_local_eph (set_remote remote_pk zero_handshake)) w)
    as (eph & Hgen & Hf).
  destruct (signed_hello koe_version_local eph id version_local_ok Hf Hid) as (sig & Hs & H1 & H2 & H3).
  exists eph, sig. split; [done|]. split_and!; [|done..].
  erewrite bind_run by exact Hgen. cbn [fst snd negb Z.eqb]. rewrite bind_malloc_ok by done.
  cbn [negb hs_local_eph set_eph]. by rewrite Hs.
Qed.

(** The whole exchange, with the peer the initiator asked for left arbitrary. *)
Lemma koe_handshake_run (out out' : koe_packet_t) (ida idb : koe_identity_t) (pkb : bytes)
    (wa wb : world) :
  keypair ida → keypair idb → array_ok 32 pkb → heap_ok wa → heap_ok wb →
  ∃ hsa hello wa' hsb ack wb' hsa',
    wa ⊢ koe_handshake_init out ida pkb ⇓ (0, hsa, hello) ⊣ wa'
    ∧ packet_ok hello ∧ koe_packet_validate hello = 0
    ∧ wb ⊢ koe_handshake_respond out' hello idb ⇓ (0, hsb, ack) ⊣ wb'
    ∧ packet_ok ack ∧ koe_packet_validate ack = 0
    ∧ koe_handshake_finalise hsa ack ida = Some (0, hsa')
    ∧ hs_state hsa' = KOE_HS_COMPLETE ∧ hs_state hsb = KOE_HS_COMPLETE
    ∧ tx_key (hs_session hsa') = rx_key (hs_session hsb)
    ∧ rx_key (hs_session hsa') = tx_key (hs_session hsb)
    ∧ session_ok (hs_session hsa')
    ∧ hs_negotiated_version hsa' = hs_negotiated_version hsb
    ∧ eph_sk (hs_local_eph hsa') = zeros 32 ∧ eph_sk (hs_local_eph hsb) = zeros 32
    ∧ hs_remote_pk hsb = id_pk ida ∧ hs_remote_pk hsa' = pkb
    ∧ h_from (p_header ack) = id_pk idb.
Proof.
  intros Ha Hb Hpkb Hwa Hwb.
  destruct (koe_handshake_init_run out ida pkb wa Ha Hpkb Hwa) as (ea & sig & Hea & Hrun & Hok & Hrd & Hver).
  destruct (keypair_ok ida Ha) as [Hpka _], (keypair_ok idb Hb) as [Hpkb' _].
  set (bodya := signed_part koe_version_local (eph_pk ea) (id_pk ida)) in *.
  set (hello := hello_packet KOE_TYPE_HELLO (id_pk ida) pkb (bodya ++ sig)) in *.
  destruct (hello_packet_ok KOE_TYPE_HELLO (id_pk ida) pkb (bodya ++ sig) Hpka Hpkb Hok) as [Hp Hv].
  destruct (koe_ephemeral_generate_run (KoeEphemeral (zeros 32) (zeros 32)) wb) as (eb & Hgen & Heb).
  destruct (koe_session_derive_agree zero_session zero_session ea eb ida idb Hea Heb)
    as (k1 & k2 & Hk1 & Hk2 & D1 & D2).
  assert (Hfe : eph_pk (KoeEphemeral (eph_pk eb) (zeros 32)) = eph_pk eb) by done.
  destruct (signed_hello koe_version_local eb idb version_local_ok Heb Hb) as (sigb & Hsb & Hokb & Hrdb & Hverb).
  set (bodyb := signed_part koe_version_local (eph_pk eb) (id_pk idb)) in *.
  destruct (hello_packet_ok KOE_TYPE_HELLO_ACK (id_pk idb) (id_pk ida) (bodyb ++ sigb) Hpkb' Hpka Hokb)
    as [Hp' Hv'].
  eexists _, hello, _, _, _, _, _. split; [exact Hrun|]. split; [done|]. split; [done|]. split.
  { unfold koe_handshake_respond, hello. cbn [p_payload hello_packet p_header].
    change (_ <? HELLO_PAYLOAD) with false. cbv iota zeta.
    rewrite (bind_lift _ _ _ _ Hrd). change (koe_version_negotiate koe_version_local koe_version_local)
      with (0, Some koe_version_local). cbv iota zeta. rewrite Hver. cbn [Z.eqb negb].
    erewrite bind_run by exact Hgen. cbn [fst snd Z.eqb negb].
    cbn [hs_local_eph set_eph set_remote set_version hs_session zero_handshake]. rewrite D2. cbn [Z.eqb negb].
    rewrite bind_malloc_ok by done. cbn [negb hs_local_eph set_eph eph_pk]. fold bodyb. rewrite Hsb. reflexivity. }
  split; [done|]. split; [done|]. split.
  { unfold koe_handshake_finalise. cbn [p_payload hello_packet p_header].
    change (_ <? HELLO_PAYLOAD) with false. cbv iota zeta. rewrite Hrdb. cbn [mbind option_bind].
    change (koe_version_negotiate koe_version_local koe_version_local)
      with (0, Some koe_version_local). cbv iota zeta. rewrite Hverb. cbn [Z.eqb negb].
    cbn [hs_local_eph set_eph set_remote set_version set_state hs_session zero_handshake]. rewrite D1.
    reflexivity. }
  by split_and!.
Qed.
(** C3: an initiator and a responder that run the exchange, each in its own
    environment, both complete, agree on the protocol version, hold each
    other's sending key as their receiving key, and have erased their ephemeral
    secrets; both packets are well formed and pass validation, and the responder
    learns the initiator's identity. *)
Theorem koe_handshake_agree (out out' : koe_packet_t) (ida idb : koe_identity_t) (pkb : bytes)
    (wa wb : world) :
  keypair ida → keypair idb → array_ok 32 pkb → heap_ok wa → heap_ok wb →
  ∃ hsa hello wa' hsb ack wb' hsa',
    wa ⊢ koe_handshake_init out ida pkb ⇓ (0, hsa, hello) ⊣ wa'
    ∧ packet_ok hello ∧ koe_packet_validate hello = 0
    ∧ wb ⊢ koe_handshake_respond out' hello idb ⇓ (0, hsb, ack) ⊣ wb'
    ∧ packet_ok ack ∧ koe_packet_validate ack = 0
    ∧ koe_handshake_finalise hsa ack ida = Some (0, hsa')
    ∧ hs_state hsa' = KOE_HS_COMPLETE ∧ hs_state hsb = KOE_HS_COMPLETE
    ∧ tx_key (hs_session hsa') = rx_key (hs_session hsb)
    ∧ rx_key (hs_session hsa') = tx_key (hs_session hsb)
    ∧ session_ok (hs_session hsa')
    ∧ hs_negotiated_version hsa' = hs_negotiated_version hsb
    ∧ eph_sk (hs_local_eph hsa') = zeros 32 ∧ eph_sk (hs_local_eph hsb) = zeros 32
    ∧ hs_remote_pk hsb = id_pk ida ∧ hs_remote_pk hsa' = pkb.
Proof.
  intros Ha Hb Hpkb Hwa Hwb.
  destruct (koe_handshake_run out out' ida idb pkb wa wb Ha Hb Hpkb Hwa Hwb)
    as (hsa & hello & wa' & hsb & ack & wb' & hsa' & Hrun). 
  exists hsa, hello, wa', hsb, ack, wb', hsa'. intuition.
Qed.
End Correctness.

(** * Hostile packets *)
Lemma read_hello_total payload :
  (130 ≤ length payload)%nat → is_Some (read_hello payload).
Proof.
  intros Hl. unfold read_hello.
  destruct (lookup_lt_is_Some_2 payload 0) as [a ->]; [lia|].
  destruct (lookup_lt_is_Some_2 payload 1) as [b ->]; [lia|].
  rewrite !peek_defined by lia. simpl. eauto.
Qed.

(** What a receiver has checked about the payload [p] it accepts. *)
Definition hello_accepted `{Sodium} (p : bytes) (v : koe_version_t) (id : bytes) : Prop :=
  ∃ ver eph body sig,
    read_hello p = Some (ver, eph, id, body, sig)
    ∧ may_talk koe_version_local ver
    ∧ koe_version_negotiate koe_version_local ver = (0, Some v)
    ∧ crypto_sign_verify_detached sig body id = true.

(** The checks shared by both receivers, as a case analysis. *)
Lemma hello_checks `{Sodium} p ver eph id body sig :
  read_hello p = Some (ver, eph, id, body, sig) →
  (koe_version_negotiate koe_version_local ver = (-1, None))
  ∨ ∃ v, koe_version_negotiate koe_version_local ver = (0, Some v)
      ∧ ((koe_verify sig body id =? 0) = false
         ∨ ((koe_verify sig body id =? 0) = true ∧ hello_accepted p v id)).
Proof.
  intros Hrd. unfold hello_accepted, koe_verify.
  destruct (koe_version_negotiate_case koe_version_local ver) as [[E _]|[[E [Ht _]]|[E [Ht _]]]];
    [by left|right..]; eexists; (split; [exact E|]);
    (destruct (crypto_sign_verify_detached sig body id) eqn:Hs; [right|by left]);
    (split; [done|]); exists ver, eph, body, sig; split_and!; assumption.
Qed.

Lemma koe_session_derive_zeroes `{Sodium} sess eph remote id pk b sess' eph' :
  koe_session_derive sess eph remote id pk b = (0, sess', eph') → eph_sk eph' = zeros 32.
Proof. unfold koe_session_derive. destruct (crypto_scalarmult _ _); intros; by simplify_eq. Qed.

Lemma koe_session_derive_refuses `{Sodium} sess eph remote id pk b rc sess' eph' :
  koe_session_derive sess eph remote id pk b = (rc, sess', eph') → rc ≠ 0 → sess' = sess ∧ eph' = eph.
Proof. unfold koe_session_derive. destruct (crypto_scalarmult _ _); intros; by simplify_eq. Qed.

Ltac refused := do 4 eexists; split; [reflexivity|by left].
Ltac refused' v := do 2 eexists; split; [reflexivity|left; split; [done|by exists v]].

Lemma koe_handshake_respond_safe `{Sodium} out pkt id w :
  packet_ok pkt →
  ∃ rc hsb ack w', w ⊢ koe_handshake_respond out pkt id ⇓ (rc, hsb, ack) ⊣ w'
    ∧ ((rc = -1 ∧ hs_state hsb = KOE_HS_IDLE ∧ ack = out)
       ∨ (rc = 0 ∧ hs_state hsb = KOE_HS_COMPLETE ∧ eph_sk (hs_local_eph hsb) = zeros 32
          ∧ ∃ p, p_payload pkt = Some p
                 ∧ hello_accepted p (hs_negotiated_version hsb) (hs_remote_pk hsb))).
Proof.
  intros [_ Hp]. unfold koe_handshake_respond.
  destruct (p_payload pkt) as [p|]; [|refused].
  destruct Hp as (_ & Hlen & _). unfold HELLO_PAYLOAD, zlen in *.
  destruct (Z.ltb_spec (h_length (p_header pkt)) 130); [refused|].
  destruct (read_hello_total p) as [[[[[ver eph] rid] body] sig] Hrd]; [lia|].
  rewrite (bind_lift _ _ _ _ Hrd). cbv iota zeta.
  destruct (hello_checks p ver eph rid body sig Hrd) as [->|(v & -> & [->|[-> Hacc]])];
    cbv iota zeta; cbn [negb]; [refused|refused|].
  unfold koe_ephemeral_generate. mrun.
  destruct (crypto_scalarmult_base _) as [pk|]; cbn; [|refused].
  destruct (koe_session_derive _ _ _ _ _ _) as [[rc sess] eph'] eqn:Hd.
  destruct (Z.eqb_spec rc 0) as [->|]; cbn [negb]; [|refused].
  apply koe_session_derive_zeroes in Hd. cbn.
  destruct (w_heap w (w_allocs w)); cbn [negb]; [|refused].
  destruct (koe_sign _ _); cbn; [|refused].
  do 4 eexists. split; [reflexivity|]. right. cbn. split_and!; [done..|]. by exists p.
Qed.

(** What a receiver reads of a packet is there. *)
Definition hello_readable (pkt : koe_packet_t) : Prop :=
  match p_payload pkt with
  | Some p => h_length (p_header pkt) < HELLO_PAYLOAD ∨ HELLO_PAYLOAD ≤ zlen p
  | None => True
  end.
Lemma packet_ok_readable pkt : packet_ok pkt → hello_readable pkt.
Proof. intros [_ Hp]. unfold hello_readable. destruct (p_payload pkt); [lia|done]. Qed.

Lemma koe_handshake_finalise_safe `{Sodium} hs pkt id :
  hello_readable pkt →
  ∃ rc hsa, koe_handshake_finalise hs pkt id = Some (rc, hsa)
    ∧ ((rc = -1 ∧ ∃ v, hsa = set_version v hs)
       ∨ (rc = 0 ∧ hs_state hsa = KOE_HS_COMPLETE ∧ eph_sk (hs_local_eph hsa) = zeros 32
          ∧ ∃ p rid, p_payload pkt = Some p ∧ hello_accepted p (hs_negotiated_version hsa) rid)).
Proof.
  unfold hello_readable. intros Hp. unfold koe_handshake_finalise.
  assert (Hsame : hs = set_version (hs_negotiated_version hs) hs) by by destruct hs.
  destruct (p_payload pkt) as [p|]; [|refused' (hs_negotiated_version hs)].
  unfold HELLO_PAYLOAD, zlen in *.
  destruct (Z.ltb_spec (h_length (p_header pkt)) 130); [refused' (hs_negotiated_version hs)|].
  destruct (read_hello_total p) as [[[[[ver eph] rid] body] sig] Hrd]; [lia|].
  rewrite Hrd. cbn [mbind option_bind].
  destruct (hello_checks p ver eph rid body sig Hrd) as [->|(v & -> & [->|[-> Hacc]])];
    cbv iota zeta; cbn [negb]; [refused' (hs_negotiated_version hs)|refused' v|].
  destruct (koe_session_derive _ _ _ _ _ _) as [[rc sess] eph'] eqn:Hd.
  destruct (Z.eqb_spec rc 0) as [->|Hrc]; cbn [negb].
  2:{ apply koe_session_derive_refuses in Hd as [-> ->]; [|done]. refused' v. }
  apply koe_session_derive_zeroes in Hd.
  do 2 eexists. split; [reflexivity|]. right. cbn. split_and!; [done..|]. by exists p, rid.
Qed.

(** ** Types of what the receivers produce *)
Lemma read_hello_ok p ver eph id body sig :
  bytes_ok p → read_hello p = Some (ver, eph, id, body, sig) → version_ok ver ∧ array_ok 32 id.
Proof.
  intros Hb Hrd. unfold read_hello in Hrd.
  destruct (p !! 0%nat) as [a|] eqn:Ha; [|done]. destruct (p !! 1%nat) as [b|] eqn:Hbb; [|done]. cbn in Hrd.
  destruct (peek p 2 32) as [e|]; [|done]. cbn in Hrd. destruct (peek p 34 32) as [i|] eqn:Hi; [|done]. cbn in Hrd.
  destruct (peek p 0 66), (peek p 66 64); simplify_eq/=. apply peek_Some in Hi as [Hl ->].
  split; [split; cbn; by eapply Forall_lookup_1|]. split; [done|]. by apply bytes_ok_take, bytes_ok_drop.
Qed.

Lemma koe_version_negotiate_ok a b rc v :
  version_ok a → version_ok b → koe_version_negotiate a b = (rc, Some v) → version_ok v.
Proof.
  intros Ha Hb Hn. destruct (koe_version_negotiate_case a b) as [[E _]|[[E _]|[E _]]]; rewrite E in Hn; by simplify_eq.
Qed.

Lemma koe_session_derive_ok `{SodiumLaws} sess eph remote id pk b sess' eph' :
  koe_session_derive sess eph remote id pk b = (0, sess', eph') → session_ok sess' ∧ eph_pk eph' = eph_pk eph.
Proof.
  unfold koe_session_derive. destruct (crypto_scalarmult _ _); [|done].
  set (c := generichash _ _ _). assert (Hc : array_ok 64 c) by (apply generichash_ok; lia).
  intros [= <- <-]. split; [|done]. destruct Hc as [Hl Hb]. unfold session_ok.
  destruct b; cbn; split_and!; split; try (by apply bytes_ok_take || by apply bytes_ok_drop);
    rewrite ?length_take, ?length_drop; lia.
Qed.

Lemma koe_handshake_finalise_session `{SodiumLaws} hs pkt id hs' :
  koe_handshake_finalise hs pkt id = Some (0, hs') → session_ok (hs_session hs').
Proof.
  unfold koe_handshake_finalise. destruct (p_payload pkt); [|done]. case_match; [done|].
  destruct (read_hello _) as [[[[[ver eph] rid] body] sig]|]; [|done]. cbn.
  destruct (koe_version_negotiate _ _) as [? [v|]]; [|done]. destruct (negb _); [done|].
  destruct (koe_session_derive _ _ _ _ _ _) as [[rc sess] eph'] eqn:Hd. destruct (Z.eqb_spec rc 0) as [->|]; [|done].
  apply koe_session_derive_ok in Hd as [Hs _]. by intros [= <-].
Qed.

(** The responder never fails to return, and answers with a well-formed packet
    or leaves the one it was given. *)
Lemma koe_handshake_respond_runs `{SodiumLaws} out pkt id w :
  packet_ok pkt → identity_ok id →
  runs w (koe_handshake_respond out pkt id) (λ r _, r.2 = out ∨ packet_ok r.2).
Proof.
  intros [_ Hp] [Hpk Hsk]. assert (Hout : ∀ (rc : Z) (hs : koe_handshake_t), (rc, hs, out).2 = out ∨ packet_ok (rc, hs, out).2) by by left.
  unfold koe_handshake_respond. destruct (p_payload pkt) as [p|]; [|by apply runs_ret].
  destruct Hp as (Hpb & Hlen & _). unfold HELLO_PAYLOAD, zlen in *.
  destruct (Z.ltb_spec (h_length (p_header pkt)) 130); [by apply runs_ret|].
  destruct (read_hello_total p) as [[[[[ver eph] rid] body] sig] Hrd]; [lia|].
  destruct (read_hello_ok p ver eph rid body sig Hpb Hrd) as [Hver Hrid].
  eapply runs_lift; [exact Hrd|]. cbv iota zeta.
  destruct (koe_version_negotiate koe_version_local ver) as [rv [v|]] eqn:Hneg; [|by apply runs_ret].
  apply koe_version_negotiate_ok in Hneg; [|by vm_compute|done]. destruct (negb _); [by apply runs_ret|].
  destruct (koe_ephemeral_generate_run (hs_local_eph (set_remote rid (set_version v zero_handshake))) w) as (e & Hgen & He).
  eapply (runs_bind _ _ _ (λ r _, r = (0, e))); [by exists (0, e), (draw w)|]. intros ? w1 _ ->. cbn [fst snd Z.eqb negb].
  destruct (koe_session_derive _ _ _ _ _ _) as [[rc sess] eph'] eqn:Hd.
  destruct (Z.eqb_spec rc 0) as [->|]; cbn [negb]; [|by apply runs_ret].
  apply koe_session_derive_ok in Hd as [_ Hepk]. apply runs_malloc. destruct (w_heap _ _); cbn [negb]; [|by apply runs_ret].
  destruct (koe_sign _ _) as [sg|] eqn:Hsg; [|by apply runs_ret]. apply sign_detached_ok in Hsg as [Hsl Hsb]; [|done].
  apply runs_ret. right. cbn [fst snd]. apply hello_packet_ok; [done|done|]. cbn [hs_local_eph set_eph]. rewrite Hepk.
  destruct (length_signed_part v (eph_pk e) (id_pk id)) as [Hl66 Hb66]; [done|by apply fresh_ephemeral_ok|done|].
  split; [rewrite length_app; cbn [hs_local_eph set_eph]; lia|by apply bytes_ok_app].
Qed.

Lemma total_koe_handshake_init `{Sodium} out id pk : total (koe_handshake_init out id pk).
Proof. unfold koe_handshake_init, koe_ephemeral_generate. total. Qed.

(** C4: whatever packet arrives, both receiving steps return; they complete
    only on a payload whose version may talk to ours and whose signature
    verifies under the identity it names, and then the ephemeral secret is
    gone; otherwise they answer -1: the responder, which clears its state first,
    is idle and produces no packet, and of the initiator's state nothing but the
    negotiated version (which is written before the signature is checked) can
    have changed. *)
Theorem koe_handshake_receive_safe `{Sodium} (hs : koe_handshake_t) (out pkt : koe_packet_t)
    (id : koe_identity_t) (w : world) :
  packet_ok pkt →
  (∃ rc hsb ack w', w ⊢ koe_handshake_respond out pkt id ⇓ (rc, hsb, ack) ⊣ w'
     ∧ ((rc = -1 ∧ hs_state hsb = KOE_HS_IDLE ∧ ack = out)
        ∨ (rc = 0 ∧ hs_state hsb = KOE_HS_COMPLETE ∧ eph_sk (hs_local_eph hsb) = zeros 32
           ∧ ∃ p, p_payload pkt = Some p
                  ∧ hello_accepted p (hs_negotiated_version hsb) (hs_remote_pk hsb))))
  ∧ (∃ rc hsa, koe_handshake_finalise hs pkt id = Some (rc, hsa)
     ∧ ((rc = -1 ∧ ∃ v, hsa = set_version v hs)
        ∨ (rc = 0 ∧ hs_state hsa = KOE_HS_COMPLETE ∧ eph_sk (hs_local_eph hsa) = zeros 32
           ∧ ∃ p rid, p_payload pkt = Some p ∧ hello_accepted p (hs_negotiated_version hsa) rid))).
Proof.
  intros Hp. split; [by apply koe_handshake_respond_safe|by apply koe_handshake_finalise_safe, packet_ok_readable].
Qed.

(** * Witnesses *)
#[local] Existing Instance toy_sodium.
#[local] Existing Instance toy_laws.

Definition toy_identity (b : Z) : koe_identity_t := KoeIdentity (replicate 32 b) (replicate 64 b).
Lemma toy_identity_keypair b : byte_ok b → keypair (toy_identity b).
Proof.
  intros Hb. exists (replicate 32 b). split; [|reflexivity].
  split; [apply length_replicate|by apply Forall_replicate].
Qed.

Lemma koe_handshake_agree_witness :
  ∃ hsa hello wa' hsb ack wb' hsa',
    world_at 1 ⊢ koe_handshake_init witness_packet (toy_identity 1) (replicate 32 2) ⇓ (0, hsa, hello) ⊣ wa'
    ∧ world_at 2 ⊢ koe_handshake_respond witness_packet hello (toy_identity 2) ⇓ (0, hsb, ack) ⊣ wb'
    ∧ koe_handshake_finalise hsa ack (toy_identity 1) = Some (0, hsa')
    ∧ tx_key (hs_session hsa') = rx_key (hs_session hsb).
Proof.
  destruct (koe_handshake_agree witness_packet witness_packet (toy_identity 1) (toy_identity 2)
    (replicate 32 2) (world_at 1) (world_at 2))
    as (hsa & hello & wa' & hsb & ack & wb' & hsa' & H1 & _ & _ & H2 & _ & _ & H3 & _ & _ & H4 & _).
  - apply toy_identity_keypair. unfold byte_ok. lia.
  - apply toy_identity_keypair. unfold byte_ok. lia.
  - apply (bool_decide_unpack _). vm_compute. exact I.
  - intros i. reflexivity.
  - intros i. reflexivity.
  - exists hsa, hello, wa', hsb, ack, wb', hsa'. split_and!; assumption.
Defined.

Lemma koe_handshake_receive_safe_witness :
  ∃ rc hsb ack w',
    world_at 1 ⊢ koe_handshake_respond witness_packet (zero_payload_packet 130) (toy_identity 2)
      ⇓ (rc, hsb, ack) ⊣ w'.
Proof.
  destruct (koe_handshake_receive_safe zero_handshake witness_packet (zero_payload_packet 130)
    (toy_identity 2) (world_at 1)) as [(rc & hsb & ack & w' & H1 & _) _].
  - apply zero_payload_packet_ok. lia.
  - exists rc, hsb, ack, w'. exact H1.
Defined.

(** * The initiator does not check who answered

    [koe_handshake_finalise] takes the responder's identity from the payload and
    never compares it with the peer the handshake was started for: anyone with a
    key pair who sees the HELLO completes the exchange in that peer's name. *)

(** An initiator that asked for [pkb] completes the handshake with any
    other identity [idm] that answers, shares its session keys with it, and
    still records [pkb] as the peer. *)
Lemma koe_handshake_impersonation `{SodiumLaws} (out out' : koe_packet_t)
    (ida idm : koe_identity_t) (pkb : bytes) (wa wm : world) :
  keypair ida → keypair idm → array_ok 32 pkb → pkb ≠ id_pk idm → heap_ok wa → heap_ok wm →
  ∃ hsa hello wa' hsm ack wm' hsa',
    wa ⊢ koe_handshake_init out ida pkb ⇓ (0, hsa, hello) ⊣ wa'
    ∧ wm ⊢ koe_handshake_respond out' hello idm ⇓ (0, hsm, ack) ⊣ wm'
    ∧ koe_handshake_finalise hsa ack ida = Some (0, hsa')
    ∧ hs_state hsa' = KOE_HS_COMPLETE ∧ hs_remote_pk hsa' = pkb
    ∧ h_from (p_header ack) ≠ pkb
    ∧ tx_key (hs_session hsa') = rx_key (hs_session hsm)
    ∧ rx_key (hs_session hsa') = tx_key (hs_session hsm).
Proof.
  intros Ha Hm Hpkb Hne Hwa Hwm.
  destruct (koe_handshake_run out out' ida idm pkb wa wm Ha Hm Hpkb Hwa Hwm)
    as (hsa & hello & wa' & hsm & ack & wm' & hsa' & Hrun).
  exists hsa, hello, wa', hsm, ack, wm', hsa'.
  destruct Hrun as (? & _ & _ & ? & _ & _ & ? & ? & _ & ? & ? & _ & _ & _ & _ & _ & ? & Hf).
  rewrite Hf. split_and!; done.
Qed.

Lemma koe_handshake_impersonation_witness :
  ∃ hsa hello wa' hsm ack wm' hsa',
    world_at 1 ⊢ koe_handshake_init witness_packet (toy_identity 1) (replicate 32 2) ⇓ (0, hsa, hello) ⊣ wa'
    ∧ world_at 2 ⊢ koe_handshake_respond witness_packet hello (toy_identity 3) ⇓ (0, hsm, ack) ⊣ wm'
    ∧ koe_handshake_finalise hsa ack (toy_identity 1) = Some (0, hsa')
    ∧ hs_remote_pk hsa' = replicate 32 2.
Proof.
  destruct (koe_handshake_impersonation witness_packet witness_packet (toy_identity 1) (toy_identity 3)
    (replicate 32 2) (world_at 1) (world_at 2))
    as (hsa & hello & wa' & hsm & ack & wm' & hsa' & H1 & H2 & H3 & _ & H4 & _).
  - apply toy_identity_keypair. unfold byte_ok. lia.
  - apply toy_identity_keypair. unfold byte_ok. lia.
  - apply (bool_decide_unpack _). vm_compute. exact I.
  - discriminate.
  - intros i. reflexivity.
  - intros i. reflexivity.
  - exists hsa, hello, wa', hsm, ack, wm', hsa'. split_and!; assumption.
Defined.
