(* ===== verification/Message.v ===== *)
(** Application messages (src/koe_message.c, include/koe_message.h):
    allocation, signing, self-destruction and scheduling, and the sealed packet
    a message travels in. *)

From S2P Require Import Prelude Version Crc32 Packet Crypto.

(** * Data *)
Inductive koe_msg_type_t := KOE_MSG_TEXT | KOE_MSG_AUDIO | KOE_MSG_MEDIA | KOE_MSG_GROUP.
Inductive koe_msg_status_t :=
  KOE_STATUS_PENDING | KOE_STATUS_SENT | KOE_STATUS_DELIVERED | KOE_STATUS_READ | KOE_STATUS_FAILED.

Record koe_message_t := KoeMessage {
  m_id : Z;
  m_type : koe_msg_type_t;
  m_status : koe_msg_status_t;
  m_from : bytes;
  m_to : bytes;
  m_body : option bytes;
  m_body_len : Z;
  m_sig : bytes;
  m_sent_at : Z;
  m_delivered_at : Z;
  m_read_at : Z;
  m_destruct_after_seconds : Z;
  m_destruct_at : Z;
  m_scheduled_at : Z;
  m_is_secret : bool;
}.

Definition set_m_from (a : bytes) (m : koe_message_t) : koe_message_t :=
  KoeMessage (m_id m) (m_type m) (m_status m) a (m_to m) (m_body m) (m_body_len m) (m_sig m)
    (m_sent_at m) (m_delivered_at m) (m_read_at m) (m_destruct_after_seconds m) (m_destruct_at m)
    (m_scheduled_at m) (m_is_secret m).
Definition set_m_sig (a : bytes) (m : koe_message_t) : koe_message_t :=
  KoeMessage (m_id m) (m_type m) (m_status m) (m_from m) (m_to m) (m_body m) (m_body_len m) a
    (m_sent_at m) (m_delivered_at m) (m_read_at m) (m_destruct_after_seconds m) (m_destruct_at m)
    (m_scheduled_at m) (m_is_secret m).
Definition set_m_destruct (ttl at_ : Z) (m : koe_message_t) : koe_message_t :=
  KoeMessage (m_id m) (m_type m) (m_status m) (m_from m) (m_to m) (m_body m) (m_body_len m) (m_sig m)
    (m_sent_at m) (m_delivered_at m) (m_read_at m) ttl at_ (m_scheduled_at m) (m_is_secret m).
Definition set_m_scheduled (t : Z) (m : koe_message_t) : koe_message_t :=
  KoeMessage (m_id m) (m_type m) (m_status m) (m_from m) (m_to m) (m_body m) (m_body_len m) (m_sig m)
    (m_sent_at m) (m_delivered_at m) (m_read_at m) (m_destruct_after_seconds m) (m_destruct_at m)
    t (m_is_secret m).

(** * Operations

    [None] arguments are NULL pointers. *)

(** The id and the new value of the static counter. *)
Definition generate_message_id (counter : Z) : M (Z * Z) :=
  ts ← clock_gettime;
  let counter := u64 (counter + 1) in
  let id := u64 (u64 ts.1 * 1000000 + ts.2 `div` 1000) in
  mret (u64 (id + counter), counter).

Definition koe_message_alloc (counter : Z) (type : koe_msg_type_t) (to body : option bytes)
    (body_len : Z) : M (option koe_message_t * Z) :=
  match body, to with
  | Some body, Some to =>
      if body_len =? 0 then mret (None, counter)
      else
        ok ← malloc;
        if negb ok then mret (None, counter)
        else
          r ← generate_message_id counter;
          ok ← malloc;
          if negb ok then mret (None, r.2)
          else
            copy ← lift (peek body 0 (Z.to_nat body_len));
            t ← time_null;
            mret (Some (KoeMessage r.1 type KOE_STATUS_PENDING (zeros 32) to (Some copy) body_len
                          (zeros 64) t 0 0 0 0 0 false), r.2)
  | _, _ => mret (None, counter)
  end.

(** The memory handed back to the allocator. *)
Definition koe_message_free (msg : koe_message_t) : option koe_message_t :=
  body ← match m_body msg with
         | Some b => b' ← poke b 0 (zeros (Z.to_nat (m_body_len msg))); Some (Some b')
         | None => Some None
         end;
  Some (KoeMessage (m_id msg) (m_type msg) (m_status msg) (zeros 32) (zeros 32) body
          (m_body_len msg) (zeros 64) (m_sent_at msg) (m_delivered_at msg) (m_read_at msg)
          (m_destruct_after_seconds msg) (m_destruct_at msg) (m_scheduled_at msg) (m_is_secret msg)).

(** [body] and [body_len] as an argument of the crypto functions. *)
Definition body_bytes (msg : koe_message_t) : option bytes :=
  match m_body msg with
  | Some b => peek b 0 (Z.to_nat (m_body_len msg))
  | None => if m_body_len msg =? 0 then Some [] else None
  end.

Definition koe_message_should_destruct (msg : koe_message_t) : M bool :=
  if m_destruct_after_seconds msg =? 0 then mret false
  else t ← time_null; mret (m_destruct_at msg <=? t).

Definition koe_message_set_destruct (msg : koe_message_t) (ttl_seconds : Z) : M koe_message_t :=
  if ttl_seconds =? 0 then mret msg
  else
    t ← time_null;
    at_ ← lift (add64 t ttl_seconds);
    mret (set_m_destruct ttl_seconds at_ msg).

Definition koe_message_schedule (msg : koe_message_t) (send_at_unix : Z) : koe_message_t :=
  set_m_scheduled send_at_unix msg.

Definition koe_message_is_due (msg : koe_message_t) : M bool :=
  if m_scheduled_at msg =? 0 then mret true
  else t ← time_null; mret (m_scheduled_at msg <=? t).

Section Sealed.
Context `{Sodium}.

Definition koe_message_sign (msg : koe_message_t) (id : option koe_identity_t)
  : option (Z * koe_message_t) :=
  match id with
  | None => Some (-1, msg)
  | Some id =>
      body ← body_bytes msg;
      match koe_sign body id with
      | None => Some (-1, msg)
      | Some sig => Some (0, set_m_from (id_pk id) (set_m_sig sig msg))
      end
  end.

Definition koe_message_verify (msg : koe_message_t) : option Z :=
  match m_body msg with
  | None => Some (-1)
  | Some _ => body ← body_bytes msg; Some (koe_verify (m_sig msg) body (m_from msg))
  end.

Definition koe_message_encrypt (msg : koe_message_t) (sess : koe_session_t)
  : M (Z * koe_packet_t) :=
  let h := p_header (koe_packet_init (type_code KOE_TYPE_MSG) KOE_FLAG_ENCRYPTED) in
  let h := set_to (m_to msg) (set_from (m_from msg) h) in
  nonce ← koe_nonce_generate;
  let h := set_nonce nonce h in
  let ct_len := u64 (m_body_len msg + 16) in
  ok ← malloc;
  if negb ok then mret (-1, KoePacket h None)
  else
    body ← lift (body_bytes msg);
    match koe_encrypt body nonce (tx_key sess) with
    | None => mret (-1, KoePacket h None)
    | Some ct =>
        let h := set_length (u32 ct_len) h in
        let h := set_flags (u8 (Z.lor (h_flags h) KOE_FLAG_SIGNED)) h in
        mret (0, KoePacket h (Some ct))
    end.

Definition koe_message_decrypt (msg : koe_message_t) (pkt : koe_packet_t) (sess : koe_session_t)
  : M (Z * koe_message_t) :=
  let h := p_header pkt in
  if Z.land (h_flags h) KOE_FLAG_ENCRYPTED =? 0 then mret (-1, msg)
  else if h_length h <? 16 then mret (-1, msg)
  else
    let plain_len := h_length h - 16 in
    ok ← malloc;
    if negb ok then mret (-1, msg)
    else
      ct ← lift (match p_payload pkt with
                 | Some p => peek p 0 (Z.to_nat (h_length h))
                 | None => None
                 end);
      match koe_decrypt ct (h_nonce h) (rx_key sess) with
      | None => mret (-1, msg)
      | Some plain =>
          t ← time_null;
          mret (0, KoeMessage (m_id msg) (m_type msg) KOE_STATUS_DELIVERED (h_from h) (h_to h)
                     (Some plain) plain_len (m_sig msg) (m_sent_at msg) t (m_read_at msg)
                     (m_destruct_after_seconds msg) (m_destruct_at msg) (m_scheduled_at msg)
                     (m_is_secret msg))
      end.

End Sealed.

(** * Well-formed messages *)
Definition message_ok (m : koe_message_t) : Prop :=
  array_ok 32 (m_from m) ∧ array_ok 32 (m_to m) ∧ array_ok 64 (m_sig m)
  ∧ 0 ≤ m_body_len m
  ∧ match m_body m with
    | Some b => bytes_ok b ∧ zlen b = m_body_len m
    | None => m_body_len m = 0
    end.

Lemma body_bytes_ok m :
  message_ok m → body_bytes m = Some (default [] (m_body m)) ∧ bytes_ok (default [] (m_body m))
                 ∧ zlen (default [] (m_body m)) = m_body_len m.
Proof.
  intros (_ & _ & _ & Hl & Hb). unfold body_bytes. destruct (m_body m) as [b|]; simpl.
  - destruct Hb as [Hb <-]. unfold zlen. by rewrite Nat2Z.id, peek_all.
  - rewrite Hb. repeat split; try done. constructor.
Qed.

(** A fresh message. *)
Lemma koe_message_alloc_run counter type to body w :
  array_ok 32 to → bytes_ok body → body ≠ [] → heap_ok w →
  ∃ msg c' w', same_env w w' ∧ w_fs w' = w_fs w
    ∧ w ⊢ koe_message_alloc counter type (Some to) (Some body) (zlen body) ⇓ (Some msg, c') ⊣ w'
    ∧ message_ok msg ∧ m_to msg = to ∧ m_body msg = Some body ∧ m_body_len msg = zlen body.
Proof.
  intros Hto Hb Hne Hheap. unfold koe_message_alloc, generate_message_id, clock_gettime.
  destruct (Z.eqb_spec (zlen body) 0) as [E|]; [destruct body; done|].
  rewrite bind_malloc_ok by done. cbn [negb]. mrun. rewrite Hheap. mrun.
  unfold zlen at 1. rewrite Nat2Z.id, peek_all. mrun.
  eexists _, _, _. split; [|split; [|split; [reflexivity|]]]; [done|done|].
  unfold message_ok. cbn [m_from m_to m_sig m_body m_body_len].
  split_and!; try done;
    try (split; [done|apply (bytes_ok_zeros 32) || apply (bytes_ok_zeros 64)]). unfold zlen. lia.
Qed.

Lemma koe_message_free_run msg : message_ok msg → is_Some (koe_message_free msg).
Proof.
  intros (_ & _ & _ & _ & Hb). unfold koe_message_free. destruct (m_body msg) as [b|]; [|by eexists].
  destruct Hb as [_ Hl]. rewrite poke_app; [by eexists|].
  unfold zeros, zlen in *. rewrite length_replicate. lia.
Qed.

(** * Identifiers *)

(** Microseconds since the epoch, as [clock_gettime] would answer next. *)
Definition micros (w : world) : Z := now w * 1000000 + (w_rng w (w_draws w) 0%nat `mod` 1000000000) `div` 1000.

Lemma generate_message_id_run counter w :
  0 ≤ counter → 0 ≤ now w → micros w + counter + 1 < 2 ^ 64 →
  w ⊢ generate_message_id counter ⇓ (micros w + counter + 1, counter + 1) ⊣ tick (draw w).
Proof.
  intros Hc Hn Hm. unfold generate_message_id. mrun. unfold micros in *.
  set (ns := w_rng w (w_draws w) 0%nat `mod` 1000000000) in *.
  assert (0 ≤ ns `div` 1000) by (unfold ns; lia).
  rewrite (u64_id (now w)), (u64_id (counter + 1)) by lia.
  rewrite (u64_id (_ + ns `div` 1000)) by lia. rewrite u64_id by lia. do 3 f_equal. lia.
Qed.

(** Identifiers drawn one after the other by a process whose clock does not
    run backwards are strictly increasing, hence distinct. *)
Lemma generate_message_id_increasing (counter id1 id2 c1 c2 : Z) (w w1 w2 w3 : world) :
  0 ≤ counter → 0 ≤ now w → 0 ≤ now w2 → micros w ≤ micros w2 → micros w2 + counter + 2 < 2 ^ 64 →
  w ⊢ generate_message_id counter ⇓ (id1, c1) ⊣ w1 →
  w2 ⊢ generate_message_id c1 ⇓ (id2, c2) ⊣ w3 →
  id1 < id2.
Proof.
  intros Hc Hn Hn2 Hle Hmax H1 H2.
  rewrite (generate_message_id_run counter w) in H1 by lia. injection H1 as <- <- <-.
  rewrite (generate_message_id_run (counter + 1) w2) in H2 by lia. injection H2 as <- <- <-. lia.
Qed.

Lemma generate_message_id_increasing_witness : 1000000000001 < 1001000000002.
Proof.
  apply (generate_message_id_increasing 0 1000000000001 1001000000002 1 2
    (World (λ _, 1000000) 0 (λ _, true) 0 (λ _ _, 0) 0 (λ _, true) 0 ∅)
    (tick (draw (World (λ _, 1000000) 0 (λ _, true) 0 (λ _ _, 0) 0 (λ _, true) 0 ∅)))
    (World (λ _, 1001000) 0 (λ _, true) 0 (λ _ _, 0) 0 (λ _, true) 0 ∅)
    (tick (draw (World (λ _, 1001000) 0 (λ _, true) 0 (λ _ _, 0) 0 (λ _, true) 0 ∅))));
    try (vm_compute; reflexivity); try (vm_compute; discriminate).
Defined.

(** * Self-destruction and scheduling *)

(** A message given a time to live is due for destruction exactly from the
    moment it was set plus that time on; without one it never is. A scheduled
    message is due exactly from its send time on. *)
Lemma koe_message_timers (msg : koe_message_t) (ttl send_at : Z) (w w2 : world) :
  0 ≤ now w < 2 ^ 62 → 0 ≤ ttl < 2 ^ 32 → m_destruct_after_seconds msg = 0 → send_at ≠ 0 →
  ∃ msg' w1,
    w ⊢ koe_message_set_destruct msg ttl ⇓ msg' ⊣ w1
    ∧ (∃ w3, w2 ⊢ koe_message_should_destruct msg'
         ⇓ bool_decide (0 < ttl ∧ now w + ttl ≤ now w2) ⊣ w3)
    ∧ (∃ w3, w2 ⊢ koe_message_is_due (koe_message_schedule msg' send_at)
         ⇓ bool_decide (send_at ≤ now w2) ⊣ w3).
Proof.
  intros Hn Httl H0 Hs.
  assert (Hdue : ∀ m, ∃ w3, w2 ⊢ koe_message_is_due (koe_message_schedule m send_at)
         ⇓ bool_decide (send_at ≤ now w2) ⊣ w3).
  { intros m. unfold koe_message_is_due. cbn [m_scheduled_at koe_message_schedule set_m_scheduled].
    destruct (Z.eqb_spec send_at 0); [done|]. eexists. rewrite bind_time. unfold mret, M_ret. do 2 f_equal. destruct (Z.leb_spec send_at (now w2));
      symmetry; [apply bool_decide_eq_true_2|apply bool_decide_eq_false_2]; lia. }
  unfold koe_message_set_destruct, koe_message_should_destruct.
  destruct (Z.eqb_spec ttl 0) as [->|Ht].
  - exists msg, w. split_and!; [done| |apply Hdue]. rewrite H0. exists w2.
    rewrite bool_decide_eq_false_2 by lia. done.
  - eexists _, _. rewrite bind_time. rewrite (bind_lift _ _ _ (now w + ttl)) by (apply chk64_Some; lia).
    split_and!; [reflexivity| |apply Hdue]. cbn [m_destruct_after_seconds m_destruct_at set_m_destruct].
    destruct (Z.eqb_spec ttl 0); [done|]. eexists. rewrite bind_time. unfold mret, M_ret. do 2 f_equal. destruct (Z.leb_spec (now w + ttl) (now w2));
      symmetry; [apply bool_decide_eq_true_2|apply bool_decide_eq_false_2]; lia.
Qed.

Definition witness_message : koe_message_t :=
  KoeMessage 1 KOE_MSG_TEXT KOE_STATUS_PENDING (zeros 32) (replicate 32 2) (Some [104; 105]) 2
    (zeros 64) 0 0 0 0 0 0 false.

Lemma koe_message_timers_witness :
  ∃ msg' w1,
    world_at 100 ⊢ koe_message_set_destruct witness_message 60 ⇓ msg' ⊣ w1
    ∧ (∃ w3, world_at 160 ⊢ koe_message_should_destruct msg' ⇓ true ⊣ w3).
Proof.
  destruct (koe_message_timers witness_message 60 5 (world_at 100) (world_at 160))
    as (msg' & w1 & H1 & H2 & _).
  - vm_compute. split; [discriminate|reflexivity].
  - lia.
  - reflexivity.
  - lia.
  - exists msg', w1. split; [exact H1|exact H2].
Defined.

Section Correctness.
Context `{SodiumLaws}.

(** What sealing a message produces. *)
Definition sealed_header (msg : koe_message_t) (nonce : bytes) : koe_header_t :=
  KoeHeader KOE_MAGIC KOE_PROTO_MAJOR KOE_PROTO_MINOR (type_code KOE_TYPE_MSG)
    (KOE_FLAG_ENCRYPTED + KOE_FLAG_SIGNED) (m_body_len msg + 16) (m_from msg) (m_to msg) nonce 0 (zeros 2).

Lemma sealed_header_ok msg nonce :
  message_ok msg → m_body_len msg + 16 < 2 ^ 32 → array_ok 24 nonce → header_ok (sealed_header msg nonce).
Proof.
  intros (Hf & Ht & _ & Hl & _) Hmax Hn. unfold header_ok, sealed_header. simpl.
  split_and!; try done; try lia; try (unfold byte_ok, KOE_PROTO_MAJOR, KOE_PROTO_MINOR,
    KOE_FLAG_ENCRYPTED, KOE_FLAG_SIGNED; lia).
  apply (bool_decide_unpack _). vm_compute. exact I.
Qed.

Lemma koe_message_encrypt_run msg sess w :
  message_ok msg → m_body_len msg + 16 < 2 ^ 32 → session_ok sess → heap_ok w →
  ∃ ct,
    w ⊢ koe_message_encrypt msg sess
      ⇓ (0, KoePacket (sealed_header msg (random_bytes w 24)) (Some ct)) ⊣ alloc (draw w)
    ∧ array_ok (length (default [] (m_body msg)) + 16) ct
    ∧ koe_decrypt ct (random_bytes w 24) (tx_key sess) = Some (default [] (m_body msg)).
Proof.
  intros Hm Hmax [Hk _] Hheap. destruct (body_bytes_ok msg Hm) as (Hb & Hok & Hlen).
  assert (Hl : 0 ≤ m_body_len msg) by apply Hm.
  destruct (koe_decrypt_encrypt (default [] (m_body msg)) (random_bytes w 24) (tx_key sess))
    as (ct & Henc & Hct & Hdec); [done|lia|apply random_array_ok|done|].
  exists ct. split_and!; [|done|done]. unfold koe_message_encrypt, koe_nonce_generate, KOE_NONCE_LEN.
  rewrite bind_random, bind_malloc_ok by done. cbn [negb].
  rewrite (bind_lift _ _ _ _ Hb), Henc, (u64_id (m_body_len msg + 16)) by lia.
  rewrite u32_id by lia. done.
Qed.

Lemma seal_open_run (msg old : koe_message_t) (sa sb : koe_session_t) (w w2 : world) :
  message_ok msg → m_body_len msg + 16 < 2 ^ 32 → session_ok sa → rx_key sb = tx_key sa →
  heap_ok w → heap_ok w2 →
  ∃ pkt w1 msg' w3,
    w ⊢ koe_message_encrypt msg sa ⇓ (0, pkt) ⊣ w1
    ∧ packet_ok pkt
    ∧ w2 ⊢ koe_message_decrypt old pkt sb ⇓ (0, msg') ⊣ w3
    ∧ m_body msg' = Some (default [] (m_body msg)) ∧ m_body_len msg' = m_body_len msg
    ∧ m_from msg' = m_from msg ∧ m_to msg' = m_to msg
    ∧ m_status msg' = KOE_STATUS_DELIVERED ∧ m_delivered_at msg' = now w2
    ∧ h_from (p_header pkt) = m_from msg.
Proof.
  intros Hm Hmax Hs Hkey Hheap Hheap2. destruct (body_bytes_ok msg Hm) as (_ & Hb & Hlen).
  assert (Hl : 0 ≤ m_body_len msg) by apply Hm.
  destruct (koe_message_encrypt_run msg sa w Hm Hmax Hs Hheap) as (ct & Hrun & [Hct Hctb] & Hdec).
  eexists _, _, _, _. split; [exact Hrun|]. split.
  { split; [apply sealed_header_ok; try done; apply random_array_ok|]. simpl.
    unfold zlen in *. split_and!; [done|lia|lia]. }
  split.
  { unfold koe_message_decrypt. cbn [p_header p_payload sealed_header h_flags h_length h_nonce h_from h_to].
    change (Z.land _ KOE_FLAG_ENCRYPTED =? 0) with false. cbv iota.
    destruct (Z.ltb_spec (m_body_len msg + 16) 16); [lia|].
    rewrite bind_malloc_ok by done. cbn [negb].
    rewrite (bind_lift _ _ _ ct).
    2:{ replace (Z.to_nat (m_body_len msg + 16)) with (length ct) by (unfold zlen in *; lia). apply peek_all. }
    rewrite Hkey, Hdec, bind_time. reflexivity. }
  cbn. split_and!; try done. lia.
Qed.

Lemma koe_message_decrypt_env old pkt sess r w w' :
  w ⊢ koe_message_decrypt old pkt sess ⇓ r ⊣ w' → same_env w w'.
Proof. unfold koe_message_decrypt. intros Hd. mrun. repeat (case_match; mrun); simplify_eq; done. Qed.

(** A message sealed under a session is opened by the peer that holds the
    sending key as its receiving key: the packet is well formed, the body, the
    sender and the recipient are those of the message, and it is marked
    delivered at the time of reception. *)
Lemma koe_message_seal_open (msg old : koe_message_t) (sa sb : koe_session_t) (w w2 : world) :
  message_ok msg → m_body_len msg + 16 < 2 ^ 32 → session_ok sa → rx_key sb = tx_key sa →
  heap_ok w → heap_ok w2 →
  ∃ pkt w1 msg' w3,
    w ⊢ koe_message_encrypt msg sa ⇓ (0, pkt) ⊣ w1
    ∧ packet_ok pkt
    ∧ w2 ⊢ koe_message_decrypt old pkt sb ⇓ (0, msg') ⊣ w3
    ∧ m_body msg' = Some (default [] (m_body msg)) ∧ m_body_len msg' = m_body_len msg
    ∧ m_from msg' = m_from msg ∧ m_to msg' = m_to msg
    ∧ m_status msg' = KOE_STATUS_DELIVERED ∧ m_delivered_at msg' = now w2.
Proof.
  intros Hm Hmax Hs Hkey Hheap Hheap2.
  destruct (seal_open_run msg old sa sb w w2) as (pkt & w1 & msg' & w3 & Hrun); try done.
  exists pkt, w1, msg', w3. intuition.
Qed.

(** A signed message carries its signer's key and verifies; a message that
    verifies was accepted by the signature check on exactly its body under
    exactly that key. *)
Lemma koe_message_sign_verify (msg : koe_message_t) (id : koe_identity_t) :
  message_ok msg → keypair id → m_body msg ≠ None →
  ∃ msg', koe_message_sign msg (Some id) = Some (0, msg')
    ∧ koe_message_verify msg' = Some 0
    ∧ m_from msg' = id_pk id ∧ m_body msg' = m_body msg ∧ message_ok msg'.
Proof.
  intros Hm Hid Hne. destruct (body_bytes_ok msg Hm) as (Hb & _ & _).
  destruct (koe_sign_verify id (default [] (m_body msg)) Hid) as (sig & Hs & Hok & Hv).
  exists (set_m_from (id_pk id) (set_m_sig sig msg)). unfold koe_message_sign. rewrite Hb. simpl.
  rewrite Hs. split; [done|].
  assert (Hbb : body_bytes (set_m_from (id_pk id) (set_m_sig sig msg)) = body_bytes msg) by done.
  unfold koe_message_verify. rewrite Hbb, Hb. simpl. destruct (m_body msg) eqn:E; [|done].
  simpl in *. rewrite Hv. split_and!; try done.
  destruct Hm as (? & ? & ? & ? & ?). destruct (keypair_ok id Hid). unfold message_ok. simpl.
  by rewrite E in *.
Qed.

(** Sealing never fills in the header checksum: the packet passes
    validation only if the checksum of its header happens to be zero. *)
Lemma koe_message_encrypt_no_checksum (msg : koe_message_t) (sess : koe_session_t) (w : world) :
  message_ok msg → m_body_len msg + 16 < 2 ^ 32 → session_ok sess → heap_ok w →
  ∃ pkt w1,
    w ⊢ koe_message_encrypt msg sess ⇓ (0, pkt) ⊣ w1
    ∧ h_checksum (p_header pkt) = 0
    ∧ (koe_packet_validate pkt = 0 ↔ koe_packet_checksum (p_header pkt) = 0).
Proof.
  intros Hm Hmax Hs Hheap.
  destruct (koe_message_encrypt_run msg sess w Hm Hmax Hs Hheap) as (ct & Hrun & _ & _).
  eexists _, _. split; [exact Hrun|]. split; [done|].
  rewrite koe_packet_validate_iff by (apply sealed_header_ok; try done; apply random_array_ok).
  simpl. split; [intros (_ & _ & <-); done|]. intros ->. split_and!; [done| |done]. by left.
Qed.
End Correctness.

(** The signature does not travel: the packet is marked signed, yet it is the
    same packet whatever the signature of the message is. *)
Lemma koe_message_encrypt_ignores_signature `{Sodium} msg sig sess :
  koe_message_encrypt (set_m_sig sig msg) sess = koe_message_encrypt msg sess.
Proof. done. Qed.

(** * Witnesses *)
#[local] Existing Instance toy_sodium.
#[local] Existing Instance toy_laws.

Definition witness_session (a b : Z) : koe_session_t := KoeSession (replicate 32 a) (replicate 32 b).

Lemma witness_message_ok : message_ok witness_message.
Proof.
  split_and!; [apply (bool_decide_unpack _); vm_compute; exact I..|vm_compute; discriminate|].
  split; [|reflexivity]. apply (bool_decide_unpack _). vm_compute. exact I.
Qed.

Lemma koe_message_seal_open_witness :
  ∃ pkt w1 msg' w3,
    world_at 5 ⊢ koe_message_encrypt witness_message (witness_session 1 2) ⇓ (0, pkt) ⊣ w1
    ∧ world_at 9 ⊢ koe_message_decrypt witness_message pkt (witness_session 2 1) ⇓ (0, msg') ⊣ w3
    ∧ m_body msg' = Some [104; 105].
Proof.
  destruct (koe_message_seal_open witness_message witness_message (witness_session 1 2)
    (witness_session 2 1) (world_at 5) (world_at 9))
    as (pkt & w1 & msg' & w3 & H1 & _ & H2 & H3 & _).
  - exact witness_message_ok.
  - reflexivity.
  - apply (bool_decide_unpack _). vm_compute. exact I.
  - reflexivity.
  - intros i. reflexivity.
  - intros i. reflexivity.
  - exists pkt, w1, msg', w3. split_and!; assumption.
Defined.

Lemma koe_message_sign_verify_witness :
  ∃ msg', koe_message_sign witness_message (Some (KoeIdentity (replicate 32 7) (replicate 64 7))) = Some (0, msg')
    ∧ koe_message_verify msg' = Some 0.
Proof.
  destruct (koe_message_sign_verify witness_message (KoeIdentity (replicate 32 7) (replicate 64 7)))
    as (msg' & H1 & H2 & _).
  - exact witness_message_ok.
  - exists (replicate 32 7). split; [|reflexivity]. apply (bool_decide_unpack _). vm_compute. exact I.
  - discriminate.
  - exists msg'. split; assumption.
Defined.

Lemma koe_message_encrypt_no_checksum_witness :
  ∃ pkt w1,
    world_at 5 ⊢ koe_message_encrypt witness_message (witness_session 1 2) ⇓ (0, pkt) ⊣ w1
    ∧ h_checksum (p_header pkt) = 0.
Proof.
  destruct (koe_message_encrypt_no_checksum witness_message (witness_session 1 2) (world_at 5))
    as (pkt & w1 & H1 & H2 & _).
  - exact witness_message_ok.
  - reflexivity.
  - apply (bool_decide_unpack _). vm_compute. exact I.
  - intros i. reflexivity.
  - exists pkt, w1. split; assumption.
Defined.

(** ... and on this message it does not. *)
Lemma sealed_packet_rejected :
  (λ r, koe_packet_validate r.1.2) <$>
    koe_message_encrypt witness_message (witness_session 1 2) (world_at 5) = Some (-1).
Proof. vm_compute. reflexivity. Qed.
