(* ===== verification/Db.v ===== *)
(** The database layer (src/koe_db.c, include/koe_db.h): the SQLite tables as
    lists of rows in insertion order, one definition per query. *)

From S2P Require Import Prelude.

(** * Rows *)
Record koe_db_message_t := KoeDbMessage {
  dm_id : Z; dm_from_pk : bytes; dm_to_pk : bytes; dm_body_encrypted : option bytes; dm_body_len : Z;
  dm_sent_at : Z; dm_delivered_at : Z; dm_read_at : Z; dm_destruct_at : Z; dm_status : Z; dm_is_secret : Z;
}.

(** [dc_display_name] and [dc_short_id] are the whole arrays (64 and 16 bytes). *)
Record koe_db_contact_t := KoeDbContact {
  dc_pk : bytes; dc_display_name : bytes; dc_short_id : bytes; dc_added_at : Z; dc_last_seen : Z;
  dc_blocked : Z; dc_verified : Z;
}.

Record koe_db_queued_t := KoeDbQueued {
  dq_id : Z; dq_to_pk : bytes; dq_packet_bytes : option bytes; dq_packet_len : Z;
  dq_queued_at : Z; dq_expires_at : Z; dq_sequence : Z;
}.

(** A contact as stored: the strings without their terminators, and the rowid
    SQLite gives the row. *)
Record contact_row := ContactRow {
  cr_rowid : Z; cr_pk : bytes; cr_display_name : bytes; cr_short_id : bytes; cr_added_at : Z; cr_last_seen : Z;
  cr_blocked : Z; cr_verified : Z;
}.

#[export] Instance koe_db_queued_t_eq_dec : EqDecision koe_db_queued_t.
Proof. solve_decision. Defined.

(** The tables of SCHEMA_SQL, the AUTOINCREMENT counters, and what
    [sqlite3_last_insert_rowid] and [sqlite3_changes] report. *)
Record db := Db {
  d_messages : list koe_db_message_t;
  d_contacts : list contact_row;
  d_queue : list koe_db_queued_t;
  d_next_message : Z;
  d_next_queue : Z;
  d_last_rowid : Z;
  d_changes : Z;
}.

(** A connection handle: [None] is a NULL or closed one. *)
Abbreviation koe_db_conn_t := (option db).

Definition empty_db : db := Db [] [] [] 1 1 0 0.

(** * SQL statements

    Compiling and stepping a statement may each fail. *)
Definition prepare : M bool := syscall.
Definition step : M bool := syscall.

Definition SQLITE_MAX_LENGTH : Z := 1000000000.

(** [sqlite3_bind_blob(stmt, i, data, (int)len, SQLITE_STATIC)]: the value bound,
    [None] for NULL. A blob is accepted up to SQLite's limit of a billion bytes,
    past which the parameter stays NULL; a negative length is undefined. *)
Definition bind_blob (data : option bytes) (len : Z) : option (option bytes) :=
  match data with
  | None => Some None
  | Some d =>
      if i32 len <? 0 then None
      else if SQLITE_MAX_LENGTH <? i32 len then Some None
      else Some <$> peek d 0 (Z.to_nat (i32 len))
  end.

(** Prepare and step one modifying statement: -1 when either fails. *)
Definition run_update (conn : koe_db_conn_t) (stmt : db → db) : M (Z * koe_db_conn_t) :=
  match conn with
  | None => mret (-1, None)
  | Some d =>
      ok ← prepare;
      if negb ok then mret (-1, conn)
      else
        ok ← step;
        if (ok : bool) then mret (0, Some (stmt d)) else mret (-1, conn)
  end.

Definition set_messages (l : list koe_db_message_t) (n : Z) (d : db) : db :=
  Db l (d_contacts d) (d_queue d) (d_next_message d) (d_next_queue d) (d_last_rowid d) n.
Definition set_contacts (l : list contact_row) (n : Z) (d : db) : db :=
  Db (d_messages d) l (d_queue d) (d_next_message d) (d_next_queue d) (d_last_rowid d) n.
Definition set_queue (l : list koe_db_queued_t) (n : Z) (d : db) : db :=
  Db (d_messages d) (d_contacts d) l (d_next_message d) (d_next_queue d) (d_last_rowid d) n.

(** UPDATE ... WHERE: the rows changed in place, and how many matched. *)
Definition update_where {A} (P : A → Prop) `{∀ x, Decision (P x)} (f : A → A) (l : list A) : list A :=
  (λ x, if decide (P x) then f x else x) <$> l.
Definition count_where {A} (P : A → Prop) `{∀ x, Decision (P x)} (l : list A) : Z := zlen (filter P l).

(** * Connections *)
Inductive koe_db_backend_t := KOE_DB_SQLITE | KOE_DB_POSTGRES | KOE_DB_MYSQL.

Record koe_db_config_t := KoeDbConfig {
  dbc_backend : koe_db_backend_t; dbc_sqlite_path : option bytes; dbc_host : option bytes; dbc_port : Z;
  dbc_database : option bytes; dbc_user : option bytes; dbc_password : option bytes; dbc_use_tls : bool;
  dbc_pool_size : Z;
}.
Definition set_sqlite_path (path : bytes) (c : koe_db_config_t) : koe_db_config_t :=
  KoeDbConfig (dbc_backend c) (Some path) (dbc_host c) (dbc_port c) (dbc_database c) (dbc_user c) (dbc_password c)
    (dbc_use_tls c) (dbc_pool_size c).

(** [stored] is what the file at a path holds; a null path is a database of its
    own. Opening may fail, and so may the schema. Only SQLite is compiled in. *)
Definition koe_db_open (cfg : koe_db_config_t) (stored : option bytes → db) : M koe_db_conn_t :=
  ok ← malloc;
  if negb ok then mret None
  else
    match dbc_backend cfg with
    | KOE_DB_SQLITE =>
        opened ← syscall;
        if negb opened then mret None
        else
          schema ← syscall;
          if negb schema then mret None else mret (Some (stored (dbc_sqlite_path cfg)))
    | _ => mret None
    end.

(** The schema is all CREATE IF NOT EXISTS and INSERT OR IGNORE. *)
Definition koe_db_migrate (conn : koe_db_conn_t) : M Z :=
  match conn with
  | None => mret (-1)
  | Some _ => ok ← syscall; mret (if (ok : bool) then 0 else -1)
  end.

Definition koe_db_close (conn : koe_db_conn_t) : koe_db_conn_t := None.

(** * The group cache

    The Redis client is not linked in: a connection is made and never enabled. *)
Inductive koe_cache_backend_t := KOE_CACHE_NONE | KOE_CACHE_REDIS.
Record koe_cache_conn_t := KoeCacheConn { cc_backend : koe_cache_backend_t; cc_enabled : bool }.

Record koe_cache_config_t := KoeCacheConfig {
  chc_backend : koe_cache_backend_t; chc_host : option bytes; chc_port : Z; chc_password : option bytes;
  chc_db_index : Z; chc_enabled : bool;
}.

Definition koe_cache_open (cfg : option koe_cache_config_t) : M (option koe_cache_conn_t) :=
  match cfg with
  | None => mret None
  | Some cfg =>
      if negb (chc_enabled cfg) then mret None
      else
        ok ← malloc;
        mret (if (ok : bool) then Some (KoeCacheConn (chc_backend cfg) false) else None)
  end.
Definition koe_cache_close (conn : option koe_cache_conn_t) : option koe_cache_conn_t := None.

Definition cache_usable (cache : option koe_cache_conn_t) : bool :=
  match cache with Some c => cc_enabled c | None => false end.

Definition koe_cache_group_set (cache : option koe_cache_conn_t) (group_id : bytes) (members : list bytes)
    (ttl_seconds : Z) : Z := 0.
(** The code (1 is a miss) and what is left in the member count. *)
Definition koe_cache_group_get (cache : option koe_cache_conn_t) (group_id : bytes) (out_count : Z) : Z * Z :=
  if negb (cache_usable cache) then (1, out_count) else (1, 0).
Definition koe_cache_group_invalidate (cache : option koe_cache_conn_t) (group_id : bytes) : Z := 0.

(** * Messages *)
Definition message_row (id : Z) (body : bytes) (m : koe_db_message_t) : koe_db_message_t :=
  KoeDbMessage id (dm_from_pk m) (dm_to_pk m) (Some body) (zlen body) (dm_sent_at m) (dm_delivered_at m)
    (dm_read_at m) (dm_destruct_at m) (dm_status m) (dm_is_secret m).
Definition set_dm_id (id : Z) (m : koe_db_message_t) : koe_db_message_t :=
  KoeDbMessage id (dm_from_pk m) (dm_to_pk m) (dm_body_encrypted m) (dm_body_len m) (dm_sent_at m)
    (dm_delivered_at m) (dm_read_at m) (dm_destruct_at m) (dm_status m) (dm_is_secret m).

(** Also the message with the id the code writes back, even on failure. A NULL
    body violates the NOT NULL constraint of its column and the step fails. *)
Definition koe_db_message_insert (conn : koe_db_conn_t) (msg : koe_db_message_t)
  : M (Z * koe_db_conn_t * koe_db_message_t) :=
  match conn with
  | None => mret (-1, None, msg)
  | Some d =>
      ok ← prepare;
      if negb ok then mret (-1, conn, msg)
      else
        bound ← lift (bind_blob (dm_body_encrypted msg) (dm_body_len msg));
        ok ← step;
        match bound, ok with
        | Some body, true =>
            let id := d_next_message d in
            mret (0, Some (Db (d_messages d ++ [message_row id body msg]) (d_contacts d) (d_queue d)
                              (id + 1) (d_next_queue d) id 1), set_dm_id id msg)
        | _, _ => mret (-1, conn, set_dm_id (d_last_rowid d) msg)
        end
  end.

Definition with_status (s : Z) (m : koe_db_message_t) : koe_db_message_t :=
  KoeDbMessage (dm_id m) (dm_from_pk m) (dm_to_pk m) (dm_body_encrypted m) (dm_body_len m) (dm_sent_at m)
    (dm_delivered_at m) (dm_read_at m) (dm_destruct_at m) s (dm_is_secret m).
Definition with_delivered (t : Z) (m : koe_db_message_t) : koe_db_message_t :=
  KoeDbMessage (dm_id m) (dm_from_pk m) (dm_to_pk m) (dm_body_encrypted m) (dm_body_len m) (dm_sent_at m)
    t (dm_read_at m) (dm_destruct_at m) 2 (dm_is_secret m).
Definition with_read (t : Z) (m : koe_db_message_t) : koe_db_message_t :=
  KoeDbMessage (dm_id m) (dm_from_pk m) (dm_to_pk m) (dm_body_encrypted m) (dm_body_len m) (dm_sent_at m)
    (dm_delivered_at m) t (dm_destruct_at m) 3 (dm_is_secret m).

Definition update_message (id : Z) (f : koe_db_message_t → koe_db_message_t) (d : db) : db :=
  set_messages (update_where (λ m, dm_id m = id) f (d_messages d))
    (count_where (λ m, dm_id m = id) (d_messages d)) d.

Definition koe_db_message_update_status (conn : koe_db_conn_t) (id status : Z) : M (Z * koe_db_conn_t) :=
  run_update conn (update_message id (with_status status)).
Definition koe_db_message_mark_delivered (conn : koe_db_conn_t) (id ts : Z) : M (Z * koe_db_conn_t) :=
  run_update conn (update_message id (with_delivered ts)).
Definition koe_db_message_mark_read (conn : koe_db_conn_t) (id ts : Z) : M (Z * koe_db_conn_t) :=
  run_update conn (update_message id (with_read ts)).

Definition delete_messages (P : koe_db_message_t → Prop) `{∀ x, Decision (P x)} (d : db) : db :=
  set_messages (filter (λ m, ¬ P m) (d_messages d)) (count_where P (d_messages d)) d.

Definition koe_db_message_delete (conn : koe_db_conn_t) (id : Z) : M (Z * koe_db_conn_t) :=
  run_update conn (delete_messages (λ m, dm_id m = id)).

(** Due for destruction at [now]. *)
Definition destruct_due (now : Z) (m : koe_db_message_t) : Prop :=
  0 < dm_destruct_at m ∧ dm_destruct_at m ≤ now.
#[export] Instance destruct_due_dec now m : Decision (destruct_due now m).
Proof. unfold destruct_due. apply _. Defined.

(** The step's code is ignored: on failure the previous change count is
    returned. *)
Definition koe_db_destruct_sweep (conn : koe_db_conn_t) (now_unix : Z) : M (Z * koe_db_conn_t) :=
  match conn with
  | None => mret (-1, None)
  | Some d =>
      ok ← prepare;
      if negb ok then mret (-1, conn)
      else
        ok ← step;
        let d := if (ok : bool) then delete_messages (destruct_due now_unix) d else d in
        mret (d_changes d, Some d)
  end.

(** * Contacts *)

(** The C string in an array; reading past an unterminated one is undefined. *)
Definition read_cstr (a : bytes) : option bytes :=
  if decide (0 ∈ a) then Some (cstr a) else None.

(** The contacts have no AUTOINCREMENT: a new row gets the greatest rowid plus
    one. *)
Definition next_rowid (l : list contact_row) : Z := foldr (λ r m, Z.max (cr_rowid r) m) 0 l + 1.

(** INSERT OR REPLACE: the row under the same key goes, the new one is last. *)
Definition put_contact (row : contact_row) (d : db) : db :=
  Db (d_messages d) (filter (λ r, cr_pk r ≠ cr_pk row) (d_contacts d) ++ [row]) (d_queue d)
    (d_next_message d) (d_next_queue d) (cr_rowid row) 1.

Definition koe_db_contact_upsert (conn : koe_db_conn_t) (c : koe_db_contact_t) : M (Z * koe_db_conn_t) :=
  match conn with
  | None => mret (-1, None)
  | Some d =>
      ok ← prepare;
      if negb ok then mret (-1, conn)
      else
        name ← lift (read_cstr (dc_display_name c));
        short ← lift (read_cstr (dc_short_id c));
        let row := ContactRow (next_rowid (d_contacts d)) (dc_pk c) name short (dc_added_at c) (dc_last_seen c)
                     (dc_blocked c) (dc_verified c) in
        ok ← step;
        if (ok : bool) then mret (0, Some (put_contact row d)) else mret (-1, conn)
  end.

Definition koe_db_contact_delete (conn : koe_db_conn_t) (pk : bytes) : M (Z * koe_db_conn_t) :=
  run_update conn (λ d, set_contacts (filter (λ r, cr_pk r ≠ pk) (d_contacts d))
                          (count_where (λ r, cr_pk r = pk) (d_contacts d)) d).

Definition koe_db_contact_find (conn : koe_db_conn_t) (pk : bytes) (out : koe_db_contact_t)
  : M (Z * koe_db_contact_t) :=
  match conn with
  | None => mret (-1, out)
  | Some d =>
      ok ← prepare;
      if negb ok then mret (-1, out)
      else
        ok ← step;
        match list_find (λ r, cr_pk r = pk) (d_contacts d) with
        | Some (_, r) =>
            if negb ok then mret (-1, out)
            else mret (0, KoeDbContact (cr_pk r) (strncpy (dc_display_name out) (cr_display_name r) 63)
                        (strncpy (dc_short_id out) (cr_short_id r) 15) (cr_added_at r) (cr_last_seen r)
                        (cr_blocked r) (cr_verified r))
        | None => mret (-1, out)
        end
  end.

Definition with_blocked (b : Z) (r : contact_row) : contact_row :=
  ContactRow (cr_rowid r) (cr_pk r) (cr_display_name r) (cr_short_id r) (cr_added_at r) (cr_last_seen r) b
    (cr_verified r).
Definition with_verified (v : Z) (r : contact_row) : contact_row :=
  ContactRow (cr_rowid r) (cr_pk r) (cr_display_name r) (cr_short_id r) (cr_added_at r) (cr_last_seen r)
    (cr_blocked r) v.

Definition update_contact (pk : bytes) (f : contact_row → contact_row) (d : db) : db :=
  set_contacts (update_where (λ r, cr_pk r = pk) f (d_contacts d))
    (count_where (λ r, cr_pk r = pk) (d_contacts d)) d.

Definition koe_db_contact_set_blocked (conn : koe_db_conn_t) (pk : bytes) (blocked : Z) : M (Z * koe_db_conn_t) :=
  run_update conn (update_contact pk (with_blocked blocked)).
Definition koe_db_contact_set_verified (conn : koe_db_conn_t) (pk : bytes) (verified : Z) : M (Z * koe_db_conn_t) :=
  run_update conn (update_contact pk (with_verified verified)).

(** * The offline queue *)

(** SQL leaves the order of rows with equal sort keys open: which of the rows
    with the least sequence a SELECT ... LIMIT 1 returns is a choice. *)
Class SqlOrder := sql_tie : list koe_db_queued_t → nat.

Definition set_dq_id (id : Z) (q : koe_db_queued_t) : koe_db_queued_t :=
  KoeDbQueued id (dq_to_pk q) (dq_packet_bytes q) (dq_packet_len q) (dq_queued_at q) (dq_expires_at q) (dq_sequence q).

Definition koe_db_queue_push (conn : koe_db_conn_t) (q : koe_db_queued_t)
  : M (Z * koe_db_conn_t * koe_db_queued_t) :=
  match conn with
  | None => mret (-1, None, q)
  | Some d =>
      ok ← prepare;
      if negb ok then mret (-1, conn, q)
      else
        bound ← lift (bind_blob (dq_packet_bytes q) (dq_packet_len q));
        ok ← step;
        match bound, ok with
        | Some packet, true =>
            let id := d_next_queue d in
            let row := KoeDbQueued id (dq_to_pk q) (Some packet) (zlen packet) (dq_queued_at q)
                         (dq_expires_at q) (dq_sequence q) in
            mret (0, Some (Db (d_messages d) (d_contacts d) (d_queue d ++ [row]) (d_next_message d)
                              (id + 1) id 1), set_dq_id id q)
        | _, _ => mret (-1, conn, set_dq_id (d_last_rowid d) q)
        end
  end.

(** WHERE to_pk = pk ORDER BY sequence ASC LIMIT 1. *)
Definition for_peer (pk : bytes) (l : list koe_db_queued_t) : list koe_db_queued_t :=
  filter (λ q, dq_to_pk q = pk) l.
Definition least (l : list koe_db_queued_t) : list koe_db_queued_t :=
  filter (λ q, Forall (λ q', dq_sequence q ≤ dq_sequence q') l) l.
Definition select_first `{SqlOrder} (pk : bytes) (l : list koe_db_queued_t) : option koe_db_queued_t :=
  let c := least (for_peer pk l) in c !! (sql_tie c `mod` length c)%nat.

(** Returns the code, the connection and the row copied out. The row is deleted
    even when the copy could not be allocated; a failed DELETE goes unnoticed. *)
Definition koe_db_queue_pop `{SqlOrder} (conn : koe_db_conn_t) (to_pk : bytes) (out : koe_db_queued_t)
  : M (Z * koe_db_conn_t * koe_db_queued_t) :=
  match conn with
  | None => mret (-1, None, out)
  | Some d =>
      ok ← prepare;
      if negb ok then mret (-1, conn, out)
      else
        ok ← step;
        match select_first to_pk (d_queue d) with
        | Some row =>
            if negb ok then mret (-1, conn, out)
            else
              copied ← malloc;
              let out := KoeDbQueued (dq_id row) (dq_to_pk row)
                           (if (copied : bool) then dq_packet_bytes row else None)
                           (dq_packet_len row) (dq_queued_at row) (dq_expires_at row) (dq_sequence row) in
              p ← prepare;
              deleted ← (if (p : bool) then step else mret false);
              let d := if (deleted : bool)
                       then set_queue (filter (λ q, dq_id q ≠ dq_id row) (d_queue d))
                              (count_where (λ q, dq_id q = dq_id row) (d_queue d)) d
                       else d in
              mret (if (copied : bool) then 0 else -1, Some d, out)
        | None => mret (-1, conn, out)
        end
  end.

Definition koe_db_queue_count (conn : koe_db_conn_t) (to_pk : bytes) : M Z :=
  match conn with
  | None => mret 0
  | Some d =>
      ok ← prepare;
      if negb ok then mret 0
      else
        ok ← step;
        mret (if (ok : bool) then i32 (zlen (for_peer to_pk (d_queue d))) else 0)
  end.

Definition koe_db_queue_expire (conn : koe_db_conn_t) (now_unix : Z) : M (Z * koe_db_conn_t) :=
  match conn with
  | None => mret (0, None)
  | Some d =>
      ok ← prepare;
      if negb ok then mret (0, conn)
      else
        ok ← step;
        let d := if (ok : bool)
                 then set_queue (filter (λ q, ¬ dq_expires_at q ≤ now_unix) (d_queue d))
                        (count_where (λ q, dq_expires_at q ≤ now_unix) (d_queue d)) d
                 else d in
        mret (d_changes d, Some d)
  end.

(** A blob within the limit is bound whole. *)
Lemma bind_blob_all d : zlen d ≤ SQLITE_MAX_LENGTH → bind_blob (Some d) (zlen d) = Some (Some d).
Proof.
  intros Hl. unfold bind_blob, SQLITE_MAX_LENGTH in *. rewrite i32_id by (unfold zlen in *; lia).
  rewrite (proj2 (Z.ltb_ge (zlen d) 0)), (proj2 (Z.ltb_ge _ (zlen d))) by (unfold zlen in *; lia).
  unfold zlen. by rewrite Nat2Z.id, peek_all.
Qed.

(** * Invariant *)

(** Primary keys are unique and below the counters that produce them. *)
Definition db_ok (d : db) : Prop :=
  NoDup (dm_id <$> d_messages d) ∧ Forall (λ m, dm_id m < d_next_message d) (d_messages d)
  ∧ NoDup (dq_id <$> d_queue d) ∧ Forall (λ q, dq_id q < d_next_queue d) (d_queue d)
  ∧ NoDup (cr_pk <$> d_contacts d).

Lemma NoDup_fmap_filter {A B} (f : A → B) (P : A → Prop) `{∀ x, Decision (P x)} l :
  NoDup (f <$> l) → NoDup (f <$> filter P l).
Proof. intros Hnd. eapply sublist_NoDup; [exact Hnd|]. apply fmap_sublist, sublist_filter. Qed.

Lemma NoDup_fmap_snoc {A B} (f : A → B) l x :
  NoDup (f <$> l) → f x ∉ f <$> l → NoDup (f <$> l ++ [x]).
Proof.
  intros Hnd Hx. rewrite fmap_app. apply NoDup_app. split_and!; [done| |apply NoDup_singleton].
  set_solver.
Qed.

Lemma fmap_update_where {A B} (f : A → B) (P : A → Prop) `{∀ x, Decision (P x)} (g : A → A) l :
  (∀ x, f (g x) = f x) → f <$> update_where P g l = f <$> l.
Proof.
  intros Hg. unfold update_where. rewrite <-list_fmap_compose. apply list_fmap_ext.
  intros i x _. unfold compose. by case_decide.
Qed.

Lemma fresh_not_in {A} (f : A → Z) n l : Forall (λ x, f x < n) l → n ∉ f <$> l.
Proof.
  intros Hall Hin. apply list_elem_of_fmap in Hin as (x & -> & Hx).
  rewrite Forall_forall in Hall. specialize (Hall x Hx). lia.
Qed.

Lemma Forall_filter_keep {A} (Q P : A → Prop) `{∀ x, Decision (P x)} l : Forall Q l → Forall Q (filter P l).
Proof. rewrite !Forall_forall. intros Hq x Hx. apply list_elem_of_filter in Hx as [_ Hx]. auto. Qed.

#[export] Hint Resolve NoDup_fmap_filter Forall_filter_keep : koe.

Lemma db_ok_update_message id f d :
  (∀ m, dm_id (f m) = dm_id m) → db_ok d → db_ok (update_message id f d).
Proof.
  intros Hf (H1 & H2 & H3 & H4 & H5). unfold db_ok, update_message. simpl.
  rewrite fmap_update_where by done. split_and!; try done.
  apply Forall_fmap. eapply Forall_impl; [exact H2|]. simpl. intros m Hm. case_decide; rewrite ?Hf; done.
Qed.

Lemma db_ok_update_contact pk f d :
  (∀ r, cr_pk (f r) = cr_pk r) → db_ok d → db_ok (update_contact pk f d).
Proof.
  intros Hf (H1 & H2 & H3 & H4 & H5). unfold db_ok, update_contact. simpl.
  by rewrite fmap_update_where.
Qed.

Lemma db_ok_delete_messages P `{∀ x, Decision (P x)} d : db_ok d → db_ok (delete_messages P d).
Proof. intros (? & ? & ? & ? & ?). unfold db_ok. simpl. split_and!; auto with koe. Qed.

Lemma db_ok_set_queue P `{∀ x, Decision (P x)} n d : db_ok d → db_ok (set_queue (filter P (d_queue d)) n d).
Proof. intros (? & ? & ? & ? & ?). unfold db_ok. simpl. split_and!; auto with koe. Qed.

Lemma db_ok_insert_message body m d :
  db_ok d →
  db_ok (Db (d_messages d ++ [message_row (d_next_message d) body m]) (d_contacts d) (d_queue d)
            (d_next_message d + 1) (d_next_queue d) (d_next_message d) 1).
Proof.
  intros (H1 & H2 & H3 & H4 & H5). unfold db_ok. simpl. split_and!; try done.
  - apply NoDup_fmap_snoc; [done|]. by apply (fresh_not_in dm_id).
  - apply Forall_app. split; [eapply Forall_impl; [exact H2|]; simpl; lia|].
    constructor; [simpl; lia|constructor].
Qed.

Lemma db_ok_insert_queue row d :
  dq_id row = d_next_queue d → db_ok d →
  db_ok (Db (d_messages d) (d_contacts d) (d_queue d ++ [row]) (d_next_message d)
            (d_next_queue d + 1) (d_next_queue d) 1).
Proof.
  intros Hid (H1 & H2 & H3 & H4 & H5). unfold db_ok. simpl. split_and!; try done.
  - apply NoDup_fmap_snoc; [done|]. rewrite Hid. by apply (fresh_not_in dq_id).
  - apply Forall_app. split; [eapply Forall_impl; [exact H4|]; simpl; lia|].
    constructor; [lia|constructor].
Qed.

Lemma db_ok_upsert_contact row d :
  db_ok d → db_ok (put_contact row d).
Proof.
  intros (H1 & H2 & H3 & H4 & H5). unfold db_ok. simpl. split_and!; try done.
  apply NoDup_fmap_snoc; [auto with koe|].
  intros Hin. apply list_elem_of_fmap in Hin as (r & E & Hr). apply list_elem_of_filter in Hr. naive_solver.
Qed.

Lemma run_update_run d stmt w :
  io_ok w → w ⊢ run_update (Some d) stmt ⇓ (0, Some (stmt d)) ⊣ iotick (iotick w).
Proof.
  intros Hio. unfold run_update, prepare, step. rewrite bind_syscall_ok by done. cbn [negb].
  by rewrite bind_syscall_ok by done.
Qed.

Lemma run_update_inv conn stmt rc conn' w w' :
  w ⊢ run_update conn stmt ⇓ (rc, conn') ⊣ w' →
  conn' = conn ∨ ∃ d, conn = Some d ∧ conn' = Some (stmt d).
Proof. unfold run_update. destruct conn; mrun; repeat (case_match; mrun); naive_solver. Qed.

(** One query of the layer, whatever its arguments, its outcome and the state
    of the environment. *)
Inductive db_step `{SqlOrder} (d d' : db) : Prop :=
  | db_insert m rc m' w w' :
      w ⊢ koe_db_message_insert (Some d) m ⇓ (rc, Some d', m') ⊣ w' → db_step d d'
  | db_status id s rc w w' :
      w ⊢ koe_db_message_update_status (Some d) id s ⇓ (rc, Some d') ⊣ w' → db_step d d'
  | db_delivered id t rc w w' :
      w ⊢ koe_db_message_mark_delivered (Some d) id t ⇓ (rc, Some d') ⊣ w' → db_step d d'
  | db_read id t rc w w' :
      w ⊢ koe_db_message_mark_read (Some d) id t ⇓ (rc, Some d') ⊣ w' → db_step d d'
  | db_delete id rc w w' :
      w ⊢ koe_db_message_delete (Some d) id ⇓ (rc, Some d') ⊣ w' → db_step d d'
  | db_sweep t n w w' :
      w ⊢ koe_db_destruct_sweep (Some d) t ⇓ (n, Some d') ⊣ w' → db_step d d'
  | db_upsert c rc w w' :
      w ⊢ koe_db_contact_upsert (Some d) c ⇓ (rc, Some d') ⊣ w' → db_step d d'
  | db_contact_delete pk rc w w' :
      w ⊢ koe_db_contact_delete (Some d) pk ⇓ (rc, Some d') ⊣ w' → db_step d d'
  | db_blocked pk b rc w w' :
      w ⊢ koe_db_contact_set_blocked (Some d) pk b ⇓ (rc, Some d') ⊣ w' → db_step d d'
  | db_verified pk v rc w w' :
      w ⊢ koe_db_contact_set_verified (Some d) pk v ⇓ (rc, Some d') ⊣ w' → db_step d d'
  | db_push q rc q' w w' :
      w ⊢ koe_db_queue_push (Some d) q ⇓ (rc, Some d', q') ⊣ w' → db_step d d'
  | db_pop pk out rc q' w w' :
      w ⊢ koe_db_queue_pop (Some d) pk out ⇓ (rc, Some d', q') ⊣ w' → db_step d d'
  | db_expire t n w w' :
      w ⊢ koe_db_queue_expire (Some d) t ⇓ (n, Some d') ⊣ w' → db_step d d'.

Lemma db_step_ok `{SqlOrder} d d' : db_step d d' → db_ok d → db_ok d'.
Proof.
  intros Hs Hok.
  assert (Hupd : ∀ stmt rc w w', (∀ d, db_ok d → db_ok (stmt d)) →
    w ⊢ run_update (Some d) stmt ⇓ (rc, Some d') ⊣ w' → db_ok d').
  { intros stmt rc w w' Hstmt Hr. apply run_update_inv in Hr as [[= <-]|(d0 & [= <-] & [= ->])]; auto. }
  destruct Hs as [m rc m' w w' Hr|id s rc w w' Hr|id t rc w w' Hr|id t rc w w' Hr|id rc w w' Hr|t n w w' Hr
    |c rc w w' Hr|pk rc w w' Hr|pk b rc w w' Hr|pk v rc w w' Hr|q rc q' w w' Hr|pk out rc q' w w' Hr|t n w w' Hr].
  - unfold koe_db_message_insert, prepare, step in Hr. mrun. repeat (case_match; mrun); simplify_eq; try done.
    by apply db_ok_insert_message.
  - eapply Hupd; [|exact Hr]. intros. by apply db_ok_update_message.
  - eapply Hupd; [|exact Hr]. intros. by apply db_ok_update_message.
  - eapply Hupd; [|exact Hr]. intros. by apply db_ok_update_message.
  - eapply Hupd; [|exact Hr]. intros. by apply db_ok_delete_messages.
  - unfold koe_db_destruct_sweep, prepare, step in Hr. mrun. repeat (case_match; mrun); simplify_eq; try done.
    by apply db_ok_delete_messages.
  - unfold koe_db_contact_upsert, prepare, step in Hr. mrun. repeat (case_match; mrun); simplify_eq; try done.
    by apply db_ok_upsert_contact.
  - eapply Hupd; [|exact Hr]. intros d0 (? & ? & ? & ? & ?). unfold db_ok. simpl. split_and!; auto with koe.
  - eapply Hupd; [|exact Hr]. intros. by apply db_ok_update_contact.
  - eapply Hupd; [|exact Hr]. intros. by apply db_ok_update_contact.
  - unfold koe_db_queue_push, prepare, step in Hr. mrun. repeat (case_match; mrun); simplify_eq; try done.
    by apply db_ok_insert_queue.
  - unfold koe_db_queue_pop, prepare, step in Hr. mrun. repeat (case_match; mrun); simplify_eq; try done;
      by apply db_ok_set_queue.
  - unfold koe_db_queue_expire, prepare, step in Hr. mrun. repeat (case_match; mrun); simplify_eq; try done.
    by apply db_ok_set_queue.
Qed.

(** In every database reachable from an empty one by queries of this
    layer, succeeding or failing in any order, message ids, queue ids and
    contact keys are unique. *)
Lemma db_reachable_ok `{SqlOrder} (d : db) : rtc db_step empty_db d → db_ok d.
Proof.
  intros Hr. remember empty_db as d0 eqn:E.
  assert (H0 : db_ok d0) by (subst; unfold db_ok; simpl; split_and!; constructor).
  clear E. induction Hr as [|d1 d2 d3 Hs _ IH]; [done|]. apply IH. by eapply db_step_ok.
Qed.

Definition first_tie : SqlOrder := λ _, O.

Lemma db_reachable_ok_witness :
  db_ok (Db [] [] [KoeDbQueued 1 (zeros 32) (Some [7]) 1 100 200 100] 1 2 1 1).
Proof.
  apply (@db_reachable_ok first_tie).
  eapply rtc_l; [|apply rtc_refl].
  apply (@db_push first_tie _ _ (KoeDbQueued 0 (zeros 32) (Some [7]) 1 100 200 100) 0
           (KoeDbQueued 1 (zeros 32) (Some [7]) 1 100 200 100)
           (World (λ _, 0) 0 (λ _, true) 0 (λ _ _, 0) 0 (λ _, true) 0 ∅)
           (World (λ _, 0) 0 (λ _, true) 0 (λ _ _, 0) 0 (λ _, true) 2 ∅)).
  reflexivity.
Defined.

Lemma destruct_sweep_run d t w :
  io_ok w →
  ∃ d', w ⊢ koe_db_destruct_sweep (Some d) t ⇓ (count_where (destruct_due t) (d_messages d), Some d')
          ⊣ iotick (iotick w)
    ∧ d_messages d' = filter (λ m, ¬ destruct_due t m) (d_messages d).
Proof.
  intros Hio. unfold koe_db_destruct_sweep, prepare, step.
  rewrite bind_syscall_ok by done. cbn [negb]. rewrite bind_syscall_ok by done.
  eexists. split; [reflexivity|done].
Qed.

(** A sweep deletes exactly the messages whose destruction time is set and
    has come, reports how many, and touches nothing else. *)
Lemma koe_db_destruct_sweep_exact (d : db) (t : Z) (w : world) :
  io_ok w →
  ∃ d' w',
    w ⊢ koe_db_destruct_sweep (Some d) t ⇓ (count_where (destruct_due t) (d_messages d), Some d') ⊣ w'
    ∧ (∀ m, m ∈ d_messages d' ↔ m ∈ d_messages d ∧ (dm_destruct_at m ≤ 0 ∨ t < dm_destruct_at m))
    ∧ zlen (d_messages d') = zlen (d_messages d) - count_where (destruct_due t) (d_messages d)
    ∧ d_contacts d' = d_contacts d ∧ d_queue d' = d_queue d.
Proof.
  intros Hio. unfold koe_db_destruct_sweep, prepare, step.
  rewrite bind_syscall_ok by done. cbn [negb]. rewrite bind_syscall_ok by done.
  eexists _, _. split; [reflexivity|]. simpl. split_and!; try done.
  - intros m. rewrite list_elem_of_filter. unfold destruct_due. intuition lia.
  - unfold count_where, zlen. induction (d_messages d) as [|m l IH]; [done|].
    rewrite !filter_cons. repeat case_decide; simpl in *; done || lia.
Qed.

Definition sweep_row (at_ : Z) : koe_db_message_t := KoeDbMessage at_ [] [] (Some []) 0 0 0 0 at_ 0 0.

Lemma koe_db_destruct_sweep_exact_witness :
  ∃ d' w',
    (world_at 0) ⊢ koe_db_destruct_sweep (Some (Db [sweep_row 0; sweep_row 5; sweep_row 9] [] [] 10 1 0 0)) 5
      ⇓ (1, Some d') ⊣ w'
    ∧ zlen (d_messages d') = 2.
Proof.
  destruct (koe_db_destruct_sweep_exact (Db [sweep_row 0; sweep_row 5; sweep_row 9] [] [] 10 1 0 0) 5 (world_at 0))
    as (d' & w' & H1 & _ & H2 & _).
  - intros i. reflexivity.
  - exists d', w'. split; [exact H1|exact H2].
Defined.

Lemma length_cstr_lt a : 0 ∈ a → (length (cstr a) < length a)%nat.
Proof.
  induction a as [|b a IH]; [by intros ?%elem_of_nil|]. intros Hin. simpl.
  destruct (Z.eqb_spec b 0); simpl; [lia|]. apply elem_of_cons in Hin as [|Hin]; [done|].
  specialize (IH Hin). lia.
Qed.

(** A search returns the first row of the selection. *)
Lemma list_find_head {A} (P : A → Prop) `{∀ x, Decision (P x)} (l : list A) :
  snd <$> list_find P l = head (filter P l).
Proof.
  induction l as [|x l IH]; [done|]. rewrite filter_cons. simpl. case_decide; [done|].
  rewrite <-IH. by destruct (list_find P l) as [[]|].
Qed.

Lemma find_upserted l row pk' :
  pk' ≠ cr_pk row →
  snd <$> list_find (λ r, cr_pk r = pk') (filter (λ r, cr_pk r ≠ cr_pk row) l ++ [row])
  = snd <$> list_find (λ r, cr_pk r = pk') l.
Proof.
  intros Hpk. rewrite !list_find_head, filter_app. f_equal.
  rewrite (filter_cons_False _ row) by congruence. rewrite app_nil_r.
  rewrite list_filter_filter. apply list_filter_iff. naive_solver congruence.
Qed.

Definition contact_zero : koe_db_contact_t :=
  KoeDbContact (zeros 32) (zeros 64) (zeros 16) 0 0 0 0.


Definition witness_contact : koe_db_contact_t :=
  KoeDbContact (zeros 32) ([65; 110; 110] ++ zeros 61) ([66] ++ zeros 15) 1 2 0 1.

