(* ===== verification/Queue.v ===== *)
(** The offline queue (src/koe_queue.c, include/koe_queue.h) on top of the
    database layer: bounded per peer, in order, drained through a callback. *)

From stdpp Require Import sorting.
From S2P Require Import Prelude Version Crc32 Packet Db.

Definition KOE_QUEUE_MAX_PER_PEER : Z := 512.
Definition KOE_QUEUE_TTL_SECONDS : Z := 7 * 24 * 3600.

Record koe_queue_t := KoeQueue { q_db : koe_db_conn_t; q_max_per_peer : Z; q_count : Z }.

Definition set_q_db (c : koe_db_conn_t) (q : koe_queue_t) : koe_queue_t :=
  KoeQueue c (q_max_per_peer q) (q_count q).

(** [koe_db_queued_t entry = {0}]. *)
Definition zero_queued : koe_db_queued_t := KoeDbQueued 0 (zeros 32) None 0 0 0 0.

(** * Operations *)
Definition koe_queue_open (conn : koe_db_conn_t) (max_per_peer : Z) : M (Z * koe_queue_t) :=
  rc ← koe_db_migrate conn;
  mret (rc, KoeQueue conn (if 0 <? max_per_peer then max_per_peer else KOE_QUEUE_MAX_PER_PEER) 0).

Definition koe_queue_close (q : koe_queue_t) : koe_queue_t := set_q_db None q.

Definition koe_queue_count (q : koe_queue_t) (to_pk : bytes) : M Z := koe_db_queue_count (q_db q) to_pk.

Section Operations.
Context `{SqlOrder}.

(** Drop the oldest entry when the peer's queue is full. *)
Definition make_room (q : koe_queue_t) (to_pk : bytes) : M koe_queue_t :=
  n ← koe_queue_count q to_pk;
  if q_max_per_peer q <=? n then
    r ← koe_db_queue_pop (q_db q) to_pk zero_queued;
    mret (set_q_db r.1.2 q)
  else mret q.

(** Writing [pkt] to the database, once there is room. *)
Definition koe_queue_store (q : koe_queue_t) (pkt : koe_packet_t) : M (Z * koe_queue_t) :=
  let buf_len := u32 (KOE_HEADER_SIZE + h_length (p_header pkt)) in
  buf ← malloc_bytes (Z.to_nat buf_len);
  match buf with
  | None => mret (-1, q)
  | Some buf =>
      r ← lift (koe_packet_serialise pkt buf buf_len);
      queued_at ← time_null;
      expires_at ← lift (add64 queued_at KOE_QUEUE_TTL_SECONDS);
      r ← koe_db_queue_push (q_db q)
            (KoeDbQueued 0 (h_to (p_header pkt)) (Some r.2) buf_len queued_at expires_at queued_at);
      mret (if r.1.1 =? 0 then dq_id r.2 else -1, set_q_db r.1.2 q)
  end.

Definition koe_queue_push (q : koe_queue_t) (pkt : koe_packet_t) : M (Z * koe_queue_t) :=
  q ← make_room q (h_to (p_header pkt));
  koe_queue_store q pkt.

Definition koe_queue_pop (q : koe_queue_t) (to_pk : bytes) (pkt_out : koe_packet_t)
  : M (Z * koe_queue_t * koe_packet_t) :=
  r ← koe_db_queue_pop (q_db q) to_pk zero_queued;
  let q := set_q_db r.1.2 q in
  if negb (r.1.1 =? 0) then mret (-1, q, pkt_out)
  else
    buf ← lift (dq_packet_bytes r.2);
    d ← koe_packet_deserialise pkt_out buf (dq_packet_len r.2);
    mret (d.1, q, d.2).

(** The [while] loop: at most [fuel] packets are popped ([None] when that is
    not enough). The callback carries its own state [S]. *)
Fixpoint drain_loop {S} (fuel : nat) (send_fn : koe_packet_t → S → M (Z * S)) (q : koe_queue_t)
    (to_pk : bytes) (pkt : koe_packet_t) (sent : Z) (ctx : S) : M (option (Z * koe_queue_t * S)) :=
  match fuel with
  | O => mret None
  | Datatypes.S fuel' =>
      r ← koe_queue_pop q to_pk pkt;
      if negb (r.1.1 =? 0) then mret (Some (sent, r.1.2, ctx))
      else
        c ← send_fn r.2 ctx;
        let pkt := koe_packet_free r.2 in
        if negb (c.1 =? 0) then mret (Some (sent, r.1.2, c.2))
        else drain_loop fuel' send_fn r.1.2 to_pk pkt (sent + 1) c.2
  end.

Definition koe_queue_drain {S} (fuel : nat) (q : koe_queue_t) (to_pk : bytes)
    (send_fn : koe_packet_t → S → M (Z * S)) (uninit : koe_packet_t) (ctx : S)
  : M (option (Z * koe_queue_t * S)) :=
  drain_loop fuel send_fn q to_pk uninit 0 ctx.

End Operations.

Definition koe_queue_expire (q : koe_queue_t) : M (Z * koe_queue_t) :=
  now ← time_null;
  r ← koe_db_queue_expire (q_db q) now;
  mret (r.1, set_q_db r.2 q).

(** * What a queue holds for a peer *)

(** The rows for [pk], oldest first, carry the packets [pkts]; no two were
    queued in the same second. *)
Definition row_holds (r : koe_db_queued_t) (p : koe_packet_t) : Prop :=
  dq_packet_bytes r = Some (wire p) ∧ dq_packet_len r = zlen (wire p).
Definition holds (d : db) (pk : bytes) (pkts : list koe_packet_t) : Prop :=
  db_ok d ∧ Forall2 row_holds (for_peer pk (d_queue d)) pkts
  ∧ Forall packet_fits pkts
  ∧ StronglySorted Z.lt (dq_sequence <$> for_peer pk (d_queue d)).

(** The rows of other peers. *)
Definition others (d : db) (pk : bytes) : list koe_db_queued_t :=
  filter (λ q, dq_to_pk q ≠ pk) (d_queue d).

Lemma least_head r rs :
  StronglySorted Z.lt (dq_sequence <$> r :: rs) → least (r :: rs) = [r].
Proof.
  intros Hs. cbn in Hs. apply StronglySorted_inv in Hs as [_ Hall]. rewrite Forall_fmap in Hall.
  unfold least. rewrite filter_cons_True.
  - f_equal. apply filter_none. intros x Hx Hf. rewrite Forall_forall in Hall, Hf.
    specialize (Hall x Hx). specialize (Hf r (list_elem_of_here _ _)). simpl in *. lia.
  - constructor; [lia|]. eapply Forall_impl; [exact Hall|]. simpl. lia.
Qed.

Section Proofs.
Context `{SqlOrder}.

(** Popping a peer's queue: the row goes even when there is no memory for the
    copy of its packet. *)
Lemma koe_db_queue_pop_gone d pk out p ps w :
  holds d pk (p :: ps) → io_ok w →
  let copied := w_heap w (w_allocs w) in
  ∃ d' row w', same_env w w' ∧ w_tick w' = w_tick w ∧ w_allocs w' = S (w_allocs w)
    ∧ w ⊢ koe_db_queue_pop (Some d) pk out ⇓ (if copied then 0 else -1, Some d', row) ⊣ w'
    ∧ (copied = true → row_holds row p) ∧ holds d' pk ps ∧ others d' pk = others d pk
    ∧ for_peer pk (d_queue d') = tail (for_peer pk (d_queue d)).
Proof.
  intros (Hok & Hrows & Hfit & Hsort) Hio copied.
  apply Forall2_cons_inv_r in Hrows as (r & rs & Hr & Hrows & E).
  rewrite E in Hsort.
  assert (Hsel : select_first pk (d_queue d) = Some r).
  { unfold select_first. rewrite E, least_head by done. simpl. done. }
  unfold koe_db_queue_pop, prepare, step.
  rewrite bind_syscall_ok by done. cbn [negb]. rewrite bind_syscall_ok by done. rewrite Hsel. cbn [negb].
  unfold mbind at 1, M_bind at 1, malloc. cbn [w_heap w_allocs iotick]. fold copied.
  rewrite bind_syscall_ok by done. rewrite bind_syscall_ok by done.
  eexists _, _, _. split; [|split; [|split; [|split; [reflexivity|]]]]; [done..|]. split; [by intros ->|].
  assert (Hin : r ∈ d_queue d ∧ dq_to_pk r = pk).
  { assert (Hi : r ∈ for_peer pk (d_queue d)) by (rewrite E; left). by apply list_elem_of_filter in Hi as [? ?]. }
  assert (Huniq : ∀ x, x ∈ d_queue d → dq_id x = dq_id r → x = r).
  { destruct Hok as (_ & _ & Hnd & _). intros x Hx Hid.
    apply list_elem_of_lookup in Hx as [i Hi]. destruct Hin as [[j Hj]%list_elem_of_lookup _].
    assert (i = j); [|congruence].
    eapply (NoDup_lookup _ i j (dq_id r)); [exact Hnd|..]; rewrite list_lookup_fmap;
      [by rewrite Hi, <-Hid|by rewrite Hj]. }
  assert (Hpeer : for_peer pk (filter (λ q, dq_id q ≠ dq_id r) (d_queue d)) = rs).
  { unfold for_peer. rewrite list_filter_filter.
    transitivity (filter (λ q, dq_id q ≠ dq_id r) (for_peer pk (d_queue d))).
    { unfold for_peer. rewrite list_filter_filter. apply list_filter_iff. tauto. }
    rewrite E, filter_cons_False by tauto. apply filter_all. intros x Hx Hid.
    assert (Hx' : x ∈ for_peer pk (d_queue d)) by (rewrite E; by right).
    apply list_elem_of_filter in Hx' as [_ Hx']. pose proof (Huniq x Hx' Hid) as ->.
    rewrite fmap_cons in Hsort. apply StronglySorted_inv in Hsort as [_ Hall].
    rewrite Forall_fmap, Forall_forall in Hall.
    specialize (Hall _ Hx). simpl in Hall. lia. }
  split; [|split; [|by rewrite E]].
  - unfold holds. simpl. rewrite Hpeer. split_and!.
    + by apply db_ok_set_queue.
    + done.
    + by inversion Hfit.
    + rewrite fmap_cons in Hsort. by apply StronglySorted_inv in Hsort as [? _].
  - unfold others. simpl. apply filter_absorb. intros x Hx Hne Hid. apply Hne. rewrite (Huniq x Hx Hid). apply Hin.
Qed.
Lemma koe_db_queue_pop_run d pk out p ps w :
  holds d pk (p :: ps) → io_ok w → heap_ok w →
  ∃ d' row w', same_env w w' ∧ w_tick w' = w_tick w
    ∧ w ⊢ koe_db_queue_pop (Some d) pk out ⇓ (0, Some d', row) ⊣ w'
    ∧ row_holds row p ∧ holds d' pk ps ∧ others d' pk = others d pk
    ∧ for_peer pk (d_queue d') = tail (for_peer pk (d_queue d)).
Proof.
  intros Hh Hio Hheap. destruct (koe_db_queue_pop_gone d pk out p ps w Hh Hio) as (d' & row & w' & ? & ? & _ & R & Hr & ?).
  rewrite Hheap in R, Hr. exists d', row, w'. naive_solver.
Qed.


Lemma koe_queue_pop_run q d pk out p ps w :
  q_db q = Some d → holds d pk (p :: ps) → io_ok w → heap_ok w →
  ∃ d' w', same_env w w'
    ∧ w ⊢ koe_queue_pop q pk out ⇓ (0, set_q_db (Some d') q, p) ⊣ w'
    ∧ holds d' pk ps ∧ others d' pk = others d pk.
Proof.
  intros Hq Hh Hio Hheap. unfold koe_queue_pop. rewrite Hq.
  destruct (koe_db_queue_pop_run d pk zero_queued p ps w Hh Hio Hheap)
    as (d' & row & w1 & Henv & _ & Hrun & [Hb Hl] & Hh' & Ho & _).
  erewrite bind_run by exact Hrun. cbn [fst snd Z.eqb negb].
  rewrite (bind_lift _ _ _ _ Hb), Hl.
  destruct Hh as (_ & _ & Hfit & _). apply Forall_cons in Hfit as [[Hok Hmax] _].
  destruct (koe_packet_deserialise_wire out p [] w1 Hok Hmax) as (w2 & Hd); [by eapply heap_ok_env|].
  rewrite app_nil_r in Hd.
  pose proof (koe_packet_deserialise_env _ _ _ _ _ _ Hd) as Henv2.
  exists d', w2. split; [by etransitivity|]. erewrite bind_run by exact Hd. done.
Qed.

(** An empty queue answers -1. *)
Lemma koe_queue_pop_empty q d pk out w :
  q_db q = Some d → holds d pk [] → io_ok w →
  ∃ w', same_env w w' ∧ w ⊢ koe_queue_pop q pk out ⇓ (-1, q, out) ⊣ w'.
Proof.
  intros Hq (_ & Hrows & _ & _) Hio. apply Forall2_nil_inv_r in Hrows.
  unfold koe_queue_pop, koe_db_queue_pop, prepare, step. rewrite Hq.
  unfold select_first. rewrite Hrows. exists (iotick (iotick w)). split; [done|].
  rewrite (bind_run _ _ w (-1, Some d, zero_queued) (iotick (iotick w))).
  2:{ rewrite bind_syscall_ok by done. cbn [negb]. by rewrite bind_syscall_ok by done. }
  destruct q; simpl in *; by rewrite Hq.
Qed.

(** The database after queueing [pkt] at time [t]. *)
Definition enqueued (d : db) (pkt : koe_packet_t) (t : Z) : db :=
  Db (d_messages d) (d_contacts d)
     (d_queue d ++ [KoeDbQueued (d_next_queue d) (h_to (p_header pkt)) (Some (wire pkt)) (zlen (wire pkt))
                      t (t + KOE_QUEUE_TTL_SECONDS) t])
     (d_next_message d) (d_next_queue d + 1) (d_next_queue d) 1.

Lemma enqueued_holds d pkt ps t :
  let pk := h_to (p_header pkt) in
  holds d pk ps → packet_fits pkt → Forall (λ r, dq_sequence r < t) (for_peer pk (d_queue d)) →
  holds (enqueued d pkt t) pk (ps ++ [pkt]) ∧ others (enqueued d pkt t) pk = others d pk.
Proof.
  intros pk (Hok & Hrows & Hfit & Hsort) Hp Hlt. unfold holds, others, for_peer, enqueued in *.
  cbn [d_queue]. rewrite !filter_app.
  rewrite (filter_cons_True (λ q, dq_to_pk q = pk)), (filter_cons_False (λ q, dq_to_pk q ≠ pk)), !filter_nil
    by (done || tauto). split; [|apply app_nil_r]. split_and!.
  - by apply db_ok_insert_queue.
  - apply Forall2_app; [done|]. by repeat constructor.
  - apply Forall_app. split; [done|by constructor].
  - rewrite fmap_app. apply StronglySorted_app. split_and!; [|done|by repeat constructor].
    intros x y Hx Hy. apply list_elem_of_fmap in Hx as (r & -> & Hr).
    apply list_elem_of_singleton in Hy as ->. simpl.
    rewrite Forall_forall in Hlt. by apply Hlt.
Qed.

Lemma koe_db_queue_push_run d pkt len t w :
  io_ok w → packet_ok pkt → len = zlen (wire pkt) → len ≤ SQLITE_MAX_LENGTH →
  w ⊢ koe_db_queue_push (Some d) (KoeDbQueued 0 (h_to (p_header pkt)) (Some (wire pkt)) len
        t (t + KOE_QUEUE_TTL_SECONDS) t)
    ⇓ (0, Some (enqueued d pkt t),
       KoeDbQueued (d_next_queue d) (h_to (p_header pkt)) (Some (wire pkt)) len
         t (t + KOE_QUEUE_TTL_SECONDS) t) ⊣ iotick (iotick w).
Proof.
  intros Hio Hok -> Hmax.
  unfold koe_db_queue_push, prepare, step. rewrite bind_syscall_ok by done. cbn [negb].
  cbn [dq_packet_bytes dq_packet_len]. rewrite (bind_lift _ _ _ _ (bind_blob_all _ Hmax)).
  by rewrite bind_syscall_ok by done.
Qed.

Lemma koe_queue_store_run q d pkt w :
  q_db q = Some d → packet_fits pkt → 0 ≤ now w < 2 ^ 62 → io_ok w → heap_ok w →
  ∃ w', same_env w w' ∧ w_tick w' = S (w_tick w)
    ∧ w ⊢ koe_queue_store q pkt ⇓ (d_next_queue d, set_q_db (Some (enqueued d pkt (now w))) q) ⊣ w'.
Proof.
  intros Hq [Hok Hmax] Hnow Hio Hheap. pose proof (length_wire pkt Hok) as Hw.
  assert (Hl : 0 ≤ h_length (p_header pkt)) by apply Hok. unfold KOE_MAX_PAYLOAD in Hmax.
  unfold koe_queue_store, KOE_HEADER_SIZE. rewrite u32_id by lia.
  rewrite bind_malloc_bytes_ok by done.
  set (buf := random_bytes w (Z.to_nat (106 + h_length (p_header pkt)))).
  assert (Hbuf : zlen buf = 106 + h_length (p_header pkt)).
  { unfold zlen, buf. rewrite length_random_bytes. lia. }
  pose proof (koe_packet_serialise_exact pkt buf (conj Hok Hmax) Hbuf) as Hser.
  rewrite (bind_lift _ _ _ _ Hser), bind_time.
  rewrite (bind_lift _ _ _ (now w + KOE_QUEUE_TTL_SECONDS)).
  2:{ apply chk64_Some. change (now (alloc (draw w))) with (now w). unfold KOE_QUEUE_TTL_SECONDS. lia. }
  rewrite Hq. cbn [fst snd].
  eexists. split; [|split; [|erewrite bind_run
    by (apply koe_db_queue_push_run; [done|done|by rewrite <-Hw|unfold SQLITE_MAX_LENGTH; lia]); reflexivity]]; done.
Qed.

Lemma koe_queue_count_run q d pk ps w :
  q_db q = Some d → holds d pk ps → zlen ps < 2 ^ 31 → io_ok w →
  w ⊢ koe_queue_count q pk ⇓ zlen ps ⊣ iotick (iotick w).
Proof.
  intros Hq (_ & Hrows & _) H31 Hio.
  assert (Hn : zlen (for_peer pk (d_queue d)) = zlen ps).
  { unfold zlen. f_equal. by eapply Forall2_length. }
  unfold koe_queue_count, koe_db_queue_count, prepare, step. rewrite Hq.
  rewrite bind_syscall_ok by done. cbn [negb]. rewrite bind_syscall_ok by done.
  rewrite Hn, i32_id by (unfold zlen in *; lia). done.
Qed.

(** Pushing when the peer's queue has room. *)
Lemma koe_queue_push_run q d pkt ps w :
  q_db q = Some d → holds d (h_to (p_header pkt)) ps → packet_fits pkt →
  zlen ps < q_max_per_peer q → zlen ps < 2 ^ 31 → 0 ≤ now w < 2 ^ 62 → io_ok w → heap_ok w →
  ∃ w', same_env w w' ∧ w_tick w' = S (w_tick w)
    ∧ w ⊢ koe_queue_push q pkt ⇓ (d_next_queue d, set_q_db (Some (enqueued d pkt (now w))) q) ⊣ w'.
Proof.
  intros Hq Hh Hfit Hroom H31 Hnow Hio Hheap.
  assert (Hroom' : w ⊢ make_room q (h_to (p_header pkt)) ⇓ q ⊣ iotick (iotick w)).
  { unfold make_room. erewrite bind_run by (by eapply koe_queue_count_run).
    destruct (Z.leb_spec (q_max_per_peer q) (zlen ps)); [lia|done]. }
  change (koe_queue_push q pkt) with (q ← make_room q (h_to (p_header pkt)); koe_queue_store q pkt).
  erewrite bind_run by exact Hroom'.
  destruct (koe_queue_store_run q d pkt (iotick (iotick w)) Hq Hfit Hnow) as (w' & Henv & Ht & Hrun); [done..|].
  exists w'. done.
Qed.

(** Out of memory, a push into a full queue drops the oldest packet all the same,
    and the new one is not stored. *)
Lemma koe_queue_push_loses_oldest q d pkt p ps w :
  q_db q = Some d → holds d (h_to (p_header pkt)) (p :: ps) →
  zlen (p :: ps) = q_max_per_peer q → zlen (p :: ps) < 2 ^ 31 → io_ok w → w_heap w (S (w_allocs w)) = false →
  ∃ d' w', w ⊢ koe_queue_push q pkt ⇓ (-1, set_q_db (Some d') q) ⊣ w' ∧ holds d' (h_to (p_header pkt)) ps.
Proof.
  intros Hq Hh Hfull H31 Hio Hheap.
  destruct (koe_db_queue_pop_gone d (h_to (p_header pkt)) zero_queued p ps (iotick (iotick w)) Hh)
    as (d1 & row & w1 & Henv & _ & Ha & Hpop & _ & Hh1 & _); [done|].
  exists d1, (alloc (draw w1)). split; [|done]. unfold koe_queue_push, make_room.
  erewrite bind_run; [|erewrite bind_run by (by eapply koe_queue_count_run);
    rewrite (proj2 (Z.leb_le _ _)) by lia; rewrite Hq; erewrite bind_run by exact Hpop; reflexivity].
  unfold koe_queue_store, malloc_bytes. mrun. destruct Henv as (_ & -> & _). rewrite Ha. cbn. by rewrite Hheap.
Qed.

(** Pushing when it is full: the oldest packet makes room. *)
Lemma koe_queue_push_full q d pkt p ps w :
  q_db q = Some d → holds d (h_to (p_header pkt)) (p :: ps) → packet_fits pkt →
  zlen (p :: ps) = q_max_per_peer q → zlen (p :: ps) < 2 ^ 31 → 0 ≤ now w < 2 ^ 62 → io_ok w → heap_ok w →
  Forall (λ r, dq_sequence r < now w) (for_peer (h_to (p_header pkt)) (d_queue d)) →
  ∃ id d' w', same_env w w' ∧ w_tick w' = S (w_tick w)
    ∧ w ⊢ koe_queue_push q pkt ⇓ (id, set_q_db (Some d') q) ⊣ w'
    ∧ holds d' (h_to (p_header pkt)) (ps ++ [pkt])
    ∧ others d' (h_to (p_header pkt)) = others d (h_to (p_header pkt)).
Proof.
  intros Hq Hh Hfit Hfull H31 Hnow Hio Hheap Hlt.
  destruct (koe_db_queue_pop_run d (h_to (p_header pkt)) zero_queued p ps (iotick (iotick w)) Hh)
    as (d1 & row & w1 & Henv1 & Ht1 & Hpop & _ & Hh1 & Ho1 & Htl); [done..|].
  assert (Hroom : w ⊢ make_room q (h_to (p_header pkt)) ⇓ set_q_db (Some d1) q ⊣ w1).
  { unfold make_room. erewrite bind_run by (by eapply koe_queue_count_run).
    destruct (Z.leb_spec (q_max_per_peer q) (zlen (p :: ps))); [|lia].
    rewrite Hq. by erewrite bind_run by exact Hpop. }
  change (koe_queue_push q pkt) with (q ← make_room q (h_to (p_header pkt)); koe_queue_store q pkt).
  assert (Hnow1 : now w1 = now w).
  { unfold now. destruct Henv1 as (-> & _). by rewrite Ht1. }
  destruct (koe_queue_store_run (set_q_db (Some d1) q) d1 pkt w1) as (w2 & Henv2 & Ht2 & Hrun);
    [done|done|by rewrite Hnow1|by eapply io_ok_env|by eapply heap_ok_env|].
  eexists _, _, w2. split_and!.
  - by etransitivity; [|exact Henv2].
  - rewrite Ht2, Ht1. done.
  - erewrite bind_run by exact Hroom. exact Hrun.
  - apply enqueued_holds; [done..|]. rewrite Hnow1, Htl. by destruct Hlt.
  - rewrite <-Ho1. apply (enqueued_holds d1 pkt ps (now w1)); [done..|].
    rewrite Hnow1, Htl. by destruct Hlt.
Qed.

(** The callback accepts [p], and changes its state by [f]. *)
Definition accepts {S} (send_fn : koe_packet_t → S → M (Z * S)) (f : S → koe_packet_t → S) (p : koe_packet_t) : Prop :=
  ∀ s w, io_ok w → heap_ok w → ∃ w', same_env w w' ∧ w ⊢ send_fn p s ⇓ (0, f s p) ⊣ w'.

(** Draining the packets the callback accepts, up to the first it does not. *)
Lemma drain_loop_prefix {S} fuel send_fn (f : S → koe_packet_t → S) q d pk ps qs pkt sent ctx w :
  q_db q = Some d → holds d pk (ps ++ qs) → Forall (accepts send_fn f) ps → io_ok w → heap_ok w →
  ∃ d' pkt' w', same_env w w'
    ∧ drain_loop (length ps + fuel) send_fn q pk pkt sent ctx w
      = drain_loop fuel send_fn (set_q_db (Some d') q) pk pkt' (sent + zlen ps) (foldl f ctx ps) w'
    ∧ holds d' pk qs ∧ others d' pk = others d pk.
Proof.
  revert q d pkt sent ctx w. induction ps as [|p ps IH]; intros q d pkt sent ctx w Hq Hh Hacc Hio Hheap.
  - exists d, pkt, w. split; [done|]. split; [|done]. unfold zlen. simpl. rewrite Z.add_0_r.
    by destruct q; simpl in *; rewrite Hq.
  - apply Forall_cons in Hacc as [Hp Hacc].
    destruct (koe_queue_pop_run q d pk pkt p (ps ++ qs) w Hq Hh Hio Hheap) as (d1 & w1 & Henv & Hrun & Hh1 & Ho1).
    destruct (Hp ctx w1) as (w2 & Henv2 & Hsend); [by eapply io_ok_env|by eapply heap_ok_env|].
    assert (Henv' : same_env w w2) by (by etransitivity).
    destruct (IH (set_q_db (Some d1) q) d1 (koe_packet_free p) (sent + 1) (f ctx p) w2)
      as (d' & pkt' & w' & Henv3 & Hloop & Hh' & Ho'); [done|done|done|by eapply io_ok_env|by eapply heap_ok_env|].
    exists d', pkt', w'. split; [by etransitivity|]. split; [|split; [done|congruence]].
    cbn [drain_loop length Nat.add]. erewrite bind_run by exact Hrun. cbn [fst snd Z.eqb negb].
    erewrite bind_run by exact Hsend. cbn [fst snd Z.eqb negb]. rewrite Hloop.
    replace (sent + 1 + zlen ps) with (sent + zlen (p :: ps)) by (unfold zlen; simpl; lia). done.
Qed.

(** Draining with a callback that accepts everything. *)
Lemma koe_queue_drain_run {S} send_fn (f : S → koe_packet_t → S) q d pk pkts uninit ctx w :
  q_db q = Some d → holds d pk pkts → Forall (accepts send_fn f) pkts → io_ok w → heap_ok w →
  ∃ d' w', same_env w w' ∧ w ⊢ koe_queue_drain (Datatypes.S (length pkts)) q pk send_fn uninit ctx
      ⇓ Some (zlen pkts, set_q_db (Some d') q, foldl f ctx pkts) ⊣ w'
    ∧ holds d' pk [] ∧ others d' pk = others d pk.
Proof.
  intros Hq Hh Hacc Hio Hheap.
  destruct (drain_loop_prefix 1 send_fn f q d pk pkts [] uninit 0 ctx w)
    as (d' & pkt' & w1 & Henv & Hloop & Hh' & Ho'); [done|by rewrite app_nil_r|done..|].
  destruct (koe_queue_pop_empty (set_q_db (Some d') q) d' pk pkt' w1) as (w2 & Henv2 & Hrun);
    [done|done|by eapply io_ok_env|].
  exists d', w2. split; [by etransitivity|]. split; [|done].
  unfold koe_queue_drain. rewrite <-Nat.add_1_r, Hloop. cbn [drain_loop].
  erewrite bind_run by exact Hrun. done.
Qed.

(** Pushing packets one after the other. *)
Fixpoint push_all (q : koe_queue_t) (pkts : list koe_packet_t) : M (list Z * koe_queue_t) :=
  match pkts with
  | [] => mret ([], q)
  | p :: pkts' => r ← koe_queue_push q p; r' ← push_all r.2 pkts'; mret (r.1 :: r'.1, r'.2)
  end.

(** The next [n] calls to [time] answer in different, increasing seconds. *)
Definition clock_strict (n : nat) (w : world) : Prop :=
  ∀ i j, (w_tick w ≤ i < j)%nat → (j ≤ w_tick w + n)%nat → 0 ≤ w_clock w i < w_clock w j ∧ w_clock w j < 2 ^ 62.

Lemma push_all_run q d pk ps pkts w :
  q_db q = Some d → holds d pk ps → Forall packet_fits pkts → Forall (λ p, h_to (p_header p) = pk) pkts →
  zlen (ps ++ pkts) ≤ q_max_per_peer q → zlen (ps ++ pkts) < 2 ^ 31 →
  Forall (λ r, dq_sequence r < now w) (for_peer pk (d_queue d)) →
  clock_strict (length pkts) w → io_ok w → heap_ok w →
  ∃ ids d' w', same_env w w'
    ∧ w ⊢ push_all q pkts ⇓ (ids, set_q_db (Some d') q) ⊣ w'
    ∧ holds d' pk (ps ++ pkts) ∧ others d' pk = others d pk.
Proof.
  revert q d ps w. induction pkts as [|p pkts IH]; intros q d ps w Hq Hh Hfit Hto Hmax H31 Hseq Hclk Hio Hheap.
  - exists [], d, w. rewrite app_nil_r. split_and!; try done. unfold push_all, mret, M_ret.
    by destruct q; simpl in *; rewrite Hq.
  - apply Forall_cons in Hfit as [Hp Hfit]. apply Forall_cons in Hto as [<- Hto].
    assert (Hlen : zlen (ps ++ p :: pkts) = zlen ps + 1 + zlen pkts).
    { unfold zlen. rewrite length_app. simpl. lia. }
    assert (0 ≤ zlen pkts) by (unfold zlen; lia).
    assert (Hnow : 0 ≤ now w < 2 ^ 62).
    { destruct (Hclk (w_tick w) (S (w_tick w))) as [? ?]; [lia|simpl; lia|]. unfold now. lia. }
    destruct (koe_queue_push_run q d p ps w Hq Hh Hp) as (w1 & Henv & Htick & Hrun); [lia|lia|done..|].
    destruct (enqueued_holds d p ps (now w) Hh Hp Hseq) as [Hh1 Ho1].
    destruct (IH (set_q_db (Some (enqueued d p (now w))) q) (enqueued d p (now w)) (ps ++ [p]) w1)
      as (ids & d' & w' & Henv' & Hrun' & Hh' & Ho'); try done.
    + by rewrite <-app_assoc.
    + by rewrite <-app_assoc.
    + assert (Hlt : now w < now w1).
      { unfold now. destruct Henv as (-> & _). rewrite Htick. apply Hclk; simpl; lia. }
      unfold enqueued, for_peer in *. cbn [d_queue]. rewrite filter_app.
      rewrite (filter_cons_True (λ q, dq_to_pk q = h_to (p_header p))), filter_nil by done.
      apply Forall_app. split; [eapply Forall_impl; [exact Hseq|]; simpl; lia|].
      constructor; [exact Hlt|constructor].
    + intros i j Hij Hj. destruct Henv as (-> & _). rewrite Htick in Hij, Hj. simpl in Hclk. apply Hclk; lia.
    + by eapply io_ok_env.
    + by eapply heap_ok_env.
    + eexists _, d', w'. split_and!; [by etransitivity| |by rewrite <-app_assoc in Hh'|congruence].
      cbn [push_all]. erewrite bind_run by exact Hrun. cbn [fst snd]. erewrite bind_run by exact Hrun'. done.
Qed.
End Proofs.

(** * Theorems *)

(** C12: packets for a peer, queued in different seconds and within the limit,
    are all handed to a callback that accepts them, each exactly once, in the
    order they were queued and byte for byte; the loop terminates, the peer's
    queue is empty afterwards and the queues of other peers are untouched. *)
Theorem koe_queue_drain_fifo `{SqlOrder} {S} (q : koe_queue_t) (d : db) (pk : bytes)
    (send_fn : koe_packet_t → S → M (Z * S)) (f : S → koe_packet_t → S) (ctx : S)
    (pkts : list koe_packet_t) (uninit : koe_packet_t) (w : world) :
  q_db q = Some d → db_ok d → for_peer pk (d_queue d) = [] → Forall (accepts send_fn f) pkts →
  Forall packet_fits pkts → Forall (λ p, h_to (p_header p) = pk) pkts →
  zlen pkts ≤ q_max_per_peer q → zlen pkts < 2 ^ 31 →
  clock_strict (length pkts) w → io_ok w → heap_ok w →
  ∃ ids q1 w1 d2 w2,
    w ⊢ push_all q pkts ⇓ (ids, q1) ⊣ w1
    ∧ w1 ⊢ koe_queue_drain (Datatypes.S (length pkts)) q1 pk send_fn uninit ctx
        ⇓ Some (zlen pkts, set_q_db (Some d2) q1, foldl f ctx pkts) ⊣ w2
    ∧ for_peer pk (d_queue d2) = [] ∧ others d2 pk = others d pk.
Proof.
  intros Hq Hok Hempty Hacc Hfit Hto Hmax H31 Hclk Hio Hheap.
  assert (Hh : holds d pk []).
  { unfold holds. rewrite Hempty. split_and!; [done|constructor..]. }
  destruct (push_all_run q d pk [] pkts w) as (ids & d1 & w1 & Henv & Hpush & Hh1 & Ho1); try done.
  { by rewrite Hempty. }
  destruct (koe_queue_drain_run send_fn f (set_q_db (Some d1) q) d1 pk pkts uninit ctx w1)
    as (d2 & w2 & _ & Hdrain & Hh2 & Ho2); [done|done|done|by eapply io_ok_env|by eapply heap_ok_env|].
  exists ids, (set_q_db (Some d1) q), w1, d2, w2. split_and!; [done|done| |congruence].
  destruct Hh2 as (_ & Hr & _). by apply Forall2_nil_inv_r in Hr.
Qed.


(** The callback turns [p] down, and changes its state by [g]. *)
Definition refuses {S} (send_fn : koe_packet_t → S → M (Z * S)) (g : S → koe_packet_t → S) (p : koe_packet_t) : Prop :=
  ∀ s w, io_ok w → heap_ok w → ∃ rc w', rc ≠ 0 ∧ w ⊢ send_fn p s ⇓ (rc, g s p) ⊣ w'.

(** C14: when the callback fails on a packet, the drain stops there: the packets
    before it were handed over in order and are the ones counted, the later ones
    stay queued in order, and the one that failed is in neither: it had left the
    database before the callback was called. Other peers are not affected. *)
Theorem koe_queue_drain_error `{SqlOrder} {S} (q : koe_queue_t) (d : db) (pk : bytes)
    (ps qs : list koe_packet_t) (p : koe_packet_t) (send_fn : koe_packet_t → S → M (Z * S))
    (f g : S → koe_packet_t → S) (uninit : koe_packet_t) (ctx : S) (fuel : nat) (w : world) :
  q_db q = Some d → holds d pk (ps ++ p :: qs) →
  Forall (accepts send_fn f) ps → refuses send_fn g p → (length ps < fuel)%nat → io_ok w → heap_ok w →
  ∃ d' w', w ⊢ koe_queue_drain fuel q pk send_fn uninit ctx
      ⇓ Some (zlen ps, set_q_db (Some d') q, g (foldl f ctx ps) p) ⊣ w'
    ∧ holds d' pk qs ∧ others d' pk = others d pk.
Proof.
  intros Hq Hh Hacc Href Hfuel Hio Hheap.
  destruct (drain_loop_prefix (Datatypes.S (fuel - length ps - 1)) send_fn f q d pk ps (p :: qs) uninit 0 ctx w)
    as (d1 & pkt1 & w1 & Henv & Hloop & Hh1 & Ho1); [done..|].
  destruct (koe_queue_pop_run (set_q_db (Some d1) q) d1 pk pkt1 p qs w1)
    as (d2 & w2 & Henv2 & Hrun & Hh2 & Ho2); [done|done|by eapply io_ok_env|by eapply heap_ok_env|].
  assert (Henv' : same_env w w2) by (by etransitivity).
  destruct (Href (foldl f ctx ps) w2) as (rc & w3 & Hrc & Hsend); [by eapply io_ok_env|by eapply heap_ok_env|].
  exists d2, w3. split; [|split; [done|congruence]]. unfold koe_queue_drain.
  replace fuel with (length ps + Datatypes.S (fuel - length ps - 1))%nat by lia. rewrite Hloop. cbn [drain_loop].
  erewrite bind_run by exact Hrun. cbn [fst snd Z.eqb negb].
  erewrite bind_run by exact Hsend. cbn [fst snd]. by destruct (Z.eqb_spec rc 0).
Qed.

(** * Witnesses *)
Definition queue_packet (b : Z) : koe_packet_t :=
  KoePacket (set_length 1 (p_header (koe_packet_init (type_code KOE_TYPE_MSG) 0))) (Some [b]).
Definition queue_empty : koe_queue_t := KoeQueue (Some empty_db) 2 0.
Definition strict_world : world :=
  World Z.of_nat 0 (λ _, true) 0 (λ _ _, 0) 0 (λ _, true) 0 ∅.

Lemma queue_packet_fits b : byte_ok b → packet_fits (queue_packet b).
Proof.
  intros Hb. split; [|vm_compute; discriminate]. split.
  - apply (bool_decide_unpack _). vm_compute. exact I.
  - simpl. split_and!; [by constructor|done|lia].
Qed.

Lemma queue_empty_holds pk : holds empty_db pk [].
Proof. split_and!; repeat constructor. Qed.

Lemma queue_one_holds :
  holds (enqueued empty_db (queue_packet 1) 5) (zeros 32) [queue_packet 1].
Proof.
  apply (enqueued_holds empty_db (queue_packet 1) [] 5); [apply queue_empty_holds| |constructor].
  apply queue_packet_fits. unfold byte_ok. lia.
Qed.

(** A callback that records the packets, and one that accepts a single one. *)
Definition record_packet (p : koe_packet_t) (l : list koe_packet_t) : M (Z * list koe_packet_t) := mret (0, l ++ [p]).
Definition one_only (p : koe_packet_t) (l : list koe_packet_t) : M (Z * list koe_packet_t) :=
  mret (if bool_decide (p = queue_packet 1) then (0, l ++ [p]) else (-1, l)).

Lemma koe_queue_drain_fifo_witness :
  let pkts := [queue_packet 1; queue_packet 2] in
  ∃ ids q1 w1 d2 w2,
    strict_world ⊢ @push_all first_tie queue_empty pkts ⇓ (ids, q1) ⊣ w1
    ∧ w1 ⊢ @koe_queue_drain first_tie _ 3 q1 (zeros 32) record_packet witness_packet []
        ⇓ Some (2, set_q_db (Some d2) q1, pkts) ⊣ w2.
Proof.
  destruct (@koe_queue_drain_fifo first_tie _ queue_empty empty_db (zeros 32) record_packet (λ l p, l ++ [p]) []
    [queue_packet 1; queue_packet 2] witness_packet strict_world) as (ids & q1 & w1 & d2 & w2 & H1 & H2 & _).
  - reflexivity.
  - apply (queue_empty_holds []).
  - reflexivity.
  - constructor; [|constructor; [|constructor]]; intros s w _ _; exists w; split; reflexivity.
  - constructor; [|constructor; [|constructor]]; apply queue_packet_fits; unfold byte_ok; lia.
  - constructor; [|constructor; [|constructor]]; reflexivity.
  - vm_compute. discriminate.
  - vm_compute. reflexivity.
  - intros i j Hij Hj. simpl in *. lia.
  - intros i. reflexivity.
  - intros i. reflexivity.
  - exists ids, q1, w1, d2, w2. split; assumption.
Defined.


Lemma koe_queue_drain_error_witness :
  ∃ d' w',
    world_at 9 ⊢ @koe_queue_drain first_tie _ 5
        (KoeQueue (Some (enqueued (enqueued empty_db (queue_packet 1) 5) (queue_packet 2) 6)) 4 0)
        (zeros 32) one_only witness_packet []
      ⇓ Some (1, KoeQueue (Some d') 4 0, [queue_packet 1]) ⊣ w'
    ∧ holds d' (zeros 32) [].
Proof.
  destruct (@koe_queue_drain_error first_tie _
    (KoeQueue (Some (enqueued (enqueued empty_db (queue_packet 1) 5) (queue_packet 2) 6)) 4 0)
    (enqueued (enqueued empty_db (queue_packet 1) 5) (queue_packet 2) 6)
    (zeros 32) [queue_packet 1] [] (queue_packet 2) one_only (λ l p, l ++ [p]) (λ l _, l) witness_packet [] 5 (world_at 9))
    as (d' & w' & H1 & H2 & _).
  - reflexivity.
  - apply (enqueued_holds (enqueued empty_db (queue_packet 1) 5) (queue_packet 2) [queue_packet 1] 6).
    + exact queue_one_holds.
    + apply queue_packet_fits. unfold byte_ok. lia.
    + constructor; [vm_compute; reflexivity|constructor].
  - constructor; [|constructor]. intros s w _ _. exists w. split; [reflexivity|].
    unfold one_only. rewrite bool_decide_true by reflexivity. reflexivity.
  - intros s w _ _. exists (-1), w. split; [discriminate|].
    unfold one_only. rewrite bool_decide_false by discriminate. reflexivity.
  - simpl. lia.
  - intros i. reflexivity.
  - intros i. reflexivity.
  - exists d', w'. split; assumption.
Defined.

(** Two packets queued in the same second have the same sequence number: a
    database that breaks the tie the other way round delivers them swapped. *)
Definition last_tie : SqlOrder := λ l, (length l - 1)%nat.

Lemma same_second_reordered :
  (λ r, r.1.2) <$>
    (r ← @push_all last_tie queue_empty [queue_packet 1; queue_packet 2];
     @koe_queue_pop last_tie r.2 (zeros 32) witness_packet) (world_at 7)
  = Some (queue_packet 2).
Proof. vm_compute. reflexivity. Qed.
