(* ===== verification/Store.v ===== *)
(** The encrypted message store (src/koe_store.c, include/koe_store.h) on top
    of the database layer. *)

From S2P Require Import Prelude Version Crc32 Packet Crypto Message Db.

Record koe_store_t := KoeStore { st_db : koe_db_conn_t; st_path : bytes; st_secret_unlocked : bool }.

Definition set_st_db (c : koe_db_conn_t) (s : koe_store_t) : koe_store_t :=
  KoeStore c (st_path s) (st_secret_unlocked s).

Definition status_code (s : koe_msg_status_t) : Z :=
  match s with
  | KOE_STATUS_PENDING => 0 | KOE_STATUS_SENT => 1 | KOE_STATUS_DELIVERED => 2
  | KOE_STATUS_READ => 3 | KOE_STATUS_FAILED => 4
  end.

(** * Operations *)
Definition koe_store_open (conn : koe_db_conn_t) : M (Z * koe_store_t) :=
  rc ← koe_db_migrate conn;
  mret (rc, KoeStore conn (zeros 512) false).

Definition koe_store_close (store : koe_store_t) : koe_store_t := set_st_db None store.

(** ["koe-store"]. *)
Definition KOE_STORE_LABEL : bytes := [107; 111; 101; 45; 115; 116; 111; 114; 101].

Definition koe_store_put `{Sodium} (store : koe_store_t) (msg : koe_message_t) (local_id : koe_identity_t)
  : M (Z * koe_store_t) :=
  let store_key := generichash 32 (id_sk local_id ++ KOE_STORE_LABEL) 32 in
  let ct_len := u64 (m_body_len msg + 16) in
  ok ← malloc;
  if negb ok then mret (-1, store)
  else
    nonce ← koe_nonce_generate;
    body ← lift (body_bytes msg);
    match koe_encrypt body nonce store_key with
    | None => mret (-1, store)
    | Some ct =>
        r ← koe_db_message_insert (st_db store)
              (KoeDbMessage (i64 (m_id msg)) (m_from msg) (m_to msg) (Some ct) ct_len (m_sent_at msg)
                 (m_delivered_at msg) (m_read_at msg) (m_destruct_at msg) (status_code (m_status msg))
                 (if m_is_secret msg then 1 else 0));
        mret (r.1.1, set_st_db r.1.2 store)
    end.

(** A stub: nothing is read. *)
Definition koe_store_get (store : koe_store_t) (id : Z) (out : koe_message_t) (local_id : koe_identity_t)
  : Z * koe_message_t := (-1, out).

Definition koe_store_delete (store : koe_store_t) (id : Z) : M (Z * koe_store_t) :=
  r ← koe_db_message_delete (st_db store) (i64 id);
  mret (r.1, set_st_db r.2 store).

Definition koe_store_sweep_destruct (store : koe_store_t) : M (Z * koe_store_t) :=
  now ← time_null;
  r ← koe_db_destruct_sweep (st_db store) now;
  mret (r.1, set_st_db r.2 store).

Definition koe_store_wipe (store : koe_store_t) : M (Z * koe_store_t) :=
  now ← time_null;
  t ← lift (add64 now 9999999);
  r ← koe_db_destruct_sweep (st_db store) t;
  mret (0, set_st_db r.2 store).

(** * Storing *)
Section Putting.
Context `{SodiumLaws}.

Lemma koe_db_message_insert_run d m ct w :
  io_ok w → dm_body_encrypted m = Some ct → dm_body_len m = zlen ct → zlen ct ≤ SQLITE_MAX_LENGTH →
  w ⊢ koe_db_message_insert (Some d) m
    ⇓ (0, Some (Db (d_messages d ++ [message_row (d_next_message d) ct m]) (d_contacts d) (d_queue d)
                   (d_next_message d + 1) (d_next_queue d) (d_next_message d) 1),
       set_dm_id (d_next_message d) m) ⊣ iotick (iotick w).
Proof.
  intros Hio Hb Hl Hmax. unfold koe_db_message_insert, prepare, step. rewrite bind_syscall_ok by done. cbn [negb].
  rewrite Hb, Hl, (bind_lift _ _ _ _ (bind_blob_all _ Hmax)). by rewrite bind_syscall_ok by done.
Qed.

(** The row [koe_store_put] appends. *)
Lemma koe_store_put_run store d msg id w :
  st_db store = Some d → message_ok msg → m_body_len msg + 16 ≤ SQLITE_MAX_LENGTH → heap_ok w → io_ok w →
  ∃ ct nonce d',
    w ⊢ koe_store_put store msg id ⇓ (0, set_st_db (Some d') store) ⊣ iotick (iotick (draw (alloc w)))
    ∧ koe_encrypt (default [] (m_body msg)) nonce (generichash 32 (id_sk id ++ KOE_STORE_LABEL) 32) = Some ct
    ∧ zlen ct = m_body_len msg + 16
    ∧ d_messages d' = d_messages d ++
        [KoeDbMessage (d_next_message d) (m_from msg) (m_to msg) (Some ct) (zlen ct) (m_sent_at msg)
           (m_delivered_at msg) (m_read_at msg) (m_destruct_at msg) (status_code (m_status msg))
           (if m_is_secret msg then 1 else 0)].
Proof.
  intros Hs Hm Hmax Hheap Hio. destruct (body_bytes_ok msg Hm) as (Hb & Hok & Hlen).
  assert (Hl : 0 ≤ m_body_len msg) by apply Hm. unfold SQLITE_MAX_LENGTH in Hmax.
  set (nonce := random_bytes (alloc w) 24).
  destruct (koe_decrypt_encrypt (default [] (m_body msg)) nonce
              (generichash 32 (id_sk id ++ KOE_STORE_LABEL) 32)) as (ct & Henc & [Hct _] & _);
    [done|lia|apply random_array_ok|apply generichash_ok; lia|].
  assert (Hz : zlen ct = m_body_len msg + 16) by (unfold zlen in *; lia).
  unfold koe_store_put, koe_nonce_generate, KOE_NONCE_LEN.
  rewrite bind_malloc_ok by done. cbn [negb]. rewrite bind_random. fold nonce.
  rewrite (bind_lift _ _ _ _ Hb), Henc, u64_id, Hs by lia. exists ct, nonce.
  erewrite bind_run by (apply (koe_db_message_insert_run d _ ct); [done|done|simpl; lia|unfold SQLITE_MAX_LENGTH; lia]).
  eexists. split; [reflexivity|]. done.
Qed.

(** The store keeps the ciphertext without the nonce it was made with (the
    blob is sixteen bytes longer than the body, the nonce needs twenty-four
    more) and under the database's own id, not the message's: deleting by the
    message's id leaves the row in place unless the two happen to coincide. *)
Lemma koe_store_put_unreachable (store : koe_store_t) (d : db) (msg : koe_message_t)
    (id : koe_identity_t) (w : world) :
  st_db store = Some d → message_ok msg → m_body_len msg + 16 ≤ SQLITE_MAX_LENGTH → heap_ok w → io_ok w →
  0 ≤ m_id msg < 2 ^ 63 → m_id msg ≠ d_next_message d →
  ∃ row d1 w1 d2 w2,
    w ⊢ koe_store_put store msg id ⇓ (0, set_st_db (Some d1) store) ⊣ w1
    ∧ dm_id row = d_next_message d
    ∧ option_map zlen (dm_body_encrypted row) = Some (m_body_len msg + 16)
    ∧ w1 ⊢ koe_store_delete (set_st_db (Some d1) store) (m_id msg) ⇓ (0, set_st_db (Some d2) store) ⊣ w2
    ∧ row ∈ d_messages d2.
Proof.
  intros Hs Hm Hmax Hheap Hio Hid Hne.
  destruct (koe_store_put_run store d msg id w Hs Hm Hmax Hheap Hio) as (ct & nonce & d1 & Hrun & _ & Hz & Hd1).
  set (row := KoeDbMessage _ _ _ _ _ _ _ _ _ _ _) in Hd1.
  eexists row, d1, _, _, _. split; [exact Hrun|]. split; [done|]. split; [simpl; by rewrite Hz|]. split.
  - unfold koe_store_delete, koe_db_message_delete. cbn [st_db set_st_db].
    erewrite bind_run by (by apply run_update_run). reflexivity.
  - change (row ∈ filter (λ m, ¬ dm_id m = i64 (m_id msg)) (d_messages d1)). rewrite Hd1, filter_app. apply elem_of_app. right.
    rewrite filter_cons_True; [left|]. cbn [dm_id row].
    unfold i64. rewrite Z.mod_small; lia.
Qed.
End Putting.

(** * Wiping *)

(** A wipe reports success and destroys only the messages that were going
    to destroy themselves anyway within the next 9999999 seconds: every other
    message is still there. *)
Lemma koe_store_wipe_incomplete (store : koe_store_t) (d : db) (w : world) :
  st_db store = Some d → io_ok w → 0 ≤ now w < 2 ^ 62 →
  ∃ d' w',
    w ⊢ koe_store_wipe store ⇓ (0, set_st_db (Some d') store) ⊣ w'
    ∧ ∀ m, m ∈ d_messages d' ↔
        m ∈ d_messages d ∧ (dm_destruct_at m ≤ 0 ∨ now w + 9999999 < dm_destruct_at m).
Proof.
  intros Hs Hio Hnow. unfold koe_store_wipe. rewrite bind_time.
  rewrite (bind_lift _ _ _ (now w + 9999999)) by (apply chk64_Some; lia).
  rewrite Hs. destruct (destruct_sweep_run d (now w + 9999999) (tick w)) as (d' & Hrun & Hd'); [done|].
  erewrite bind_run by exact Hrun. eexists _, _. split; [reflexivity|]. intros m. rewrite Hd'.
  rewrite list_elem_of_filter. unfold destruct_due. intuition lia.
Qed.

Definition store_db : db := Db [sweep_row 0; sweep_row 5] [] [] 10 1 0 0.

Lemma koe_store_wipe_incomplete_witness :
  ∃ d' w',
    world_at 3 ⊢ koe_store_wipe (KoeStore (Some store_db) [] false) ⇓ (0, KoeStore (Some d') [] false) ⊣ w'
    ∧ sweep_row 0 ∈ d_messages d'.
Proof.
  destruct (koe_store_wipe_incomplete (KoeStore (Some store_db) [] false) store_db (world_at 3))
    as (d' & w' & H1 & H2).
  - reflexivity.
  - intros i. reflexivity.
  - vm_compute. split; [discriminate|reflexivity].
  - exists d', w'. split; [exact H1|]. apply H2. split; [left|left; simpl; lia].
Defined.

#[local] Existing Instance toy_sodium.
#[local] Existing Instance toy_laws.

Lemma koe_store_put_unreachable_witness :
  ∃ row d1 w1 d2 w2,
    world_at 3 ⊢ koe_store_put (KoeStore (Some store_db) [] false) witness_message (KoeIdentity (zeros 32) (zeros 64))
      ⇓ (0, KoeStore (Some d1) [] false) ⊣ w1
    ∧ w1 ⊢ koe_store_delete (KoeStore (Some d1) [] false) 1 ⇓ (0, KoeStore (Some d2) [] false) ⊣ w2
    ∧ row ∈ d_messages d2.
Proof.
  destruct (koe_store_put_unreachable (KoeStore (Some store_db) [] false) store_db witness_message
    (KoeIdentity (zeros 32) (zeros 64)) (world_at 3)) as (row & d1 & w1 & d2 & w2 & H1 & _ & _ & H2 & H3).
  - reflexivity.
  - exact witness_message_ok.
  - vm_compute. discriminate.
  - intros i. reflexivity.
  - intros i. reflexivity.
  - simpl. lia.
  - discriminate.
  - exists row, d1, w1, d2, w2. split_and!; [exact H1|exact H2|exact H3].
Defined.
