(* ===== verification/Transport.v ===== *)
(** The transport (src/koe_transport.c, include/koe_transport.h): exact reads and
    writes on a stream that delivers arbitrary pieces, length-prefixed framing,
    WebSocket frames, and the discovery protocol. *)

From S2P Require Import Prelude Version Crc32 Packet Crypto.
Import Strings.String.StringSyntax.

(** * Sockets

    A connected stream: the bytes still to be received and the bytes sent so
    far. A call may fail; otherwise it moves at least one byte, at most what was
    asked for, and how many is up to the environment. Receiving at the end of
    the stream returns 0. *)
Record sock := Sock { s_in : bytes; s_out : bytes }.

(** How many of [n] bytes a call moves. *)
Definition piece (w : world) (n : nat) : nat :=
  S (Z.to_nat (w_rng w (w_draws w) 0%nat `mod` Z.of_nat n)).

Definition recv (s : sock) (n : nat) : M (option bytes * sock) :=
  ok ← syscall;
  if negb ok then mret (None, s)
  else λ w,
    match s_in s with
    | [] => Some ((None, s), w)
    | _ => let k := piece w n in Some ((Some (take k (s_in s)), Sock (drop k (s_in s)) (s_out s)), draw w)
    end.

Definition send (s : sock) (data : bytes) : M (option nat * sock) :=
  ok ← syscall;
  if negb ok then mret (None, s)
  else λ w,
    let k := piece w (length data) in
    Some ((Some k, Sock (s_in s) (s_out s ++ take k data)), draw w).

(** The [while] loops; every iteration moves a byte, so [n] iterations are
    enough. [None] is the code -1. *)
Fixpoint read_loop (fuel : nat) (s : sock) (n : nat) (got : bytes) : M (option bytes * sock) :=
  if (n <=? length got)%nat then mret (Some got, s)
  else
    match fuel with
    | O => mret (None, s)
    | S fuel' =>
        r ← recv s (n - length got);
        match r.1 with
        | None => mret (None, r.2)
        | Some b => read_loop fuel' r.2 n (got ++ b)
        end
    end.
Definition read_exact (s : sock) (n : nat) : M (option bytes * sock) := read_loop n s n [].

Fixpoint write_loop (fuel : nat) (s : sock) (data : bytes) : M (bool * sock) :=
  match data with
  | [] => mret (true, s)
  | _ =>
      match fuel with
      | O => mret (false, s)
      | S fuel' =>
          r ← send s data;
          match r.1 with
          | None => mret (false, r.2)
          | Some k => write_loop fuel' r.2 (drop k data)
          end
      end
  end.
Definition write_exact (s : sock) (data : bytes) : M (bool * sock) := write_loop (length data) s data.

(** * Peers and listening sockets *)
Inductive koe_transport_type_t :=
  | KOE_TRANSPORT_NONE | KOE_TRANSPORT_WIFI_DIRECT | KOE_TRANSPORT_BLUETOOTH
  | KOE_TRANSPORT_TCP_RELAY | KOE_TRANSPORT_WEBSOCKET.

Record koe_peer_t := KoePeer {
  peer_pk : bytes;
  peer_addr : bytes;
  peer_port : Z;
  peer_fd : Z;
  peer_transport : koe_transport_type_t;
  peer_reachable : bool;
  peer_version : koe_version_t;
  peer_last_contact_us : Z;
}.

(** [relay_host] is the whole array (256 bytes). *)
Record koe_transport_ctx_t := KoeTransportCtx {
  listen_fd : Z; tcp_listen_fd : Z; ws_listen_fd : Z; relay_host : bytes; relay_port : Z;
  tc_active : koe_transport_type_t; bluetooth_enabled : bool;
}.

Definition KOE_RELAY_PORT_DEF : Z := 9474.

Definition koe_transport_type_string (t : koe_transport_type_t) : bytes :=
  match t with
  | KOE_TRANSPORT_WIFI_DIRECT => str "WiFi-Direct"
  | KOE_TRANSPORT_BLUETOOTH => str "Bluetooth"
  | KOE_TRANSPORT_TCP_RELAY => str "TCP-Relay"
  | KOE_TRANSPORT_WEBSOCKET => str "WebSocket"
  | KOE_TRANSPORT_NONE => str "None"
  end.

(** [FD_SET(fd, fds)]: a descriptor that does not fit a set is undefined. *)
Definition FD_SETSIZE : Z := 1024.
Definition fd_put (fd : Z) (fds : gset Z) : option (gset Z) :=
  if (0 <=? fd) && (fd <? FD_SETSIZE) then Some ({[ fd ]} ∪ fds) else None.

(** One line of the function: the set and the highest descriptor so far. *)
Definition fd_set_add (fd : Z) (acc : Z * gset Z) : option (Z * gset Z) :=
  if 0 <=? fd then fds ← fd_put fd acc.2; Some (if acc.1 <? fd then fd else acc.1, fds) else Some acc.

Definition koe_transport_fd_set (ctx : koe_transport_ctx_t) (fds : gset Z) : option (Z * gset Z) :=
  a ← fd_set_add (listen_fd ctx) (-1, fds);
  a ← fd_set_add (tcp_listen_fd ctx) a;
  fd_set_add (ws_listen_fd ctx) a.

(** * Discovery *)
Definition DISCO_PAYLOAD : nat := 38.
Definition DISCO_MAGIC : bytes := [75; 68; 83; 67].

(** The ping and the pong are the same 38 bytes. *)
Definition disco_payload (local_pk : bytes) : bytes :=
  DISCO_MAGIC ++ local_pk ++ [KOE_PROTO_MAJOR; KOE_PROTO_MINOR].

(** [recvfrom] into 38 bytes: a longer datagram is cut. *)
Definition recvfrom (datagram : bytes) : bytes := take DISCO_PAYLOAD datagram.

Definition discovered_peer (buf addr : bytes) : koe_peer_t :=
  KoePeer (take 32 (drop 4 buf)) (strncpy (zeros 64) addr 64) KOE_RELAY_PORT_DEF (-1) KOE_TRANSPORT_WIFI_DIRECT true
    (KoeVersion (buf !!! 36%nat) (buf !!! 37%nat)) 0.

(** One datagram from [addr] ([None]: the receive failed): the code, the reply
    sent back and the peer reported. *)
Definition koe_transport_handle_discovery (ctx : koe_transport_ctx_t) (local_pk : bytes)
    (datagram : option (bytes * bytes)) : Z * option bytes * option koe_peer_t :=
  if listen_fd ctx <? 0 then (-1, None, None)
  else
    match datagram with
    | None => (-1, None, None)
    | Some (dg, addr) =>
        let buf := recvfrom dg in
        if negb (length buf =? DISCO_PAYLOAD)%nat then (-1, None, None)
        else if negb (memeq 4 buf DISCO_MAGIC) then (-1, None, None)
        else if memeq 32 (drop 4 buf) local_pk then (0, None, None)
        else (0, Some (disco_payload local_pk), Some (discovered_peer buf addr))
    end.

(** The collection loop over the datagrams that arrive before the deadline. *)
Fixpoint discover_loop (local_pk : bytes) (replies : list (bytes * bytes)) : list koe_peer_t :=
  match replies with
  | [] => []
  | (dg, addr) :: replies' =>
      let reply := recvfrom dg in
      if negb (length reply =? DISCO_PAYLOAD)%nat then []
      else if negb (memeq 4 reply DISCO_MAGIC) then []
      else if memeq 32 (drop 4 reply) local_pk then []
      else discovered_peer reply addr :: discover_loop local_pk replies'
  end.

(** The code, the datagram broadcast and the peers reported, in order. The
    socket is put into a descriptor set to wait on. *)
Definition koe_transport_discover (ctx : koe_transport_ctx_t) (local_pk : bytes)
    (replies : list (bytes * bytes)) : option (Z * option bytes * list koe_peer_t) :=
  if listen_fd ctx <? 0 then Some (-1, None, [])
  else
    _ ← fd_put (listen_fd ctx) ∅;
    Some (0, Some (disco_payload local_pk), discover_loop local_pk replies).

(** * Length-prefixed packets

    [fd] is the descriptor of the peer, [s] the stream behind it. *)
Definition koe_transport_send (fd : Z) (s : sock) (pkt : koe_packet_t) : M (Z * sock) :=
  if fd <? 0 then mret (-1, s)
  else
    let total := u32 (KOE_HEADER_SIZE + h_length (p_header pkt)) in
    buf ← malloc_bytes (Z.to_nat total);
    match buf with
    | None => mret (-1, s)
    | Some buf =>
        r ← lift (koe_packet_serialise pkt buf total);
        if r.1 <? 0 then mret (-1, s)
        else
          a ← write_exact s (be32 total);
          if negb a.1 then mret (-1, a.2)
          else
            b ← write_exact a.2 r.2;
            mret (if (b.1 : bool) then 0 else -1, b.2)
    end.

Definition koe_transport_recv (fd : Z) (s : sock) (pkt : koe_packet_t) : M (Z * sock * koe_packet_t) :=
  if fd <? 0 then mret (-1, s, pkt)
  else
    a ← read_exact s 4;
    match a.1 with
    | None => mret (-1, a.2, pkt)
    | Some len_be =>
        let total := of_be32 len_be in
        if (total <? KOE_HEADER_SIZE) || (KOE_HEADER_SIZE + KOE_MAX_PAYLOAD <? total)
        then mret (-1, a.2, pkt)
        else
          ok ← malloc;
          if negb ok then mret (-1, a.2, pkt)
          else
            b ← read_exact a.2 (Z.to_nat total);
            match b.1 with
            | None => mret (-1, b.2, pkt)
            | Some buf => d ← koe_packet_deserialise pkt buf total; mret (d.1, b.2, d.2)
            end
    end.

(** * WebSocket frames *)
Definition ws_header (payload_len : Z) : bytes :=
  if payload_len <=? 125 then [0x82; u8 payload_len]
  else if payload_len <=? 65535 then [0x82; 126; u8 (Z.shiftr payload_len 8); u8 (Z.land payload_len 0xFF)]
  else [0x82; 127] ++ ((λ i, u8 (Z.shiftr payload_len (56 - 8 * Z.of_nat i))) <$> seq 0 8).

(** The results of both writes are ignored. *)
Definition koe_transport_ws_send (s : sock) (pkt : koe_packet_t) : M (Z * sock) :=
  let payload_len := u32 (KOE_HEADER_SIZE + h_length (p_header pkt)) in
  payload ← malloc_bytes (Z.to_nat payload_len);
  match payload with
  | None => mret (-1, s)
  | Some payload =>
      r ← lift (koe_packet_serialise pkt payload payload_len);
      a ← write_exact s (ws_header payload_len);
      b ← write_exact a.2 r.2;
      mret (0, b.2)
  end.

(** The extended length, for the 7-bit lengths 126 and 127. *)
Definition ws_read_len (s : sock) (len7 : Z) : M (option Z * sock) :=
  if len7 =? 126 then
    a ← read_exact s 2;
    mret ((λ ext, Z.lor (Z.shiftl (ext !!! 0%nat) 8) (ext !!! 1%nat)) <$> a.1, a.2)
  else if len7 =? 127 then
    a ← read_exact s 8;
    mret ((λ ext, foldl (λ v b, u64 (Z.lor (Z.shiftl v 8) b)) 0 ext) <$> a.1, a.2)
  else mret (Some len7, s).

Definition ws_read_mask (s : sock) (masked : bool) : M (option bytes * sock) :=
  if masked then read_exact s 4 else mret (Some (zeros 4), s).

Definition unmask (mask buf : bytes) : bytes :=
  imap (λ i b, Z.lxor b (mask !!! (i `mod` 4)%nat)) buf.

Definition koe_transport_ws_recv (s : sock) (pkt : koe_packet_t) : M (Z * sock * koe_packet_t) :=
  h ← read_exact s 2;
  match h.1 with
  | None => mret (-1, h.2, pkt)
  | Some hdr =>
      let masked := negb (Z.land (hdr !!! 1%nat) 0x80 =? 0) in
      l ← ws_read_len h.2 (Z.land (hdr !!! 1%nat) 0x7F);
      match l.1 with
      | None => mret (-1, l.2, pkt)
      | Some payload_len =>
          m ← ws_read_mask l.2 masked;
          match m.1 with
          | None => mret (-1, m.2, pkt)
          | Some mask =>
              if KOE_HEADER_SIZE + KOE_MAX_PAYLOAD <? payload_len then mret (-1, m.2, pkt)
              else
                ok ← malloc;
                if negb ok then mret (-1, m.2, pkt)
                else
                  b ← read_exact m.2 (Z.to_nat payload_len);
                  match b.1 with
                  | None => mret (-1, b.2, pkt)
                  | Some buf =>
                      let buf := if masked then unmask mask buf else buf in
                      d ← koe_packet_deserialise pkt buf payload_len;
                      mret (d.1, b.2, d.2)
                  end
          end
      end
  end.

(** * Exact reads and writes *)
Lemma piece_bounds w n : (0 < n)%nat → (1 ≤ piece w n ≤ n)%nat.
Proof.
  intros Hn. unfold piece.
  pose proof (Z.mod_pos_bound (w_rng w (w_draws w) 0%nat) (Z.of_nat n) ltac:(lia)). lia.
Qed.

Lemma read_loop_run fuel s n got w :
  io_ok w → (length got ≤ n)%nat → (n - length got ≤ fuel)%nat → (n - length got ≤ length (s_in s))%nat →
  ∃ w', same_env w w' ∧ w ⊢ read_loop fuel s n got
    ⇓ (Some (got ++ take (n - length got) (s_in s)), Sock (drop (n - length got) (s_in s)) (s_out s)) ⊣ w'.
Proof.
  revert s got w. induction fuel as [|fuel IH]; intros s got w Hio Hg Hf Hs; cbn [read_loop].
  - destruct (Nat.leb_spec n (length got)); [|lia].
    exists w. split; [done|]. replace (n - length got)%nat with 0%nat by lia. rewrite take_0, app_nil_r.
    by destruct s.
  - destruct (Nat.leb_spec n (length got)).
    { exists w. split; [done|]. replace (n - length got)%nat with 0%nat by lia. rewrite take_0, app_nil_r.
      by destruct s. }
    set (k := piece (iotick w) (n - length got)).
    pose proof (piece_bounds (iotick w) (n - length got) ltac:(lia)) as Hk. fold k in Hk.
    assert (Hrecv : w ⊢ recv s (n - length got)
      ⇓ (Some (take k (s_in s)), Sock (drop k (s_in s)) (s_out s)) ⊣ draw (iotick w)).
    { unfold recv. rewrite bind_syscall_ok by done. cbn [negb]. unfold k.
      destruct (s_in s) as [|b l] eqn:E; [simpl in Hs; lia|done]. }
    destruct (IH (Sock (drop k (s_in s)) (s_out s)) (got ++ take k (s_in s)) (draw (iotick w))) as (w' & Henv & Hrun);
      [done|cbn [s_in]; rewrite ?length_app, ?length_take, ?length_drop; lia..|].
    exists w'. split; [done|]. erewrite bind_run by exact Hrecv. cbn [fst snd]. rewrite Hrun.
    rewrite length_app, length_take. cbn [s_in s_out].
    replace (n - (length got + k `min` length (s_in s)))%nat with (n - length got - k)%nat by lia.
    rewrite drop_drop, <-app_assoc, take_take_drop.
    by replace (k + (n - length got - k))%nat with (n - length got)%nat by lia.
Qed.

Lemma read_exact_run s a rest w :
  io_ok w → s_in s = a ++ rest →
  ∃ w', same_env w w' ∧ w ⊢ read_exact s (length a) ⇓ (Some a, Sock rest (s_out s)) ⊣ w'.
Proof.
  intros Hio Hs. destruct (read_loop_run (length a) s (length a) [] w) as (w' & Henv & Hrun);
    [done|simpl; lia|simpl; lia|rewrite Hs, length_app; simpl; lia|].
  exists w'. split; [done|]. unfold read_exact. rewrite Hrun. simpl. rewrite Nat.sub_0_r, Hs.
  by rewrite take_app_length, drop_app_length.
Qed.

Lemma write_loop_run fuel s data w :
  io_ok w → (length data ≤ fuel)%nat →
  ∃ w', same_env w w' ∧ w ⊢ write_loop fuel s data ⇓ (true, Sock (s_in s) (s_out s ++ data)) ⊣ w'.
Proof.
  revert s data w. induction fuel as [|fuel IH]; intros s data w Hio Hf.
  - destruct data; [|simpl in Hf; lia]. exists w. cbn. rewrite app_nil_r. by destruct s.
  - destruct data as [|b data]; [exists w; cbn; rewrite app_nil_r; by destruct s|].
    set (l := b :: data) in *. set (k := piece (iotick w) (length l)).
    pose proof (piece_bounds (iotick w) (length l) ltac:(simpl; lia)) as Hk. fold k in Hk.
    destruct (IH (Sock (s_in s) (s_out s ++ take k l)) (drop k l) (draw (iotick w))) as (w' & Henv & Hrun);
      [done|rewrite length_drop; lia|].
    exists w'. split; [done|].
    assert (Hsend : w ⊢ send s l ⇓ (Some k, Sock (s_in s) (s_out s ++ take k l)) ⊣ draw (iotick w)).
    { unfold send. by rewrite bind_syscall_ok by done. }
    change (write_loop (S fuel) s l) with
      (r ← send s l; match r.1 with None => mret (false, r.2) | Some k => write_loop fuel r.2 (drop k l) end).
    erewrite bind_run by exact Hsend. cbn [fst snd]. rewrite Hrun. cbn [s_in s_out].
    by rewrite <-app_assoc, take_drop.
Qed.

Lemma write_exact_run s data w :
  io_ok w → ∃ w', same_env w w' ∧ w ⊢ write_exact s data ⇓ (true, Sock (s_in s) (s_out s ++ data)) ⊣ w'.
Proof. intros Hio. by apply write_loop_run. Qed.

(** * Framing *)

(** The bytes of one framed packet. *)
Definition frame (pkt : koe_packet_t) : bytes := be32 (zlen (wire pkt)) ++ wire pkt.

Lemma wire_bounds pkt :
  packet_fits pkt → zlen (wire pkt) = 106 + h_length (p_header pkt) ∧ 106 ≤ zlen (wire pkt) ≤ 106 + KOE_MAX_PAYLOAD.
Proof.
  intros [Hok Hmax]. rewrite (length_wire pkt Hok). assert (0 ≤ h_length (p_header pkt)) by apply Hok. lia.
Qed.

Lemma koe_transport_send_run fd s pkt w :
  0 ≤ fd → packet_fits pkt → io_ok w → heap_ok w →
  ∃ w', same_env w w' ∧ w ⊢ koe_transport_send fd s pkt ⇓ (0, Sock (s_in s) (s_out s ++ frame pkt)) ⊣ w'.
Proof.
  intros Hfd Hfit Hio Hheap. destruct (wire_bounds pkt Hfit) as [Hw Hb]. unfold KOE_MAX_PAYLOAD in Hb.
  unfold koe_transport_send, KOE_HEADER_SIZE. destruct (Z.ltb_spec fd 0); [lia|].
  rewrite u32_id by lia. rewrite bind_malloc_bytes_ok by done.
  rewrite (bind_lift _ _ _ (106 + h_length (p_header pkt), wire pkt)).
  2:{ apply koe_packet_serialise_exact; [done|]. unfold zlen. rewrite length_random_bytes. lia. }
  cbn [fst snd]. destruct (Z.ltb_spec (106 + h_length (p_header pkt)) 0); [lia|].
  destruct (write_exact_run s (be32 (106 + h_length (p_header pkt))) (alloc (draw w))) as (w1 & He1 & Hr1); [done|].
  erewrite bind_run by exact Hr1. cbn [fst snd negb].
  destruct (write_exact_run (Sock (s_in s) (s_out s ++ be32 (106 + h_length (p_header pkt)))) (wire pkt) w1)
    as (w2 & He2 & Hr2); [by eapply io_ok_env|].
  erewrite bind_run by exact Hr2. cbn [fst snd s_in s_out]. exists w2. split; [by etransitivity|].
  unfold frame. by rewrite <-app_assoc, Hw.
Qed.

Lemma koe_transport_recv_run fd s pkt old rest w :
  0 ≤ fd → packet_fits pkt → s_in s = frame pkt ++ rest → io_ok w → heap_ok w →
  ∃ w', same_env w w' ∧ w ⊢ koe_transport_recv fd s old ⇓ (0, Sock rest (s_out s), pkt) ⊣ w'.
Proof.
  intros Hfd Hfit Hin Hio Hheap. destruct (wire_bounds pkt Hfit) as [Hw Hb].
  unfold koe_transport_recv, KOE_HEADER_SIZE, KOE_MAX_PAYLOAD in *. destruct (Z.ltb_spec fd 0); [lia|].
  destruct (read_exact_run s (be32 (zlen (wire pkt))) (wire pkt ++ rest) w) as (w1 & He1 & Hr1); [done| |].
  { rewrite Hin. unfold frame. by rewrite <-app_assoc. }
  rewrite length_be32 in Hr1. erewrite bind_run by exact Hr1. cbn [fst snd].
  rewrite of_be32_be32 by lia.
  destruct (Z.ltb_spec (zlen (wire pkt)) 106); [lia|].
  destruct (Z.ltb_spec (106 + 1024 * 1024) (zlen (wire pkt))); [lia|]. cbn [orb].
  rewrite bind_malloc_ok by (by eapply heap_ok_env). cbn [negb].
  destruct (read_exact_run (Sock (wire pkt ++ rest) (s_out s)) (wire pkt) rest (alloc w1)) as (w2 & He2 & Hr2);
    [by eapply (io_ok_env w)|done|].
  replace (Z.to_nat (zlen (wire pkt))) with (length (wire pkt)) by (unfold zlen; lia).
  erewrite bind_run by exact Hr2. cbn [fst snd].
  destruct Hfit as [Hok Hmax].
  destruct (koe_packet_deserialise_wire old pkt [] w2 Hok Hmax) as (w3 & Hd).
  { eapply heap_ok_env; [exact He2|]. by eapply (heap_ok_env w). }
  rewrite app_nil_r in Hd. pose proof (koe_packet_deserialise_env _ _ _ _ _ _ Hd) as He3.
  exists w3. split; [by do 2 (etransitivity; [eassumption|])|]. by erewrite bind_run by exact Hd.
Qed.

(** C15: a packet sent over a connection is received unchanged at the other end,
    however the network cuts the stream into pieces on either side, and the
    bytes that follow it stay in the stream. *)
Theorem koe_transport_roundtrip (fd fd' : Z) (s s' : sock) (pkt old : koe_packet_t) (rest : bytes)
    (w w' : world) :
  0 ≤ fd → 0 ≤ fd' → packet_fits pkt → s_in s' = frame pkt ++ rest →
  io_ok w → heap_ok w → io_ok w' → heap_ok w' →
  ∃ w1 w2,
    w ⊢ koe_transport_send fd s pkt ⇓ (0, Sock (s_in s) (s_out s ++ frame pkt)) ⊣ w1
    ∧ w' ⊢ koe_transport_recv fd' s' old ⇓ (0, Sock rest (s_out s'), pkt) ⊣ w2.
Proof.
  intros Hfd Hfd' Hfit Hin Hio Hheap Hio' Hheap'.
  destruct (koe_transport_send_run fd s pkt w) as (w1 & _ & H1); [done..|].
  destruct (koe_transport_recv_run fd' s' pkt old rest w') as (w2 & _ & H2); [done..|]. by exists w1, w2.
Qed.

(** A world whose calls move varying numbers of bytes. *)
Definition choppy_world : world :=
  World (λ _, 0) 0 (λ _, true) 0 (λ i j, Z.of_nat (7 * i + j)) 0 (λ _, true) 0 ∅.

Lemma witness_packet_fits : packet_fits witness_packet.
Proof. split; [apply (bool_decide_unpack _); vm_compute; exact I|vm_compute; discriminate]. Qed.

Lemma koe_transport_roundtrip_witness :
  ∃ w1 w2,
    choppy_world ⊢ koe_transport_send 3 (Sock [] []) witness_packet ⇓ (0, Sock [] (frame witness_packet)) ⊣ w1
    ∧ choppy_world ⊢ koe_transport_recv 4 (Sock (frame witness_packet ++ [9]) []) witness_packet
        ⇓ (0, Sock [9] [], witness_packet) ⊣ w2.
Proof.
  apply (koe_transport_roundtrip 3 4 (Sock [] []) (Sock (frame witness_packet ++ [9]) []) witness_packet
           witness_packet [9] choppy_world choppy_world).
  - lia.
  - lia.
  - exact witness_packet_fits.
  - reflexivity.
  - intros i. reflexivity.
  - intros i. reflexivity.
  - intros i. reflexivity.
  - intros i. reflexivity.
Defined.

(** * WebSocket frames *)

(** A binary frame as RFC 6455 lays it out, with the client's mask if any. *)
Definition ws_frame (mask : option bytes) (payload : bytes) : bytes :=
  let len := zlen payload in
  let bit := match mask with Some _ => 128 | None => 0 end in
  (if len <=? 125 then [0x82; bit + len]
   else if len <=? 65535 then [0x82; bit + 126] ++ be_bytes 2 len
   else [0x82; bit + 127] ++ be_bytes 8 len)
  ++ match mask with Some m => m ++ unmask m payload | None => payload end.

Lemma ws_len_bits len7 : 0 ≤ len7 < 128 →
  Z.land len7 0x80 = 0 ∧ Z.land len7 0x7F = len7
  ∧ Z.land (128 + len7) 0x80 = 128 ∧ Z.land (128 + len7) 0x7F = len7.
Proof.
  intros Hl.
  assert (Hall : Forall (λ x, Z.land x 0x80 = 0 ∧ Z.land x 0x7F = x
    ∧ Z.land (128 + x) 0x80 = 128 ∧ Z.land (128 + x) 0x7F = x) (Z.of_nat <$> seq 0 128)).
  { apply (bool_decide_unpack _). vm_compute. exact I. }
  rewrite Forall_forall in Hall. apply Hall.
  apply list_elem_of_fmap. exists (Z.to_nat len7). rewrite elem_of_seq. lia.
Qed.

Lemma be_bytes_2 x : be_bytes 2 x = [(x `div` 256) `mod` 256; x `mod` 256].
Proof. reflexivity. Qed.

Lemma ws_header_frame len : 0 ≤ len < 2 ^ 32 →
  ws_header len = if len <=? 125 then [0x82; 0 + len]
                  else if len <=? 65535 then [0x82; 0 + 126] ++ be_bytes 2 len
                  else [0x82; 0 + 127] ++ be_bytes 8 len.
Proof.
  intros Hl. unfold ws_header. destruct (Z.leb_spec len 125).
  { by rewrite u8_id by (unfold byte_ok; lia). }
  destruct (Z.leb_spec len 65535).
  - rewrite be_bytes_2. unfold u8. change 0xFF with (Z.ones 8). rewrite Z.land_ones by lia.
    rewrite Z.shiftr_div_pow2 by lia. change (2 ^ 8) with 256. cbn [app]. do 4 f_equal. lia.
  - cbn [app]. do 2 f_equal. unfold be_bytes, u8. cbn -[Z.div Z.modulo Z.shiftr].
    rewrite !Z.shiftr_div_pow2 by lia. rewrite !Z.div_div by lia.
    change (2 ^ (56 - 8 * Z.of_nat 7)) with 1. rewrite Z.div_1_r. reflexivity.
Qed.

Lemma length_unmask m l : length (unmask m l) = length l.
Proof. apply length_imap. Qed.
Lemma unmask_involutive m l : unmask m (unmask m l) = l.
Proof.
  unfold unmask. apply list_eq. intros i. rewrite !list_lookup_imap.
  destruct (l !! i) as [b|]; [|done]. simpl. by rewrite Z.lxor_assoc, Z.lxor_nilpotent, Z.lxor_0_r.
Qed.

(** Reading a length: what is left of the stream is what followed it. *)
Lemma ws_read_len_run s len bit rest w :
  106 ≤ len ≤ 106 + KOE_MAX_PAYLOAD → io_ok w → (bit = 0 ∨ bit = 128) →
  s_in s = (if len <=? 125 then [0x82; bit + len]
            else if len <=? 65535 then [0x82; bit + 126] ++ be_bytes 2 len
            else [0x82; bit + 127] ++ be_bytes 8 len) ++ rest →
  ∃ b1 w1 w2, same_env w w1 ∧ same_env w1 w2
    ∧ w ⊢ read_exact s 2 ⇓ (Some [0x82; b1], Sock (drop 2 (s_in s)) (s_out s)) ⊣ w1
    ∧ (Z.land b1 0x80 =? 0) = (bit =? 0)
    ∧ w1 ⊢ ws_read_len (Sock (drop 2 (s_in s)) (s_out s)) (Z.land b1 0x7F) ⇓ (Some len, Sock rest (s_out s)) ⊣ w2.
Proof.
  intros Hlen Hio Hbit Hin. unfold KOE_MAX_PAYLOAD in Hlen.
  assert (Hb1 : ∃ len7 ext, 0 ≤ len7 < 128 ∧ s_in s = [0x82; bit + len7] ++ ext ++ rest
    ∧ ((len7 = len ∧ ext = [] ∧ len ≤ 125) ∨ (len7 = 126 ∧ ext = be_bytes 2 len ∧ len < 65536)
       ∨ (len7 = 127 ∧ ext = be_bytes 8 len))).
  { rewrite Hin. destruct (Z.leb_spec len 125); [|destruct (Z.leb_spec len 65535)].
    - exists len, []. split; [lia|]. split; [done|]. by left.
    - exists 126, (be_bytes 2 len). split; [lia|]. split; [done|]. right; left. split_and!; done || lia.
    - exists 127, (be_bytes 8 len). split; [lia|]. split; [done|]. by right; right. }
  destruct Hb1 as (len7 & ext & Hl7 & Hs & Hcase). rewrite Hs. cbn [drop app].
  destruct (ws_len_bits len7 Hl7) as (B1 & B2 & B3 & B4).
  destruct (read_exact_run s [0x82; bit + len7] (ext ++ rest) w Hio Hs) as (w1 & He1 & Hr1).
  assert (Hio1 : io_ok w1) by (by eapply io_ok_env).
  exists (bit + len7), w1.
  assert (Hland : Z.land (bit + len7) 0x7F = len7 ∧ (Z.land (bit + len7) 0x80 =? 0) = (bit =? 0)).
  { destruct Hbit as [->| ->]; [by rewrite Z.add_0_l, B1, B2|by rewrite B3, B4]. }
  destruct Hland as [-> ->]. unfold ws_read_len.
  destruct Hcase as [(-> & -> & Hlt)|[(-> & -> & Hlt)|(-> & ->)]].
  - exists w1. split_and!; try done.
    destruct (Z.eqb_spec len 126); [lia|]. destruct (Z.eqb_spec len 127); [lia|]. done.
  - destruct (read_exact_run (Sock (be_bytes 2 len ++ rest) (s_out s)) (be_bytes 2 len) rest w1 Hio1 eq_refl)
      as (w2 & He2 & Hr2). exists w2. split_and!; try done.
    change (126 =? 126) with true. cbv iota. rewrite length_be_bytes in Hr2.
    erewrite bind_run by exact Hr2. cbn [fst snd fmap option_fmap option_map]. rewrite be_bytes_2.
    cbn [lookup_total list_lookup_total]. rewrite lor_shiftl_byte by (unfold byte_ok; lia).
    unfold mret, M_ret. do 4 f_equal. lia.
  - destruct (read_exact_run (Sock (be_bytes 8 len ++ rest) (s_out s)) (be_bytes 8 len) rest w1 Hio1 eq_refl)
      as (w2 & He2 & Hr2). exists w2. split_and!; try done.
    change (127 =? 126) with false. change (127 =? 127) with true. cbv iota. rewrite length_be_bytes in Hr2.
    erewrite bind_run by exact Hr2. cbn [fst snd fmap option_fmap option_map].
    destruct (pack_be (be_bytes 8 len)) as [-> _]; [apply be_bytes_ok|rewrite length_be_bytes; lia|].
    rewrite be_val_be_bytes by (simpl; lia). done.
Qed.

Lemma koe_transport_ws_send_run s pkt w :
  packet_fits pkt → io_ok w → heap_ok w →
  ∃ w1, w ⊢ koe_transport_ws_send s pkt ⇓ (0, Sock (s_in s) (s_out s ++ ws_frame None (wire pkt))) ⊣ w1.
Proof.
  intros Hfit Hio Hheap. destruct (wire_bounds pkt Hfit) as [Hw Hb]. unfold KOE_MAX_PAYLOAD in Hb.
  unfold koe_transport_ws_send, KOE_HEADER_SIZE. rewrite u32_id by lia. rewrite bind_malloc_bytes_ok by done.
  rewrite (bind_lift _ _ _ (106 + h_length (p_header pkt), wire pkt)).
  2:{ apply koe_packet_serialise_exact; [done|]. unfold zlen. rewrite length_random_bytes. lia. }
  rewrite <-Hw. cbn [snd].
  destruct (write_exact_run s (ws_header (zlen (wire pkt))) (alloc (draw w))) as (w1 & He1 & Hr1); [done|].
  erewrite bind_run by exact Hr1. cbn [fst snd].
  destruct (write_exact_run (Sock (s_in s) (s_out s ++ ws_header (zlen (wire pkt)))) (wire pkt) w1)
    as (w2 & He2 & Hr2); [by eapply io_ok_env|].
  erewrite bind_run by exact Hr2. cbn [fst snd s_in s_out]. exists w2.
  unfold ws_frame. rewrite ws_header_frame by lia. by rewrite <-app_assoc.
Qed.

Lemma koe_transport_ws_recv_run s pkt old mask rest w :
  packet_fits pkt → (∀ m, mask = Some m → length m = 4%nat) →
  s_in s = ws_frame mask (wire pkt) ++ rest → io_ok w → heap_ok w →
  ∃ w2, w ⊢ koe_transport_ws_recv s old ⇓ (0, Sock rest (s_out s), pkt) ⊣ w2.
Proof.
  intros Hfit Hmask Hin Hio Hheap. destruct (wire_bounds pkt Hfit) as [Hw Hb].
  set (bit := match mask with Some _ => 128 | None => 0 end : Z).
  set (body := match mask with Some m => m ++ unmask m (wire pkt) | None => wire pkt end).
  destruct (ws_read_len_run s (zlen (wire pkt)) bit (body ++ rest) w) as (b1 & w1 & w2 & He1 & He2 & Hr1 & Hm & Hr2);
    [done|done|unfold bit; destruct mask; auto|rewrite Hin; unfold ws_frame; by rewrite <-app_assoc|].
  unfold koe_transport_ws_recv. erewrite bind_run by exact Hr1. cbn [fst snd].
  change ([130; b1] !!! 1%nat) with b1. erewrite bind_run by exact Hr2. cbn [fst snd]. rewrite Hm.
  assert (Hio2 : io_ok w2) by (eapply io_ok_env; [exact He2|by eapply io_ok_env]).
  assert (Hheap2 : heap_ok w2) by (eapply heap_ok_env; [exact He2|by eapply heap_ok_env]).
  destruct Hfit as [Hok Hmax].
  assert (Hcap : (KOE_HEADER_SIZE + KOE_MAX_PAYLOAD <? zlen (wire pkt)) = false).
  { apply Z.ltb_ge. unfold KOE_HEADER_SIZE. lia. }
  assert (Htail : ∀ st buf masked m w3, s_in st = buf ++ rest → length buf = length (wire pkt) →
    (if (masked : bool) then unmask m buf else buf) = wire pkt → io_ok w3 → heap_ok w3 →
    ∃ w4, (ok ← malloc;
           if negb ok then mret (-1, st, old)
           else b ← read_exact st (Z.to_nat (zlen (wire pkt)));
                match b.1 with
                | None => mret (-1, b.2, old)
                | Some buf => d ← koe_packet_deserialise old (if masked then unmask m buf else buf) (zlen (wire pkt));
                              mret (d.1, b.2, d.2)
                end) w3 = Some (0, Sock rest (s_out st), pkt, w4)).
  { intros st buf masked m w3 Hst Hlb Hun Hio3 Hheap3. rewrite bind_malloc_ok by done. cbn [negb].
    destruct (read_exact_run st buf rest (alloc w3)) as (w4 & He4 & Hr4); [done|done|].
    replace (Z.to_nat (zlen (wire pkt))) with (length buf) by (unfold zlen; lia).
    erewrite bind_run by exact Hr4. cbn [fst snd]. rewrite Hun.
    destruct (koe_packet_deserialise_wire old pkt [] w4 Hok Hmax) as (w5 & Hd).
    { eapply heap_ok_env; [exact He4|done]. }
    rewrite app_nil_r in Hd. exists w5. by erewrite bind_run by exact Hd. }
  unfold bit, body, ws_read_mask in *. destruct mask as [m|]; cbn [Z.eqb negb].
  - specialize (Hmask m eq_refl).
    destruct (read_exact_run (Sock ((m ++ unmask m (wire pkt)) ++ rest) (s_out s)) m (unmask m (wire pkt) ++ rest) w2)
      as (w3 & He3 & Hr3); [done|cbn [s_in]; by rewrite <-app_assoc|].
    rewrite Hmask in Hr3. erewrite bind_run by exact Hr3. cbn [fst snd]. rewrite Hcap.
    apply (Htail (Sock (unmask m (wire pkt) ++ rest) (s_out s)) (unmask m (wire pkt)) true m w3);
      [done|apply length_unmask|apply unmask_involutive|by eapply io_ok_env|by eapply heap_ok_env].
  - rewrite bind_ret. cbn [fst snd]. rewrite Hcap.
    apply (Htail (Sock (wire pkt ++ rest) (s_out s)) (wire pkt) false (zeros 4) w2); done.
Qed.

(** C16: a packet in a binary WebSocket frame, masked by the client or not, is
    received unchanged whatever the pieces it arrives in; and the frame this
    side sends is the unmasked one. *)
Theorem koe_transport_ws_roundtrip (s s' : sock) (pkt old : koe_packet_t) (mask : option bytes)
    (rest : bytes) (w w' : world) :
  packet_fits pkt → (∀ m, mask = Some m → length m = 4%nat) →
  s_in s' = ws_frame mask (wire pkt) ++ rest → io_ok w → heap_ok w → io_ok w' → heap_ok w' →
  (∃ w1, w ⊢ koe_transport_ws_send s pkt ⇓ (0, Sock (s_in s) (s_out s ++ ws_frame None (wire pkt))) ⊣ w1)
  ∧ (∃ w2, w' ⊢ koe_transport_ws_recv s' old ⇓ (0, Sock rest (s_out s'), pkt) ⊣ w2).
Proof.
  intros Hfit Hmask Hin Hio Hheap Hio' Hheap'.
  split; [by apply koe_transport_ws_send_run|by eapply koe_transport_ws_recv_run].
Qed.

Lemma koe_transport_ws_roundtrip_witness :
  (∃ w1, choppy_world ⊢ koe_transport_ws_send (Sock [] []) witness_packet
     ⇓ (0, Sock [] (ws_frame None (wire witness_packet))) ⊣ w1)
  ∧ (∃ w2, choppy_world ⊢ koe_transport_ws_recv (Sock (ws_frame (Some [1; 2; 3; 4]) (wire witness_packet) ++ [9]) [])
       witness_packet ⇓ (0, Sock [9] [], witness_packet) ⊣ w2).
Proof.
  apply (koe_transport_ws_roundtrip (Sock [] [])
    (Sock (ws_frame (Some [1; 2; 3; 4]) (wire witness_packet) ++ [9]) []) witness_packet witness_packet
    (Some [1; 2; 3; 4]) [9] choppy_world choppy_world).
  - exact witness_packet_fits.
  - intros m Hm. injection Hm as <-. reflexivity.
  - reflexivity.
  - intros i. reflexivity.
  - intros i. reflexivity.
  - intros i. reflexivity.
  - intros i. reflexivity.
Defined.

(** * Discovery *)
Lemma fd_put_Some fd fds : 0 ≤ fd < FD_SETSIZE → fd_put fd fds = Some ({[ fd ]} ∪ fds).
Proof. intros Hfd. unfold fd_put. by rewrite (proj2 (andb_true_iff _ _)) by (rewrite Z.leb_le, Z.ltb_lt; lia). Qed.

(** The set with the descriptors [own] put in, and the greatest of them. *)
Definition fd_set_holds (fds : gset Z) (own : list Z) (acc : Z * gset Z) : Prop :=
  acc.2 = list_to_set own ∪ fds ∧ Forall (λ fd, fd ≤ acc.1) own ∧ (acc.1 = -1 ∧ own = [] ∨ 0 ≤ acc.1 ∧ acc.1 ∈ own).

Lemma fd_set_add_holds fds own acc fd :
  fd < FD_SETSIZE → fd_set_holds fds own acc →
  ∃ acc', fd_set_add fd acc = Some acc' ∧ fd_set_holds fds (own ++ filter (λ x, 0 ≤ x) [fd]) acc'.
Proof.
  intros Hfd (Hs & Hall & Hm). destruct acc as [m s]. cbn [fst snd] in *. unfold fd_set_add. cbn [fst snd].
  destruct (Z.leb_spec 0 fd) as [H0|H0].
  2:{ exists (m, s). split; [done|]. rewrite filter_cons_False by lia. rewrite filter_nil, app_nil_r. done. }
  rewrite fd_put_Some by done. cbn [mbind option_bind]. eexists. split; [reflexivity|].
  rewrite filter_cons_True, filter_nil by done. unfold fd_set_holds. cbn [fst snd]. rewrite Forall_app, Forall_singleton.
  split; [subst s; rewrite list_to_set_app_L; set_solver|].
  destruct (Z.ltb_spec m fd) as [Hlt|Hge]; (split; [split; [eapply Forall_impl; [exact Hall|]; cbn; lia|lia]|]); right.
  - split; [done|]. apply elem_of_app. right. by apply list_elem_of_singleton.
  - destruct Hm as [[-> _]|[? ?]]; [lia|]. split; [done|]. apply elem_of_app. by left.
Qed.

(** The set that comes back has the sockets that are open, and the number
    returned is the greatest of them, as [select] needs it. *)
Lemma koe_transport_fd_set_spec ctx fds :
  listen_fd ctx < FD_SETSIZE → tcp_listen_fd ctx < FD_SETSIZE → ws_listen_fd ctx < FD_SETSIZE →
  ∃ acc, koe_transport_fd_set ctx fds = Some acc
    ∧ fd_set_holds fds (filter (λ fd, 0 ≤ fd) [listen_fd ctx; tcp_listen_fd ctx; ws_listen_fd ctx]) acc.
Proof.
  intros H1 H2 H3. unfold koe_transport_fd_set.
  destruct (fd_set_add_holds fds [] (-1, fds) (listen_fd ctx) H1) as (a1 & -> & A1).
  { unfold fd_set_holds. cbn. split_and!; [set_solver|constructor|by left]. }
  destruct (fd_set_add_holds _ _ _ (tcp_listen_fd ctx) H2 A1) as (a2 & E2 & A2). cbn [mbind option_bind]. rewrite E2.
  destruct (fd_set_add_holds _ _ _ (ws_listen_fd ctx) H3 A2) as (a3 & E3 & A3). cbn [mbind option_bind].
  exists a3. split; [done|]. rewrite app_nil_l, <-!filter_app in A3. exact A3.
Qed.

Lemma disco_payload_fields pk addr :
  array_ok 32 pk →
  length (disco_payload pk) = DISCO_PAYLOAD ∧ recvfrom (disco_payload pk) = disco_payload pk
  ∧ memeq 4 (disco_payload pk) DISCO_MAGIC = true ∧ take 32 (drop 4 (disco_payload pk)) = pk
  ∧ discovered_peer (disco_payload pk) addr
    = KoePeer pk (strncpy (zeros 64) addr 64) KOE_RELAY_PORT_DEF (-1) KOE_TRANSPORT_WIFI_DIRECT true koe_version_local 0.
Proof.
  intros [Hl _].
  assert (Hlen : length (disco_payload pk) = DISCO_PAYLOAD).
  { unfold disco_payload, DISCO_PAYLOAD. rewrite !length_app, Hl. done. }
  assert (Hpk : take 32 (drop 4 (disco_payload pk)) = pk).
  { unfold disco_payload. rewrite drop_app_ge by (simpl; lia). simpl Nat.sub. rewrite drop_0.
    rewrite take_app_le, take_ge by lia. done. }
  split_and!; [done| |done|done|].
  - unfold recvfrom. rewrite take_ge by (rewrite Hlen; done). done.
  - assert (Hat : ∀ i x, [KOE_PROTO_MAJOR; KOE_PROTO_MINOR] !! i = Some x → disco_payload pk !!! (36 + i)%nat = x).
    { intros i x Hx. apply list_lookup_total_correct. unfold disco_payload.
      rewrite lookup_app_r by (simpl; lia). rewrite lookup_app_r by (rewrite Hl; simpl; lia).
      rewrite Hl. simpl length. replace (36 + i - 4 - 32)%nat with i by lia. done. }
    pose proof (Hat 0%nat _ eq_refl) as E0. pose proof (Hat 1%nat _ eq_refl) as E1. cbn [Nat.add] in E0, E1.
    unfold discovered_peer. rewrite Hpk, E0, E1. done.
Qed.

(** A discovery ping from another identity is answered with our own
    payload and reported as a reachable peer with its key, its version and the
    default port; the answer, received by that peer, makes it report us in turn;
    our own broadcast is neither answered nor reported. *)
Lemma koe_transport_discovery_mutual (ctx ctx' : koe_transport_ctx_t) (a b addr addr' : bytes) :
  array_ok 32 a → array_ok 32 b → a ≠ b → 0 ≤ listen_fd ctx → 0 ≤ listen_fd ctx' < FD_SETSIZE →
  koe_transport_handle_discovery ctx b (Some (disco_payload a, addr))
    = (0, Some (disco_payload b),
       Some (KoePeer a (strncpy (zeros 64) addr 64) KOE_RELAY_PORT_DEF (-1) KOE_TRANSPORT_WIFI_DIRECT true koe_version_local 0))
  ∧ koe_transport_discover ctx' a [(disco_payload b, addr')]
    = Some (0, Some (disco_payload a),
       [KoePeer b (strncpy (zeros 64) addr' 64) KOE_RELAY_PORT_DEF (-1) KOE_TRANSPORT_WIFI_DIRECT true koe_version_local 0])
  ∧ koe_transport_handle_discovery ctx a (Some (disco_payload a, addr)) = (0, None, None).
Proof.
  intros Ha Hb Hne Hfd Hfd'.
  destruct (disco_payload_fields a addr Ha) as (A1 & A2 & A3 & A4 & A5).
  destruct (disco_payload_fields b addr' Hb) as (B1 & B2 & B3 & B4 & B5).
  assert (Hm : ∀ x y, array_ok 32 y → take 32 (drop 4 x) = y → ∀ z, array_ok 32 z →
    memeq 32 (drop 4 x) z = bool_decide (y = z)).
  { intros x y [Hy _] Hx z [Hz _]. unfold memeq. rewrite Hx, (take_ge z) by lia. done. }
  unfold koe_transport_handle_discovery, koe_transport_discover, discover_loop. rewrite fd_put_Some by done.
  rewrite !(proj2 (Z.ltb_ge _ _)) by (done || apply Hfd'). cbn [mbind option_bind]. rewrite A2, A1, A3, B2, B1, B3.
  rewrite (Hm _ a Ha A4 b Hb), (Hm _ b Hb B4 a Ha), (Hm _ a Ha A4 a Ha), A5, B5.
  rewrite (bool_decide_eq_false_2 (a = b)), (bool_decide_eq_false_2 (b = a)), (bool_decide_eq_true_2 (a = a))
    by congruence. done.
Qed.

Definition listening (fd : Z) : koe_transport_ctx_t :=
  KoeTransportCtx fd (-1) (-1) (zeros 256) 0 KOE_TRANSPORT_NONE false.

Lemma koe_transport_discovery_mutual_witness :
  koe_transport_handle_discovery (listening 3) (replicate 32 2) (Some (disco_payload (replicate 32 1), [9]))
  = (0, Some (disco_payload (replicate 32 2)),
     Some (KoePeer (replicate 32 1) (strncpy (zeros 64) [9] 64) KOE_RELAY_PORT_DEF (-1) KOE_TRANSPORT_WIFI_DIRECT true koe_version_local 0)).
Proof.
  apply (koe_transport_discovery_mutual (listening 3) (listening 4)
    (replicate 32 1) (replicate 32 2) [9] [9]).
  - apply (bool_decide_unpack _). vm_compute. exact I.
  - apply (bool_decide_unpack _). vm_compute. exact I.
  - discriminate.
  - simpl. lia.
  - unfold FD_SETSIZE. simpl. lia.
Defined.

(** The broadcast comes back to the socket it was sent from, and the collection
    loop stops at it: the peers that answer later are not reported. *)
Lemma own_echo_ends_discovery ctx pk addr replies :
  array_ok 32 pk → 0 ≤ listen_fd ctx < FD_SETSIZE →
  koe_transport_discover ctx pk ((disco_payload pk, addr) :: replies) = Some (0, Some (disco_payload pk), []).
Proof.
  intros Hpk Hfd. destruct (disco_payload_fields pk addr Hpk) as (A1 & A2 & A3 & A4 & _).
  unfold koe_transport_discover, discover_loop. rewrite fd_put_Some by done.
  rewrite (proj2 (Z.ltb_ge _ _)) by apply Hfd. cbn [mbind option_bind].
  rewrite A2, A1, A3. unfold memeq. rewrite A4, take_ge by (destruct Hpk; lia).
  by rewrite bool_decide_eq_true_2.
Qed.
