(* ===== verification/Net.v ===== *)
(** Socket setup (src/koe_transport.c): opening and closing the listening sockets,
    connecting to peers directly or through the relay, accepting connections, and
    the WebSocket upgrade, over a table of open descriptors. *)

From S2P Require Import Prelude Version Crc32 Packet Crypto Transport.
Import Strings.String.StringSyntax.

(** * Descriptors *)

(** What is known of a socket: its kind, the port it is bound to, whether it
    listens, and the endpoint it is connected to. *)
Inductive sock_kind := SOCK_DGRAM | SOCK_STREAM.
Record sock_info := SockInfo {
  si_kind : sock_kind; si_port : option Z; si_listening : bool; si_remote : option (bytes * Z);
}.
Abbreviation fd_table := (gmap Z sock_info).

(** The operating system hands out a descriptor that is not in use. *)
Class FdAlloc := {
  new_fd : fd_table → Z;
  new_fd_fresh t : 0 ≤ new_fd t ∧ t !! new_fd t = None;
}.

Definition KOE_DISCOVERY_PORT : Z := 9473.
Definition KOE_IO_TIMEOUT_MS : Z := 5000.

Definition close (fd : Z) (t : fd_table) : fd_table := delete fd t.
Definition set_port (port : Z) (s : sock_info) : sock_info :=
  SockInfo (si_kind s) (Some port) (si_listening s) (si_remote s).
Definition set_listening (s : sock_info) : sock_info := SockInfo (si_kind s) (si_port s) true (si_remote s).
Definition set_remote (r : bytes * Z) (s : sock_info) : sock_info :=
  SockInfo (si_kind s) (si_port s) (si_listening s) (Some r).

Section Operations.
Context `{FdAlloc}.

Definition socket (kind : sock_kind) (t : fd_table) : M (Z * fd_table) :=
  ok ← syscall;
  mret (if (ok : bool) then (new_fd t, <[new_fd t := SockInfo kind None false None]> t) else (-1, t)).
Definition bind (fd port : Z) (t : fd_table) : M (bool * fd_table) :=
  ok ← syscall; mret (if (ok : bool) then (true, alter (set_port port) fd t) else (false, t)).
Definition listen (fd : Z) (t : fd_table) : M (bool * fd_table) :=
  ok ← syscall; mret (if (ok : bool) then (true, alter set_listening fd t) else (false, t)).
Definition connect (fd : Z) (remote : bytes * Z) (t : fd_table) : M (bool * fd_table) :=
  ok ← syscall; mret (if (ok : bool) then (true, alter (set_remote remote) fd t) else (false, t)).
Definition accept (remote : bytes * Z) (t : fd_table) : M (Z * fd_table) :=
  ok ← syscall;
  mret (if (ok : bool) then (new_fd t, <[new_fd t := SockInfo SOCK_STREAM None false (Some remote)]> t) else (-1, t)).

(** The results of setting options are ignored, except by [set_nonblock], which
    nothing calls. *)
Definition set_nonblock (fd : Z) : M Z := got ← syscall; ok ← syscall; mret (if (ok : bool) then 0 else -1).
Definition set_reuseaddr (fd : Z) : M Z := ok ← syscall; mret (if (ok : bool) then 0 else -1).

(** * Listening *)

(** A socket, an ignored option, and a bind and a listen that give it up when one
    of them fails. *)
Definition listen_on (port : Z) (t : fd_table) : M (Z * fd_table) :=
  s ← socket SOCK_STREAM t;
  if 0 <=? s.1 then
    _ ← set_reuseaddr s.1;
    b ← bind s.1 port s.2;
    if negb b.1 then mret (-1, close s.1 b.2)
    else
      l ← listen s.1 b.2;
      if negb l.1 then mret (-1, close s.1 l.2) else mret (s.1, l.2)
  else mret (s.1, s.2).

Definition koe_transport_init (relay_host : option bytes) (relay_port ws_port : Z) (t : fd_table)
  : M (Z * koe_transport_ctx_t * fd_table) :=
  let host := match relay_host with Some h => strncpy (zeros 256) h 255 | None => zeros 256 end in
  let port := match relay_host with
              | Some _ => if relay_port =? 0 then KOE_RELAY_PORT_DEF else relay_port
              | None => 0
              end in
  let ctx udp tcp ws := KoeTransportCtx udp tcp ws host port KOE_TRANSPORT_NONE false in
  u ← socket SOCK_DGRAM t;
  if u.1 <? 0 then mret (-1, ctx u.1 (-1) (-1), u.2)
  else
    _ ← set_reuseaddr u.1;
    b ← bind u.1 KOE_DISCOVERY_PORT u.2;
    tcp ← listen_on KOE_RELAY_PORT_DEF b.2;
    ws ← (if 0 <? ws_port then listen_on (u16 ws_port) tcp.2 else mret (-1, tcp.2));
    mret (0, ctx u.1 tcp.1 ws.1, ws.2).

Definition close_if_open (fd : Z) (t : fd_table) : Z * fd_table :=
  if 0 <=? fd then (-1, close fd t) else (fd, t).

Definition koe_transport_shutdown (ctx : koe_transport_ctx_t) (t : fd_table) : koe_transport_ctx_t * fd_table :=
  let u := close_if_open (listen_fd ctx) t in
  let tcp := close_if_open (tcp_listen_fd ctx) u.2 in
  let ws := close_if_open (ws_listen_fd ctx) tcp.2 in
  (KoeTransportCtx u.1 tcp.1 ws.1 (relay_host ctx) (relay_port ctx) (tc_active ctx) (bluetooth_enabled ctx), ws.2).

(** * Connections *)
Definition set_connected (fd : Z) (how : koe_transport_type_t) (p : koe_peer_t) : koe_peer_t :=
  KoePeer (peer_pk p) (peer_addr p) (peer_port p) fd how true (peer_version p) (peer_last_contact_us p).

Definition connect_relay (ctx : koe_transport_ctx_t) (peer : koe_peer_t) (t : fd_table)
  : M (Z * koe_peer_t * fd_table) :=
  if bool_decide (cstr (relay_host ctx) = []) then mret (-1, peer, t)
  else
    s ← socket SOCK_STREAM t;
    if s.1 <? 0 then mret (-1, peer, s.2)
    else
      resolved ← syscall;
      if negb resolved then mret (-1, peer, close s.1 s.2)
      else
        c ← connect s.1 (cstr (relay_host ctx), relay_port ctx) s.2;
        if negb c.1 then mret (-1, peer, close s.1 c.2)
        else mret (0, set_connected s.1 KOE_TRANSPORT_TCP_RELAY peer, c.2).

(** Whether the address of the peer is a numeric one is up to [inet_pton]. *)
Definition koe_transport_connect (ctx : koe_transport_ctx_t) (peer : koe_peer_t) (t : fd_table)
  : M (Z * koe_peer_t * fd_table) :=
  s ← socket SOCK_STREAM t;
  if s.1 <? 0 then mret (-1, peer, s.2)
  else
    numeric ← syscall;
    if negb numeric then connect_relay ctx peer (close s.1 s.2)
    else
      c ← connect s.1 (cstr (peer_addr peer), if peer_port peer =? 0 then KOE_RELAY_PORT_DEF else peer_port peer) s.2;
      if (c.1 : bool) then mret (0, set_connected s.1 KOE_TRANSPORT_WIFI_DIRECT peer, c.2)
      else connect_relay ctx peer (close s.1 c.2).

(** [src] is the address, in text, and the port of the other side. *)
Definition koe_transport_accept (ctx : koe_transport_ctx_t) (src : bytes * Z) (peer : koe_peer_t) (t : fd_table)
  : M (Z * koe_peer_t * fd_table) :=
  if tcp_listen_fd ctx <? 0 then mret (-1, peer, t)
  else
    a ← accept src t;
    if a.1 <? 0 then mret (-1, peer, a.2)
    else mret (0, KoePeer (zeros 32) (strncpy (zeros 64) src.1 64) src.2 a.1 KOE_TRANSPORT_WIFI_DIRECT true
                    (KoeVersion 0 0) 0, a.2).

Definition koe_transport_disconnect (peer : koe_peer_t) (t : fd_table) : koe_peer_t * fd_table :=
  let c := close_if_open (peer_fd peer) t in
  (KoePeer (peer_pk peer) (peer_addr peer) (peer_port peer) c.1 (peer_transport peer) false (peer_version peer)
     (peer_last_contact_us peer), c.2).

(** * WebSocket upgrade *)
Definition CRLF : bytes := [13; 10].
Definition WS_KEY_HEADER : bytes := str "Sec-WebSocket-Key:".

(** The key in the request. *)
Definition ws_key (http : bytes) : option bytes :=
  p ← strstr http WS_KEY_HEADER;
  Some (read_until 13 63 (skip_spaces (drop 18 p))).

(** The accept key does not depend on it. *)
Definition ws_response : bytes :=
  str "HTTP/1.1 101 Switching Protocols" ++ CRLF ++ str "Upgrade: websocket" ++ CRLF
  ++ str "Connection: Upgrade" ++ CRLF ++ str "Sec-WebSocket-Accept: " ++ str "dGhlIHNhbXBsZSBub25jZQ=="
  ++ CRLF ++ CRLF.

(** [s] is the stream of the connection that is accepted: one [recv] of at most
    2047 bytes, and one [send] whose result is ignored. *)
Definition koe_transport_ws_accept (ctx : koe_transport_ctx_t) (src : bytes * Z) (s : sock) (t : fd_table)
  : M (Z * sock * fd_table) :=
  if ws_listen_fd ctx <? 0 then mret (-1, s, t)
  else
    a ← accept src t;
    if a.1 <? 0 then mret (-1, s, a.2)
    else
      r ← recv s 2047;
      match r.1 with
      | None => mret (-1, r.2, close a.1 a.2)
      | Some http =>
          match ws_key (cstr http) with
          | None => mret (-1, r.2, close a.1 a.2)
          | Some _ => o ← send r.2 ws_response; mret (a.1, o.2, a.2)
          end
      end.
End Operations.

(** * No descriptor is lost *)

(** [t'] is [t] with one more descriptor, [fd], in the state [s]. *)
Definition opened (t : fd_table) (fd : Z) (s : sock_info) (t' : fd_table) : Prop :=
  0 ≤ fd ∧ t !! fd = None ∧ t' = <[fd := s]> t.

Lemma opened_close t fd s t' : opened t fd s t' → close fd t' = t ∧ close_if_open fd t' = (-1, t).
Proof.
  intros (H0 & Hn & ->). unfold close_if_open, close. rewrite delete_insert_id by done.
  by rewrite (proj2 (Z.leb_le 0 fd)).
Qed.
Lemma opened_alter t fd s t' f : opened t fd s t' → opened t fd (f s) (alter f fd t').
Proof.
  intros (H0 & Hn & ->). split_and!; try done. by rewrite alter_insert_eq.
Qed.

(** Closing one descriptor if there is one, in any order. *)
Definition closed (fd : Z) (t : fd_table) : fd_table := (close_if_open fd t).2.
Lemma closed_comm a b t : closed a (closed b t) = closed b (closed a t).
Proof. unfold closed, close_if_open, close. destruct (0 <=? a), (0 <=? b); cbn; [apply delete_delete|done..]. Qed.
Lemma closed_opened t fd s t' : fd = -1 ∧ t' = t ∨ opened t fd s t' → closed fd t' = t.
Proof. intros [[-> ->]|Ho]; [done|]. unfold closed. by destruct (opened_close _ _ _ _ Ho) as [_ ->]. Qed.

Section Balance.
Context `{FdAlloc}.

Lemma socket_runs kind t w :
  runs w (socket kind t) (λ r _, r = (-1, t) ∨ opened t r.1 (SockInfo kind None false None) r.2).
Proof.
  unfold socket. apply runs_syscall. apply runs_ret. destruct (w_io w _); [right|by left].
  destruct (new_fd_fresh t). done.
Qed.

(** A step that may change the state of the new descriptor. *)
Lemma alter_runs fd f t s t' w :
  opened t fd s t' →
  runs w (ok ← syscall; mret (if (ok : bool) then (true, alter f fd t') else (false, t')))
    (λ r _, r.1 = true ∧ opened t fd (f s) r.2 ∨ r.1 = false ∧ opened t fd s r.2).
Proof.
  intros Ho. apply runs_syscall. apply runs_ret. destruct (w_io w _); [left|right]; split; try done.
  by apply opened_alter.
Qed.

Lemma listen_on_runs port t w :
  runs w (listen_on port t)
    (λ r _, r = (-1, t) ∨ opened t r.1 (SockInfo SOCK_STREAM (Some port) true None) r.2).
Proof.
  unfold listen_on. eapply runs_bind; [apply socket_runs|]. intros [fd t1] w1 _ [[= -> ->]|Ho]; cbn [fst snd] in *.
  { apply runs_ret. by left. }
  rewrite (proj2 (Z.leb_le 0 fd)) by apply Ho. unfold set_reuseaddr.
  eapply (runs_bind _ _ _ (λ _ _, True)); [apply runs_syscall; by apply runs_ret|]. intros _ w2 _ _.
  eapply runs_bind; [by apply alter_runs|]. intros [ok t2] w3 _ [[-> Ho2]|[-> Ho2]]; cbn [fst snd negb] in *.
  2:{ apply runs_ret. left. by destruct (opened_close _ _ _ _ Ho2) as [-> _]. }
  eapply runs_bind; [by apply alter_runs|]. intros [ok' t3] w4 _ [[-> Ho3]|[-> Ho3]]; cbn [fst snd negb] in *.
  2:{ apply runs_ret. left. by destruct (opened_close _ _ _ _ Ho3) as [-> _]. }
  apply runs_ret. by right.
Qed.

Definition all_closed (ctx : koe_transport_ctx_t) : Prop :=
  listen_fd ctx = -1 ∧ tcp_listen_fd ctx = -1 ∧ ws_listen_fd ctx = -1.

(** Shutting down closes the sockets of the context, opened one after the other. *)
Lemma koe_transport_shutdown_closes ctx t t1 t2 t3 s1 s2 s3 :
  (listen_fd ctx = -1 ∧ t1 = t ∨ opened t (listen_fd ctx) s1 t1) →
  (tcp_listen_fd ctx = -1 ∧ t2 = t1 ∨ opened t1 (tcp_listen_fd ctx) s2 t2) →
  (ws_listen_fd ctx = -1 ∧ t3 = t2 ∨ opened t2 (ws_listen_fd ctx) s3 t3) →
  (koe_transport_shutdown ctx t3).2 = t ∧ all_closed (koe_transport_shutdown ctx t3).1.
Proof.
  intros H1 H2 H3. split.
  - change ((koe_transport_shutdown ctx t3).2)
      with (closed (ws_listen_fd ctx) (closed (tcp_listen_fd ctx) (closed (listen_fd ctx) t3))).
    rewrite (closed_comm (tcp_listen_fd ctx) (listen_fd ctx)), (closed_comm (ws_listen_fd ctx) (listen_fd ctx)),
      (closed_comm (ws_listen_fd ctx) (tcp_listen_fd ctx)).
    by rewrite (closed_opened _ _ _ _ H3), (closed_opened _ _ _ _ H2), (closed_opened _ _ _ _ H1).
  - assert (Hc : ∀ fd t s t' t'', fd = -1 ∧ t' = t ∨ opened t fd s t' → (close_if_open fd t'').1 = -1).
    { clear. intros fd t s t' t'' [[-> _]|(H0 & _)]; unfold close_if_open; [done|]. by rewrite (proj2 (Z.leb_le 0 fd)). }
    by split_and!; eapply Hc.
Qed.

(** What initialisation leaves: the tables after the three sockets. *)
Definition set_up (ws_port : Z) (t : fd_table) (rc : Z) (ctx : koe_transport_ctx_t) (t' : fd_table) : Prop :=
  ∃ t1 t2 s1,
    (rc = -1 ∧ t' = t ∨ rc = 0 ∧ 0 ≤ listen_fd ctx)
    ∧ (listen_fd ctx = -1 ∧ t1 = t ∨ opened t (listen_fd ctx) s1 t1)
    ∧ (tcp_listen_fd ctx = -1 ∧ t2 = t1
       ∨ opened t1 (tcp_listen_fd ctx) (SockInfo SOCK_STREAM (Some KOE_RELAY_PORT_DEF) true None) t2)
    ∧ (ws_listen_fd ctx = -1 ∧ t' = t2
       ∨ opened t2 (ws_listen_fd ctx) (SockInfo SOCK_STREAM (Some (u16 ws_port)) true None) t' ∧ 0 < ws_port).

Lemma koe_transport_init_runs host port ws_port t w :
  runs w (koe_transport_init host port ws_port t) (λ r _, set_up ws_port t r.1.1 r.1.2 r.2).
Proof.
  unfold koe_transport_init. eapply runs_bind; [apply socket_runs|].
  intros [u t1] w1 _ [[= -> ->]|Ho]; cbn [fst snd] in *.
  { apply runs_ret. exists t, t, (SockInfo SOCK_DGRAM None false None). split_and!; by left. }
  rewrite (proj2 (Z.ltb_ge u 0)) by apply Ho.
  eapply (runs_bind _ _ _ (λ _ _, True)); [apply runs_syscall; by apply runs_ret|]. intros _ w2 _ _.
  eapply (runs_bind _ _ _ (λ b _, ∃ s, opened t u s b.2)).
  { eapply runs_mono; [by apply alter_runs|]. intros [ok b] w' _ [[_ ?]|[_ ?]]; by eexists. }
  intros [ok t2] w3 _ [s Hu]. cbn [fst snd] in *.
  eapply runs_bind; [apply listen_on_runs|]. intros [tcp t3] w4 _ Htcp. cbn [fst snd] in *.
  assert (Htcp' : tcp = -1 ∧ t3 = t2
    ∨ opened t2 tcp (SockInfo SOCK_STREAM (Some KOE_RELAY_PORT_DEF) true None) t3) by (destruct Htcp as [[= -> ->]|?]; [by left|by right]).
  destruct (Z.ltb_spec 0 ws_port) as [Hw|Hw].
  - eapply runs_bind; [apply listen_on_runs|]. intros [ws t4] w5 _ Hws. apply runs_ret. exists t2, t3, s.
    cbn [fst snd listen_fd tcp_listen_fd ws_listen_fd] in *.
    split_and!; [right; split; [done|apply Hu]|by right|done|]. destruct Hws as [[= -> ->]|?]; [by left|by right].
  - eapply (runs_bind _ _ _ (λ r _, r = (-1, t3))); [by apply runs_ret|].
    intros r w5 _ ->. apply runs_ret. exists t2, t3, s. cbn [fst snd listen_fd tcp_listen_fd ws_listen_fd].
    split_and!; [right; split; [done|apply Hu]|by right|done|by left].
Qed.

Lemma set_up_closes ws_port t rc ctx t' :
  set_up ws_port t rc ctx t' →
  (koe_transport_shutdown ctx t').2 = t ∧ all_closed (koe_transport_shutdown ctx t').1.
Proof.
  intros (t1 & t2 & s1 & _ & H1 & H2 & H3).
  eapply koe_transport_shutdown_closes; [exact H1|exact H2|]. destruct H3 as [?|[? _]]; eauto.
Qed.

(** C31: whatever fails while the transport is set up, shutting it down again
    leaves exactly the descriptors that were open before, and none is recorded
    any more; initialisation fails only without having opened anything, and the
    sockets it records listen on the ports they are meant for. *)
Theorem koe_transport_setup_balanced (host : option bytes) (port ws_port : Z) (t : fd_table) (w : world) :
  ∃ rc ctx t' w', w ⊢ koe_transport_init host port ws_port t ⇓ (rc, ctx, t') ⊣ w'
    ∧ (rc = -1 ∧ t' = t ∨ rc = 0 ∧ 0 ≤ listen_fd ctx)
    ∧ (koe_transport_shutdown ctx t').2 = t ∧ all_closed (koe_transport_shutdown ctx t').1
    ∧ (tcp_listen_fd ctx = -1
       ∨ ∃ t1, opened t1 (tcp_listen_fd ctx) (SockInfo SOCK_STREAM (Some KOE_RELAY_PORT_DEF) true None)
                 (closed (ws_listen_fd ctx) t'))
    ∧ (ws_listen_fd ctx = -1
       ∨ 0 < ws_port ∧ t' !! ws_listen_fd ctx = Some (SockInfo SOCK_STREAM (Some (u16 ws_port)) true None)).
Proof.
  destruct (koe_transport_init_runs host port ws_port t w) as ([[rc ctx] t'] & w' & R & _ & Hup).
  cbn [fst snd] in *. exists rc, ctx, t', w'. destruct (set_up_closes _ _ _ _ _ Hup) as [Hs Hc].
  destruct Hup as (t1 & t2 & s1 & Hrc & H1 & H2 & H3). split_and!; try done.
  - assert (H3' : ws_listen_fd ctx = -1 ∧ t' = t2
      ∨ opened t2 (ws_listen_fd ctx) (SockInfo SOCK_STREAM (Some (u16 ws_port)) true None) t') by (destruct H3 as [|[? _]]; auto).
    rewrite (closed_opened _ _ _ _ H3'). destruct H2 as [[? _]|H2]; [by left|right; by exists t1].
  - destruct H3 as [[? _]|[(_ & _ & ->) Hw]]; [by left|right]. by rewrite lookup_insert_eq.
Qed.

(** * Connections *)

(** A call that produces a connection, and its end. *)
Definition connects (t : fd_table) (peer : koe_peer_t) (how : koe_transport_type_t) (remote : bytes * Z)
    (rc : Z) (peer' : koe_peer_t) (t' : fd_table) : Prop :=
  rc = 0 ∧ peer' = set_connected (peer_fd peer') how peer
  ∧ opened t (peer_fd peer') (SockInfo SOCK_STREAM None false (Some remote)) t'.

Lemma connect_relay_runs ctx peer t w :
  runs w (connect_relay ctx peer t) (λ r _,
    r = (-1, peer, t)
    ∨ connects t peer KOE_TRANSPORT_TCP_RELAY (cstr (relay_host ctx), relay_port ctx) r.1.1 r.1.2 r.2).
Proof.
  unfold connect_relay. case_bool_decide; [apply runs_ret; by left|].
  eapply runs_bind; [apply socket_runs|]. intros [fd t1] w1 _ [[= -> ->]|Ho]; cbn [fst snd] in *.
  { apply runs_ret. by left. }
  rewrite (proj2 (Z.ltb_ge fd 0)) by apply Ho. apply runs_syscall. destruct (w_io w1 _); cbn [negb].
  2:{ apply runs_ret. left. by destruct (opened_close _ _ _ _ Ho) as [-> _]. }
  eapply runs_bind; [by apply alter_runs|]. intros [ok t2] w2 _ [[-> Ho2]|[-> Ho2]]; cbn [fst snd negb] in *.
  - apply runs_ret. right. by split_and!.
  - apply runs_ret. left. by destruct (opened_close _ _ _ _ Ho2) as [-> _].
Qed.

(** C32: connecting to a peer, whatever fails on the way, either returns -1 with
    the peer and the open descriptors unchanged, or returns 0 with exactly one
    more descriptor, recorded in the peer and connected to the address of the peer
    or, failing that, to the relay; disconnecting then closes it and restores the
    table. *)
Theorem koe_transport_connect_balanced (ctx : koe_transport_ctx_t) (peer : koe_peer_t) (t : fd_table) (w : world) :
  let port := if peer_port peer =? 0 then KOE_RELAY_PORT_DEF else peer_port peer in
  ∃ rc peer' t' w', w ⊢ koe_transport_connect ctx peer t ⇓ (rc, peer', t') ⊣ w'
    ∧ (rc = -1 ∧ peer' = peer ∧ t' = t
       ∨ (connects t peer KOE_TRANSPORT_WIFI_DIRECT (cstr (peer_addr peer), port) rc peer' t'
          ∨ connects t peer KOE_TRANSPORT_TCP_RELAY (cstr (relay_host ctx), relay_port ctx) rc peer' t')
         ∧ (koe_transport_disconnect peer' t').2 = t ∧ peer_fd (koe_transport_disconnect peer' t').1 = -1).
Proof.
  intros port.
  assert (Hrun : runs w (koe_transport_connect ctx peer t) (λ r _, r = (-1, peer, t)
    ∨ connects t peer KOE_TRANSPORT_WIFI_DIRECT (cstr (peer_addr peer), port) r.1.1 r.1.2 r.2
    ∨ connects t peer KOE_TRANSPORT_TCP_RELAY (cstr (relay_host ctx), relay_port ctx) r.1.1 r.1.2 r.2)).
  { unfold koe_transport_connect. eapply runs_bind; [apply socket_runs|].
    intros [fd t1] w1 _ [[= -> ->]|Ho]; cbn [fst snd] in *; [apply runs_ret; by left|].
    destruct (opened_close _ _ _ _ Ho) as [Hc _].
    rewrite (proj2 (Z.ltb_ge fd 0)) by apply Ho. apply runs_syscall. destruct (w_io w1 _); cbn [negb].
    2:{ rewrite Hc. eapply runs_mono; [apply connect_relay_runs|]. intros r w' _ [?|?]; auto. }
    eapply runs_bind; [by apply alter_runs|]. intros [ok t2] w2 _ [[-> Ho2]|[-> Ho2]]; cbn [fst snd] in *.
    - apply runs_ret. right. left. by split_and!.
    - destruct (opened_close _ _ _ _ Ho2) as [-> _].
      eapply runs_mono; [apply connect_relay_runs|]. intros r w' _ [?|?]; auto. }
  destruct Hrun as ([[rc peer'] t'] & w' & R & _ & Hr). exists rc, peer', t', w'. split; [exact R|].
  cbn [fst snd] in Hr. destruct Hr as [[= -> -> ->]|Hr]; [by left|right]. split; [exact Hr|]. unfold koe_transport_disconnect. cbn [fst snd peer_fd].
  destruct Hr as [(_ & _ & Ho)|(_ & _ & Ho)]; by destruct (opened_close _ _ _ _ Ho) as [_ ->].
Qed.

(** Accepting: one more descriptor or none. *)
Lemma accept_runs src t w :
  runs w (accept src t) (λ r _, r = (-1, t) ∨ opened t r.1 (SockInfo SOCK_STREAM None false (Some src)) r.2).
Proof.
  unfold accept. apply runs_syscall. apply runs_ret. destruct (w_io w _); [right|by left]. by destruct (new_fd_fresh t).
Qed.
Lemma koe_transport_accept_runs ctx src peer t w :
  runs w (koe_transport_accept ctx src peer t) (λ r _,
    r = (-1, peer, t)
    ∨ r.1.1 = 0 ∧ opened t (peer_fd r.1.2) (SockInfo SOCK_STREAM None false (Some src)) r.2).
Proof.
  unfold koe_transport_accept. destruct (tcp_listen_fd ctx <? 0); [apply runs_ret; by left|].
  eapply runs_bind; [apply accept_runs|].
  intros [fd t1] w1 _ [[= -> ->]|Ho]; cbn [fst snd] in *; [apply runs_ret; by left|].
  rewrite (proj2 (Z.ltb_ge fd 0)) by apply Ho. apply runs_ret. by right.
Qed.
End Balance.

(** * The upgrade *)
Lemma recv_runs s n w : runs w (recv s n) (λ _ _, True).
Proof.
  unfold recv. apply runs_syscall. destruct (w_io w _); cbn [negb]; [|by apply runs_ret].
  unfold runs. destruct (s_in s); by eexists _, _.
Qed.
Lemma send_runs s data w : runs w (send s data) (λ _ _, True).
Proof.
  unfold send. apply runs_syscall. destruct (w_io w _); cbn [negb]; [|by apply runs_ret]. unfold runs. by eexists _, _.
Qed.

(** An upgrade that is refused closes its descriptor; one that is accepted leaves
    it to the caller, even when the answer could not be sent. *)
Lemma koe_transport_ws_accept_runs `{FdAlloc} ctx src s t w :
  runs w (koe_transport_ws_accept ctx src s t) (λ r _,
    r.1.1 = -1 ∧ r.2 = t ∨ opened t r.1.1 (SockInfo SOCK_STREAM None false (Some src)) r.2).
Proof.
  unfold koe_transport_ws_accept. destruct (ws_listen_fd ctx <? 0); [apply runs_ret; by left|].
  eapply runs_bind; [apply accept_runs|]. intros [fd t1] w1 _ [[= -> ->]|Ho]; cbn [fst snd] in *; [apply runs_ret; by left|].
  rewrite (proj2 (Z.ltb_ge fd 0)) by apply Ho. destruct (opened_close _ _ _ _ Ho) as [Hc _].
  eapply runs_bind; [apply recv_runs|]. intros [[http|] s1] w2 _ _; cbn [fst snd]; [|apply runs_ret; by left].
  destruct (ws_key _); [|apply runs_ret; by left].
  eapply runs_bind; [apply send_runs|]. intros o w3 _ _. apply runs_ret. by right.
Qed.

(** * Witnesses *)
Definition max_fd (t : fd_table) : Z := foldr Z.max 2 (map_to_list t).*1.
Lemma max_fd_le t fd s : t !! fd = Some s → fd ≤ max_fd t.
Proof.
  intros Hs. apply elem_of_map_to_list in Hs. unfold max_fd.
  assert (Hin : fd ∈ (map_to_list t).*1) by (apply list_elem_of_fmap; by exists (fd, s)). clear Hs.
  induction (map_to_list t).*1 as [|x l IH]; [by apply elem_of_nil in Hin|].
  apply elem_of_cons in Hin as [->|Hin]; cbn; [lia|]. specialize (IH Hin). lia.
Qed.
#[local] Instance next_fd : FdAlloc.
Proof.
  refine {| new_fd t := max_fd t + 1 |}. intros t. split.
  - unfold max_fd. assert (2 ≤ foldr Z.max 2 (map_to_list t).*1); [|lia].
    induction (map_to_list t).*1; cbn; lia.
  - destruct (t !! (max_fd t + 1)) as [s|] eqn:E; [|done]. apply max_fd_le in E. lia.
Defined.

Lemma koe_transport_setup_balanced_witness :
  ∃ rc ctx t' w', world_at 0 ⊢ koe_transport_init (Some (str "relay")) 0 9477 ∅ ⇓ (rc, ctx, t') ⊣ w'
    ∧ (koe_transport_shutdown ctx t').2 = ∅.
Proof.
  destruct (koe_transport_setup_balanced (Some (str "relay")) 0 9477 ∅ (world_at 0))
    as (rc & ctx & t' & w' & R & _ & Hs & _).
  exists rc, ctx, t', w'. split; [exact R|exact Hs].
Defined.

Lemma koe_transport_connect_balanced_witness :
  let peer := KoePeer (replicate 32 1) (str "10.0.0.7" ++ zeros 56) 0 (-1) KOE_TRANSPORT_NONE false (KoeVersion 0 0) 0 in
  ∃ rc peer' t' w', world_at 0 ⊢ koe_transport_connect (listening 3) peer ∅ ⇓ (rc, peer', t') ⊣ w'
    ∧ (rc = -1 ∧ t' = ∅ ∨ (koe_transport_disconnect peer' t').2 = ∅).
Proof.
  intros peer. destruct (koe_transport_connect_balanced (listening 3) peer ∅ (world_at 0))
    as (rc & peer' & t' & w' & R & [(H1 & _ & H2)|(_ & H3 & _)]).
  - exists rc, peer', t', w'. split; [exact R|]. left. split; [exact H1|exact H2].
  - exists rc, peer', t', w'. split; [exact R|]. right. exact H3.
Defined.
