(* ===== verification/Core.v ===== *)
(** The top-level context (src/koe_core.c, include/koe.h): sessions, handshakes
    and messages of the active account, composed from the components below. *)

From S2P Require Import Prelude Version Crc32 Packet Crypto Session Handshake Message Db Queue Transport.

(** * Context

    The fields of [koe_ctx_t] these functions use, the static message counter
    of koe_message.c and the static peer list of koe_core.c. What the context
    needs of its queue is that a packet can be pushed: here the queue is
    [koe_queue_t] on a connection of its own, in Lifecycle.v it is the queue of
    the whole context, which shares its connection. *)
Class PacketQueue (Q : Type) := packet_queue_push : Q → koe_packet_t → M (Z * Q).
#[export] Instance koe_queue_packet_queue `{SqlOrder} : PacketQueue koe_queue_t := koe_queue_push.

Record koe_ctx_t (Q : Type) := KoeCtx {
  c_initialised : bool;
  c_keys : koe_identity_t;
  c_sessions : koe_session_table_t;
  c_queue : Q;
  c_counter : Z;
  c_peers : list koe_peer_t;
}.
#[global] Arguments KoeCtx {Q}.
#[global] Arguments c_initialised {Q}.
#[global] Arguments c_keys {Q}.
#[global] Arguments c_sessions {Q}.
#[global] Arguments c_queue {Q}.
#[global] Arguments c_counter {Q}.
#[global] Arguments c_peers {Q}.

Section Context.
Context {Q : Type}.
#[local] Abbreviation koe_ctx_t := (koe_ctx_t Q).

Definition set_c_sessions (t : koe_session_table_t) (c : koe_ctx_t) : koe_ctx_t :=
  KoeCtx (c_initialised c) (c_keys c) t (c_queue c) (c_counter c) (c_peers c).
Definition set_c_queue (q : Q) (c : koe_ctx_t) : koe_ctx_t :=
  KoeCtx (c_initialised c) (c_keys c) (c_sessions c) q (c_counter c) (c_peers c).
Definition set_c_counter (n : Z) (c : koe_ctx_t) : koe_ctx_t :=
  KoeCtx (c_initialised c) (c_keys c) (c_sessions c) (c_queue c) n (c_peers c).
Definition set_c_peers (l : list koe_peer_t) (c : koe_ctx_t) : koe_ctx_t :=
  KoeCtx (c_initialised c) (c_keys c) (c_sessions c) (c_queue c) (c_counter c) l.

(** * Sessions *)
Definition koe_session_establish (ctx : koe_ctx_t) (peer_pk : option bytes) (sess : option koe_session_t)
  : M (Z * koe_ctx_t) :=
  if negb (c_initialised ctx) then mret (-1, ctx)
  else
    match peer_pk, sess with
    | Some pk, Some s =>
        r ← koe_session_table_add (c_sessions ctx) (Some pk) (Some s);
        mret (r.1, set_c_sessions r.2 ctx)
    | _, _ => mret (-1, ctx)
    end.

Definition koe_session_active (ctx : koe_ctx_t) (peer_pk : option bytes) : M (bool * koe_ctx_t) :=
  if negb (c_initialised ctx) then mret (false, ctx)
  else
    match peer_pk with
    | None => mret (false, ctx)
    | Some pk =>
        r ← koe_session_table_find (c_sessions ctx) (Some pk);
        mret (match r.1 with Some _ => true | None => false end, set_c_sessions r.2 ctx)
    end.

Definition koe_session_close (ctx : koe_ctx_t) (peer_pk : option bytes) : koe_ctx_t :=
  if negb (c_initialised ctx) then ctx
  else
    match peer_pk with
    | None => ctx
    | Some pk => set_c_sessions (koe_session_table_remove (c_sessions ctx) (Some pk)).2 ctx
    end.

Definition koe_sessions_cleanup (ctx : koe_ctx_t) (max_age_seconds : Z) : M koe_ctx_t :=
  if negb (c_initialised ctx) then mret ctx
  else t ← koe_session_table_cleanup (c_sessions ctx) max_age_seconds; mret (set_c_sessions t ctx).

Definition koe_poll (ctx : koe_ctx_t) : M (Z * koe_ctx_t) :=
  if negb (c_initialised ctx) then mret (-1, ctx)
  else c ← koe_sessions_cleanup ctx 300; mret (0, c).

(** * Peers *)
Definition koe_peer_discover (ctx : koe_ctx_t) : Z * koe_ctx_t := (0, set_c_peers [] ctx).

Definition koe_peer_connect (ctx : koe_ctx_t) (pk : bytes) : Z * koe_ctx_t :=
  if (KOE_MAX_SESSIONS <=? length (c_peers ctx))%nat then (-1, ctx)
  else (0, set_c_peers (c_peers ctx ++ [KoePeer pk (zeros 64) 0 (-1) KOE_TRANSPORT_NONE false
                                         (KoeVersion 0 0) 0]) ctx).

Section Operations.
Context `{Sodium} `{PacketQueue Q}.

(** [s] is the stream behind the descriptor of the peer that is found. *)
Definition koe_send_to_peer (s : sock) (ctx : koe_ctx_t) (pk : option bytes) (pkt : koe_packet_t)
  : M (Z * koe_ctx_t * sock) :=
  if negb (c_initialised ctx) then mret (-1, ctx, s)
  else
    match pk with
    | None => mret (-1, ctx, s)
    | Some pk =>
        r ← koe_session_table_find (c_sessions ctx) (Some pk);
        let ctx := set_c_sessions r.2 ctx in
        match r.1 with
        | None => mret (-1, ctx, s)
        | Some _ =>
            match list_find (λ p, memeq 32 (peer_pk p) pk = true ∧ 0 ≤ peer_fd p) (c_peers ctx) with
            | Some (_, p) => t ← koe_transport_send (peer_fd p) s pkt; mret (t.1, ctx, t.2)
            | None => mret (-1, ctx, s)
            end
        end
    end.

(** * Handshakes *)

(** The handshake state is a local variable: it is lost on return. *)
Definition koe_handshake_start (ctx : koe_ctx_t) (pk : option bytes) (hello_out : koe_packet_t)
  : M (Z * koe_packet_t) :=
  if negb (c_initialised ctx) then mret (-1, hello_out)
  else
    match pk with
    | None => mret (-1, hello_out)
    | Some pk =>
        r ← koe_handshake_init hello_out (c_keys ctx) pk;
        mret (r.1.1, r.2)
    end.

(** The code, the context, the packet written to [out] and
    what is stored in
    [complete_out]. *)
Definition koe_handshake_process (ctx : koe_ctx_t) (in_ out : koe_packet_t) (complete : bool)
  : M (Z * koe_ctx_t * koe_packet_t * bool) :=
  if negb (c_initialised ctx) then mret (-1, ctx, out, complete)
  else if h_type (p_header in_) =? type_code KOE_TYPE_HELLO then
    r ← koe_handshake_respond out in_ (c_keys ctx);
    let '(_, hs, out) := r in
    f ← lift (koe_handshake_finalise hs out (c_keys ctx));
    if f.1 =? 0 then
      t ← koe_session_table_add (c_sessions ctx) (Some (h_from (p_header in_))) (Some (hs_session f.2));
      mret (0, set_c_sessions t.2 ctx, out, true)
    else mret (0, ctx, out, false)
  else if h_type (p_header in_) =? type_code KOE_TYPE_HELLO_ACK then
    f ← lift (koe_handshake_finalise zero_handshake in_ (c_keys ctx));
    if f.1 =? 0 then
      t ← koe_session_table_add (c_sessions ctx) (Some (h_from (p_header in_))) (Some (hs_session f.2));
      mret (0, set_c_sessions t.2 ctx, out, true)
    else mret (0, ctx, out, false)
  else mret (0, ctx, out, false).

(** * Messages *)
Definition koe_message_send_encrypted (ctx : koe_ctx_t) (to body : option bytes) (body_len : Z)
    (pkt_out : koe_packet_t) : M (Z * koe_ctx_t * koe_packet_t) :=
  if negb (c_initialised ctx) then mret (-1, ctx, pkt_out)
  else
    match to, body with
    | Some to, Some body =>
        if body_len =? 0 then mret (-1, ctx, pkt_out)
        else
          r ← koe_session_table_find (c_sessions ctx) (Some to);
          let ctx := set_c_sessions r.2 ctx in
          match r.1 with
          | None => mret (-1, ctx, pkt_out)
          | Some sess =>
              a ← koe_message_alloc (c_counter ctx) KOE_MSG_TEXT (Some to) (Some body) body_len;
              let ctx := set_c_counter a.2 ctx in
              match a.1 with
              | None => mret (-1, ctx, pkt_out)
              | Some msg =>
                  let msg := set_m_from (id_pk (c_keys ctx)) msg in
                  s ← lift (koe_message_sign msg (Some (c_keys ctx)));
                  e ← koe_message_encrypt s.2 sess;
                  _ ← lift (koe_message_free s.2);
                  mret (e.1, ctx, e.2)
              end
          end
    | _, _ => mret (-1, ctx, pkt_out)
    end.

Definition koe_message_recv_and_decrypt (ctx : koe_ctx_t) (pkt : koe_packet_t) (msg_out : koe_message_t)
  : M (Z * koe_ctx_t * koe_message_t) :=
  if negb (c_initialised ctx) then mret (-1, ctx, msg_out)
  else
    r ← koe_session_table_find (c_sessions ctx) (Some (h_from (p_header pkt)));
    let ctx := set_c_sessions r.2 ctx in
    match r.1 with
    | None => mret (-1, ctx, msg_out)
    | Some sess => d ← koe_message_decrypt msg_out pkt sess; mret (d.1, ctx, d.2)
    end.

(** The packet is queued and freed; the id is returned whatever became of it. *)
Definition koe_send_text (ctx : koe_ctx_t) (to text : option bytes) (destruct_ttl : Z)
  : M (Z * koe_ctx_t) :=
  if negb (c_initialised ctx) then mret (-1, ctx)
  else
    match to, text with
    | Some to, Some text =>
        r ← koe_session_table_find (c_sessions ctx) (Some to);
        let ctx := set_c_sessions r.2 ctx in
        match r.1 with
        | None => mret (-1, ctx)
        | Some sess =>
            a ← koe_message_alloc (c_counter ctx) KOE_MSG_TEXT (Some to) (Some text) (zlen text);
            let ctx := set_c_counter a.2 ctx in
            match a.1 with
            | None => mret (-1, ctx)
            | Some msg =>
                let msg := set_m_from (id_pk (c_keys ctx)) msg in
                msg ← (if 0 <? destruct_ttl then koe_message_set_destruct msg destruct_ttl else mret msg);
                s ← lift (koe_message_sign msg (Some (c_keys ctx)));
                let id := i64 (m_id s.2) in
                e ← koe_message_encrypt s.2 sess;
                q ← (if e.1 =? 0 then p ← packet_queue_push (c_queue ctx) e.2; mret p.2
                     else mret (c_queue ctx));
                _ ← lift (koe_message_free s.2);
                mret (id, set_c_queue q ctx)
            end
        end
    | _, _ => mret (-1, ctx)
    end.

(** The message is freed without having been stored or queued anywhere. *)
Definition koe_send_text_scheduled (ctx : koe_ctx_t) (to : option bytes) (text : bytes) (send_at_unix : Z)
  : M (Z * koe_ctx_t) :=
  if negb (c_initialised ctx) then mret (-1, ctx)
  else
    a ← koe_message_alloc (c_counter ctx) KOE_MSG_TEXT to (Some text) (zlen text);
    let ctx := set_c_counter a.2 ctx in
    match a.1 with
    | None => mret (-1, ctx)
    | Some msg =>
        let msg := set_m_from (id_pk (c_keys ctx)) msg in
        let msg := koe_message_schedule msg send_at_unix in
        s ← lift (koe_message_sign msg (Some (c_keys ctx)));
        _ ← lift (koe_message_free s.2);
        mret (i64 (m_id s.2), ctx)
    end.

End Operations.
End Context.

(** * End to end *)

(** [ctx] is initialised, its account has a key pair, and it holds [sess] for
    the peer [pk]. *)
Definition has_session `{Sodium} {Q} (ctx : koe_ctx_t Q) (pk : bytes) (sess : koe_session_t) : Prop :=
  c_initialised ctx = true ∧ keypair (c_keys ctx)
  ∧ ∃ m e, refines (c_sessions ctx) m ∧ m !! pk = Some e ∧ e_sess e = sess.

Section EndToEnd.
Context `{SodiumLaws}.

(** Signing a message with the key of the account. *)
Lemma koe_message_sign_run msg id :
  keypair id → message_ok msg →
  ∃ msg', koe_message_sign (set_m_from (id_pk id) msg) (Some id) = Some (0, msg')
    ∧ message_ok msg' ∧ m_from msg' = id_pk id ∧ m_to msg' = m_to msg
    ∧ m_body msg' = m_body msg ∧ m_body_len msg' = m_body_len msg.
Proof.
  intros Hk Hok0. pose proof (keypair_ok _ Hk) as [Hpk _].
  assert (Hok : message_ok (set_m_from (id_pk id) msg)) by (destruct Hok0 as (? & ? & ? & ? & ?); by unfold message_ok).
  destruct (body_bytes_ok _ Hok) as (Hbb & _ & _).
  destruct (koe_sign_verify id (default [] (m_body msg)) Hk) as (sig & Hsig & Hsigok & _).
  eexists. split.
  - unfold koe_message_sign. rewrite Hbb. cbn [mbind option_bind m_body set_m_from]. by rewrite Hsig.
  - destruct Hok as (? & ? & ? & ? & ?). by unfold message_ok.
Qed.

(** Sealing a signed message, and freeing it. *)
Lemma koe_message_seal_run msg id sess w :
  keypair id → message_ok msg → m_body_len msg + 16 < 2 ^ 32 → session_ok sess → heap_ok w →
  ∃ msg' pkt freed,
    koe_message_sign (set_m_from (id_pk id) msg) (Some id) = Some (0, msg')
    ∧ w ⊢ koe_message_encrypt msg' sess ⇓ (0, pkt) ⊣ alloc (draw w)
    ∧ koe_message_free msg' = Some freed
    ∧ message_ok msg' ∧ m_from msg' = id_pk id ∧ m_to msg' = m_to msg ∧ m_body msg' = m_body msg
    ∧ m_body_len msg' = m_body_len msg
    ∧ packet_ok pkt ∧ h_length (p_header pkt) = m_body_len msg + 16 ∧ h_to (p_header pkt) = m_to msg.
Proof.
  intros Hk Hok Hlen Hs Hheap.
  destruct (koe_message_sign_run msg id Hk Hok) as (msg' & Hsign & Hok' & Hf & Ht & Hb & Hl).
  rewrite <-Hl in Hlen. destruct (koe_message_encrypt_run msg' sess w Hok' Hlen Hs Hheap) as (ct & Henc & Hct & _).
  destruct (koe_message_free_run msg' Hok') as [freed Hfree].
  destruct (body_bytes_ok msg' Hok') as (_ & _ & Hbl).
  exists msg', (KoePacket (sealed_header msg' (random_bytes w 24)) (Some ct)), freed.
  split_and!; try done; cbn; [|congruence..].
  split; [apply sealed_header_ok; [done|done|apply random_array_ok]|].
  cbn. destruct Hct as [Hct Hcb]. unfold zlen in *. split_and!; [done|lia|lia].
Qed.

Lemma koe_message_send_encrypted_run {Q} (ctx : koe_ctx_t Q) to body out sess w :
  has_session ctx to sess → session_ok sess → array_ok 32 to → bytes_ok body → body ≠ [] →
  zlen body + 16 < 2 ^ 32 → heap_ok w →
  ∃ ctx' msg w1 w2 pkt w3,
    heap_ok w2 ∧ w2 ⊢ koe_message_encrypt msg sess ⇓ (0, pkt) ⊣ w3
    ∧ message_ok msg ∧ m_body msg = Some body ∧ m_body_len msg = zlen body
    ∧ m_from msg = id_pk (c_keys ctx) ∧ m_to msg = to
    ∧ w ⊢ koe_message_send_encrypted ctx (Some to) (Some body) (zlen body) out ⇓ (0, ctx', pkt) ⊣ w1
    ∧ w1 = w3.
Proof.
  intros (Hi & Hk & m & e & Hr & He & <-) Hs Hto Hb Hne Hmax Hheap.
  destruct (koe_session_table_find_run (c_sessions ctx) m to e w Hr) as (tbl' & Hfind & _);
    [apply Hto|done|].
  destruct (koe_message_alloc_run (c_counter ctx) KOE_MSG_TEXT to body (tick w))
    as (msg0 & c' & w1 & Henv & _ & Halloc & Hok0 & Hto0 & Hbody0 & Hlen0); [done..|].
  assert (Hh1 : heap_ok w1) by (by eapply heap_ok_env).
  destruct (koe_message_seal_run msg0 (c_keys ctx) (e_sess e) w1 Hk Hok0)
    as (msg & pkt & freed & Hsign & Henc & Hfree & Hok & Hf & Ht & Hb' & Hl & _); [lia|done|done|].
  eexists _, msg, _, w1, pkt, _. split; [done|]. split; [exact Henc|].
  split_and!; try done; [congruence..|]. unfold koe_message_send_encrypted. rewrite Hi. cbn [negb].
  destruct (Z.eqb_spec (zlen body) 0) as [E|]; [destruct body; done|].
  erewrite bind_run by exact Hfind. cbn [fst snd].
  erewrite bind_run by exact Halloc. cbn [fst snd set_c_counter set_c_sessions c_keys].
  rewrite (bind_lift _ _ _ _ Hsign). cbn [fst snd].
  erewrite bind_run by exact Henc. rewrite (bind_lift _ _ _ _ Hfree). reflexivity.
Qed.

(** C8: two contexts that hold the two halves of a session deliver a message
    end to end: what one sends to the other's key arrives with the same body,
    attributed to the sender and marked delivered. *)
Theorem koe_message_end_to_end {Q} (ctxa ctxb : koe_ctx_t Q) (sa sb : koe_session_t) (body : bytes)
    (out : koe_packet_t) (old : koe_message_t) (wa wb : world) :
  has_session ctxa (id_pk (c_keys ctxb)) sa → has_session ctxb (id_pk (c_keys ctxa)) sb →
  session_ok sa → rx_key sb = tx_key sa →
  bytes_ok body → body ≠ [] → zlen body + 16 < 2 ^ 32 → heap_ok wa → heap_ok wb →
  ∃ ctxa' pkt wa' ctxb' msg wb',
    wa ⊢ koe_message_send_encrypted ctxa (Some (id_pk (c_keys ctxb))) (Some body) (zlen body) out
      ⇓ (0, ctxa', pkt) ⊣ wa'
    ∧ wb ⊢ koe_message_recv_and_decrypt ctxb pkt old ⇓ (0, ctxb', msg) ⊣ wb'
    ∧ m_body msg = Some body ∧ m_from msg = id_pk (c_keys ctxa) ∧ m_to msg = id_pk (c_keys ctxb)
    ∧ m_status msg = KOE_STATUS_DELIVERED.
Proof.
  intros Ha Hb Hs Hkey Hbody Hne Hmax Hwa Hwb.
  assert (Hpkb : array_ok 32 (id_pk (c_keys ctxb))) by (apply keypair_ok, Hb).
  assert (Hpka : array_ok 32 (id_pk (c_keys ctxa))) by (apply keypair_ok, Ha).
  destruct (koe_message_send_encrypted_run ctxa (id_pk (c_keys ctxb)) body out sa wa Ha Hs Hpkb Hbody Hne Hmax Hwa)
    as (ctxa' & msg & w1 & w2 & pkt & w3 & Hw2 & Henc & Hok & Hmb & Hml & Hmf & Hmt & Hsend & ->).
  destruct Hb as (Hi & _ & m & e & Hr & He & <-).
  destruct (koe_session_table_find_run (c_sessions ctxb) m (id_pk (c_keys ctxa)) e wb Hr) as (tbl' & Hfind & _);
    [apply Hpka|done|].
  destruct (seal_open_run msg old sa (e_sess e) w2 (tick wb))
    as (pkt' & w1' & msg' & w3' & Henc' & _ & Hdec & R1 & _ & R2 & R3 & R4 & _ & Hf); try done; [lia|].
  rewrite Henc in Henc'. injection Henc' as <- <-.
  eexists ctxa', pkt, w3, _, msg', w3'. split; [exact Hsend|]. split.
  - unfold koe_message_recv_and_decrypt. rewrite Hi, Hf, Hmf. cbn [negb].
    erewrite bind_run by exact Hfind. cbn [fst snd]. erewrite bind_run by exact Hdec. reflexivity.
  - rewrite R1, R2, R3, R4, Hmb, Hmf, Hmt. done.
Qed.
End EndToEnd.

(** * The handshake as the context runs it *)

(** The session an observer computes from the payload of a HELLO_ACK and the
    public key of the side that processed it: no secret goes in. *)
Definition eavesdrop `{Sodium} (payload local_pk : bytes) : option koe_session_t :=
  f ← read_hello payload;
  let '(_, eph, rid, _, _) := f in
  match koe_session_derive zero_session (KoeEphemeral [] (zeros 32)) eph (KoeIdentity local_pk []) rid true with
  | (0, s, _) => Some s
  | _ => None
  end.

(** With an erased ephemeral secret, the final step derives a public session. *)
Lemma finalise_zero_secret `{Sodium} hs pkt id hs' :
  eph_sk (hs_local_eph hs) = zeros 32 →
  koe_handshake_finalise hs pkt id = Some (0, hs') →
  ∃ payload, p_payload pkt = Some payload ∧ eavesdrop payload (id_pk id) = Some (hs_session hs').
Proof.
  intros Hz. unfold koe_handshake_finalise, eavesdrop.
  destruct (p_payload pkt) as [payload|]; [|done]. case_match; [done|].
  destruct (read_hello payload) as [[[[[ver eph] rid] body] sig]|] eqn:Hrd; [|done]. cbn [mbind option_bind].
  destruct (koe_version_negotiate koe_version_local ver) as [rv [v|]]; [|done].
  destruct (koe_verify sig body rid =? 0); cbn [negb]; [|done].
  unfold koe_session_derive. cbn [hs_local_eph set_version eph_sk id_pk]. rewrite Hz.
  destruct (crypto_scalarmult (zeros 32) eph) as [dh|] eqn:Hs; [|done].
  intros [= <-]. exists payload. rewrite Hrd. cbn [mbind option_bind eph_sk id_pk]. by rewrite Hs.
Qed.

(** Whenever processing a HELLO (that was answered) or a HELLO_ACK reports
    completion, the session added to the table for the peer is one that anybody
    who sees the acknowledgement can compute: the responder derives it again
    from its own packet after its secret was erased, and the initiator's secret
    was lost with the handshake state. *)
Lemma koe_handshake_process_keys_public `{Sodium} {Q} (ctx ctx' : koe_ctx_t Q) (in_ out out' : koe_packet_t)
    (c : bool) (rc : Z) (w w' : world) :
  w ⊢ koe_handshake_process ctx in_ out c ⇓ (rc, ctx', out', true) ⊣ w' →
  c_initialised ctx = true →
  (h_type (p_header in_) = type_code KOE_TYPE_HELLO →
     ∃ hs ack w1, w ⊢ koe_handshake_respond out in_ (c_keys ctx) ⇓ (0, hs, ack) ⊣ w1) →
  packet_ok in_ →
  ∃ payload sess w1 rc',
    (p_payload (if h_type (p_header in_) =? type_code KOE_TYPE_HELLO then out' else in_)) = Some payload
    ∧ eavesdrop payload (id_pk (c_keys ctx)) = Some sess
    ∧ w1 ⊢ koe_session_table_add (c_sessions ctx) (Some (h_from (p_header in_))) (Some sess)
        ⇓ (rc', c_sessions ctx') ⊣ w'.
Proof.
  intros Hrun Hi Hresp Hin. unfold koe_handshake_process in Hrun. rewrite Hi in Hrun. cbn [negb] in Hrun.
  destruct (Z.eqb_spec (h_type (p_header in_)) (type_code KOE_TYPE_HELLO)) as [Ht|Ht].
  - destruct (koe_handshake_respond_safe out in_ (c_keys ctx) w Hin)
      as (rcb & hsb & ack & w1 & Hr & [(-> & _)|(-> & _ & Hz & _)]).
    { destruct (Hresp Ht) as (? & ? & ? & Hr'). congruence. }
    erewrite bind_run in Hrun by exact Hr. cbn [fst snd] in Hrun.
    apply bind_inv in Hrun as ([rf hsf] & w2 & Hf & Hrun).
    unfold lift in Hf. destruct (koe_handshake_finalise hsb ack (c_keys ctx)) as [[rf' hsf']|] eqn:Hfin; [|done].
    injection Hf as -> -> ->. cbn [fst snd] in Hrun.
    destruct (Z.eqb_spec rf 0) as [->|]; [|discriminate Hrun].
    apply bind_inv in Hrun as ([rt t] & w3 & Hadd & [= _ <- <- <-]).
    destruct (finalise_zero_secret hsb ack (c_keys ctx) hsf Hz Hfin) as (payload & Hp & He).
    exists payload, (hs_session hsf), w2, rt. done.
  - destruct (Z.eqb_spec (h_type (p_header in_)) (type_code KOE_TYPE_HELLO_ACK)) as [Ht'|]; [|discriminate Hrun].
    apply bind_inv in Hrun as ([rf hsf] & w2 & Hf & Hrun).
    unfold lift in Hf. destruct (koe_handshake_finalise zero_handshake in_ (c_keys ctx)) as [[rf' hsf']|] eqn:Hfin; [|done].
    injection Hf as -> -> ->. cbn [fst snd] in Hrun.
    destruct (Z.eqb_spec rf 0) as [->|]; [|discriminate Hrun].
    apply bind_inv in Hrun as ([rt t] & w3 & Hadd & [= _ <- <- <-]).
    destruct (finalise_zero_secret zero_handshake in_ (c_keys ctx) hsf eq_refl Hfin) as (payload & Hp & He).
    exists payload, (hs_session hsf), w2, rt. done.
Qed.

(** * Witnesses *)
#[local] Existing Instance toy_sodium.
#[local] Existing Instance toy_laws.

Definition witness_ctx (b : Z) : koe_ctx_t koe_queue_t :=
  KoeCtx true (toy_identity b) koe_session_table_init queue_empty 0 [].

(** A context with one established session. *)
Definition entry_for (pk : bytes) (s : koe_session_t) : koe_session_entry_t := KoeSessionEntry pk s 0 0 true.
Definition established_ctx (b : Z) (pk : bytes) (s : koe_session_t) : koe_ctx_t koe_queue_t :=
  set_c_sessions (KoeSessionTable (<[0%nat := entry_for pk s]> (t_entries koe_session_table_init)) 1)
    (witness_ctx b).

Lemma established_has_session b pk s :
  byte_ok b → length pk = 32%nat → has_session (established_ctx b pk s) pk s.
Proof.
  intros Hb Hpk. split; [done|]. split; [by apply toy_identity_keypair|].
  exists (<[pk := entry_for pk s]> ∅), (entry_for pk s). split; [|by rewrite lookup_insert_eq].
  apply (refines_insert_new koe_session_table_init 0 zero_entry (entry_for pk s) ∅); try done.
  apply koe_session_table_init_refines.
Qed.

Lemma koe_message_end_to_end_witness :
  ∃ ctxa' pkt wa' ctxb' msg wb',
    world_at 1 ⊢ koe_message_send_encrypted (established_ctx 1 (replicate 32 2) (witness_session 8 9))
        (Some (replicate 32 2)) (Some [104; 105]) 2 witness_packet ⇓ (0, ctxa', pkt) ⊣ wa'
    ∧ world_at 2 ⊢ koe_message_recv_and_decrypt (established_ctx 2 (replicate 32 1) (witness_session 9 8))
        pkt witness_message ⇓ (0, ctxb', msg) ⊣ wb'
    ∧ m_body msg = Some [104; 105].
Proof.
  destruct (koe_message_end_to_end (established_ctx 1 (replicate 32 2) (witness_session 8 9))
    (established_ctx 2 (replicate 32 1) (witness_session 9 8)) (witness_session 8 9) (witness_session 9 8)
    [104; 105] witness_packet witness_message (world_at 1) (world_at 2))
    as (ctxa' & pkt & wa' & ctxb' & msg & wb' & H1 & H2 & H3 & _).
  - apply established_has_session; [unfold byte_ok; lia|reflexivity].
  - apply established_has_session; [unfold byte_ok; lia|reflexivity].
  - apply (bool_decide_unpack _). vm_compute. exact I.
  - reflexivity.
  - apply (bool_decide_unpack _). vm_compute. exact I.
  - discriminate.
  - reflexivity.
  - intros i. reflexivity.
  - intros i. reflexivity.
  - exists ctxa', pkt, wa', ctxb', msg, wb'. split_and!; [exact H1|exact H2|exact H3].
Defined.

(** The hello of one context, processed by the other, and its answer. *)
Definition witness_hello : koe_packet_t :=
  match koe_handshake_start (witness_ctx 1) (Some (replicate 32 2)) witness_packet (world_at 1) with
  | Some ((_, hello), _) => hello
  | None => witness_packet
  end.
Definition process_hello : option (Z * koe_ctx_t koe_queue_t * koe_packet_t * bool * world) :=
  koe_handshake_process (witness_ctx 2) witness_hello witness_packet false (world_at 2).
Definition process_ack : option (Z * koe_ctx_t koe_queue_t * koe_packet_t * bool * world) :=
  match process_hello with
  | Some (_, _, ack, _, _) => koe_handshake_process (witness_ctx 1) ack witness_packet false (world_at 3)
  | None => None
  end.

(** Both sides report completion, and neither can decrypt what the other sends. *)
Lemma koe_handshake_process_disagrees :
  match process_hello, process_ack with
  | Some (_, ctxb, _, true, _), Some (_, ctxa, _, true, _) =>
      match list_find (peer_is (replicate 32 1)) (t_entries (c_sessions ctxb)),
            list_find (peer_is (replicate 32 2)) (t_entries (c_sessions ctxa)) with
      | Some (_, eb), Some (_, ea) =>
          bool_decide (tx_key (e_sess ea) ≠ rx_key (e_sess eb)) && bool_decide (tx_key (e_sess eb) ≠ rx_key (e_sess ea))
      | _, _ => false
      end
  | _, _ => false
  end = true.
Proof. vm_compute. reflexivity. Qed.

Lemma koe_handshake_process_keys_public_witness :
  ∃ rc ctx' out' w' payload sess,
    world_at 2 ⊢ koe_handshake_process (witness_ctx 2) witness_hello witness_packet false
      ⇓ (rc, ctx', out', true) ⊣ w'
    ∧ p_payload out' = Some payload
    ∧ eavesdrop payload (replicate 32 2) = Some sess.
Proof.
  assert (Hc : (λ r, r.1.2) <$> koe_handshake_process (witness_ctx 2) witness_hello witness_packet false (world_at 2)
               = Some true) by (vm_compute; reflexivity).
  assert (Hr : (λ r, r.1.1.1) <$> koe_handshake_respond witness_packet witness_hello (toy_identity 2) (world_at 2)
               = Some 0) by (vm_compute; reflexivity).
  destruct (koe_handshake_process (witness_ctx 2) witness_hello witness_packet false (world_at 2))
    as [[[[[rc ctx'] out'] c] w']|] eqn:E; [|discriminate Hc].
  injection Hc as Hc. simpl in Hc. subst c.
  destruct (koe_handshake_process_keys_public (witness_ctx 2) ctx' witness_hello witness_packet out' false rc
    (world_at 2) w' E) as (payload & sess & w1 & rc' & H1 & H2 & _).
  - reflexivity.
  - intros _. destruct (koe_handshake_respond witness_packet witness_hello (toy_identity 2) (world_at 2))
      as [[[[rb hs] ack] w1]|] eqn:E'; [|discriminate Hr].
    injection Hr as Hr. simpl in Hr. subst rb. exists hs, ack, w1. exact E'.
  - apply (bool_decide_unpack _). vm_compute. exact I.
  - exists rc, ctx', out', w', payload, sess. split_and!; [reflexivity|exact H1|exact H2].
Defined.
