(* ===== verification/ContextOps.v ===== *)
(** The operations of the context (src/koe_core.c, include/koe.h) as one
    interface: every call that works on sessions, handshakes, messages and peers,
    the types of its arguments, and the soundness of the whole: well-formed calls
    on a well-formed context are defined, whatever fails around them, and leave a
    well-formed context. *)

From S2P Require Import Prelude Version Crc32 Packet Crypto Session Handshake Message Db Queue Transport Core.

(** * Operations *)
Inductive ctx_op :=
  | CtxSessionEstablish (peer_pk : option bytes) (sess : option koe_session_t)
  | CtxSessionActive (peer_pk : option bytes)
  | CtxSessionClose (peer_pk : option bytes)
  | CtxSessionsCleanup (max_age_seconds : Z)
  | CtxPoll
  | CtxPeerDiscover
  | CtxPeerConnect (peer_pk : bytes)
  | CtxSendToPeer (s : sock) (peer_pk : option bytes) (pkt : koe_packet_t)
  | CtxHandshakeStart (peer_pk : option bytes) (hello_out : koe_packet_t)
  | CtxHandshakeProcess (in_ out : koe_packet_t) (complete : bool)
  | CtxMessageSendEncrypted (to body : option bytes) (body_len : Z) (pkt_out : koe_packet_t)
  | CtxMessageRecvAndDecrypt (pkt : koe_packet_t) (msg_out : koe_message_t)
  | CtxSendText (to text : option bytes) (destruct_ttl : Z)
  | CtxSendTextScheduled (to : option bytes) (text : bytes) (send_at_unix : Z).

Section Interface.
Context {Q : Type} `{Sodium} `{PacketQueue Q}.

(** The context an operation leaves. *)
Definition ctx_run (op : ctx_op) (ctx : koe_ctx_t Q) : M (koe_ctx_t Q) :=
  match op with
  | CtxSessionEstablish pk sess => r ← koe_session_establish ctx pk sess; mret r.2
  | CtxSessionActive pk => r ← koe_session_active ctx pk; mret r.2
  | CtxSessionClose pk => mret (koe_session_close ctx pk)
  | CtxSessionsCleanup age => koe_sessions_cleanup ctx age
  | CtxPoll => r ← koe_poll ctx; mret r.2
  | CtxPeerDiscover => mret (koe_peer_discover ctx).2
  | CtxPeerConnect pk => mret (koe_peer_connect ctx pk).2
  | CtxSendToPeer s pk pkt => r ← koe_send_to_peer s ctx pk pkt; mret r.1.2
  | CtxHandshakeStart pk out => _ ← koe_handshake_start ctx pk out; mret ctx
  | CtxHandshakeProcess in_ out c => r ← koe_handshake_process ctx in_ out c; mret r.1.1.2
  | CtxMessageSendEncrypted to body len out => r ← koe_message_send_encrypted ctx to body len out; mret r.1.2
  | CtxMessageRecvAndDecrypt pkt old => r ← koe_message_recv_and_decrypt ctx pkt old; mret r.1.2
  | CtxSendText to text ttl => r ← koe_send_text ctx to text ttl; mret r.2
  | CtxSendTextScheduled to text t => r ← koe_send_text_scheduled ctx to text t; mret r.2
  end.
End Interface.

(** * Types *)
Definition pk_ok : option bytes → Prop := opt_ok (array_ok 32).

(** A text that fits in a packet whose size does not wrap. *)
Definition body_fits (b : bytes) : Prop := bytes_ok b ∧ zlen b + 16 + 106 < 2 ^ 31.

Definition ctx_op_ok (op : ctx_op) : Prop :=
  match op with
  | CtxSessionEstablish pk sess => pk_ok pk ∧ opt_ok session_ok sess
  | CtxSessionActive pk | CtxSessionClose pk => pk_ok pk
  | CtxSessionsCleanup _ | CtxPoll | CtxPeerDiscover => True
  | CtxPeerConnect pk => array_ok 32 pk
  | CtxSendToPeer _ pk pkt => pk_ok pk ∧ packet_ok pkt
  | CtxHandshakeStart pk out => pk_ok pk
  | CtxHandshakeProcess in_ out _ =>
      packet_ok in_ ∧ (h_type (p_header in_) = type_code KOE_TYPE_HELLO → hello_readable out)
  | CtxMessageSendEncrypted to body len _ =>
      pk_ok to ∧ opt_ok (λ b, body_fits b ∧ 0 ≤ len ≤ zlen b) body
  | CtxMessageRecvAndDecrypt pkt _ => packet_ok pkt
  | CtxSendText to text ttl => pk_ok to ∧ opt_ok body_fits text ∧ 0 ≤ ttl < 2 ^ 32
  | CtxSendTextScheduled to text _ => pk_ok to ∧ body_fits text
  end.

Definition entry_ok (e : koe_session_entry_t) : Prop :=
  array_ok 32 (e_peer_pk e) ∧ session_ok (e_sess e) ∧ sane (e_last_used e).

(** The session table: its own invariant, and typed entries where it has any. *)
Definition sessions_ok (tbl : koe_session_table_t) : Prop :=
  table_ok tbl ∧ Forall entry_ok (actives (t_entries tbl)).

(** No peer ever gets a connection: [koe_peer_connect] only notes the key. *)
Definition peer_ok (p : koe_peer_t) : Prop := array_ok 32 (peer_pk p) ∧ peer_fd p = -1.

(** What a queue promises the context: pushing a packet whose size does not wrap
    is defined and keeps the queue's own invariant. *)
Class SoundQueue {Q} `{PacketQueue Q} (Qok : Q → Prop) : Prop :=
  push_sound q pkt w :
    Qok q → packet_ok pkt → h_length (p_header pkt) + 106 < 2 ^ 31 → sane_clock w →
    runs w (packet_queue_push q pkt) (λ r _, Qok r.2).

Definition ctx_ok {Q} (Qok : Q → Prop) (ctx : koe_ctx_t Q) : Prop :=
  identity_ok (c_keys ctx) ∧ sessions_ok (c_sessions ctx) ∧ Qok (c_queue ctx)
  ∧ 0 ≤ c_counter ctx < 2 ^ 64
  ∧ (length (c_peers ctx) ≤ KOE_MAX_SESSIONS)%nat ∧ Forall peer_ok (c_peers ctx).

(** * The session table is typed *)
Lemma koe_session_table_init_ok : sessions_ok koe_session_table_init.
Proof. split; [apply koe_session_table_init_refines|]. apply (bool_decide_unpack _). vm_compute. exact I. Qed.

Lemma sessions_ok_insert tbl i e e' n :
  sessions_ok tbl → t_entries tbl !! i = Some e → e_active e' = true → entry_ok e' →
  n = t_count tbl + 1 - (if e_active e then 1 else 0) →
  sessions_ok (KoeSessionTable (<[i := e']> (t_entries tbl)) n).
Proof.
  intros [Hok Hall] Hi Ha He ->. split.
  - eapply table_ok_insert; [done|exact Hi|by rewrite Ha|apply He|by rewrite Ha].
  - cbn [t_entries]. destruct (actives_insert _ _ _ e' Hi) as (l1 & l2 & E1 & E2). rewrite E2, Ha.
    rewrite E1 in Hall. apply Forall_app in Hall as [H1 [_ H2]%Forall_app].
    apply Forall_app. split; [done|]. by constructor.
Qed.

Lemma sessions_ok_clear tbl i e :
  sessions_ok tbl → t_entries tbl !! i = Some e → e_active e = true →
  sessions_ok (KoeSessionTable (<[i := zero_entry]> (t_entries tbl)) (t_count tbl - 1)).
Proof.
  intros [Hok Hall] Hi Ha. split.
  - eapply table_ok_insert; [done|exact Hi|done|done|]. rewrite Ha. cbn. lia.
  - cbn [t_entries]. destruct (actives_insert _ _ _ zero_entry Hi) as (l1 & l2 & E1 & E2). rewrite E2. cbn.
    rewrite E1 in Hall. apply Forall_app in Hall as [H1 [_ H2]%Forall_app]. by apply Forall_app.
Qed.

Lemma session_add_runs tbl pk s w :
  sessions_ok tbl → array_ok 32 pk → session_ok s → sane_clock w →
  runs w (koe_session_table_add tbl (Some pk) (Some s)) (λ r _, sessions_ok r.2).
Proof.
  intros Hok Hpk Hs Hc. unfold koe_session_table_add. destruct (_ <=? _); [by apply runs_ret|].
  destruct (list_find _ _) as [[i e]|] eqn:Hf; [|by apply runs_ret].
  apply list_find_Some in Hf as (Hi & Ha & _). apply runs_time, runs_time, runs_ret.
  eapply sessions_ok_insert; [done|exact Hi|done| |by rewrite Ha; lia]. split_and!; try done. apply Hc.
Qed.

Lemma session_find_runs tbl pk w :
  sessions_ok tbl → sane_clock w →
  runs w (koe_session_table_find tbl (Some pk)) (λ r _, sessions_ok r.2 ∧ opt_ok session_ok r.1).
Proof.
  intros Hok Hc. unfold koe_session_table_find. destruct (list_find _ _) as [[i e]|] eqn:Hf; [|by apply runs_ret].
  apply list_find_Some in Hf as (Hi & [Ha _] & _).
  assert (He : entry_ok e).
  { destruct Hok as [_ Hall]. rewrite Forall_forall in Hall. apply Hall.
    apply list_elem_of_filter. split; [done|]. by eapply list_elem_of_lookup_2. }
  apply runs_time, runs_ret. split; [|apply He].
  eapply sessions_ok_insert; [done|exact Hi|done| |by rewrite Ha; lia].
  destruct He as (? & ? & _). split_and!; try done. apply Hc.
Qed.

Lemma session_remove_ok tbl pk : sessions_ok tbl → sessions_ok (koe_session_table_remove tbl pk).2.
Proof.
  intros Hok. unfold koe_session_table_remove. destruct pk as [pk|]; [|done].
  destruct (list_find _ _) as [[i e]|] eqn:Hf; [|done].
  apply list_find_Some in Hf as (Hi & [Ha _] & _). by eapply sessions_ok_clear.
Qed.

Lemma session_cleanup_runs tbl age w :
  sessions_ok tbl → sane_clock w → runs w (koe_session_table_cleanup tbl age) (λ t _, sessions_ok t).
Proof.
  intros [Hok Hall] Hc. pose proof Hok as (H1 & H2 & H3). unfold koe_session_table_cleanup.
  destruct (age <=? 0); [by apply runs_ret|]. apply runs_time.
  destruct (cleanup_loop_spec (now w) age (t_entries tbl)) as (es' & k & E & L1 & L2 & -> & L4); [|done|].
  { eapply Forall_impl; [exact Hall|]. intros e (_ & _ & Hu). specialize (Hc (w_tick w)). fold (now w) in Hc.
    unfold sane, sub64 in *. rewrite chk64_Some by lia. by eexists. }
  eapply runs_lift; [exact E|]. apply runs_ret. split.
  - split_and!; cbn; [lia|lia|done].
  - cbn. rewrite L2. rewrite Forall_forall in Hall |- *. intros e [_ He]%list_elem_of_filter. by apply Hall.
Qed.

(** * Messages, whatever fails *)
Section Messages.
Context `{SodiumLaws}.

Lemma message_alloc_runs counter type to b len w :
  pk_ok to → bytes_ok b → 0 ≤ len ≤ zlen b → 0 ≤ counter < 2 ^ 64 →
  runs w (koe_message_alloc counter type to (Some b) len)
    (λ r _, 0 ≤ r.2 < 2 ^ 64 ∧ opt_ok (λ m, message_ok m ∧ m_body_len m = len) r.1).
Proof.
  intros Hto Hb Hlen Hc. unfold koe_message_alloc. destruct to as [to|]; [|by apply runs_ret].
  destruct (len =? 0); [by apply runs_ret|]. apply runs_malloc. destruct (w_heap _ _); cbn [negb]; [|by apply runs_ret].
  eapply (runs_bind _ _ _ (λ r _, 0 ≤ r.2 < 2 ^ 64)).
  { unfold generate_message_id. eapply (runs_bind _ _ _ (λ _ _, True)); [by eexists _, _|].
    intros ts w1 _ _. apply runs_ret. cbn. unfold u64. lia. }
  intros [id c] w1 _ Hc'. cbn [fst snd] in *. apply runs_malloc. destruct (w_heap _ _); cbn [negb]; [|by apply runs_ret].
  eapply runs_lift; [apply peek_defined; unfold zlen in *; lia|]. apply runs_time, runs_ret. split; [done|].
  split; [|done]. rewrite drop_0. unfold message_ok. cbn [m_from m_to m_sig m_body m_body_len].
  assert (Hz : ∀ n, array_ok n (zeros n)) by (intros n; split; [apply length_replicate|apply bytes_ok_zeros]).
  split_and!; [apply Hz|done|apply Hz|lia|by apply bytes_ok_take|]. unfold zlen in *. rewrite length_take. lia.
Qed.

Lemma message_sign_total msg id :
  identity_ok id → message_ok msg →
  ∃ rc msg', koe_message_sign msg (Some id) = Some (rc, msg') ∧ message_ok msg' ∧ m_body_len msg' = m_body_len msg.
Proof.
  intros [Hpk Hsk] Hok. destruct (body_bytes_ok msg Hok) as (Hb & _). unfold koe_message_sign. rewrite Hb.
  cbn [mbind option_bind]. destruct (koe_sign _ id) as [sig|] eqn:Hs; [|by eexists _, _].
  apply sign_detached_ok in Hs; [|done]. eexists _, _. split; [reflexivity|]. split; [|done].
  destruct Hok as (? & ? & ? & ? & ?). by unfold message_ok.
Qed.

(** Sealing: a packet of the right size, or none. *)
Lemma message_encrypt_runs msg sess w :
  message_ok msg → m_body_len msg + 16 < 2 ^ 32 → session_ok sess →
  runs w (koe_message_encrypt msg sess)
    (λ r _, r.1 = 0 → packet_ok r.2 ∧ h_length (p_header r.2) = m_body_len msg + 16).
Proof.
  intros Hok Hlen Hs.
  destruct (w_heap w (w_allocs w)) eqn:Hheap.
  - destruct (body_bytes_ok msg Hok) as (Hbb & Hb & Hbl).
    destruct (koe_decrypt_encrypt (default [] (m_body msg)) (random_bytes w 24) (tx_key sess))
      as (ct & Hct & [Hctl Hctb] & _); [done|lia|apply random_array_ok|apply Hs|].
    assert (0 ≤ m_body_len msg) by apply Hok.
    exists (0, KoePacket (sealed_header msg (random_bytes w 24)) (Some ct)), (alloc (draw w)).
    split; [|split; [done|]].
    + unfold koe_message_encrypt, koe_nonce_generate. rewrite bind_random. unfold mbind, M_bind, malloc.
      change (w_heap (draw w) (w_allocs (draw w))) with (w_heap w (w_allocs w)). rewrite Hheap. cbn [negb].
      unfold lift. rewrite Hbb. unfold KOE_NONCE_LEN. rewrite Hct, u64_id, u32_id by lia. done.
    + intros _. split; [|done]. split; [by apply sealed_header_ok; [..|apply random_array_ok]|].
      cbn. split_and!; [done|unfold zlen in *; lia|lia].
  - eexists (-1, _), (alloc (draw w)). split; [|split; [done|done]]. unfold koe_message_encrypt, koe_nonce_generate. rewrite bind_random.
    unfold mbind, M_bind, malloc. change (w_heap (draw w) (w_allocs (draw w))) with (w_heap w (w_allocs w)).
    rewrite Hheap. reflexivity.
Qed.

Lemma total_message_decrypt old pkt sess : packet_ok pkt → total (koe_message_decrypt old pkt sess).
Proof.
  intros [Hh Hp] w. unfold koe_message_decrypt. destruct (_ =? 0); [by apply runs_ret|].
  destruct (Z.ltb_spec (h_length (p_header pkt)) 16); [by apply runs_ret|].
  apply runs_malloc. destruct (w_heap _ _); cbn [negb]; [|by apply runs_ret].
  destruct (p_payload pkt) as [p|]; [|lia]. destruct Hp as (_ & Hl & _).
  eapply runs_lift; [apply peek_defined; unfold zlen in *; lia|].
  destruct (koe_decrypt _ _ _); [by apply runs_time, runs_ret|by apply runs_ret].
Qed.
End Messages.

(** * The queue on its own connection *)
Definition queue_ok (q : koe_queue_t) : Prop := opt_ok db_ok (q_db q).

Lemma koe_db_queue_pop_runs `{SqlOrder} conn pk out w :
  opt_ok db_ok conn → runs w (koe_db_queue_pop conn pk out) (λ r _, opt_ok db_ok r.1.2 ∧ (is_Some conn → is_Some r.1.2)).
Proof.
  intros Hok. unfold koe_db_queue_pop, prepare, step. destruct conn as [d|]; [|by apply runs_ret].
  apply runs_syscall. destruct (w_io _ _); cbn [negb]; [|by apply runs_ret].
  apply runs_syscall. destruct (select_first _ _) as [row|]; [|by apply runs_ret].
  destruct (w_io _ _); cbn [negb]; [|by apply runs_ret]. apply runs_malloc, runs_syscall.
  eapply (runs_bind _ _ _ (λ _ _, True)); [destruct (w_io _ _); by eexists _, _|]. intros deleted w1 _ _. apply runs_ret.
  split; [|by eexists]. destruct deleted; [by apply db_ok_set_queue|done].
Qed.

Lemma koe_db_queue_push_runs conn q w :
  opt_ok db_ok conn → is_Some (bind_blob (dq_packet_bytes q) (dq_packet_len q)) →
  runs w (koe_db_queue_push conn q) (λ r _, opt_ok db_ok r.1.2 ∧ (is_Some conn → is_Some r.1.2)).
Proof.
  intros Hok [x Hx]. unfold koe_db_queue_push, prepare, step. destruct conn as [d|]; [|by apply runs_ret].
  apply runs_syscall. destruct (w_io _ _); cbn [negb]; [|by apply runs_ret].
  eapply runs_lift; [exact Hx|]. apply runs_syscall. destruct x as [packet|]; [|by apply runs_ret].
  destruct (w_io _ _); apply runs_ret; [|done]. split; [by apply db_ok_insert_queue|by eexists].
Qed.

Lemma total_koe_db_queue_count conn pk : total (koe_db_queue_count conn pk).
Proof. unfold koe_db_queue_count, prepare, step. total. Qed.

(** A push on any connection, whatever fails. *)
Lemma koe_queue_push_sound `{SqlOrder} q pkt w :
  queue_ok q → packet_ok pkt → h_length (p_header pkt) + 106 < 2 ^ 31 → sane_clock w →
  runs w (koe_queue_push q pkt) (λ r _, queue_ok r.2 ∧ (is_Some (q_db q) → is_Some (q_db r.2))
    ∧ q_max_per_peer r.2 = q_max_per_peer q).
Proof.
  intros Hq Hok Hlen Hc. assert (H0 : 0 ≤ h_length (p_header pkt)) by apply Hok. unfold koe_queue_push.
  eapply (runs_bind _ _ _ (λ q' _, queue_ok q' ∧ (is_Some (q_db q) → is_Some (q_db q')) ∧ q_max_per_peer q' = q_max_per_peer q)).
  { unfold make_room, koe_queue_count. eapply total_bind_runs; [apply total_koe_db_queue_count|]. intros n w1 _.
    destruct (_ <=? n); [|by apply runs_ret].
    eapply runs_bind; [by apply koe_db_queue_pop_runs|]. intros r w2 _ [Hr Hs]. by apply runs_ret. }
  intros q' w1 E1 (Hq' & Hsome & Hmax). assert (Hc1 : sane_clock w1) by eauto with koe.
  unfold koe_queue_store, KOE_HEADER_SIZE. rewrite u32_id by lia.
  eapply (runs_bind _ _ _ (λ b _, opt_ok (λ b, zlen b = 106 + h_length (p_header pkt)) b)).
  { eexists _, _. split; [reflexivity|]. split; [done|]. destruct (w_heap _ _); [|done]. cbn. unfold zlen.
    rewrite length_random_bytes. lia. }
  intros [buf|] w2 E2 Hbuf; [|by apply runs_ret]. cbn in Hbuf.
  rewrite <-Hbuf. eapply runs_lift; [apply koe_packet_serialise_wire; [done|lia|lia]|].
  rewrite Hbuf, drop_ge by (unfold zlen in Hbuf; lia). rewrite app_nil_r. cbn [fst snd]. apply runs_time.
  assert (Hnow : sane (now w2)) by (unfold now; eapply (sane_clock_env w1); eauto with koe).
  eapply runs_lift; [apply chk64_Some; unfold sane, KOE_QUEUE_TTL_SECONDS in *; lia|].
  eapply runs_bind; [apply koe_db_queue_push_runs; [exact Hq'|]|].
  { cbn [dq_packet_bytes dq_packet_len bind_blob]. pose proof (length_wire pkt Hok) as Hw.
    rewrite i32_id, (proj2 (Z.ltb_ge _ 0)) by lia. destruct (_ <? _); [by eexists|].
    rewrite peek_defined; [by eexists|]. unfold zlen in *. lia. }
  intros r w3 _ [Hr Hs]. apply runs_ret. split_and!; [done| |done]. cbn. auto.
Qed.

#[export] Instance koe_queue_sound `{SqlOrder} : SoundQueue queue_ok.
Proof.
  intros q pkt w Hq Hok Hlen Hc. eapply runs_mono; [by apply koe_queue_push_sound|]. by intros r w' _ [Hr _].
Qed.

(** * Soundness *)
Section Soundness.
Context {Q : Type} `{SodiumLaws} `{!PacketQueue Q} (Qok : Q → Prop) `{!SoundQueue Qok}.
Implicit Types ctx : koe_ctx_t Q.

Lemma ctx_ok_sessions ctx t : ctx_ok Qok ctx → sessions_ok t → ctx_ok Qok (set_c_sessions t ctx).
Proof. intros (? & ? & ? & ? & ? & ?) Ht. by unfold ctx_ok. Qed.
Lemma ctx_ok_counter ctx n : ctx_ok Qok ctx → 0 ≤ n < 2 ^ 64 → ctx_ok Qok (set_c_counter n ctx).
Proof. intros (? & ? & ? & ? & ? & ?) Ht. by unfold ctx_ok. Qed.
Lemma ctx_ok_queue ctx q : ctx_ok Qok ctx → Qok q → ctx_ok Qok (set_c_queue q ctx).
Proof. intros (? & ? & ? & ? & ? & ?) Ht. by unfold ctx_ok. Qed.

(** Looking a session up. *)
Lemma ctx_find_runs ctx pk w :
  ctx_ok Qok ctx → sane_clock w →
  runs w (koe_session_table_find (c_sessions ctx) (Some pk))
    (λ r _, ctx_ok Qok (set_c_sessions r.2 ctx) ∧ opt_ok session_ok r.1).
Proof.
  intros Hok Hc. eapply runs_mono; [apply session_find_runs; [apply Hok|done]|].
  intros r w' _ [Hr Hs]. split; [by apply ctx_ok_sessions|done].
Qed.

(** Adding one. *)
Lemma ctx_add_runs {B} ctx pk s w (f : Z * koe_session_table_t → M B) R :
  ctx_ok Qok ctx → array_ok 32 pk → session_ok s → sane_clock w →
  (∀ r w', same_env w w' → ctx_ok Qok (set_c_sessions r.2 ctx) → runs w' (f r) R) →
  runs w (koe_session_table_add (c_sessions ctx) (Some pk) (Some s) ≫= f) R.
Proof.
  intros Hok Hpk Hs Hc Hf. eapply runs_bind; [apply session_add_runs; [apply Hok|done..]|].
  intros r w' E Hr. apply Hf; [done|]. by apply ctx_ok_sessions.
Qed.

Lemma session_ops_sound ctx op w :
  ctx_ok Qok ctx → ctx_op_ok op → sane_clock w →
  match op with
  | CtxSessionEstablish _ _ | CtxSessionActive _ | CtxSessionClose _ | CtxSessionsCleanup _ | CtxPoll
  | CtxPeerDiscover | CtxPeerConnect _ | CtxSendToPeer _ _ _ =>
      runs w (ctx_run op ctx) (λ ctx' _, ctx_ok Qok ctx')
  | _ => True
  end.
Proof.
  intros Hok Hop Hc. destruct op as [pk s|pk|pk|age| | |pk|k pk pkt| | | | | |]; cbn [ctx_run]; try done; cbn in Hop.
  - unfold koe_session_establish. destruct (negb _); [by apply runs_ret|].
    destruct pk as [pk|], s as [s|]; try by apply runs_ret. destruct Hop as [Hpk Hs].
    eapply (runs_bind _ _ _ (λ r _, ctx_ok Qok r.2)); [|intros r w' _ Hr; by apply runs_ret].
    apply ctx_add_runs; [done..|]. intros r w' _ Hr. by apply runs_ret.
  - unfold koe_session_active. destruct (negb _); [by apply runs_ret|]. destruct pk as [pk|]; [|by apply runs_ret].
    eapply (runs_bind _ _ _ (λ r _, ctx_ok Qok r.2)); [|intros r w' _ Hr; by apply runs_ret].
    eapply runs_bind; [by apply ctx_find_runs|]. intros r w' _ [Hr _]. by apply runs_ret.
  - apply runs_ret. unfold koe_session_close. destruct (negb _); [done|]. destruct pk as [pk|]; [|done].
    apply ctx_ok_sessions; [done|]. apply session_remove_ok, Hok.
  - unfold koe_sessions_cleanup. destruct (negb _); [by apply runs_ret|].
    eapply runs_bind; [apply session_cleanup_runs; [apply Hok|done]|]. intros t w' _ Ht. apply runs_ret.
    by apply ctx_ok_sessions.
  - unfold koe_poll, koe_sessions_cleanup. destruct (negb _); [by apply runs_ret|].
    eapply (runs_bind _ _ _ (λ r _, ctx_ok Qok r.2)); [|intros r w' _ Hr; by apply runs_ret].
    eapply (runs_bind _ _ _ (λ c _, ctx_ok Qok c)); [|intros r w' _ Hr; by apply runs_ret].
    eapply runs_bind; [apply session_cleanup_runs; [apply Hok|done]|]. intros t w' _ Ht. apply runs_ret.
    by apply ctx_ok_sessions.
  - apply runs_ret. destruct Hok as (? & ? & ? & ? & ? & ?). unfold ctx_ok. cbn. split_and!; try done; lia.
  - apply runs_ret. unfold koe_peer_connect. destruct (Nat.leb_spec KOE_MAX_SESSIONS (length (c_peers ctx))); [done|].
    destruct Hok as (? & ? & ? & ? & ? & ?). unfold ctx_ok. cbn. split_and!; try done; try lia.
    + rewrite length_app. cbn. lia.
    + apply Forall_app. split; [done|]. constructor; [|constructor]. by split.
  - unfold koe_send_to_peer. destruct (negb _); [by apply runs_ret|]. destruct pk as [pk|]; [|by apply runs_ret].
    eapply (runs_bind _ _ _ (λ r _, ctx_ok Qok r.1.2)); [|intros r w' _ Hr; by apply runs_ret].
    eapply runs_bind; [by apply ctx_find_runs|]. intros r w' _ [Hr _]. destruct r.1; [|by apply runs_ret].
    destruct (list_find _ _) as [[i p]|] eqn:Hf; [|by apply runs_ret].
    apply list_find_Some in Hf as (Hi & [_ Hfd] & _). destruct Hr as (_ & _ & _ & _ & _ & Hp).
    eapply Forall_lookup_1 in Hp as [_ Hp]; [|exact Hi]. lia.
Qed.

Lemma handshake_start_sound ctx pk out w :
  ctx_ok Qok ctx → runs w (ctx_run (CtxHandshakeStart pk out) ctx) (λ ctx' _, ctx_ok Qok ctx').
Proof.
  intros Hok. cbn [ctx_run]. eapply total_bind_runs; [|intros r w' _; by apply runs_ret].
  unfold koe_handshake_start. destruct (negb _); [total|]. destruct pk; [|total].
  apply total_bind; [apply total_koe_handshake_init|total].
Qed.

Lemma handshake_process_sound ctx in_ out c w :
  ctx_ok Qok ctx → packet_ok in_ → (h_type (p_header in_) = type_code KOE_TYPE_HELLO → hello_readable out) →
  sane_clock w →
  runs w (ctx_run (CtxHandshakeProcess in_ out c) ctx) (λ ctx' _, ctx_ok Qok ctx').
Proof.
  intros Hok Hin Hout Hc. cbn [ctx_run].
  eapply (runs_bind _ _ _ (λ r _, ctx_ok Qok r.1.1.2)); [|intros r w' _ Hr; by apply runs_ret].
  unfold koe_handshake_process. destruct (negb _); [by apply runs_ret|].
  assert (Hfrom : array_ok 32 (h_from (p_header in_))) by apply Hin.
  (* deriving the session and adding it, on either packet *)
  assert (Hfin : ∀ hs pkt w1, same_env w w1 → hello_readable pkt → ∀ o : koe_packet_t,
    runs w1 (f ← lift (koe_handshake_finalise hs pkt (c_keys ctx));
             if f.1 =? 0 then
               t ← koe_session_table_add (c_sessions ctx) (Some (h_from (p_header in_))) (Some (hs_session f.2));
               mret (0, set_c_sessions t.2 ctx, o, true)
             else mret (0, ctx, o, false)) (λ (r : Z * koe_ctx_t Q * koe_packet_t * bool) _, ctx_ok Qok r.1.1.2)).
  { intros hs pkt w1 E Hpkt o. destruct (koe_handshake_finalise_safe hs pkt (c_keys ctx) Hpkt) as (rc & hs' & Hf & _).
    eapply runs_lift; [exact Hf|]. cbn [fst snd]. destruct (Z.eqb_spec rc 0) as [->|]; [|by apply runs_ret].
    apply ctx_add_runs; [done|done|by eapply koe_handshake_finalise_session|by eauto with koe|].
    intros r w2 _ Hr. by apply runs_ret. }
  destruct (Z.eqb_spec (h_type (p_header in_)) (type_code KOE_TYPE_HELLO)) as [Ht|_].
  - eapply runs_bind; [by apply koe_handshake_respond_runs; [..|apply Hok]|].
    intros [[rc hs] ack] w1 E Hack. apply Hfin; [done|]. cbn [snd] in Hack.
    destruct Hack as [->|Hack]; [by apply Hout|by apply packet_ok_readable].
  - destruct (_ =? _); [|by apply runs_ret]. by apply Hfin; [|apply packet_ok_readable].
Qed.

(** The result of the responder is not looked at: when it refuses the HELLO,
    which is the sender's choice, the packet the caller passed for the answer is
    finalised as it was, and if it was never initialised the read leaves its
    payload. *)
Lemma koe_handshake_process_reads_out ctx in_ out payload c w :
  c_initialised ctx = true → h_type (p_header in_) = type_code KOE_TYPE_HELLO → p_payload in_ = None →
  p_payload out = Some payload → HELLO_PAYLOAD ≤ h_length (p_header out) → zlen payload < HELLO_PAYLOAD →
  koe_handshake_process ctx in_ out c w = None.
Proof.
  intros Hi Ht Hin Hp Hl Hs. unfold koe_handshake_process. rewrite Hi, Ht, Z.eqb_refl. cbn [negb].
  unfold koe_handshake_respond. rewrite Hin. unfold koe_handshake_finalise. mrun.
  rewrite Hp, (proj2 (Z.ltb_ge _ _)) by done. unfold read_hello. assert (Hnone : peek payload 66 64 = None).
  { unfold peek. apply decide_False. unfold HELLO_PAYLOAD, zlen in *. lia. } rewrite Hnone.
  destruct (payload !! 0%nat), (payload !! 1%nat), (peek payload 2 32), (peek payload 34 32), (peek payload 0 66); done.
Qed.

(** Allocating, signing and sealing, as the sending calls do it. *)
Lemma message_send_sound ctx to body len out w :
  ctx_ok Qok ctx → pk_ok to → opt_ok (λ b, body_fits b ∧ 0 ≤ len ≤ zlen b) body → sane_clock w →
  runs w (ctx_run (CtxMessageSendEncrypted to body len out) ctx) (λ ctx' _, ctx_ok Qok ctx').
Proof.
  intros Hok Hto Hbody Hc. cbn [ctx_run].
  eapply (runs_bind _ _ _ (λ r _, ctx_ok Qok r.1.2)); [|intros r w' _ Hr; by apply runs_ret].
  unfold koe_message_send_encrypted. destruct (negb _); [by apply runs_ret|].
  destruct to as [to|], body as [body|]; try by apply runs_ret. destruct Hbody as [[Hb Hmax] Hlen].
  destruct (len =? 0); [by apply runs_ret|].
  eapply runs_bind; [by apply ctx_find_runs|]. intros [sess tbl] w1 E1 [Hok1 Hs]. cbn [fst snd] in *.
  destruct sess as [sess|]; [|by apply runs_ret].
  eapply runs_bind; [apply message_alloc_runs; [done|done|done|apply Hok]|].
  intros [msg n] w2 E2 [Hn Hmsg]. cbn [fst snd] in *.
  pose proof (ctx_ok_counter _ n Hok1 Hn) as Hok2.
  destruct msg as [msg|]; [|by apply runs_ret]. destruct Hmsg as [Hmok Hml].
  assert (Hmok' : message_ok (set_m_from (id_pk (c_keys ctx)) msg)).
  { destruct Hmok as (? & ? & ? & ? & ?). destruct Hok as [[? _] _]. by unfold message_ok. }
  destruct (message_sign_total _ (c_keys ctx) (proj1 Hok) Hmok') as (rc & msg' & Hsign & Hmok2 & Hml2).
  eapply runs_lift; [exact Hsign|]. cbn [fst snd].
  eapply runs_bind; [apply message_encrypt_runs; [done|rewrite Hml2; cbn; lia|done]|]. intros e w3 _ _.
  destruct (koe_message_free_run msg' Hmok2) as [freed Hfree]. eapply runs_lift; [exact Hfree|]. by apply runs_ret.
Qed.

Lemma message_recv_sound ctx pkt old w :
  ctx_ok Qok ctx → packet_ok pkt → sane_clock w →
  runs w (ctx_run (CtxMessageRecvAndDecrypt pkt old) ctx) (λ ctx' _, ctx_ok Qok ctx').
Proof.
  intros Hok Hpkt Hc. cbn [ctx_run].
  eapply (runs_bind _ _ _ (λ r _, ctx_ok Qok r.1.2)); [|intros r w' _ Hr; by apply runs_ret].
  unfold koe_message_recv_and_decrypt. destruct (negb _); [by apply runs_ret|].
  eapply runs_bind; [by apply ctx_find_runs|]. intros [sess tbl] w1 E1 [Hok1 _]. cbn [fst snd] in *.
  destruct sess as [sess|]; [|by apply runs_ret].
  eapply total_bind_runs; [by apply total_message_decrypt|]. intros d w2 _. by apply runs_ret.
Qed.

Lemma set_destruct_runs msg ttl w :
  message_ok msg → 0 ≤ ttl < 2 ^ 32 → sane_clock w →
  runs w (if 0 <? ttl then koe_message_set_destruct msg ttl else mret msg)
    (λ m _, message_ok m ∧ m_body_len m = m_body_len msg).
Proof.
  intros Hok Httl Hc. destruct (0 <? ttl); [|by apply runs_ret]. unfold koe_message_set_destruct.
  destruct (ttl =? 0); [by apply runs_ret|]. apply runs_time. pose proof (Hc (w_tick w)) as Hn. fold (now w) in Hn.
  eapply runs_lift; [apply chk64_Some; unfold sane in *; lia|]. apply runs_ret. done.
Qed.

Lemma send_text_sound ctx to text ttl w :
  ctx_ok Qok ctx → pk_ok to → opt_ok body_fits text → 0 ≤ ttl < 2 ^ 32 → sane_clock w →
  runs w (ctx_run (CtxSendText to text ttl) ctx) (λ ctx' _, ctx_ok Qok ctx').
Proof.
  intros Hok Hto Htext Httl Hc. cbn [ctx_run].
  eapply (runs_bind _ _ _ (λ r _, ctx_ok Qok r.2)); [|intros r w' _ Hr; by apply runs_ret].
  unfold koe_send_text. destruct (negb _); [by apply runs_ret|].
  destruct to as [to|], text as [text|]; try by apply runs_ret. destruct Htext as [Hb Hmax].
  eapply runs_bind; [by apply ctx_find_runs|]. intros [sess tbl] w1 E1 [Hok1 Hs]. cbn [fst snd] in *.
  destruct sess as [sess|]; [|by apply runs_ret].
  eapply runs_bind; [apply message_alloc_runs; [done|done|unfold zlen; lia|apply Hok]|].
  intros [msg n] w2 E2 [Hn Hmsg]. cbn [fst snd] in *.
  pose proof (ctx_ok_counter _ n Hok1 Hn) as Hok2.
  destruct msg as [msg|]; [|by apply runs_ret]. destruct Hmsg as [Hmok Hml].
  assert (Hmok' : message_ok (set_m_from (id_pk (c_keys ctx)) msg)).
  { destruct Hmok as (? & ? & ? & ? & ?). destruct Hok as [[? _] _]. by unfold message_ok. }
  assert (Hc2 : sane_clock w2) by eauto with koe.
  eapply runs_bind; [by apply set_destruct_runs|]. intros msg1 w3 E3 [Hmok1 Hml1].
  destruct (message_sign_total msg1 (c_keys ctx) (proj1 Hok) Hmok1) as (rc & msg' & Hsign & Hmok2 & Hml2).
  eapply runs_lift; [exact Hsign|]. cbn [fst snd].
  eapply runs_bind; [apply message_encrypt_runs; [done|rewrite Hml2, Hml1; cbn; lia|done]|]. intros [re pkt] w4 E4 Hpkt.
  cbn [fst snd] in *. assert (Hc4 : sane_clock w4) by eauto with koe.
  eapply (runs_bind _ _ _ (λ q _, Qok q)).
  { destruct (Z.eqb_spec re 0) as [->|]; [|apply runs_ret; apply Hok]. destruct (Hpkt eq_refl) as [Hpok Hplen].
    eapply runs_bind; [apply push_sound; [apply Hok|done|rewrite Hplen, Hml2, Hml1; cbn; lia|done]|].
    intros p w5 _ Hq. by apply runs_ret. }
  intros q w5 _ Hq. destruct (koe_message_free_run msg' Hmok2) as [freed Hfree].
  eapply runs_lift; [exact Hfree|]. apply runs_ret. by apply ctx_ok_queue.
Qed.

Lemma send_text_scheduled_sound ctx to text t w :
  ctx_ok Qok ctx → pk_ok to → body_fits text →
  runs w (ctx_run (CtxSendTextScheduled to text t) ctx) (λ ctx' _, ctx_ok Qok ctx').
Proof.
  intros Hok Hto [Hb Hmax]. cbn [ctx_run].
  eapply (runs_bind _ _ _ (λ r _, ctx_ok Qok r.2)); [|intros r w' _ Hr; by apply runs_ret].
  unfold koe_send_text_scheduled. destruct (negb _); [by apply runs_ret|].
  eapply runs_bind; [apply message_alloc_runs; [done|done|unfold zlen; lia|apply Hok]|].
  intros [msg n] w2 E2 [Hn Hmsg]. cbn [fst snd] in *. pose proof (ctx_ok_counter _ n Hok Hn) as Hok2.
  destruct msg as [msg|]; [|by apply runs_ret]. destruct Hmsg as [Hmok Hml].
  set (msg1 := koe_message_schedule _ _).
  assert (Hmok' : message_ok msg1).
  { destruct Hmok as (? & ? & ? & ? & ?). destruct Hok as [[? _] _]. by unfold message_ok. }
  destruct (message_sign_total msg1 (c_keys ctx) (proj1 Hok) Hmok') as (rc & msg' & Hsign & Hmok2 & Hml2).
  eapply runs_lift; [exact Hsign|]. cbn [fst snd].
  destruct (koe_message_free_run msg' Hmok2) as [freed Hfree]. eapply runs_lift; [exact Hfree|]. by apply runs_ret.
Qed.

(** Any operation. *)
Lemma ctx_run_sound ctx op w :
  ctx_ok Qok ctx → ctx_op_ok op → sane_clock w → runs w (ctx_run op ctx) (λ ctx' _, ctx_ok Qok ctx').
Proof.
  intros Hok Hop Hc. destruct op as [pk s|pk|pk|age| | |pk|k pk pkt|pk out|in_ out c|to b len out|pkt old|to text ttl|to text t].
  1-8: exact (session_ops_sound ctx _ w Hok Hop Hc).
  - by apply handshake_start_sound.
  - destruct Hop. by apply handshake_process_sound.
  - destruct Hop. by apply message_send_sound.
  - by apply message_recv_sound.
  - destruct Hop as (? & ? & ?). by apply send_text_sound.
  - destruct Hop. by apply send_text_scheduled_sound.
Qed.

(** Operations one after the other. *)
Fixpoint ctx_run_all (ops : list ctx_op) (ctx : koe_ctx_t Q) : M (koe_ctx_t Q) :=
  match ops with
  | [] => mret ctx
  | op :: ops' => ctx' ← ctx_run op ctx; ctx_run_all ops' ctx'
  end.

Lemma ctx_run_all_runs ops ctx w :
  ctx_ok Qok ctx → Forall ctx_op_ok ops → sane_clock w →
  runs w (ctx_run_all ops ctx) (λ ctx' _, ctx_ok Qok ctx').
Proof.
  intros Hok Hops. revert ctx w Hok. induction Hops as [|op ops Hop _ IH]; intros ctx w Hok Hc; cbn [ctx_run_all].
  - by apply runs_ret.
  - eapply runs_bind; [by apply ctx_run_sound|]. intros ctx' w' E Hok'. apply IH; [done|]. by eauto with koe.
Qed.

(** Nothing gives a peer a connection, so nothing is ever sent to one. *)
Lemma koe_send_to_peer_fails s ctx pk pkt w :
  ctx_ok Qok ctx → sane_clock w → runs w (koe_send_to_peer s ctx pk pkt) (λ r _, r.1.1 = -1 ∧ r.2 = s).
Proof.
  intros Hok Hc. unfold koe_send_to_peer. destruct (negb _); [by apply runs_ret|]. destruct pk as [pk|]; [|by apply runs_ret].
  eapply runs_bind; [by apply ctx_find_runs|]. intros r w' _ [Hr _]. destruct r.1; [|by apply runs_ret].
  destruct (list_find _ _) as [[i p]|] eqn:Hf; [|by apply runs_ret].
  apply list_find_Some in Hf as (Hi & [_ Hfd] & _). destruct Hr as (_ & _ & _ & _ & _ & Hp).
  eapply Forall_lookup_1 in Hp as [_ Hp]; [|exact Hi]. lia.
Qed.
End Soundness.

(** C7: the calls of the context are well typed. On a well-formed context (a
    session table that counts its entries, 32-byte keys, a queue with unique row
    ids, a 64-bit message counter, at most 256 peers) any sequence of calls with
    arguments of their types - sessions, handshakes on any received packets,
    messages, texts to queue, peers - is defined and returns a well-formed
    context, whatever allocations, random bytes and statements fail, for any
    queue whose push keeps that queue's own invariant. The caller has to
    initialise the packet in which [koe_handshake_process] answers a HELLO: it is
    read even if nothing was written to it ([koe_handshake_process_reads_out]). *)
Theorem koe_ctx_calls_sound {Q : Type} `{SodiumLaws} `{!PacketQueue Q} (Qok : Q → Prop) `{!SoundQueue Qok}
    (ops : list ctx_op) (ctx : koe_ctx_t Q) (w : world) :
  ctx_ok Qok ctx → Forall ctx_op_ok ops → sane_clock w →
  ∃ ctx' w', w ⊢ ctx_run_all ops ctx ⇓ ctx' ⊣ w' ∧ ctx_ok Qok ctx'.
Proof.
  intros Hok Hops Hc. destruct (ctx_run_all_runs Qok ops ctx w Hok Hops Hc) as (ctx' & w' & Hrun & _ & Hok'). eauto.
Qed.

(** * What a call does to the queue: at most one push, and only when initialised *)

(** Whatever [m] returns, when it returns, has [P]. *)
Definition yields {A} (m : M A) (P : A → Prop) : Prop := ∀ w a w', w ⊢ m ⇓ a ⊣ w' → P a.
Lemma yields_ret {A} (a : A) (P : A → Prop) : P a → yields (mret a) P.
Proof. by intros Ha w x w' [= <- _]. Qed.
Lemma yields_bind {A B} (m : M A) (f : A → M B) P R : yields m R → (∀ a, R a → yields (f a) P) → yields (m ≫= f) P.
Proof. intros Hm Hf w b w' (a & w1 & Ha & Hb)%bind_inv. exact (Hf a (Hm _ _ _ Ha) _ _ _ Hb). Qed.
Lemma yields_then {A B} (m : M A) (f : A → M B) P : (∀ a, yields (f a) P) → yields (m ≫= f) P.
Proof. intros Hf. eapply (yields_bind _ _ _ (λ _, True)); [done|]. intros a _. apply Hf. Qed.

Section Queueing.
Context {Q : Type} `{Sodium} `{!PacketQueue Q}.
Implicit Types ctx : koe_ctx_t Q.

Definition pushes ctx (ctx' : koe_ctx_t Q) : Prop :=
  c_initialised ctx' = c_initialised ctx ∧ c_keys ctx' = c_keys ctx
  ∧ (c_queue ctx' = c_queue ctx
     ∨ c_initialised ctx = true
       ∧ ∃ pkt r w w', w ⊢ packet_queue_push (c_queue ctx) pkt ⇓ (r, c_queue ctx') ⊣ w').
Lemma pushes_same ctx ctx' :
  c_initialised ctx' = c_initialised ctx → c_keys ctx' = c_keys ctx → c_queue ctx' = c_queue ctx → pushes ctx ctx'.
Proof. split; [done|]. split; [done|by left]. Qed.

(** Down to the returns of a call that leaves the queue alone. *)
Ltac yields :=
  repeat first
    [ progress cbn [fst snd]
    | apply yields_then; intros ?
    | match goal with |- yields (match ?x with _ => _ end) _ => destruct x end
    | apply yields_ret, pushes_same; (reflexivity || assumption) ].

Lemma send_text_pushes ctx to text ttl : yields (koe_send_text ctx to text ttl) (λ r, pushes ctx r.2).
Proof.
  unfold koe_send_text. destruct (c_initialised ctx) eqn:Hi; cbn [negb]; [|yields].
  destruct to as [to|], text as [text|]; [|yields..]. apply yields_then. intros [[sess|] tbl]; cbn [fst snd]; [|yields].
  apply yields_then. intros [[msg|] n]; cbn [fst snd]; [|yields].
  apply yields_then. intros msg1. apply yields_then. intros s. apply yields_then. intros e.
  eapply (yields_bind _ _ _ (λ q, pushes ctx (set_c_queue q ctx))).
  - destruct (_ =? 0); [|by apply yields_ret, pushes_same]. intros w q w' ([r q'] & w1 & Hp & [= <- <-])%bind_inv.
    split; [done|]. split; [done|]. right. split; [done|]. by exists e.2, r, w, w1.
  - intros q Hq. apply yields_then. intros _. by apply yields_ret.
Qed.

Lemma sessions_cleanup_pushes ctx age : yields (koe_sessions_cleanup ctx age) (pushes ctx).
Proof. unfold koe_sessions_cleanup. yields. Qed.

Lemma ctx_run_pushes op ctx : yields (ctx_run op ctx) (pushes ctx).
Proof.
  assert (Hget : ∀ {A} (m : M A) g, yields m (λ r, pushes ctx (g r)) → yields (r ← m; mret (g r)) (pushes ctx)).
  { intros A m g Hm. eapply yields_bind; [exact Hm|]. intros r Hr. by apply yields_ret. }
  destruct op; cbn [ctx_run].
  13: by apply (Hget _ _ snd), send_text_pushes.
  4: apply sessions_cleanup_pushes.
  1, 2, 4, 7, 9, 10, 11, 12: apply (Hget _ _ _).
  3: { unfold koe_poll. destruct (negb _); [yields|]. eapply yields_bind; [apply sessions_cleanup_pushes|].
       intros c Hc. by apply yields_ret. }
  all: unfold koe_session_establish, koe_session_active, koe_session_close, koe_peer_discover,
    koe_peer_connect, koe_send_to_peer, koe_handshake_process, koe_message_send_encrypted, koe_message_recv_and_decrypt,
    koe_send_text_scheduled.
  all: yields; apply yields_ret; repeat case_match; by apply pushes_same.
Qed.
End Queueing.

(** * Witness *)
#[local] Existing Instance toy_sodium.
#[local] Existing Instance toy_laws.

Lemma witness_ctx_ok b : byte_ok b → ctx_ok queue_ok (witness_ctx b).
Proof.
  intros Hb. split_and!; [by apply keypair_ok, toy_identity_keypair|apply koe_session_table_init_ok| |done|done| |constructor].
  - cbn. unfold db_ok. cbn. split_and!; constructor.
  - cbn. lia.
Qed.

(** Every third allocation and every fifth statement fails. *)
Definition flaky_world : world :=
  World (λ i, 1000 + Z.of_nat i mod 7) 0 (λ i, negb (i mod 3 =? 2)%nat) 0 (λ i j, Z.of_nat (7 * i + j)) 0
    (λ i, negb (i mod 5 =? 4)%nat) 0 ∅.

Definition flaky_calls : list ctx_op :=
  let peer := Some (replicate 32 2) in
  [ CtxSessionEstablish peer (Some (witness_session 8 9)); CtxSendText peer (Some [104; 105]) 60; CtxSendText peer (Some [111]) 0;
    CtxPeerConnect (replicate 32 2); CtxSendToPeer (Sock [] []) peer witness_packet;
    CtxHandshakeProcess witness_packet witness_packet false; CtxMessageRecvAndDecrypt witness_packet witness_message;
    CtxSendTextScheduled peer [104] 5; CtxPoll; CtxSessionClose peer ].

Lemma koe_ctx_calls_sound_witness :
  ∃ ctx' w', flaky_world ⊢ @ctx_run_all _ _ (@koe_queue_packet_queue first_tie) flaky_calls (witness_ctx 1) ⇓ ctx' ⊣ w'
    ∧ ctx_ok queue_ok ctx'.
Proof.
  apply (@koe_ctx_calls_sound koe_queue_t _ _ (@koe_queue_packet_queue first_tie) queue_ok (@koe_queue_sound first_tie)).
  - apply witness_ctx_ok. unfold byte_ok. lia.
  - pose proof (bool_decide_unpack _ (I : bool_decide (array_ok 32 (replicate 32 2)))) as Hpk.
    assert (Hpkt : packet_ok witness_packet) by (apply (bool_decide_unpack _); vm_compute; exact I).
    assert (Hfit : ∀ l, bytes_ok l → zlen l < 100 → body_fits l) by (intros l ??; split; [done|lia]).
    repeat constructor; cbn; try done; try (apply Hfit; [|done]);
      try (apply (bool_decide_unpack _); vm_compute; exact I).
  - intros i. unfold sane. cbn. lia.
Defined.
