(* ===== verification/Delivery.v ===== *)
(** Offline delivery, end to end: [koe_send_text] (src/koe_core.c) seals and
    queues, [koe_queue_drain] (src/koe_queue.c) hands the packets to
    [koe_transport_send] (src/koe_transport.c), and the peer receives and opens
    them with [koe_transport_recv] and [koe_message_recv_and_decrypt]. *)

From S2P Require Import Prelude Version Crc32 Packet Crypto Session Handshake Message Db Queue Transport Core.

(** * The application's loops *)
Section Loops.
Context `{Sodium} `{SqlOrder}.

(** Sending texts, each with its time to live, one after the other. *)
Fixpoint send_texts (ctx : koe_ctx_t koe_queue_t) (to : bytes) (texts : list (bytes * Z)) : M (list Z * koe_ctx_t koe_queue_t) :=
  match texts with
  | [] => mret ([], ctx)
  | (text, ttl) :: texts' =>
      r ← koe_send_text ctx (Some to) (Some text) ttl;
      r' ← send_texts r.2 to texts';
      mret (r.1 :: r'.1, r'.2)
  end.

(** The callback of the drain: the connection to the peer. *)
Definition send_to_sock (fd : Z) (pkt : koe_packet_t) (s : sock) : M (Z * sock) := koe_transport_send fd s pkt.

(** Receiving [n] packets from a connection and opening each; stops at the
    first failure. *)
Fixpoint recv_texts (n : nat) (fd : Z) (s : sock) (ctx : koe_ctx_t koe_queue_t) (pkt : koe_packet_t) (old : koe_message_t)
  : M (list koe_message_t * koe_ctx_t koe_queue_t * sock) :=
  match n with
  | O => mret ([], ctx, s)
  | S n' =>
      r ← koe_transport_recv fd s pkt;
      if negb (r.1.1 =? 0) then mret ([], ctx, r.1.2)
      else
        d ← koe_message_recv_and_decrypt ctx r.2 old;
        if negb (d.1.1 =? 0) then mret ([], d.1.2, r.1.2)
        else
          t ← recv_texts n' fd r.1.2 d.1.2 (koe_packet_free r.2) old;
          mret (d.2 :: t.1.1, t.1.2, t.2)
  end.
End Loops.

(** Two of the next [n] readings of the clock that are at least four calls
    apart, as the queueing of two texts is, are in different seconds. *)
Definition clock_spread (n : nat) (w : world) : Prop :=
  ∀ i j, (w_tick w ≤ i)%nat → (i + 4 ≤ j)%nat → (j ≤ w_tick w + n)%nat →
    0 ≤ w_clock w i ∧ w_clock w i < w_clock w j ∧ w_clock w j < 2 ^ 62.

(** A text that fits in one packet. *)
Definition text_ok (text : bytes) : Prop := bytes_ok text ∧ text ≠ [] ∧ zlen text + 16 ≤ KOE_MAX_PAYLOAD.

Section Proofs.
Context `{SodiumLaws} `{SqlOrder}.

(** [pkt] is [text] sealed for [to] in the session [sess]. *)
Definition sealed_text (from to : bytes) (sess : koe_session_t) (text : bytes) (pkt : koe_packet_t) : Prop :=
  text_ok text ∧ packet_fits pkt ∧ h_to (p_header pkt) = to
  ∧ ∃ msg w w', heap_ok w ∧ w ⊢ koe_message_encrypt msg sess ⇓ (0, pkt) ⊣ w'
      ∧ message_ok msg ∧ m_body msg = Some text ∧ m_body_len msg = zlen text ∧ m_from msg = from ∧ m_to msg = to.

(** Allocation reads the clock twice. *)
Lemma koe_message_alloc_tick counter type to body len msg c w w' :
  w ⊢ koe_message_alloc counter type to body len ⇓ (Some msg, c) ⊣ w' → w_tick w' = S (S (w_tick w)).
Proof.
  unfold koe_message_alloc, generate_message_id, clock_gettime. intros Hrun.
  mrun. repeat (case_match; mrun); simplify_eq; done.
Qed.

(** Setting the time to live reads it at most once more. *)
Lemma set_destruct_run msg ttl w :
  0 ≤ ttl < 2 ^ 32 → 0 ≤ now w < 2 ^ 62 → message_ok msg →
  ∃ msg' w', same_env w w' ∧ w ⊢ (if 0 <? ttl then koe_message_set_destruct msg ttl else mret msg) ⇓ msg' ⊣ w'
    ∧ (w_tick w ≤ w_tick w' ≤ S (w_tick w))%nat
    ∧ message_ok msg' ∧ m_to msg' = m_to msg ∧ m_from msg' = m_from msg
    ∧ m_body msg' = m_body msg ∧ m_body_len msg' = m_body_len msg.
Proof.
  intros Httl Hnow Hok. destruct (Z.ltb_spec 0 ttl).
  - unfold koe_message_set_destruct. destruct (Z.eqb_spec ttl 0); [lia|].
    eexists _, _. rewrite bind_time. rewrite (bind_lift _ _ _ (now w + ttl)) by (apply chk64_Some; lia).
    split; [|split; [reflexivity|]]; [done|]. split; [simpl; lia|]. done.
  - exists msg, w. split_and!; done || lia.
Qed.

(** The packets queued for the peer were queued before the clock is read again
    for the next ones. *)
Definition queued_before (d : db) (to : bytes) (w : world) (n : nat) : Prop :=
  Forall (λ r, ∀ j, (w_tick w + 3 ≤ j)%nat → (j < w_tick w + n)%nat → dq_sequence r < w_clock w j)
    (for_peer to (d_queue d)).

(** One text: sealed and put at the end of the queue. *)
(** A message that was composed, its destruction time set, is signed and sealed
    for its recipient, and the packet is one that can be queued. *)
Lemma sealed_message id msg sess to text w :
  keypair id → message_ok msg → m_from msg = id_pk id → m_to msg = to → m_body msg = Some text →
  m_body_len msg = zlen text → text_ok text → session_ok sess → heap_ok w →
  ∃ msg' pkt freed, koe_message_sign msg (Some id) = Some (0, msg')
    ∧ w ⊢ koe_message_encrypt msg' sess ⇓ (0, pkt) ⊣ alloc (draw w) ∧ koe_message_free msg' = Some freed
    ∧ packet_fits pkt ∧ sealed_text (id_pk id) to sess text pkt.
Proof.
  intros Hk Hok Hfrom Hto Hbody Hlen (Hb & Hne & Hmax) Hs Hheap. unfold KOE_MAX_PAYLOAD in Hmax.
  destruct (koe_message_seal_run msg id sess w Hk Hok)
    as (msg' & pkt & freed & Hsign & Henc & Hfree & Hok' & Hf & Ht & Hb' & Hl & Hpok & Hplen & Hpto); [lia|done|done|].
  replace (set_m_from (id_pk id) msg) with msg in Hsign by (rewrite <-Hfrom; by destruct msg).
  assert (Hfit : packet_fits pkt) by (split; [done|]; rewrite Hplen, Hlen; unfold KOE_MAX_PAYLOAD; lia).
  exists msg', pkt, freed. split_and!; try done. split; [done|]. split; [done|]. split; [by rewrite Hpto|].
  exists msg', w, (alloc (draw w)).
  split_and!; try done; [by rewrite Hb'|by rewrite Hl|by rewrite Ht].
Qed.

Lemma koe_send_text_run ctx to text ttl sess d ps w :
  has_session ctx to sess → session_ok sess → array_ok 32 to → text_ok text → 0 ≤ ttl < 2 ^ 32 →
  q_db (c_queue ctx) = Some d → holds d to ps → zlen ps < q_max_per_peer (c_queue ctx) → zlen ps < 2 ^ 31 →
  (∀ j, (w_tick w ≤ j < w_tick w + 5)%nat → 0 ≤ w_clock w j < 2 ^ 62) → io_ok w → heap_ok w →
  ∃ id ctx' pkt t w', same_env w w'
    ∧ w ⊢ koe_send_text ctx (Some to) (Some text) ttl ⇓ (id, ctx') ⊣ w'
    ∧ has_session ctx' to sess ∧ c_keys ctx' = c_keys ctx
    ∧ c_queue ctx' = set_q_db (Some (enqueued d pkt t)) (c_queue ctx)
    ∧ sealed_text (id_pk (c_keys ctx)) to sess text pkt
    ∧ (w_tick w + 4 ≤ w_tick w' ≤ w_tick w + 5)%nat ∧ t = w_clock w (w_tick w' - 1).
Proof.
  intros (Hi & Hk & m & e & Hr & He & <-) Hs Hto Htext Httl Hq Hh Hroom H31 Hclk Hio Hheap. pose proof Htext as (Hb & Hne & _).
  destruct (koe_session_table_find_run (c_sessions ctx) m to e w Hr) as (tbl' & Hfind & Hr'); [apply Hto|done|].
  destruct (koe_message_alloc_run (c_counter ctx) KOE_MSG_TEXT to text (tick w))
    as (msg0 & c' & w1 & Henv1 & _ & Halloc & Hok0 & Hto0 & Hbody0 & Hlen0); [done..|].
  pose proof (koe_message_alloc_tick _ _ _ _ _ _ _ _ _ Halloc) as Ht1. cbn [tick w_tick] in Ht1.
  assert (Hclk1 : w_clock w1 = w_clock w) by apply Henv1.
  set (msg1 := set_m_from (id_pk (c_keys ctx)) msg0).
  assert (Hok1 : message_ok msg1).
  { destruct Hok0 as (? & ? & ? & ? & ?). destruct (keypair_ok _ Hk). by unfold message_ok. }
  destruct (set_destruct_run msg1 ttl w1) as (msg2 & w2 & Henv2 & Hdes & Ht2 & Hok2 & Hto2 & Hf2 & Hb2 & Hl2);
    [done|unfold now; rewrite Hclk1; apply Hclk; lia|done|].
  assert (Henv : same_env w w2) by (etransitivity; [exact Henv1|done]).
  assert (Hh2 : heap_ok w2) by (by eapply heap_ok_env).
  destruct (sealed_message (c_keys ctx) msg2 (e_sess e) to text w2)
    as (msg & pkt & freed & Hsign & Henc & Hfree & Hfit & Hsealed);
    [done|done|done|by rewrite Hto2|by rewrite Hb2|by rewrite Hl2|done..|].
  assert (Hpto' : h_to (p_header pkt) = to) by apply Hsealed.
  destruct (koe_queue_push_run (c_queue ctx) d pkt ps (alloc (draw w2))) as (w3 & Henv3 & Ht3 & Hpush);
    [done|by rewrite Hpto'|done|done|done| |by eapply io_ok_env|by eapply heap_ok_env|].
  { change (now (alloc (draw w2))) with (now w2). unfold now. destruct Henv as (-> & _). apply Hclk. lia. }
  change (now (alloc (draw w2))) with (now w2) in Hpush. cbn [alloc draw w_tick] in Ht3.
  eexists _, _, pkt, (now w2), w3. split; [by etransitivity|]. split.
  { unfold koe_send_text. rewrite Hi. cbn [negb].
    erewrite bind_run by exact Hfind. cbn [fst snd].
    erewrite bind_run by exact Halloc. cbn [fst snd set_c_counter set_c_sessions c_keys]. fold msg1.
    erewrite bind_run by exact Hdes. rewrite (bind_lift _ _ _ _ Hsign). cbn [fst snd].
    erewrite bind_run by exact Henc. cbn [fst snd Z.eqb].
    erewrite bind_run by (erewrite bind_run by exact Hpush; reflexivity). cbn [fst snd].
    rewrite (bind_lift _ _ _ _ Hfree). reflexivity. }
  split_and!; try done; try lia.
  - split; [done|]. split; [done|]. eexists _, _. split; [exact Hr'|]. by rewrite lookup_insert_eq.
  - rewrite Ht3. unfold now. destruct Henv as (-> & _). f_equal. lia.
Qed.

(** After a text was queued, the earlier and the new rows precede the next. *)
Lemma queued_before_step d to pkt t w w' n :
  same_env w w' → queued_before d to w (5 + n) → clock_spread (5 + n + 4) w → h_to (p_header pkt) = to →
  (w_tick w + 4 ≤ w_tick w' ≤ w_tick w + 5)%nat → t = w_clock w (w_tick w' - 1) →
  queued_before (enqueued d pkt t) to w' n.
Proof.
  intros (Hc & _) Hq Hclk <- Ht ->. unfold queued_before, enqueued, for_peer in *. cbn [d_queue].
  rewrite filter_app, (filter_cons_True (λ q, dq_to_pk q = h_to (p_header pkt))), filter_nil by done.
  apply Forall_app. rewrite Hc. split.
  - eapply Forall_impl; [exact Hq|]. simpl. intros r Hr j Hj Hjn. apply Hr; lia.
  - constructor; [|constructor]. cbn. intros j Hj Hjn. apply Hclk; lia.
Qed.

Lemma send_texts_run ctx to texts sess d ps w :
  has_session ctx to sess → session_ok sess → array_ok 32 to →
  Forall (λ t, text_ok t.1 ∧ 0 ≤ t.2 < 2 ^ 32) texts →
  q_db (c_queue ctx) = Some d → holds d to ps →
  zlen ps + zlen texts ≤ q_max_per_peer (c_queue ctx) → zlen ps + zlen texts < 2 ^ 31 →
  queued_before d to w (5 * length texts) → clock_spread (5 * length texts + 4) w → io_ok w → heap_ok w →
  ∃ ids ctx' pkts d' w', same_env w w'
    ∧ w ⊢ send_texts ctx to texts ⇓ (ids, ctx') ⊣ w'
    ∧ has_session ctx' to sess ∧ c_keys ctx' = c_keys ctx
    ∧ c_queue ctx' = set_q_db (Some d') (c_queue ctx)
    ∧ Forall2 (sealed_text (id_pk (c_keys ctx)) to sess) texts.*1 pkts
    ∧ holds d' to (ps ++ pkts) ∧ others d' to = others d to.
Proof.
  revert ctx d ps w. induction texts as [|[text ttl] texts IH];
    intros ctx d ps w Hses Hs Hto Hok Hq Hh Hmax H31 Hbefore Hclk Hio Hheap.
  - exists [], ctx, [], d, w. rewrite app_nil_r. split_and!; try done.
    destruct (c_queue ctx); simpl in *; by rewrite Hq.
  - apply Forall_cons in Hok as [[Htext Httl] Hok]. cbn [fst snd] in Htext, Httl.
    replace (5 * length ((text, ttl) :: texts))%nat with (5 + 5 * length texts)%nat in * by (simpl; lia).
    assert (Hz : zlen ((text, ttl) :: texts) = zlen texts + 1) by (unfold zlen; simpl; lia).
    assert (0 ≤ zlen texts) by (unfold zlen; lia).
    assert (Hc5 : ∀ j, (w_tick w ≤ j < w_tick w + 5)%nat → 0 ≤ w_clock w j < 2 ^ 62).
    { intros j Hj. destruct (Hclk j (j + 4)%nat) as (? & ? & ?); lia. }
    destruct (koe_send_text_run ctx to text ttl sess d ps w)
      as (id & ctx1 & pkt & t & w1 & Henv & Hrun & Hses1 & Hk1 & Hq1 & Hsealed & Ht & Htt); try done; [lia..|].
    pose proof Hsealed as (_ & Hfit & Hpto & _).
    assert (Hseq : Forall (λ r, dq_sequence r < t) (for_peer to (d_queue d))).
    { rewrite Htt. eapply Forall_impl; [exact Hbefore|]. simpl. intros r Hr. apply Hr; lia. }
    destruct (enqueued_holds d pkt ps t) as [Hh1 Ho1]; [by rewrite Hpto|done|by rewrite Hpto|].
    rewrite Hpto in Hh1, Ho1.
    destruct (IH ctx1 (enqueued d pkt t) (ps ++ [pkt]) w1)
      as (ids & ctx2 & pkts & d2 & w2 & Henv2 & Hrun2 & Hses2 & Hk2 & Hq2 & Hall & Hh2 & Ho2); try done.
    + by rewrite Hq1.
    + rewrite Hq1. cbn. unfold zlen in *. rewrite length_app. simpl. lia.
    + unfold zlen in *. rewrite length_app. simpl. lia.
    + by eapply queued_before_step.
    + intros i j Hi' Hij Hj. destruct Henv as (-> & _). apply Hclk; lia.
    + by eapply io_ok_env.
    + by eapply heap_ok_env.
    + eexists _, ctx2, (pkt :: pkts), d2, w2. split; [by etransitivity|]. split.
      { cbn [send_texts]. erewrite bind_run by exact Hrun. cbn [fst snd]. erewrite bind_run by exact Hrun2. reflexivity. }
      split_and!; try done; [congruence|by rewrite Hq2, Hq1| |by rewrite <-app_assoc in Hh2|congruence].
      rewrite fmap_cons. constructor; [done|]. by rewrite <-Hk1.
Qed.

(** The connection accepts every packet that fits. *)
Lemma send_to_sock_accepts fd p :
  0 ≤ fd → packet_fits p →
  accepts (send_to_sock fd) (λ s p, Sock (s_in s) (s_out s ++ frame p)) p.
Proof.
  intros Hfd Hfit s w Hio Hheap. destruct (koe_transport_send_run fd s p w) as (w' & Henv & Hrun); [done..|].
  by exists w'.
Qed.

Lemma foldl_frames s pkts :
  foldl (λ s p, Sock (s_in s) (s_out s ++ frame p)) s pkts = Sock (s_in s) (s_out s ++ concat (frame <$> pkts)).
Proof.
  revert s. induction pkts as [|p pkts IH]; intros s; simpl.
  - rewrite app_nil_r. by destruct s.
  - rewrite IH. cbn. by rewrite <-app_assoc.
Qed.

(** The peer opens what was sealed for it, in order. *)
Lemma recv_texts_run fd from to sa sb texts pkts ctx s pkt old w :
  0 ≤ fd → has_session ctx from sb → session_ok sa → rx_key sb = tx_key sa → array_ok 32 from →
  Forall2 (sealed_text from to sa) texts pkts → s_in s = concat (frame <$> pkts) → io_ok w → heap_ok w →
  ∃ msgs ctx' w',
    w ⊢ recv_texts (length pkts) fd s ctx pkt old ⇓ (msgs, ctx', Sock [] (s_out s)) ⊣ w'
    ∧ m_body <$> msgs = Some <$> texts
    ∧ Forall (λ m, m_from m = from ∧ m_to m = to ∧ m_status m = KOE_STATUS_DELIVERED) msgs.
Proof.
  intros Hfd Hses Hsa Hkey Hfrom Hall. revert ctx s pkt w Hses.
  induction Hall as [|text p texts pkts Hp Hall IH]; intros ctx s pkt w Hses Hin Hio Hheap.
  - exists [], ctx, w. split; [|done]. cbn. destruct s. simpl in *. by subst.
  - destruct Hp as ((_ & _ & Hmax) & Hfit & Hpto & msg & we & we' & Hhe & Henc & Hmok & Hmb & Hml & Hmf & Hmt).
    destruct (koe_transport_recv_run fd s p pkt (concat (frame <$> pkts)) w) as (w1 & Henv1 & Hrecv); [done..|].
    pose proof Hses as (Hi & Hk & m & e & Hr & He & Hes).
    destruct (koe_session_table_find_run (c_sessions ctx) m from e w1 Hr) as (tbl' & Hfind & Hr'); [apply Hfrom|done|].
    destruct (seal_open_run msg old sa sb we (tick w1))
      as (p' & we'' & msg' & w2 & Henc' & _ & Hdec & R1 & _ & R2 & R3 & R4 & _ & Hf); try done.
    { unfold KOE_MAX_PAYLOAD in Hmax. lia. }
    { by eapply (heap_ok_env w). }
    rewrite Henc in Henc'. injection Henc' as <- <-.
    assert (Henv2 : same_env w w2).
    { etransitivity; [exact Henv1|]. by eapply koe_message_decrypt_env in Hdec. }
    destruct (IH (set_c_sessions tbl' ctx) (Sock (concat (frame <$> pkts)) (s_out s)) (koe_packet_free p) w2)
      as (msgs & ctx' & w' & Hrun & Hbodies & Hmsgs).
    + split; [done|]. split; [done|]. eexists _, _. split; [exact Hr'|]. by rewrite lookup_insert_eq.
    + done.
    + by eapply io_ok_env.
    + by eapply heap_ok_env.
    + exists (msg' :: msgs), ctx', w'. split_and!.
      * cbn [length recv_texts]. erewrite bind_run by exact Hrecv. cbn [fst snd Z.eqb negb].
        assert (Hopen : w1 ⊢ koe_message_recv_and_decrypt ctx p old ⇓ (0, set_c_sessions tbl' ctx, msg') ⊣ w2).
        { unfold koe_message_recv_and_decrypt. rewrite Hi, Hf, Hmf. cbn [negb].
          erewrite bind_run by exact Hfind. cbn [fst snd]. rewrite Hes.
          by erewrite bind_run by exact Hdec. }
        erewrite bind_run by exact Hopen. cbn [fst snd Z.eqb negb].
        erewrite bind_run by exact Hrun. reflexivity.
      * rewrite !fmap_cons, R1, Hmb. by f_equal.
      * constructor; [|done]. by rewrite R2, R3, R4, Hmf, Hmt.
Qed.

End Proofs.

(** * Delivery *)


(** * Witness *)
#[local] Existing Instance toy_sodium.
#[local] Existing Instance toy_laws.

