(* ===== verification/Example.v ===== *)
(** The example program (examples/send_message.c): two identities, a handshake,
    a session table, one message sealed and opened; the program's standard output
    is part of its result. *)

From S2P Require Import Prelude Version Crc32 Packet Crypto Session Handshake Message Core.
Import Strings.String.StringSyntax.

(** * Output *)
Definition nl : bytes := [10].

(** At most 16 octets of [data], which has [len] of them. *)
Definition print_hex (label data : bytes) (len : nat) : option bytes :=
  shown ← peek data 0 (len `min` 16);
  Some (label ++ str ": " ++ concat (hex_byte <$> shown) ++ (if (16 <? len)%nat then str "..." else []) ++ nl).

(** [%.*s]: up to [n] characters or the terminator, whichever comes first; a
    negative precision counts as none, and then there has to be a terminator. *)
Definition printf_prec (n : Z) (s : bytes) : option bytes :=
  if n <? 0 then if decide (0 ∈ s) then Some (cstr s) else None
  else if decide (0 ∈ s ∨ n ≤ zlen s) then Some (cstr (take (Z.to_nat n) s)) else None.

(** * The program *)
Section Program.
Context `{Sodium}.
(** What the uninitialised local variables hold. *)
Context (any_id : koe_identity_t) (any_pkt : koe_packet_t).

(** [koe_message_t recv_msg = {0}]. *)
Definition zero_message : koe_message_t :=
  KoeMessage 0 KOE_MSG_TEXT KOE_STATUS_PENDING (zeros 32) (zeros 32) None 0 (zeros 64) 0 0 0 0 0 0 false.

Definition msg_text : bytes := str "Hello Bob! This is Alice.".

Definition packet_line (what : bytes) (pkt : koe_packet_t) : bytes :=
  what ++ dec_int (h_type (p_header pkt)) ++ str ", len=" ++ dec_string (h_length (p_header pkt)) ++ str ")" ++ nl.

(** The exit code and the output. The codes of the library calls before the
    encryption are ignored. *)
Definition main : M (Z * bytes) :=
  let out := str "=== Koe Message Send Example ===" ++ nl ++ nl in
  let _ := koe_crypto_init in
  a ← koe_identity_generate any_id;
  b ← koe_identity_generate any_id;
  let alice := a.2 in let bob := b.2 in
  l1 ← lift (print_hex (str "Alice") (id_pk alice) 32);
  l2 ← lift (print_hex (str "Bob") (id_pk bob) 32);
  let out := out ++ l1 ++ l2 ++ nl ++ str "--- Handshake: Alice -> Bob ---" ++ nl in
  i ← koe_handshake_init any_pkt alice (id_pk bob);
  let hs_a := i.1.2 in let hello := i.2 in
  let out := out ++ packet_line (str "HELLO created (type=") hello in
  r ← koe_handshake_respond any_pkt hello bob;
  let hs_b := r.1.2 in let hello_ack := r.2 in
  let out := out ++ packet_line (str "HELLO_ACK created (type=") hello_ack in
  f ← lift (koe_handshake_finalise hs_a hello_ack alice);
  let hs_a := f.2 in
  let out := out ++ str "Session established!" ++ nl in
  l3 ← lift (print_hex (str "Alice tx_key") (tx_key (hs_session hs_a)) 8);
  l4 ← lift (print_hex (str "Alice rx_key") (rx_key (hs_session hs_a)) 8);
  let out := out ++ l3 ++ l4 ++ nl ++ str "--- Session table ---" ++ nl in
  t ← koe_session_table_add koe_session_table_init (Some (id_pk bob)) (Some (hs_session hs_a));
  s ← koe_session_table_find t.2 (Some (id_pk bob));
  let out := out ++ match s.1 with Some _ => str "Session found with Bob!" ++ nl | None => [] end in
  let out := out ++ nl ++ str "--- Send message ---" ++ nl in
  m ← koe_message_alloc 0 KOE_MSG_TEXT (Some (id_pk bob)) (Some msg_text) (zlen msg_text);
  msg ← lift m.1;
  g ← lift (koe_message_sign (set_m_from (id_pk alice) msg) (Some alice));
  let msg := g.2 in
  let out := out ++ str "Message: " ++ msg_text ++ nl in
  sess ← lift s.1;
  e ← koe_message_encrypt msg sess;
  let pkt := e.2 in
  out ← (if e.1 =? 0 then
           let out := out ++ str "Encrypted! Packet type=" ++ dec_int (h_type (p_header pkt))
                      ++ str ", length=" ++ dec_string (h_length (p_header pkt)) ++ nl
                      ++ nl ++ str "--- Receive and decrypt ---" ++ nl in
           d ← koe_message_decrypt zero_message pkt (hs_session hs_b);
           if d.1 =? 0 then
             body ← lift (m_body d.2);
             line ← lift (printf_prec (i32 (m_body_len d.2)) body);
             mret (out ++ str "Decrypted message: " ++ line ++ nl)
           else mret (out ++ str "Decrypt failed!" ++ nl)
         else mret (out ++ str "Encrypt failed!" ++ nl));
  _ ← lift (koe_message_free msg);
  mret (0, out ++ nl ++ str "=== Success! ===" ++ nl).
End Program.

(** What a successful run prints. *)
Definition hex_line (label data : bytes) (dots : bytes) : bytes :=
  label ++ str ": " ++ concat (hex_byte <$> data) ++ dots ++ nl.
Definition transcript (alice bob tx rx : bytes) : bytes :=
  str "=== Koe Message Send Example ===" ++ nl ++ nl
  ++ hex_line (str "Alice") (take 16 alice) (str "...") ++ hex_line (str "Bob") (take 16 bob) (str "...")
  ++ nl ++ str "--- Handshake: Alice -> Bob ---" ++ nl
  ++ str "HELLO created (type=1, len=130)" ++ nl
  ++ str "HELLO_ACK created (type=2, len=130)" ++ nl
  ++ str "Session established!" ++ nl
  ++ hex_line (str "Alice tx_key") (take 8 tx) [] ++ hex_line (str "Alice rx_key") (take 8 rx) []
  ++ nl ++ str "--- Session table ---" ++ nl ++ str "Session found with Bob!" ++ nl
  ++ nl ++ str "--- Send message ---" ++ nl ++ str "Message: Hello Bob! This is Alice." ++ nl
  ++ str "Encrypted! Packet type=4, length=41" ++ nl
  ++ nl ++ str "--- Receive and decrypt ---" ++ nl
  ++ str "Decrypted message: Hello Bob! This is Alice." ++ nl
  ++ nl ++ str "=== Success! ===" ++ nl.

(** * Its run *)
Section Run.
Context `{SodiumLaws}.

(** A printed key of at least [len] octets. *)
Lemma print_hex_long label data len :
  (len ≤ length data)%nat →
  print_hex label data len
  = Some (hex_line label (take (len `min` 16) data) (if (16 <? len)%nat then str "..." else [])).
Proof. intros Hl. unfold print_hex. rewrite peek_defined by lia. cbn. by rewrite drop_0. Qed.

Lemma koe_handshake_init_env out id pk r w w' : w ⊢ koe_handshake_init out id pk ⇓ r ⊣ w' → same_env w w'.
Proof.
  unfold koe_handshake_init, koe_ephemeral_generate. intros Hr. mrun. repeat (case_match; mrun); simplify_eq; done.
Qed.

(** A reply that was produced is a HELLO_ACK of 130 octets. *)
Lemma koe_handshake_respond_ack out hello id hs ack w w' :
  w ⊢ koe_handshake_respond out hello id ⇓ (0, hs, ack) ⊣ w' →
  same_env w w' ∧ h_type (p_header ack) = type_code KOE_TYPE_HELLO_ACK ∧ h_length (p_header ack) = 130.
Proof.
  unfold koe_handshake_respond, koe_ephemeral_generate. intros Hr. mrun. repeat (case_match; mrun); simplify_eq; done.
Qed.

Lemma koe_message_encrypt_type msg sess pkt w w' :
  w ⊢ koe_message_encrypt msg sess ⇓ (0, pkt) ⊣ w' → h_type (p_header pkt) = 4.
Proof.
  unfold koe_message_encrypt, koe_nonce_generate. intros Hr. mrun. repeat (case_match; mrun); simplify_eq; done.
Qed.

(** The session just added is found. *)
Lemma session_add_find pk sess w :
  array_ok 32 pk →
  ∃ tbl tbl', w ⊢ koe_session_table_add koe_session_table_init (Some pk) (Some sess) ⇓ (0, tbl) ⊣ tick (tick w)
    ∧ tick (tick w) ⊢ koe_session_table_find tbl (Some pk) ⇓ (Some sess, tbl') ⊣ tick (tick (tick w)).
Proof.
  intros Hpk. set (e := KoeSessionEntry pk sess (now w) (now (tick w)) true).
  assert (Hr : refines (KoeSessionTable (<[0%nat := e]> (t_entries koe_session_table_init)) 1) (<[pk := e]> ∅)).
  { apply (refines_insert_new koe_session_table_init 0 zero_entry e ∅); try done; [|apply Hpk].
    apply koe_session_table_init_refines. }
  destruct (koe_session_table_find_run _ _ pk e (tick (tick w)) Hr) as (tbl' & Hfind & _);
    [apply Hpk|apply lookup_insert_eq|].
  eexists _, tbl'. split; [|exact Hfind]. done.
Qed.

(** Both sides of the handshake, one after the other. *)
Lemma example_handshake any_pkt alice bob w :
  keypair alice → keypair bob → heap_ok w →
  ∃ hsa hello w1 hsb ack w2 hsa', same_env w w2
    ∧ w ⊢ koe_handshake_init any_pkt alice (id_pk bob) ⇓ (0, hsa, hello) ⊣ w1
    ∧ w1 ⊢ koe_handshake_respond any_pkt hello bob ⇓ (0, hsb, ack) ⊣ w2
    ∧ koe_handshake_finalise hsa ack alice = Some (0, hsa')
    ∧ tx_key (hs_session hsa') = rx_key (hs_session hsb) ∧ rx_key (hs_session hsa') = tx_key (hs_session hsb)
    ∧ session_ok (hs_session hsa')
    ∧ packet_line (str "HELLO created (type=") hello = str "HELLO created (type=1, len=130)" ++ nl
    ∧ packet_line (str "HELLO_ACK created (type=") ack = str "HELLO_ACK created (type=2, len=130)" ++ nl.
Proof.
  intros Hka Hkb Hheap. destruct (keypair_ok _ Hkb) as [Hpkb _].
  destruct (koe_handshake_init_run any_pkt alice (id_pk bob) w Hka Hpkb Hheap) as (ea & sig & _ & Hinit & _).
  pose proof (koe_handshake_init_env _ _ _ _ _ _ Hinit) as Henv.
  destruct (koe_handshake_run any_pkt any_pkt alice bob (id_pk bob) w (alloc (draw w)) Hka Hkb Hpkb)
    as (hsa & hello & w1 & hsb & ack & w2 & hsa' & Hinit' & _ & _ & Hresp & _ & _ & Hfin & _ & _ & Hk & Hk' & Hses & _);
    [done|done|].
  rewrite Hinit in Hinit'. injection Hinit' as <- <- _.
  destruct (koe_handshake_respond_ack _ _ _ _ _ _ _ Hresp) as (Henv2 & Hat & Hal).
  eexists _, _, _, hsb, ack, w2, hsa'. split; [by etransitivity|].
  split_and!; [exact Hinit|exact Hresp|exact Hfin|done|done|done|done|]. unfold packet_line. by rewrite Hat, Hal.
Qed.

(** The message, from its allocation to the text that is decrypted. *)
Lemma example_message alice pk sa sb w :
  keypair alice → array_ok 32 pk → session_ok sa → tx_key sa = rx_key sb → heap_ok w →
  ∃ msg c w1 msg' pkt w2 freed rmsg w3,
    w ⊢ koe_message_alloc 0 KOE_MSG_TEXT (Some pk) (Some msg_text) (zlen msg_text) ⇓ (Some msg, c) ⊣ w1
    ∧ koe_message_sign (set_m_from (id_pk alice) msg) (Some alice) = Some (0, msg')
    ∧ w1 ⊢ koe_message_encrypt msg' sa ⇓ (0, pkt) ⊣ w2 ∧ koe_message_free msg' = Some freed
    ∧ w2 ⊢ koe_message_decrypt zero_message pkt sb ⇓ (0, rmsg) ⊣ w3
    ∧ m_body rmsg = Some msg_text ∧ m_body_len rmsg = 25
    ∧ h_type (p_header pkt) = 4 ∧ h_length (p_header pkt) = 41.
Proof.
  intros Hka Hpk Hses Hk Hheap. destruct (koe_message_alloc_run 0 KOE_MSG_TEXT pk msg_text w)
    as (msg & c & w1 & Henv & _ & Halloc & Hmok & Hmto & Hmb & Hml);
    [done|apply (bool_decide_unpack _); vm_compute; exact I|done|done|].
  change (zlen msg_text) with 25 in *.
  assert (Hh1 : heap_ok w1) by (by eapply heap_ok_env).
  destruct (koe_message_seal_run msg alice sa w1 Hka Hmok)
    as (msg' & pkt & freed & Hsign & Henc & Hfree & Hmok' & Hmf' & Hmt' & Hmb' & Hml' & _ & Hplen & _); [lia|done|done|].
  destruct (seal_open_run msg' zero_message sa sb w1 (alloc (draw w1)))
    as (pkt' & w6 & rmsg & w3 & Henc' & _ & Hdec & Hrb & Hrl & _); [done|lia|done|done|done|done|].
  rewrite Henc in Henc'. injection Henc' as <- <-.
  eexists msg, c, w1, msg', pkt, _, freed, rmsg, w3. split_and!; try done.
  - by rewrite Hrb, Hmb', Hmb.
  - by rewrite Hrl, Hml'.
  - by eapply koe_message_encrypt_type.
  - by rewrite Hplen, Hml.
Qed.

(** C9: whatever the uninitialised variables hold and whatever keys are drawn,
    while memory lasts, the example program exits with 0 and prints the whole
    transcript: the two identities are the ones generated, in that order; the
    handshake between them completes on both sides, and the two keys printed are
    those of Alice's finished session, which Bob's session holds the other way
    round; the table finds the session, and the message that was encrypted for
    Bob is decrypted to the same text. *)
Theorem send_message_prints (any_id : koe_identity_t) (any_pkt : koe_packet_t) (w : world) :
  heap_ok w →
  ∃ alice w1 bob w2 hsa hello w3 hsb ack w4 hsa' w',
    w ⊢ koe_identity_generate any_id ⇓ (0, alice) ⊣ w1
    ∧ w1 ⊢ koe_identity_generate any_id ⇓ (0, bob) ⊣ w2
    ∧ keypair alice ∧ keypair bob
    ∧ w2 ⊢ koe_handshake_init any_pkt alice (id_pk bob) ⇓ (0, hsa, hello) ⊣ w3
    ∧ w3 ⊢ koe_handshake_respond any_pkt hello bob ⇓ (0, hsb, ack) ⊣ w4
    ∧ koe_handshake_finalise hsa ack alice = Some (0, hsa')
    ∧ tx_key (hs_session hsa') = rx_key (hs_session hsb) ∧ rx_key (hs_session hsa') = tx_key (hs_session hsb)
    ∧ session_ok (hs_session hsa')
    ∧ w ⊢ main any_id any_pkt
        ⇓ (0, transcript (id_pk alice) (id_pk bob) (tx_key (hs_session hsa')) (rx_key (hs_session hsa'))) ⊣ w'.
Proof.
  intros Hheap.
  destruct (koe_identity_generate_run any_id w) as (alice & Ha & Hka).
  destruct (koe_identity_generate_run any_id (draw w)) as (bob & Hb & Hkb).
  destruct (keypair_ok _ Hka) as [Hpka _]. destruct (keypair_ok _ Hkb) as [Hpkb _].
  destruct (example_handshake any_pkt alice bob (draw (draw w)) Hka Hkb Hheap)
    as (hsa & hello & w2 & hsb & ack & w3 & hsa' & Henv3 & Hinit & Hresp & Hfin & Hk & Hk' & Hses & Hl1 & Hl2).
  destruct (session_add_find (id_pk bob) (hs_session hsa') w3 Hpkb) as (tbl & tbl' & Hadd & Hfind).
  set (w4 := tick (tick (tick w3))) in *.
  assert (Hh4 : heap_ok w4).
  { apply (heap_ok_env w3); [done|]. by eapply heap_ok_env; [exact Henv3|]. }
  destruct (example_message alice (id_pk bob) (hs_session hsa') (hs_session hsb) w4)
    as (msg & c & w5 & msg' & pkt & w6 & freed & rmsg & w7 & Halloc & Hsign & Henc & Hfree & Hdec & Hrb & Hrl & Hpt & Hpl);
    [done..|].
  exists alice, (draw w), bob, (draw (draw w)), hsa, hello, w2, hsb, ack, w3, hsa', w7.
  split_and!; [done..|]. unfold main.
  erewrite bind_run by exact Ha. erewrite bind_run by exact Hb. cbn [fst snd].
  destruct Hpka as [Hla Hpka], Hpkb as [Hlb Hpkb]. destruct Hses as [[Hlt Htx] [Hlr Hrx]].
  rewrite (bind_lift _ _ _ _ (print_hex_long (str "Alice") (id_pk alice) 32 ltac:(lia))).
  rewrite (bind_lift _ _ _ _ (print_hex_long (str "Bob") (id_pk bob) 32 ltac:(lia))).
  erewrite bind_run by exact Hinit. cbn [fst snd].
  erewrite bind_run by exact Hresp. cbn [fst snd].
  rewrite (bind_lift _ _ _ _ Hfin). cbn [fst snd].
  rewrite (bind_lift _ _ _ _ (print_hex_long (str "Alice tx_key") (tx_key (hs_session hsa')) 8 ltac:(lia))).
  rewrite (bind_lift _ _ _ _ (print_hex_long (str "Alice rx_key") (rx_key (hs_session hsa')) 8 ltac:(lia))).
  erewrite bind_run by exact Hadd. cbn [fst snd]. erewrite bind_run by exact Hfind. cbn [fst snd]. fold w4.
  erewrite bind_run by exact Halloc. cbn [fst snd]. rewrite (bind_lift _ _ _ msg) by done.
  rewrite (bind_lift _ _ _ _ Hsign). cbn [fst snd]. rewrite (bind_lift _ _ _ (hs_session hsa')) by done.
  erewrite bind_run by exact Henc. cbn [fst snd Z.eqb].
  erewrite bind_run.
  2:{ erewrite bind_run by exact Hdec. cbn [fst snd Z.eqb].
      rewrite (bind_lift _ _ _ msg_text) by exact Hrb.
      rewrite (bind_lift _ _ _ msg_text) by (rewrite Hrl; vm_compute; reflexivity). reflexivity. }
  rewrite (bind_lift _ _ _ _ Hfree). unfold mret, M_ret. do 3 f_equal.
  rewrite Hl1, Hl2, Hpt, Hpl. unfold transcript.
  rewrite <-!app_assoc. reflexivity.
Qed.
End Run.

#[local] Existing Instance toy_sodium.
#[local] Existing Instance toy_laws.

Lemma send_message_prints_witness :
  ∃ alice bob tx rx w',
    world_at 1 ⊢ main (toy_identity 1) witness_packet ⇓ (0, transcript alice bob tx rx) ⊣ w'
    ∧ length tx = 32%nat ∧ length rx = 32%nat.
Proof.
  destruct (send_message_prints (toy_identity 1) witness_packet (world_at 1))
    as (alice & _ & bob & _ & _ & _ & _ & _ & _ & _ & hsa & w' & _ & _ & _ & _ & _ & _ & _ & _ & _ & Hs & Hrun).
  - intros i. reflexivity.
  - exists (id_pk alice), (id_pk bob), (tx_key (hs_session hsa)), (rx_key (hs_session hsa)), w'.
    destruct Hs as [[Htx _] [Hrx _]]. split; [exact Hrun|]. split; [exact Htx|exact Hrx].
Defined.
