(* ===== verification/Event.v ===== *)
(** The event queue (src/koe_event.c, include/koe_event.h): a ring of 512 events
    with 32-bit indices, listeners, and the dispatch loop. *)

From S2P Require Import Prelude.

(** * Data *)
Inductive koe_event_type_t :=
  | KOE_EV_NONE | KOE_EV_MSG_RECEIVED | KOE_EV_MSG_DELIVERED | KOE_EV_MSG_READ |
  KOE_EV_MSG_FAILED | KOE_EV_PEER_ONLINE | KOE_EV_PEER_OFFLINE | KOE_EV_PEER_DISCOVERED |
  KOE_EV_PEER_TYPING | KOE_EV_PEER_STOPPED_TYPING | KOE_EV_HANDSHAKE_DONE |
  KOE_EV_SESSION_EXPIRED | KOE_EV_CALL_INCOMING | KOE_EV_CALL_ACCEPTED |
  KOE_EV_CALL_REJECTED | KOE_EV_CALL_ENDED | KOE_EV_CALL_AUDIO_FRAME |
  KOE_EV_CONTACT_REQUEST | KOE_EV_CONTACT_ACCEPTED | KOE_EV_CONTACT_BLOCKED |
  KOE_EV_CONTACT_VERIFIED | KOE_EV_MEDIA_OFFER | KOE_EV_MEDIA_ACCEPTED |
  KOE_EV_MEDIA_REJECTED | KOE_EV_MEDIA_PROGRESS | KOE_EV_MEDIA_DONE | KOE_EV_MEDIA_FAILED |
  KOE_EV_KEY_REVOKED | KOE_EV_IDENTITY_SWITCHED | KOE_EV_DESTRUCT_FIRED |
  KOE_EV_SCHEDULED_DUE | KOE_EV_QUEUE_DRAINED | KOE_EV_GROUP_MSG | KOE_EV_GROUP_MEMBER_JOIN
  | KOE_EV_GROUP_MEMBER_LEAVE | KOE_EV_GROUP_KICKED | KOE_EV_GROUP_META_UPDATE |
  KOE_EV_ERROR.

Definition event_code (t : koe_event_type_t) : Z :=
  match t with
  | KOE_EV_NONE => 0 | KOE_EV_MSG_RECEIVED => 1 | KOE_EV_MSG_DELIVERED => 2 |
  KOE_EV_MSG_READ => 3 | KOE_EV_MSG_FAILED => 4 | KOE_EV_PEER_ONLINE => 5 |
  KOE_EV_PEER_OFFLINE => 6 | KOE_EV_PEER_DISCOVERED => 7 | KOE_EV_PEER_TYPING => 8 |
  KOE_EV_PEER_STOPPED_TYPING => 9 | KOE_EV_HANDSHAKE_DONE => 10 | KOE_EV_SESSION_EXPIRED =>
  11 | KOE_EV_CALL_INCOMING => 12 | KOE_EV_CALL_ACCEPTED => 13 | KOE_EV_CALL_REJECTED => 14
  | KOE_EV_CALL_ENDED => 15 | KOE_EV_CALL_AUDIO_FRAME => 16 | KOE_EV_CONTACT_REQUEST => 17 |
  KOE_EV_CONTACT_ACCEPTED => 18 | KOE_EV_CONTACT_BLOCKED => 19 | KOE_EV_CONTACT_VERIFIED =>
  20 | KOE_EV_MEDIA_OFFER => 21 | KOE_EV_MEDIA_ACCEPTED => 22 | KOE_EV_MEDIA_REJECTED => 23
  | KOE_EV_MEDIA_PROGRESS => 24 | KOE_EV_MEDIA_DONE => 25 | KOE_EV_MEDIA_FAILED => 26 |
  KOE_EV_KEY_REVOKED => 27 | KOE_EV_IDENTITY_SWITCHED => 28 | KOE_EV_DESTRUCT_FIRED => 29 |
  KOE_EV_SCHEDULED_DUE => 30 | KOE_EV_QUEUE_DRAINED => 31 | KOE_EV_GROUP_MSG => 32 |
  KOE_EV_GROUP_MEMBER_JOIN => 33 | KOE_EV_GROUP_MEMBER_LEAVE => 34 | KOE_EV_GROUP_KICKED =>
  35 | KOE_EV_GROUP_META_UPDATE => 36 | KOE_EV_ERROR => 63
  end.

(** The union is kept as its bytes. *)
Record koe_event_t := KoeEvent {
  ev_type : Z;
  ev_timestamp : Z;
  ev_suppressed : bool;
  ev_data : bytes;
}.
#[export] Instance koe_event_t_inhabited : Inhabited koe_event_t := populate (KoeEvent 0 0 false []).

Definition set_timestamp (t : Z) (ev : koe_event_t) : koe_event_t :=
  KoeEvent (ev_type ev) t (ev_suppressed ev) (ev_data ev).

Definition RING_SIZE : Z := 512.
Definition RING_MASK : Z := RING_SIZE - 1.

Record koe_ring_t := KoeRing { r_events : list koe_event_t; r_head : Z; r_tail : Z }.

(** A callback is a function pointer (a number, compared by unregistration) and
    its context. *)
Record koe_listener_t := KoeListener { l_fn : nat; l_ctx : nat }.
#[export] Instance koe_listener_t_eq_dec : EqDecision koe_listener_t.
Proof. solve_decision. Defined.

Definition KOE_MAX_LISTENERS : nat := 32.

(** The static state of koe_event.c; [es_listeners] is the first
    [s_listener_count] entries of the table. *)
Record event_state := EventState {
  es_ring : koe_ring_t;
  es_listeners : list koe_listener_t;
  es_initialised : bool;
}.

Definition ring_init : koe_ring_t := KoeRing (replicate 512 (KoeEvent 0 0 false [])) 0 0.
Definition event_boot : event_state := EventState ring_init [] false.

Definition ensure_init (s : event_state) : event_state :=
  if es_initialised s then s else EventState ring_init (es_listeners s) true.
Definition set_ring (r : koe_ring_t) (s : event_state) : event_state :=
  EventState r (es_listeners s) (es_initialised s).

(** * Listeners *)
Definition koe_event_register (s : event_state) (l : koe_listener_t) : Z * event_state :=
  let s := ensure_init s in
  if (KOE_MAX_LISTENERS <=? length (es_listeners s))%nat then (-1, s)
  else (0, EventState (es_ring s) (es_listeners s ++ [l]) (es_initialised s)).

(** The last listener takes the place of the removed one. *)
Definition koe_event_unregister (s : event_state) (fn : nat) : Z * event_state :=
  let ls := es_listeners s in
  match list_find (λ l, l_fn l = fn) ls with
  | Some (i, _) =>
      let n := (length ls - 1)%nat in
      match ls !! n with
      | Some lst => (0, EventState (es_ring s) (take n (<[i := lst]> ls)) (es_initialised s))
      | None => (0, s)
      end
  | None => (-1, s)
  end.

(** * The ring *)
Definition slot (x : Z) : nat := Z.to_nat (Z.land x RING_MASK).

(** One post, run to completion. *)
Definition ring_post (r : koe_ring_t) (ev : koe_event_t) : koe_ring_t :=
  let tail := r_tail r in
  let head := r_head r in
  let head' := if RING_SIZE <=? u32 (tail - head) then u32 (head + 1) else head in
  KoeRing (<[slot tail := ev]> (r_events r)) head' (u32 (tail + 1)).

Definition koe_event_post (s : event_state) (ev : koe_event_t) : M (Z * event_state) :=
  let s := ensure_init s in
  t ← time_null;
  mret (0, set_ring (ring_post (es_ring s) (set_timestamp t ev)) s).

(** The timer pumps have no statements. *)
Definition koe_event_pump_destruct (s : event_state) : event_state := s.
Definition koe_event_pump_scheduled (s : event_state) : event_state := s.
Definition koe_event_pump_presence (s : event_state) : event_state := s.
Definition koe_event_pump_ping (s : event_state) : event_state := s.

Section Polling.
(** What a callback may do to the queue while it runs. *)
Inductive action := Post (ev : koe_event_t) | Register (l : koe_listener_t) | Unregister (fn : nat).

Definition act (s : event_state) (a : action) : M event_state :=
  match a with
  | Post ev => r ← koe_event_post s ev; mret r.2
  | Register l => mret (koe_event_register s l).2
  | Unregister fn => mret (koe_event_unregister s fn).2
  end.
Fixpoint act_all (s : event_state) (acts : list action) : M event_state :=
  match acts with
  | [] => mret s
  | a :: acts' => s ← act s a; act_all s acts'
  end.
Definition post_all (s : event_state) (evs : list koe_event_t) : M event_state := act_all s (Post <$> evs).

(** The application: what a callback does to its state, and its actions on the
    queue. [plugins] is [koe_plugin_dispatch] on the registry, which is part of
    the state, when there is one; [None] is a call that does not return. *)
Context {S : Type} (call : koe_listener_t → koe_event_t → S → S * list action).
Context (plugins : option (koe_event_t → S → option (koe_event_t * S))).

(** The [for] loop, from listener [i] on. The count and the table are read anew
    in every turn, since a callback may have changed them; the table has
    [KOE_MAX_LISTENERS] places, so there are no more turns than that. *)
Fixpoint call_listeners (turns i : nat) (ev : koe_event_t) (s : event_state) (app : S) : M (event_state * S) :=
  match turns, es_listeners s !! i with
  | Datatypes.S turns', Some l =>
      let '(app, acts) := call l ev app in
      s ← act_all s acts;
      call_listeners turns' (Datatypes.S i) ev s app
  | _, _ => mret (s, app)
  end.

Definition plugin_pass (ev : koe_event_t) (app : S) : option (koe_event_t * S) :=
  if (ev_type ev =? event_code KOE_EV_MSG_RECEIVED) || (ev_type ev =? event_code KOE_EV_MEDIA_OFFER)
  then match plugins with Some f => f ev app | None => Some (ev, app) end
  else Some (ev, app).

(** The [while] loop; [None] when [fuel] iterations are not enough. *)
Fixpoint poll_loop (fuel : nat) (s : event_state) (app : S) (dispatched : Z)
  : M (option (Z * event_state * S)) :=
  let r := es_ring s in
  if r_head r =? r_tail r then mret (Some (dispatched, s, app))
  else
    match fuel with
    | O => mret None
    | Datatypes.S fuel' =>
        p ← lift (plugin_pass (r_events r !!! slot (r_head r)) app);
        let s := set_ring (KoeRing (r_events r) (u32 (r_head r + 1)) (r_tail r)) s in
        r' ← (if ev_suppressed p.1 then mret (s, p.2) else call_listeners KOE_MAX_LISTENERS 0 p.1 s p.2);
        poll_loop fuel' r'.1 r'.2 (dispatched + 1)
    end.

Definition koe_event_poll (fuel : nat) (s : event_state) (app : S) : M (option (Z * event_state * S)) :=
  let s := koe_event_pump_destruct s in
  let s := koe_event_pump_scheduled s in
  let s := koe_event_pump_presence s in
  let s := koe_event_pump_ping s in
  poll_loop fuel s app 0.
End Polling.

(** * The ring as a bounded queue *)
Definition ring_ok (r : koe_ring_t) : Prop :=
  length (r_events r) = 512%nat ∧ 0 ≤ r_head r < 2 ^ 32 ∧ 0 ≤ r_tail r < 2 ^ 32
  ∧ u32 (r_tail r - r_head r) ≤ RING_SIZE.

(** The events from [head] up to [tail], whatever the indices wrapped to. *)
Definition slots (evs : list koe_event_t) (head : Z) (n : nat) : list koe_event_t :=
  (λ i, evs !!! slot (u32 (head + Z.of_nat i))) <$> seq 0 n.
Definition contents (r : koe_ring_t) : list koe_event_t :=
  slots (r_events r) (r_head r) (Z.to_nat (u32 (r_tail r - r_head r))).

Lemma slot_mod x : slot (u32 x) = Z.to_nat (x `mod` 512).
Proof.
  unfold slot, u32, RING_MASK, RING_SIZE. change (512 - 1) with (Z.ones 9).
  rewrite Z.land_ones by lia. change (2 ^ 9) with 512. f_equal. lia.
Qed.
Lemma slot_lt x : (slot (u32 x) < 512)%nat.
Proof. rewrite slot_mod. lia. Qed.

Lemma ring_init_ok : ring_ok ring_init ∧ contents ring_init = [].
Proof. by vm_compute. Qed.

Lemma length_contents r : length (contents r) = Z.to_nat (u32 (r_tail r - r_head r)).
Proof. unfold contents, slots. by rewrite length_fmap, length_seq. Qed.

(** Writing at [tail] when [m < 512] slots are in use. *)
Lemma slots_snoc evs head tail m ev :
  length evs = 512%nat → (m < 512)%nat → tail = u32 (head + Z.of_nat m) →
  slots (<[slot tail := ev]> evs) head (S m) = slots evs head m ++ [ev].
Proof.
  intros Hlen Hm ->. unfold slots. rewrite seq_S, fmap_app. simpl. f_equal.
  - apply list_fmap_ext. intros k i Hi. apply lookup_seq in Hi as [-> Hk].
    rewrite list_lookup_total_insert_ne; [done|]. rewrite !slot_mod. simpl. lia.
  - f_equal. apply list_lookup_total_insert_eq. rewrite Hlen. apply slot_lt.
Qed.

Lemma slots_tail evs head n :
  tail (slots evs head (S n)) = slots evs (u32 (head + 1)) n.
Proof.
  unfold slots. simpl. rewrite <-fmap_S_seq, <-list_fmap_compose. apply list_fmap_ext.
  intros k i _. unfold compose. do 2 f_equal. unfold u32. rewrite Zplus_mod_idemp_l. f_equal. lia.
Qed.

(** One post: the event goes last, and the first one goes when there were 512. *)
Lemma ring_post_spec r ev :
  ring_ok r →
  ring_ok (ring_post r ev)
  ∧ contents (ring_post r ev)
    = (if decide (length (contents r) = 512%nat) then tail (contents r) else contents r) ++ [ev].
Proof.
  intros (Hlen & Hh & Ht & Hn). unfold RING_SIZE in Hn. rewrite length_contents.
  set (n := u32 (r_tail r - r_head r)) in *.
  assert (Hn0 : 0 ≤ n) by (unfold n, u32; lia).
  assert (Htail : r_tail r = u32 (r_head r + n)) by (unfold n, u32 in *; lia).
  unfold ring_post, RING_SIZE, contents. fold n. cbn [r_events r_head r_tail].
  destruct (Z.leb_spec 512 n) as [Hfull|Hroom].
  - rewrite decide_True by lia. replace n with 512 in * by lia.
    assert (E : u32 (u32 (r_tail r + 1) - u32 (r_head r + 1)) = 512) by (unfold u32 in *; lia).
    split.
    + split_and!; cbn [r_events r_head r_tail]; [by rewrite length_insert|unfold u32; lia..|].
      rewrite E. unfold RING_SIZE. lia.
    + rewrite E. change (Z.to_nat 512) with (S 511). rewrite slots_tail. apply slots_snoc; [done|lia|].
      rewrite Htail. unfold u32. lia.
  - rewrite decide_False by lia.
    assert (E : u32 (u32 (r_tail r + 1) - r_head r) = n + 1) by (unfold n, u32 in *; lia).
    split.
    + split_and!; cbn [r_events r_head r_tail]; [by rewrite length_insert|lia|lia|unfold u32; lia..|].
      rewrite E. unfold RING_SIZE. lia.
    + rewrite E. replace (Z.to_nat (n + 1)) with (S (Z.to_nat n)) by lia.
      apply slots_snoc; [done|lia|]. rewrite Z2Nat.id by lia. exact Htail.
Qed.

(** The newest 512 of a list of events. *)
Definition newest (l : list koe_event_t) : list koe_event_t := drop (length l - 512) l.

Lemma newest_app l l' : newest (newest l ++ l') = newest (l ++ l').
Proof.
  unfold newest. rewrite !length_app, length_drop.
  rewrite !drop_app, drop_drop, !length_drop.
  f_equal; f_equal; lia.
Qed.
Lemma newest_small l : (length l ≤ 512)%nat → newest l = l.
Proof. intros. unfold newest. by replace (length l - 512)%nat with 0%nat by lia. Qed.

Lemma contents_le r : ring_ok r → (length (contents r) ≤ 512)%nat.
Proof. intros (_ & _ & _ & Hn). rewrite length_contents. unfold RING_SIZE in Hn. lia. Qed.

Lemma ring_post_newest r ev :
  ring_ok r → ring_ok (ring_post r ev) ∧ contents (ring_post r ev) = newest (contents r ++ [ev]).
Proof.
  intros Hok. destruct (ring_post_spec r ev Hok) as [Hok' ->]. split; [done|].
  pose proof (contents_le r Hok) as Hle. unfold newest. rewrite length_app. simpl.
  case_decide as Hd.
  - rewrite Hd. simpl Nat.sub. by destruct (contents r).
  - by replace (length (contents r) + 1 - 512)%nat with 0%nat by lia.
Qed.

(** Taking the first event. *)
Lemma ring_pop_spec r :
  ring_ok r →
  (r_head r = r_tail r ∧ contents r = [])
  ∨ (r_head r ≠ r_tail r
     ∧ contents r = (r_events r !!! slot (r_head r)) :: contents (KoeRing (r_events r) (u32 (r_head r + 1)) (r_tail r))
     ∧ ring_ok (KoeRing (r_events r) (u32 (r_head r + 1)) (r_tail r))).
Proof.
  intros (Hlen & Hh & Ht & Hn). unfold RING_SIZE in Hn. destruct (decide (r_head r = r_tail r)) as [E|E].
  - left. split; [done|]. unfold contents. by rewrite E, Z.sub_diag.
  - right. split; [done|]. unfold contents, ring_ok. cbn [r_events r_head r_tail].
    set (n := u32 (r_tail r - r_head r)) in *.
    assert (0 < n) by (unfold n, u32 in *; lia).
    assert (En : u32 (r_tail r - u32 (r_head r + 1)) = n - 1) by (unfold n, u32 in *; lia).
    rewrite En. split.
    + replace (Z.to_nat n) with (S (Z.to_nat (n - 1))) by lia. rewrite <-slots_tail.
      unfold slots at 1. simpl. rewrite Z.add_0_r, u32_id by lia. done.
    + split_and!; try done; try (unfold u32; lia); try lia. unfold RING_SIZE. lia.
Qed.

Section Dispatch.
Context {S : Type} (call : koe_listener_t → koe_event_t → S → S * list action).
Context (plugins : option (koe_event_t → S → option (koe_event_t * S))).

(** What delivering one event means to the application: nothing if a plugin
    suppressed it, else every listener in turn. *)
Definition deliver (ls : list koe_listener_t) (app : S) (ev : koe_event_t) : S :=
  match plugin_pass plugins ev app with
  | None => app
  | Some (ev, app) => if ev_suppressed ev then app else foldl (λ a l, (call l ev a).1) app ls
  end.

(** ** Listeners that leave the queue alone *)
Definition quiet_calls : Prop := ∀ l ev a, (call l ev a).2 = [].

Lemma call_listeners_run turns i ev s app w :
  quiet_calls → (length (es_listeners s) - i ≤ turns)%nat →
  w ⊢ call_listeners call turns i ev s app ⇓ (s, foldl (λ a l, (call l ev a).1) app (drop i (es_listeners s))) ⊣ w.
Proof.
  intros Hq. revert i app. induction turns as [|n IH]; intros i app Hn; cbn [call_listeners].
  { by rewrite drop_ge by lia. }
  destruct (es_listeners s !! i) as [l|] eqn:Hi; [|by rewrite drop_ge by by apply lookup_ge_None].
  rewrite (drop_S _ _ _ Hi). cbn [foldl]. specialize (Hq l ev app). destruct (call l ev app) as [app' acts]. cbn in Hq |- *.
  subst acts. cbn [act_all]. rewrite bind_ret. apply IH. apply lookup_lt_Some in Hi. lia.
Qed.

(** What polling returns, when it returns: every pending event was delivered,
    once and in order, and counted. *)
Lemma poll_loop_quiet fuel s app k w k' s' app' w' :
  quiet_calls → ring_ok (es_ring s) → (length (es_listeners s) ≤ KOE_MAX_LISTENERS)%nat →
  w ⊢ poll_loop call plugins fuel s app k ⇓ Some (k', s', app') ⊣ w' →
  k' = k + zlen (contents (es_ring s)) ∧ app' = foldl (deliver (es_listeners s)) app (contents (es_ring s)).
Proof.
  intros Hq. revert s app k w. induction fuel as [|fuel IH]; intros s app k w Hok Hl; cbn [poll_loop];
    destruct (ring_pop_spec (es_ring s) Hok) as [[Hht Hc]|(Hht & Hc & Hok')];
    [rewrite Hht, Z.eqb_refl; intros [= <- <- <- <-]; rewrite Hc; unfold zlen; split; [simpl; lia|done]
    |by rewrite (proj2 (Z.eqb_neq _ _))
    |rewrite Hht, Z.eqb_refl; intros [= <- <- <- <-]; rewrite Hc; unfold zlen; split; [simpl; lia|done]|].
  rewrite (proj2 (Z.eqb_neq _ _)) by done. set (r' := KoeRing _ _ _) in *. rewrite Hc.
  set (ev := r_events (es_ring s) !!! _). intros ([ev' a'] & w1 & Hp & Hrun)%bind_inv. unfold lift in Hp. cbn [foldl].
  unfold deliver at 2. destruct (plugin_pass plugins ev app) as [[e1 a1]|]; [|done]. injection Hp as -> -> ->. cbn [fst snd] in Hrun.
  assert (Hstep : ∀ a2, a2 = (if ev_suppressed ev' then a' else foldl (λ a l, (call l ev' a).1) a' (es_listeners s)) →
    w1 ⊢ (if ev_suppressed ev' then mret (set_ring r' s, a') else call_listeners call KOE_MAX_LISTENERS 0 ev' (set_ring r' s) a')
      ⇓ (set_ring r' s, a2) ⊣ w1).
  { intros a2 ->. destruct (ev_suppressed ev'); [done|]. apply call_listeners_run; [done|]. cbn. lia. }
  erewrite bind_run in Hrun by (by apply Hstep). apply (IH (set_ring r' s)) in Hrun as [-> ->]; [|done|done].
  split; [unfold zlen; cbn [set_ring es_ring length]; lia|done].
Qed.

(** ** Termination

    The callbacks and the plugins keep an invariant of the state; what callbacks
    post is of the kind of events the plugins accept, and costs less, over all
    the listeners there may be, than the event they were called with. *)
Definition posted (acts : list action) : list koe_event_t :=
  omap (λ a, match a with Post ev => Some ev | _ => None end) acts.
Definition total_cost (cost : koe_event_t → nat) (evs : list koe_event_t) : nat := sum_list (cost <$> evs).

Class Listeners (E : koe_event_t → Prop) (I : S → Prop) (cost : koe_event_t → nat) : Prop := {
  listeners_inv l ev a : I a → I (call l ev a).1;
  listeners_post l ev a : Forall E (posted (call l ev a).2);
  listeners_cost l ev a : (KOE_MAX_LISTENERS * total_cost cost (posted (call l ev a).2) < cost ev)%nat;
  stamp_kind t ev : E ev → E (set_timestamp t ev);
  stamp_cost t ev : cost (set_timestamp t ev) = cost ev;
  cost_pos ev : (0 < cost ev)%nat;
  plugins_inv f ev a ev' a' : plugins = Some f → E ev → I a → f ev a = Some (ev', a') → I a' ∧ (cost ev' ≤ cost ev)%nat;
}.
Context (E : koe_event_t → Prop) (I : S → Prop) (cost : koe_event_t → nat) `{!Listeners E I cost}.

Definition queue_inv (s : event_state) : Prop :=
  es_initialised s = true ∧ ring_ok (es_ring s) ∧ (length (es_listeners s) ≤ KOE_MAX_LISTENERS)%nat
  ∧ Forall E (contents (es_ring s)).
Definition pending_cost (s : event_state) : nat := total_cost cost (contents (es_ring s)).

Lemma total_cost_app l1 l2 : total_cost cost (l1 ++ l2) = (total_cost cost l1 + total_cost cost l2)%nat.
Proof. unfold total_cost. by rewrite fmap_app, sum_list_with_app. Qed.
Lemma total_cost_newest l : (total_cost cost (newest l) ≤ total_cost cost l)%nat.
Proof.
  unfold newest. generalize (length l - 512)%nat as n. intros n.
  assert (Hl : total_cost cost l = total_cost cost (take n l ++ drop n l)) by by rewrite take_drop.
  rewrite Hl, total_cost_app. lia.
Qed.

Lemma post_inv s ev w :
  queue_inv s → E ev →
  runs w (koe_event_post s ev) (λ r _, queue_inv r.2 ∧ (pending_cost r.2 ≤ pending_cost s + cost ev)%nat).
Proof.
  intros (Hi & Hok & Hl & Hall) Hev. unfold koe_event_post, ensure_init. rewrite Hi. apply runs_time, runs_ret. cbn [snd].
  destruct (ring_post_newest (es_ring s) (set_timestamp (now w) ev) Hok) as [Hok' Hc].
  unfold queue_inv, pending_cost. cbn [set_ring es_ring es_initialised es_listeners]. rewrite Hc. split_and!; try done.
  - unfold newest. apply Forall_drop, Forall_app. split; [done|]. by constructor; [apply stamp_kind|].
  - etrans; [apply total_cost_newest|]. rewrite total_cost_app. unfold total_cost at 2. cbn. rewrite stamp_cost. lia.
Qed.

(** Registering and unregistering leave the ring alone. *)
Lemma register_inv s l : queue_inv s → queue_inv (koe_event_register s l).2 ∧ es_ring (koe_event_register s l).2 = es_ring s.
Proof.
  intros (Hi & Hok & Hl & Hall). unfold koe_event_register, ensure_init. rewrite Hi.
  destruct (Nat.leb_spec KOE_MAX_LISTENERS (length (es_listeners s))); [done|].
  split; [|done]. unfold queue_inv. cbn. rewrite length_app. cbn. split_and!; try done. lia.
Qed.
Lemma unregister_inv s fn :
  queue_inv s → queue_inv (koe_event_unregister s fn).2 ∧ es_ring (koe_event_unregister s fn).2 = es_ring s.
Proof.
  intros (Hi & Hok & Hl & Hall). unfold koe_event_unregister. destruct (list_find _ _) as [[i l]|]; [|done].
  destruct (es_listeners s !! _); [|done]. split; [|done]. unfold queue_inv. cbn. rewrite length_take, length_insert.
  split_and!; try done. lia.
Qed.

Lemma act_inv s a w :
  queue_inv s → Forall E (posted [a]) →
  runs w (act s a) (λ s' _, queue_inv s' ∧ (pending_cost s' ≤ pending_cost s + total_cost cost (posted [a]))%nat).
Proof.
  intros Hs Hp. destruct a as [ev|l|fn]; cbn [act].
  - cbn in Hp. apply Forall_cons in Hp as [Hev _]. eapply runs_bind; [by apply post_inv|].
    intros r w1 _ [Hr Hc]. apply runs_ret. split; [done|]. unfold total_cost. cbn. lia.
  - apply runs_ret. destruct (register_inv s l Hs) as [Hs' Hr]. split; [done|]. unfold pending_cost. rewrite Hr. lia.
  - apply runs_ret. destruct (unregister_inv s fn Hs) as [Hs' Hr]. split; [done|]. unfold pending_cost. rewrite Hr. lia.
Qed.

Lemma act_all_inv s acts w :
  queue_inv s → Forall E (posted acts) →
  runs w (act_all s acts) (λ s' _, queue_inv s' ∧ (pending_cost s' ≤ pending_cost s + total_cost cost (posted acts))%nat).
Proof.
  revert s w. induction acts as [|a acts IH]; intros s w Hs Hp; cbn [act_all].
  { apply runs_ret. split; [done|]. lia. }
  assert (Ea : posted (a :: acts) = posted [a] ++ posted acts) by by destruct a.
  rewrite Ea in *. apply Forall_app in Hp as [Hpa Hp]. rewrite total_cost_app.
  eapply runs_bind; [by apply act_inv|]. intros s1 w1 _ [Hs1 Hc1].
  eapply runs_mono; [by apply IH|]. intros s2 w2 _ [Hs2 Hc2]. split; [done|]. lia.
Qed.

(** One event, to whichever listeners there are when their turn comes. *)
Lemma call_listeners_inv turns i ev s app w :
  queue_inv s → I app → (turns ≤ KOE_MAX_LISTENERS)%nat →
  runs w (call_listeners call turns i ev s app) (λ r _, queue_inv r.1 ∧ I r.2
    ∧ (KOE_MAX_LISTENERS * (pending_cost r.1 - pending_cost s) ≤ turns * (cost ev - 1))%nat).
Proof.
  revert i s app w. induction turns as [|n IH]; intros i s app w Hs Happ Hn; cbn [call_listeners].
  { apply runs_ret. split_and!; [done..|]. cbn [fst]. by rewrite Nat.sub_diag, Nat.mul_0_r. }
  destruct (es_listeners s !! i) as [l|]; [|apply runs_ret; split_and!; [done..|cbn [fst]; rewrite Nat.sub_diag, Nat.mul_0_r; apply Nat.le_0_l]].
  pose proof (listeners_inv l ev app Happ) as Happ'. pose proof (listeners_post l ev app) as Hpost.
  pose proof (listeners_cost l ev app) as Hcost. destruct (call l ev app) as [app' acts]. cbn [fst snd] in *.
  eapply runs_bind; [by apply act_all_inv|]. intros s1 w1 _ [Hs1 Hc1].
  eapply runs_mono; [apply IH; [done|done|lia]|]. intros [s2 app2] w2 _ (Hs2 & Happ2 & Hc2). cbn [fst snd] in *.
  split; [done|]. split; [done|]. unfold KOE_MAX_LISTENERS in *. lia.
Qed.

(** Why polling may not return: a plugin does not. *)
Definition plugin_stops : Prop := ∃ f ev a, plugins = Some f ∧ E ev ∧ I a ∧ f ev a = None.

Lemma plugin_pass_inv ev a ev' a' :
  E ev → I a → plugin_pass plugins ev a = Some (ev', a') → I a' ∧ (cost ev' ≤ cost ev)%nat.
Proof.
  intros Hev Ha. unfold plugin_pass. destruct (_ || _); [|by intros [= <- <-]].
  destruct plugins as [f|] eqn:Hp; [|by intros [= <- <-]]. by eapply plugins_inv.
Qed.
Lemma plugin_pass_stops ev a : E ev → I a → plugin_pass plugins ev a = None → plugin_stops.
Proof.
  intros Hev Ha. unfold plugin_pass. destruct (_ || _); [|done]. destruct plugins as [f|] eqn:Hp; [|done].
  intros Hn. by exists f, ev, a.
Qed.

(** The loop ends within as many turns as the pending events cost, with the ring
    empty, unless a plugin does not return. *)
Lemma poll_loop_ends fuel s app k w :
  queue_inv s → I app → (pending_cost s ≤ fuel)%nat →
  poll_loop call plugins fuel s app k w = None ∧ plugin_stops
  ∨ runs w (poll_loop call plugins fuel s app k) (λ r _, ∃ k' s' app', r = Some (k', s', app')
      ∧ queue_inv s' ∧ contents (es_ring s') = [] ∧ I app').
Proof.
  revert s app k w. induction fuel as [|fuel IH]; intros s app k w Hs Happ Hfuel; cbn [poll_loop];
    pose proof Hs as (Hi & Hok & Hl & Hall);
    destruct (ring_pop_spec (es_ring s) Hok) as [[Hht Hc]|(Hht & Hc & Hok')].
  - rewrite Hht, Z.eqb_refl. right. apply runs_ret. by exists k, s, app.
  - unfold pending_cost in Hfuel. rewrite Hc in Hfuel. unfold total_cost in Hfuel. cbn in Hfuel.
    pose proof (cost_pos (r_events (es_ring s) !!! slot (r_head (es_ring s)))). lia.
  - rewrite Hht, Z.eqb_refl. right. apply runs_ret. by exists k, s, app.
  - rewrite (proj2 (Z.eqb_neq _ _)) by done. set (r' := KoeRing _ _ _) in *. set (ev := r_events (es_ring s) !!! _) in *.
    unfold pending_cost in Hfuel. rewrite Hc in Hfuel, Hall. unfold total_cost in Hfuel. cbn in Hfuel.
    fold (total_cost cost (contents r')) in Hfuel. apply Forall_cons in Hall as [Hev Hall].
    pose proof (cost_pos ev) as Hpos. assert (Hs' : queue_inv (set_ring r' s)) by done.
    destruct (plugin_pass plugins ev app) as [[ev' app']|] eqn:Hpass.
    2:{ left. split; [done|]. by eapply plugin_pass_stops. }
    destruct (plugin_pass_inv _ _ _ _ Hev Happ Hpass) as [Happ' Hle].
    rewrite (bind_lift _ _ _ (ev', app')) by done. cbn [fst snd].
    assert (Hstep : runs w (if ev_suppressed ev' then mret (set_ring r' s, app')
                            else call_listeners call KOE_MAX_LISTENERS 0 ev' (set_ring r' s) app')
      (λ r _, queue_inv r.1 ∧ I r.2 ∧ (pending_cost r.1 ≤ fuel)%nat)).
    { destruct (ev_suppressed ev').
      - apply runs_ret. split_and!; [done..|]. unfold pending_cost. cbn. lia.
      - eapply runs_mono; [by apply call_listeners_inv|]. intros [s2 app2] w2 _ (? & ? & Hd). split_and!; [done..|].
        unfold pending_cost in Hd |- *. cbn [fst set_ring es_ring] in Hd |- *. unfold KOE_MAX_LISTENERS in Hd. lia. }
    destruct Hstep as ([s2 app2] & w2 & R & Env & Hs2 & Happ2 & Hc2). cbn [fst snd] in *.
    destruct (IH s2 app2 (k + 1) w2 Hs2 Happ2 Hc2) as [[Hnone Hst]|(r & w3 & R3 & Env3 & Hr)].
    + left. split; [|done]. by erewrite bind_run by exact R.
    + right. exists r, w3. split; [|split; [by etrans|done]].
      rewrite (bind_lift _ _ _ (ev', app')) by done. cbn [fst snd]. by rewrite (bind_run _ _ _ _ _ R).
Qed.
End Dispatch.

(** Every event costs one turn when the listeners leave the queue alone. *)
Lemma total_cost_one evs : total_cost (λ _, 1%nat) evs = length evs.
Proof. unfold total_cost. induction evs as [|ev evs IH]; [done|]. cbn in *. by rewrite IH. Qed.
Lemma quiet_listeners {S} (call : koe_listener_t → koe_event_t → S → S * list action) plugins :
  quiet_calls call → Listeners call plugins (λ _, True) (λ _, True) (λ _, 1%nat).
Proof.
  intros Hq. split; try done; try (intros; lia); intros l ev a; rewrite (Hq l ev a); [constructor|].
  cbn. lia.
Qed.

(** The events of [evs] with the times they are posted at. *)
Fixpoint stamped (w : world) (evs : list koe_event_t) : list koe_event_t :=
  match evs with
  | [] => []
  | ev :: evs' => set_timestamp (now w) ev :: stamped (tick w) evs'
  end.

Lemma post_all_run s evs w :
  es_initialised s = true → ring_ok (es_ring s) →
  ∃ s' w', w ⊢ post_all s evs ⇓ s' ⊣ w' ∧ ring_ok (es_ring s') ∧ es_initialised s' = true
    ∧ es_listeners s' = es_listeners s
    ∧ contents (es_ring s') = newest (contents (es_ring s) ++ stamped w evs).
Proof.
  revert s w. induction evs as [|ev evs IH]; intros s w Hi Hok.
  { exists s, w. rewrite app_nil_r, newest_small by (by apply contents_le). done. }
  unfold post_all. cbn [fmap list_fmap act_all act stamped]. unfold koe_event_post, ensure_init. rewrite Hi.
  destruct (ring_post_newest (es_ring s) (set_timestamp (now w) ev) Hok) as [Hok' Hc].
  destruct (IH (set_ring (ring_post (es_ring s) (set_timestamp (now w) ev)) s) (tick w))
    as (s' & w' & Hrun & H1 & H2 & H3 & H4); [done|done|].
  exists s', w'. split_and!; try done. rewrite H4. cbn [es_ring set_ring]. rewrite Hc.
  rewrite newest_app. by rewrite <-app_assoc.
Qed.

(** C27: events posted to the queue and then polled are dispatched in the order
    they were posted, each once, stamped with the time of the post; when more
    than 512 are pending the oldest are dropped. With listeners that leave the
    queue alone while they run, and a plugin hook, if there is one, that returns,
    the loop ends within 512 iterations with the queue empty. *)
Theorem koe_event_fifo {S} (call : koe_listener_t → koe_event_t → S → S * list action)
    (plugins : option (koe_event_t → S → option (koe_event_t * S)))
    (s : event_state) (evs : list koe_event_t) (app : S) (w : world) :
  let pending := newest (contents (es_ring s) ++ stamped w evs) in
  quiet_calls call → (∀ f ev a, plugins = Some f → is_Some (f ev a)) →
  es_initialised s = true → ring_ok (es_ring s) → (length (es_listeners s) ≤ KOE_MAX_LISTENERS)%nat →
  ∃ s1 w1 s2 w2,
    w ⊢ post_all s evs ⇓ s1 ⊣ w1
    ∧ w1 ⊢ koe_event_poll call plugins 512 s1 app
        ⇓ Some (zlen pending, s2, foldl (deliver call plugins (es_listeners s)) app pending) ⊣ w2
    ∧ ring_ok (es_ring s2) ∧ contents (es_ring s2) = [].
Proof.
  intros pending Hq Hf Hi Hok Hls.
  destruct (post_all_run s evs w Hi Hok) as (s1 & w1 & Hrun & Hok1 & Hi1 & Hl & Hc).
  pose proof (quiet_listeners call plugins Hq) as HL.
  destruct (poll_loop_ends call plugins (λ _, True) (λ _, True) (λ _, 1%nat) 512 s1 app 0 w1)
    as [[_ (f & ev & a & Hp & _ & _ & Hn)]|(r & w2 & R & _ & k & s2 & app2 & -> & (_ & Hok2 & _) & Hc2 & _)].
  - split_and!; [done|done|by rewrite Hl|]. by apply Forall_true.
  - done.
  - unfold pending_cost. rewrite total_cost_one. by apply contents_le.
  - destruct (Hf f ev a Hp) as [x Hx]. congruence.
  - destruct (poll_loop_quiet call plugins _ _ _ _ _ _ _ _ _ Hq Hok1 ltac:(by rewrite Hl) R) as [-> ->].
    exists s1, w1, s2, w2. split_and!; try done.
    unfold koe_event_poll, koe_event_pump_ping, koe_event_pump_presence, koe_event_pump_scheduled, koe_event_pump_destruct.
    rewrite R, Hc, Hl. done.
Qed.

(** A listener that posts an event whenever it is called keeps the loop going
    forever: no number of iterations is enough. *)
Definition echo (l : koe_listener_t) (ev : koe_event_t) (n : nat) : nat * list action := (S n, [Post ev]).

Lemma koe_event_poll_diverges fuel s l app k w :
  es_initialised s = true → es_listeners s = [l] → ring_ok (es_ring s) → contents (es_ring s) ≠ [] →
  Forall (λ ev, ev_suppressed ev = false) (contents (es_ring s)) →
  ∃ w', w ⊢ poll_loop echo None fuel s app k ⇓ None ⊣ w'.
Proof.
  intros Hi Hl. revert s app k w Hi Hl. induction fuel as [|fuel IH]; intros s app k w Hi Hl Hok Hne Hs; cbn [poll_loop];
    destruct (ring_pop_spec (es_ring s) Hok) as [[_ Hc]|(Hht & Hc & Hok')]; try done;
    rewrite (proj2 (Z.eqb_neq _ _)) by done; [by eexists|].
  set (r' := KoeRing _ _ _) in *. set (ev := r_events (es_ring s) !!! _) in *. rewrite Hc in Hs. apply Forall_cons in Hs as [Hev Hs].
  rewrite (bind_lift _ _ _ (ev, app)) by (unfold plugin_pass; by destruct (_ || _)). cbn [fst snd]. rewrite Hev.
  set (s1 := set_ring (ring_post r' (set_timestamp (now w) ev)) s).
  assert (R : w ⊢ call_listeners echo KOE_MAX_LISTENERS 0 ev (set_ring r' s) app ⇓ (s1, S app) ⊣ tick w).
  { assert (Hp : w ⊢ act_all (set_ring r' s) [Post ev] ⇓ s1 ⊣ tick w).
    { cbn [act_all act]. unfold koe_event_post, ensure_init. cbn [set_ring es_initialised es_listeners es_ring]. by rewrite Hi. }
    unfold KOE_MAX_LISTENERS. cbn [call_listeners]. change (es_listeners (set_ring r' s)) with (es_listeners s).
    rewrite Hl. cbn [lookup list_lookup echo]. rewrite (bind_run _ _ _ _ _ Hp).
    change (es_listeners s1) with (es_listeners s). by rewrite Hl. }
  erewrite bind_run by exact R. cbn [fst snd].
  destruct (ring_post_spec r' (set_timestamp (now w) ev) Hok') as [Hok1 Hc1].
  apply IH; [done|done|done| |].
  - cbn [s1 set_ring es_ring]. rewrite Hc1. intros [_ [=]]%app_nil.
  - cbn [s1 set_ring es_ring]. rewrite Hc1. apply Forall_app. split; [|by constructor]. case_decide; [by apply Forall_tail|done].
Qed.

(** A listener that records what it is given. *)
Definition recorder (l : koe_listener_t) (ev : koe_event_t) (log : list Z) : list Z * list action :=
  (log ++ [ev_type ev], []).

Lemma koe_event_fifo_witness :
  ∃ s1 w1 s2 w2,
    world_at 4 ⊢ post_all (EventState ring_init [KoeListener 1 0] true)
        [KoeEvent 5 0 false []; KoeEvent 6 0 false []] ⇓ s1 ⊣ w1
    ∧ w1 ⊢ koe_event_poll recorder None 512 s1 [] ⇓ Some (2, s2, [5; 6]) ⊣ w2.
Proof.
  destruct (koe_event_fifo recorder None (EventState ring_init [KoeListener 1 0] true)
    [KoeEvent 5 0 false []; KoeEvent 6 0 false []] [] (world_at 4)) as (s1 & w1 & s2 & w2 & H1 & H2 & _).
  - intros l ev a. reflexivity.
  - discriminate.
  - reflexivity.
  - apply ring_init_ok.
  - cbn. unfold KOE_MAX_LISTENERS. lia.
  - exists s1, w1, s2, w2. split; [exact H1|exact H2].
Defined.

(** * Listeners *)

(** Unregistering removes exactly one listener, the first with that
    function, and keeps all the others (the last one moves into its place). *)
Lemma koe_event_unregister_spec (s : event_state) (fn : nat) :
  let r := koe_event_unregister s fn in
  es_ring r.2 = es_ring s
  ∧ ((r.1 = -1 ∧ r.2 = s ∧ Forall (λ l, l_fn l ≠ fn) (es_listeners s))
     ∨ (r.1 = 0 ∧ ∃ l pre post, es_listeners s = pre ++ l :: post ∧ l_fn l = fn
          ∧ Forall (λ l, l_fn l ≠ fn) pre ∧ es_listeners r.2 ≡ₚ pre ++ post)).
Proof.
  unfold koe_event_unregister. destruct (list_find _ _) as [[i l]|] eqn:Hf.
  2:{ apply list_find_None in Hf. split; [done|]. by left. }
  pose proof Hf as (Hi & Hl & Hpre)%list_find_Some.
  pose proof (take_drop_middle _ _ _ Hi) as Hsplit.
  set (ls := es_listeners s) in *.
  assert (Hilt : (i < length ls)%nat) by (by eapply lookup_lt_Some).
  destruct (lookup_lt_is_Some_2 ls (length ls - 1)) as [lst Hlst]; [lia|]. rewrite Hlst.
  split; [done|]. right. split; [done|]. exists l, (take i ls), (drop (S i) ls).
  split_and!; [done|done| |].
  - apply Forall_forall. intros x Hx. apply elem_of_take in Hx as (j & Hj & Hlt). by eapply Hpre.
  - by apply (swap_remove _ _ l).
Qed.

(** * Two threads

    The ring is described as lock-free for one producer and one consumer. The
    consumer reads [head], then the event, and then stores [head + 1]; a full
    ring makes the producer move [head] too. If it does so twice in between, the
    store moves [head] backwards: the ring then spans 513 events and the next
    one read is the newest, out of order. *)
Definition full_ring : koe_ring_t :=
  foldl ring_post ring_init ((λ i, KoeEvent (Z.of_nat i) 0 false []) <$> seq 0 512).

Lemma concurrent_drop_breaks_ring :
  let loaded := r_head full_ring in
  let r := ring_post (ring_post full_ring (KoeEvent 512 0 false [])) (KoeEvent 513 0 false []) in
  let r := KoeRing (r_events r) (u32 (loaded + 1)) (r_tail r) in
  u32 (r_tail r - r_head r) = 513 ∧ ev_type (r_events r !!! slot (r_head r)) = 513.
Proof. split; vm_compute; reflexivity. Qed.
