(* ===== verification/Ring.v ===== *)
(** The event ring between threads (src/koe_event.c): the atomic accesses of
    [koe_event_post] and [koe_event_poll], one step each, interleaved in every
    order. Event.v treats the two functions as they run on one thread. *)

From S2P Require Import Prelude Event.

(** * Programs

    Where a call to [koe_event_post] stands: after loading [tail], after loading
    [head], after the test for a full ring, after copying the event, after
    writing its time. The state is initialised, so the first line is over. *)
Inductive producer_pc :=
  | PIdle
  | PTail (ev : koe_event_t) (tail : Z)
  | PHead (ev : koe_event_t) (tail head : Z)
  | PRoom (ev : koe_event_t) (tail : Z)
  | PCopied (ev : koe_event_t) (tail : Z)
  | PStamped (ev : koe_event_t) (tail : Z).

(** Where [koe_event_poll] stands: outside, after loading [head], after loading
    [tail] (the loop test), after reading the event, after storing [head + 1]
    and dispatching. *)
Inductive consumer_pc :=
  | CIdle
  | CHead (head : Z)
  | CTail (head tail : Z)
  | CRead (head : Z) (ev : koe_event_t)
  | CTaken (ev : koe_event_t).

(** The ring, the calls in progress (one producer per entry), and three records
    of what happened: the events whose posting completed, the events dispatched,
    and how many were dropped. *)
Record cstate := CState {
  c_ring : koe_ring_t;
  c_prods : list producer_pc;
  c_cons : consumer_pc;
  c_posted : list koe_event_t;
  c_delivered : list koe_event_t;
  c_drops : nat;
}.

Definition set_prod (i : nat) (p : producer_pc) (s : cstate) : cstate :=
  CState (c_ring s) (<[i := p]> (c_prods s)) (c_cons s) (c_posted s) (c_delivered s) (c_drops s).
Definition set_cons (c : consumer_pc) (s : cstate) : cstate :=
  CState (c_ring s) (c_prods s) c (c_posted s) (c_delivered s) (c_drops s).
Definition set_cring (r : koe_ring_t) (s : cstate) : cstate :=
  CState r (c_prods s) (c_cons s) (c_posted s) (c_delivered s) (c_drops s).

Definition write_event (r : koe_ring_t) (tail : Z) (ev : koe_event_t) : koe_ring_t :=
  KoeRing (<[slot tail := ev]> (r_events r)) (r_head r) (r_tail r).
Definition move_head (r : koe_ring_t) (head : Z) : koe_ring_t := KoeRing (r_events r) head (r_tail r).
Definition move_tail (r : koe_ring_t) (tail : Z) : koe_ring_t := KoeRing (r_events r) (r_head r) tail.

(** The next access of producer [i]. [ev] is what it posts if it is about to
    start, [t] what [time] answers if it is about to stamp. *)
Definition post_step (i : nat) (ev : koe_event_t) (t : Z) (s : cstate) : option cstate :=
  let r := c_ring s in
  p ← c_prods s !! i;
  Some match p with
  | PIdle => set_prod i (PTail ev (r_tail r)) s
  | PTail ev tail => set_prod i (PHead ev tail (r_head r)) s
  | PHead ev tail head =>
      if RING_SIZE <=? u32 (tail - head) then
        let s := set_prod i (PRoom ev tail) (set_cring (move_head r (u32 (r_head r + 1))) s) in
        CState (c_ring s) (c_prods s) (c_cons s) (c_posted s) (c_delivered s) (S (c_drops s))
      else set_prod i (PRoom ev tail) s
  | PRoom ev tail => set_prod i (PCopied ev tail) (set_cring (write_event r tail ev) s)
  | PCopied ev tail =>
      set_prod i (PStamped (set_timestamp t ev) tail)
        (set_cring (write_event r tail (set_timestamp t (r_events r !!! slot tail))) s)
  | PStamped ev tail =>
      let s := set_prod i PIdle (set_cring (move_tail r (u32 (r_tail r + 1))) s) in
      CState (c_ring s) (c_prods s) (c_cons s) (c_posted s ++ [ev]) (c_delivered s) (c_drops s)
  end.

(** The next access of the consumer. *)
Definition poll_step (s : cstate) : cstate :=
  let r := c_ring s in
  match c_cons s with
  | CIdle => set_cons (CHead (r_head r)) s
  | CHead head => set_cons (CTail head (r_tail r)) s
  | CTail head tail =>
      if head =? tail then set_cons CIdle s
      else set_cons (CRead head (r_events r !!! slot head)) s
  | CRead head ev => set_cons (CTaken ev) (set_cring (move_head r (u32 (head + 1))) s)
  | CTaken ev =>
      let s := set_cons (CHead (r_head r)) s in
      CState (c_ring s) (c_prods s) (c_cons s) (c_posted s) (c_delivered s ++ [ev]) (c_drops s)
  end.

Inductive access := Post (i : nat) (ev : koe_event_t) (t : Z) | Poll.
Definition access_step (a : access) (s : cstate) : option cstate :=
  match a with Post i ev t => post_step i ev t s | Poll => Some (poll_step s) end.

Fixpoint run_accesses (l : list access) (s : cstate) : option cstate :=
  match l with
  | [] => Some s
  | a :: l' => s' ← access_step a s; run_accesses l' s'
  end.

(** [n] producers, nothing posted. *)
Definition ring_boot (n : nat) : cstate := CState ring_init (replicate n PIdle) CIdle [] [] 0.

Inductive reachable (n : nat) : cstate → Prop :=
  | reachable_boot : reachable n (ring_boot n)
  | reachable_step a s s' : reachable n s → access_step a s = Some s' → reachable n s'.

(** * One producer and one consumer

    Two accesses race when the consumer is about to read the slot the producer
    is about to write. *)
Definition racy (s : cstate) : Prop :=
  match c_cons s with
  | CTail head tail =>
      head ≠ tail ∧ ∃ i p, c_prods s !! i = Some p
        ∧ match p with PRoom _ tail' | PCopied _ tail' => slot tail' = slot head | _ => False end
  | _ => False
  end.

(** What the producer knows, when [n] events were posted and [k] of them taken. *)
Definition producer_ok (evs : list koe_event_t) (n k : nat) (p : producer_pc) : Prop :=
  match p with
  | PIdle => True
  | PTail _ tail => tail = u32 (Z.of_nat n)
  | PHead _ tail head =>
      tail = u32 (Z.of_nat n) ∧ ∃ j, head = u32 (Z.of_nat j) ∧ (j ≤ k)%nat ∧ (n ≤ j + 512)%nat
  | PRoom _ tail => tail = u32 (Z.of_nat n) ∧ (n < k + 512)%nat
  | PCopied ev tail | PStamped ev tail =>
      tail = u32 (Z.of_nat n) ∧ (n < k + 512)%nat ∧ evs !!! slot tail = ev
  end.

(** What the consumer knows. *)
Definition consumer_ok (posted delivered : list koe_event_t) (k : nat) (c : consumer_pc) : Prop :=
  match c with
  | CIdle => delivered = take k posted
  | CHead head => head = u32 (Z.of_nat k) ∧ delivered = take k posted
  | CTail head tail =>
      head = u32 (Z.of_nat k) ∧ delivered = take k posted
      ∧ ∃ j, tail = u32 (Z.of_nat j) ∧ (k ≤ j ≤ length posted)%nat
  | CRead head ev => head = u32 (Z.of_nat k) ∧ delivered = take k posted ∧ posted !! k = Some ev
  | CTaken ev => ∃ j, k = S j ∧ delivered = take j posted ∧ posted !! j = Some ev
  end.

(** The slots between [head] and [tail] hold the events not yet taken. *)
Definition spsc_inv (k : nat) (s : cstate) : Prop :=
  let r := c_ring s in let n := length (c_posted s) in
  length (r_events r) = 512%nat ∧ r_head r = u32 (Z.of_nat k) ∧ r_tail r = u32 (Z.of_nat n)
  ∧ (k ≤ n ≤ k + 512)%nat
  ∧ (∀ i, (k ≤ i < n)%nat → c_posted s !! i = Some (r_events r !!! slot (u32 (Z.of_nat i))))
  ∧ (∃ p, c_prods s = [p] ∧ producer_ok (r_events r) n k p)
  ∧ consumer_ok (c_posted s) (c_delivered s) k (c_cons s).

Lemma slot_eq_inv (i j : nat) :
  slot (u32 (Z.of_nat i)) = slot (u32 (Z.of_nat j)) → (i ≤ j < i + 512)%nat → i = j.
Proof. rewrite !slot_mod. intros. lia. Qed.

(** Writing into the free slot keeps the events. *)
Lemma write_free_slot (evs posted : list koe_event_t) (k : nat) ev :
  length evs = 512%nat → (length posted < k + 512)%nat →
  (∀ i, (k ≤ i < length posted)%nat → posted !! i = Some (evs !!! slot (u32 (Z.of_nat i)))) →
  ∀ i, (k ≤ i < length posted)%nat →
    posted !! i = Some (<[slot (u32 (Z.of_nat (length posted))) := ev]> evs !!! slot (u32 (Z.of_nat i))).
Proof.
  intros Hlen Hroom Hevs i Hi. rewrite list_lookup_total_insert_ne; [by apply Hevs|].
  intros E. symmetry in E. apply slot_eq_inv in E; lia.
Qed.

Lemma written_slot (evs : list koe_event_t) n ev :
  length evs = 512%nat → <[slot (u32 n) := ev]> evs !!! slot (u32 n) = ev.
Proof. intros Hlen. apply list_lookup_total_insert_eq. rewrite Hlen. apply slot_lt. Qed.

(** The consumer's view does not depend on later posts. *)
Lemma consumer_ok_app posted delivered k c ev :
  (k ≤ length posted)%nat → consumer_ok posted delivered k c → consumer_ok (posted ++ [ev]) delivered k c.
Proof.
  intros Hk. assert (Ht : ∀ j, (j ≤ length posted)%nat → take j (posted ++ [ev]) = take j posted).
  { intros j Hj. by rewrite take_app_le. }
  destruct c as [|h|h t|h e|e]; simpl; rewrite ?Ht by done; try done.
  - intros (? & ? & j & ? & ?). rewrite length_app. split_and!; [done..|]. exists j. split; [done|lia].
  - intros (? & ? & Hl). split_and!; [done..|]. by apply lookup_app_l_Some.
  - intros (j & -> & ? & Hl). exists j. rewrite Ht by lia. split_and!; [done..|]. by apply lookup_app_l_Some.
Qed.

Lemma post_step_inv k i ev t s s' :
  spsc_inv k s → post_step i ev t s = Some s' → c_drops s' = c_drops s → spsc_inv k s'.
Proof.
  intros (Hlen & Hh & Ht & Hk & Hevs & (p & Hp & Hpok) & Hc) Hstep Hdrops.
  unfold post_step in Hstep. rewrite Hp in Hstep.
  destruct i as [|i]; [|done]. injection Hstep as <-.
  set (n := length (c_posted s)) in *.
  destruct p as [|e tl|e tl hd|e tl|e tl|e tl]; cbn in Hpok.
  - unfold spsc_inv; cbn; split_and!; try done; try lia. eexists. rewrite Hp. split; [done|exact Ht].
  - unfold spsc_inv; cbn; split_and!; try done; try lia. eexists. rewrite Hp. split; [done|]. split; [done|].
    exists k. split; [done|lia].
  - destruct Hpok as (-> & j & -> & Hj & Hn).
    destruct (Z.leb_spec RING_SIZE (u32 (u32 (Z.of_nat n) - u32 (Z.of_nat j)))) as [Hfull|Hroom].
    { cbn in Hdrops. lia. }
    assert (n < k + 512)%nat by (unfold RING_SIZE, u32 in Hroom; lia).
    unfold spsc_inv; cbn; split_and!; try done; try lia. eexists. by rewrite Hp.
  - destruct Hpok as (-> & Hroom). unfold spsc_inv; cbn; split_and!; try done; try lia.
    + by rewrite length_insert.
    + by apply write_free_slot.
    + eexists. rewrite Hp. split; [done|]. cbn. split_and!; try done. by apply written_slot.
  - destruct Hpok as (-> & Hroom & <-). unfold spsc_inv; cbn; split_and!; try done; try lia.
    + by rewrite length_insert.
    + by apply write_free_slot.
    + eexists. rewrite Hp. split; [done|]. cbn. split_and!; try done. by apply written_slot.
  - destruct Hpok as (-> & Hroom & <-). unfold spsc_inv. cbn. rewrite length_app. fold n. cbn.
    split_and!; try done; try lia.
    + rewrite Ht. unfold u32. lia.
    + intros i Hi. destruct (decide (i = n)) as [->|].
      * by rewrite lookup_app_r, Nat.sub_diag by done.
      * rewrite lookup_app_l by (unfold n in *; lia). apply Hevs. lia.
    + exists PIdle. by rewrite Hp.
    + apply consumer_ok_app; [lia|done].
Qed.

Lemma poll_step_inv k s : spsc_inv k s → ∃ k', (k ≤ k')%nat ∧ spsc_inv k' (poll_step s).
Proof.
  intros (Hlen & Hh & Ht & Hk & Hevs & (p & Hp & Hpok) & Hc). unfold poll_step.
  set (n := length (c_posted s)) in *.
  destruct (c_cons s) as [|h|h t|h e|e] eqn:Ec; cbn in Hc.
  - exists k. split; [lia|]. unfold spsc_inv; cbn; split_and!; try done; try lia. by exists p.
  - exists k. split; [lia|]. destruct Hc as (-> & Hdel). unfold spsc_inv; cbn; split_and!; try done; try lia; [by exists p|].
    exists n. split; [done|]. unfold n in *. lia.
  - exists k. split; [lia|]. destruct Hc as (-> & Hdel & j & -> & Hj).
    destruct (Z.eqb_spec (u32 (Z.of_nat k)) (u32 (Z.of_nat j))) as [E|E];
      (unfold spsc_inv; cbn; split_and!; try done; try lia; [by exists p|..]).
    apply Hevs. assert (k ≠ j) by congruence. unfold n in *. lia.
  - destruct Hc as (-> & Hdel & He). exists (S k). split; [lia|].
    pose proof (lookup_lt_Some _ _ _ He) as Hlt.
    unfold spsc_inv. cbn. fold n. split_and!; try done; try (unfold n in *; lia).
    + unfold u32. lia.
    + intros i Hi. apply Hevs. lia.
    + exists p. split; [done|]. destruct p; cbn in *; try done.
      * destruct Hpok as (-> & j & -> & Hj & Hn). split; [done|]. exists j. split; [done|]. lia.
      * destruct Hpok as (-> & Hroom). split; [done|lia].
      * destruct Hpok as (-> & Hroom & <-). split_and!; [done|lia|done].
      * destruct Hpok as (-> & Hroom & <-). split_and!; [done|lia|done].
    + by exists k.
  - destruct Hc as (j & -> & Hdel & He). exists (S j). split; [lia|].
    unfold spsc_inv; cbn; split_and!; try done; try lia; [by exists p|]. by rewrite (take_S_r _ _ _ He), Hdel.
Qed.

Lemma access_drops a s s' : access_step a s = Some s' → (c_drops s ≤ c_drops s')%nat.
Proof.
  destruct a as [i ev t|]; cbn; unfold post_step, poll_step; intros H.
  - destruct (c_prods s !! i) as [p|]; [|done]. injection H as <-. destruct p; cbn; try lia. case_match; cbn; lia.
  - injection H as <-. destruct (c_cons s); cbn; try lia. case_match; cbn; lia.
Qed.

Lemma ring_boot_inv : spsc_inv 0 (ring_boot 1).
Proof. unfold spsc_inv. cbn -[replicate]. split_and!; try done; [lia|lia|by exists PIdle]. Qed.

Lemma reachable_inv s : reachable 1 s → c_drops s = 0%nat → ∃ k, spsc_inv k s.
Proof.
  induction 1 as [|a s s' Hr IH Hstep]; intros Hd; [exists 0%nat; apply ring_boot_inv|].
  pose proof (access_drops a s s' Hstep) as Hle.
  destruct IH as [k Hk]; [lia|]. destruct a as [i ev t|].
  - exists k. eapply post_step_inv; [done|exact Hstep|lia].
  - injection Hstep as <-. destruct (poll_step_inv k s Hk) as (k' & _ & H). by exists k'.
Qed.

(** * The consumer alone *)
Lemma c_posted_poll s : c_posted (poll_step s) = c_posted s.
Proof. unfold poll_step. destruct (c_cons s); try done. by case_match. Qed.

Lemma polls_add i j s : Nat.iter (i + j) poll_step s = Nat.iter j poll_step (Nat.iter i poll_step s).
Proof. rewrite Nat.add_comm. induction j as [|j IH]; [done|]. simpl. by rewrite IH. Qed.

(** From the top of the loop, four accesses per event and two for the exit. *)
Lemma polls_drain m k s h :
  spsc_inv k s → length (c_posted s) = (k + m)%nat → c_cons s = CHead h →
  let s' := Nat.iter (4 * m + 2) poll_step s in c_cons s' = CIdle ∧ c_delivered s' = c_posted s.
Proof.
  revert k s h. induction m as [|m IH]; intros k s h Hinv Hn Hc;
    pose proof Hinv as (_ & Hh & Ht & Hk & _ & _ & Hcok); rewrite Hc in Hcok; cbn in Hcok;
    destruct Hcok as (-> & Hdel); rewrite Hn in Ht.
  - cbn. unfold poll_step at 1 2 3 4. rewrite Hc. cbn. rewrite Ht, Nat.add_0_r, Z.eqb_refl. cbn.
    split; [done|]. rewrite Hdel. apply take_ge. lia.
  - replace (4 * S m + 2)%nat with (4 + (4 * m + 2))%nat by lia. cbv zeta. rewrite polls_add.
    set (s4 := Nat.iter 4 poll_step s).
    assert (Hs4 : (∃ h', c_cons s4 = CHead h') ∧ length (c_delivered s4) = S k).
    { unfold s4. cbn. unfold poll_step. rewrite Hc. cbn. rewrite Ht.
      destruct (Z.eqb_spec (u32 (Z.of_nat k)) (u32 (Z.of_nat (k + S m)))) as [E|E].
      { unfold u32 in E. lia. }
      cbn. split; [by eexists|]. rewrite length_app, Hdel, length_take. cbn. lia. }
    destruct Hs4 as [[h' Hc4] Hlen4].
    assert (Hinv4 : ∃ k', spsc_inv k' s4).
    { unfold s4. generalize 4%nat. intros j. induction j as [|j [k1 IHj]]; [by exists k|].
      cbn. destruct (poll_step_inv _ _ IHj) as (k2 & _ & H2). by exists k2. }
    destruct Hinv4 as [k' Hinv4].
    assert (Hp4 : c_posted s4 = c_posted s) by (unfold s4; cbn; by rewrite !c_posted_poll).
    assert (k' = S k) as ->.
    { pose proof Hinv4 as (_ & _ & _ & Hk4 & _ & _ & Hcok4). rewrite Hc4 in Hcok4. destruct Hcok4 as (_ & Hdel4).
      rewrite Hdel4, length_take in Hlen4. lia. }
    rewrite <-Hp4. eapply (IH (S k) s4); [done|rewrite Hp4; lia|done].
Qed.

(** From anywhere: a few accesses lead to the top of the loop. *)
Lemma polls_to_top k s :
  spsc_inv k s → ∃ j h, (j ≤ 3)%nat ∧ c_cons (Nat.iter j poll_step s) = CHead h.
Proof.
  intros _. unfold poll_step. destruct (c_cons s) as [|h|h t|h e|e] eqn:Ec.
  - exists 1%nat. cbn. rewrite Ec. eexists. by split; [lia|].
  - exists 0%nat. cbn. eexists. by split; [lia|].
  - destruct (h =? t) eqn:E.
    + exists 2%nat. cbn. rewrite Ec, E. cbn. eexists. by split; [lia|].
    + exists 3%nat. cbn. rewrite Ec, E. cbn. eexists. by split; [lia|].
  - exists 2%nat. cbn. rewrite Ec. cbn. eexists. by split; [lia|].
  - exists 1%nat. cbn. rewrite Ec. eexists. by split; [lia|].
Qed.

Lemma polls_inv j k s : spsc_inv k s → ∃ k', spsc_inv k' (Nat.iter j poll_step s).
Proof.
  intros Hinv. induction j as [|j [k1 IHj]]; [by exists k|].
  cbn. destruct (poll_step_inv _ _ IHj) as (k2 & _ & H2). by exists k2.
Qed.

Lemma c_posted_polls j s : c_posted (Nat.iter j poll_step s) = c_posted s.
Proof. induction j as [|j IH]; [done|]. cbn. by rewrite c_posted_poll. Qed.

Lemma polls_finish k s :
  spsc_inv k s →
  ∃ j, (j ≤ 4 * 512 + 5)%nat ∧ c_cons (Nat.iter j poll_step s) = CIdle
    ∧ c_delivered (Nat.iter j poll_step s) = c_posted s.
Proof.
  intros Hinv. destruct (polls_to_top k s Hinv) as (j & h & Hj & Hc).
  destruct (polls_inv j k s Hinv) as [k1 Hinv1].
  pose proof Hinv1 as (_ & _ & _ & Hk1 & _). set (s1 := Nat.iter j poll_step s) in *.
  exists (j + (4 * (length (c_posted s1) - k1) + 2))%nat. split; [lia|]. rewrite polls_add. fold s1.
  rewrite <-(c_posted_polls j s). fold s1. eapply polls_drain; [done|lia|done].
Qed.

(** In a state of the invariant the free slot is not the one being read. *)
Lemma spsc_inv_not_racy k s : spsc_inv k s → ¬ racy s.
Proof.
  intros (_ & _ & _ & Hk & _ & (p & Hp & Hpok) & Hc). unfold racy.
  destruct (c_cons s) as [|h|h t|h e|e]; try (by intros []). intros (Hne & i & p' & Hi & Hslot).
  rewrite Hp in Hi. destruct i; [|done]. injection Hi as <-. destruct Hc as (-> & _ & j & -> & Hj).
  assert (k ≠ j) by congruence.
  destruct p; try done; cbn in Hpok; destruct Hpok as (-> & Hroom);
    symmetry in Hslot; apply slot_eq_inv in Hslot; lia.
Qed.

Lemma consumer_ok_prefix posted delivered k c : consumer_ok posted delivered k c → delivered `prefix_of` posted.
Proof.
  destruct c; cbn; [intros ->|intros (_ & ->)|intros (_ & -> & _)|intros (_ & -> & _)|intros (j & _ & -> & _)];
    apply prefix_take.
Qed.

(** C28: with one producer and one consumer on two threads, in every interleaving
    of their atomic accesses in which the ring was never found full: the events
    dispatched so far are the first ones posted, in order and each once; no slot
    is read while it is written; and from any such state the consumer alone,
    within 2053 accesses, dispatches everything posted and returns. The indices
    may have wrapped around 32 bits any number of times. *)
Theorem koe_event_ring_spsc (s : cstate) :
  reachable 1 s → c_drops s = 0%nat →
  c_delivered s `prefix_of` c_posted s
  ∧ ¬ racy s
  ∧ ∃ j, (j ≤ 4 * 512 + 5)%nat ∧ c_cons (Nat.iter j poll_step s) = CIdle
      ∧ c_delivered (Nat.iter j poll_step s) = c_posted s.
Proof.
  intros Hr Hd. destruct (reachable_inv s Hr Hd) as [k Hinv].
  split; [|split; [by eapply spsc_inv_not_racy|by eapply polls_finish]].
  destruct Hinv as (_ & _ & _ & _ & _ & _ & Hc). by eapply consumer_ok_prefix.
Qed.

(** A producer that runs alone does what [koe_event_post] does. *)
Lemma post_alone s ev t :
  c_prods s = [PIdle] → length (r_events (c_ring s)) = 512%nat → 0 ≤ r_tail (c_ring s) < 2 ^ 32 →
  c_ring <$> run_accesses (replicate 6 (Post 0 ev t)) s = Some (ring_post (c_ring s) (set_timestamp t ev)).
Proof.
  intros Hp Hlen Ht. destruct s as [[evs hd tl] prods c posted del drops]. cbn in *. subst prods. cbn.
  assert (Hs : (slot tl < length evs)%nat) by (rewrite Hlen, <-(u32_id tl) by lia; apply slot_lt).
  unfold ring_post, RING_SIZE. cbn.
  destruct (512 <=? u32 (tl - hd)); cbn; unfold write_event, move_head, move_tail; cbn;
    rewrite list_lookup_total_insert_eq, list_insert_insert by done; by rewrite decide_True by done.
Qed.

(** * Witnesses and races *)
Definition small_event (i : Z) : koe_event_t := KoeEvent i 0 false [].

(** A post interrupted by a poll, and another one. *)
Definition witness_accesses : list access :=
  replicate 6 (Post 0 (small_event 1) 10) ++ replicate 3 Poll
  ++ replicate 4 (Post 0 (small_event 2) 11) ++ replicate 2 Poll ++ replicate 2 (Post 0 (small_event 2) 11).
Definition run_of (n : nat) (l : list access) : cstate := default (ring_boot n) (run_accesses l (ring_boot n)).

Lemma run_accesses_reachable n l s s' : reachable n s → run_accesses l s = Some s' → reachable n s'.
Proof.
  revert s. induction l as [|a l IH]; intros s Hr Hrun; cbn in Hrun; [by injection Hrun as <-|].
  destruct (access_step a s) as [s1|] eqn:E; [|done]. apply (IH s1); [|done]. by eapply reachable_step.
Qed.
Lemma run_of_reachable n l : reachable n (run_of n l).
Proof.
  unfold run_of. destruct (run_accesses l (ring_boot n)) as [s|] eqn:E; cbn; [|constructor].
  eapply run_accesses_reachable; [constructor|exact E].
Qed.

Lemma koe_event_ring_spsc_witness :
  let s := run_of 1 witness_accesses in
  ev_type <$> c_delivered s = [1] ∧ ev_type <$> c_posted s = [1; 2]
  ∧ ∃ j, c_delivered (Nat.iter j poll_step s) = c_posted s.
Proof.
  destruct (koe_event_ring_spsc (run_of 1 witness_accesses)) as (_ & _ & j & _ & _ & Hj).
  - apply run_of_reachable.
  - vm_compute. reflexivity.
  - split; [vm_compute; reflexivity|]. split; [vm_compute; reflexivity|]. exists j. exact Hj.
Defined.

(** On a full ring the producer writes the slot the consumer is reading. *)
Definition full_accesses : list access :=
  concat ((λ i, replicate 6 (Post 0 (small_event (Z.of_nat i)) 0)) <$> seq 0 512)
  ++ replicate 2 Poll ++ replicate 3 (Post 0 (small_event 512) 0).

Lemma full_ring_races : reachable 1 (run_of 1 full_accesses) ∧ racy (run_of 1 full_accesses).
Proof.
  split; [apply run_of_reachable|].
  assert (Ec : c_cons (run_of 1 full_accesses) = CTail 0 512) by (vm_compute; reflexivity).
  assert (Ep : c_prods (run_of 1 full_accesses) = [PRoom (small_event 512) 512]) by (vm_compute; reflexivity).
  unfold racy. rewrite Ec, Ep. split; [lia|]. exists 0%nat, (PRoom (small_event 512) 512). split; reflexivity.
Qed.

(** Two producers that load the same [tail] write the same slot: one event is
    lost, and a slot nobody wrote is dispatched in its place. *)
Definition two_producers : list access :=
  [Post 0 (small_event 7) 1; Post 1 (small_event 8) 1]
  ++ replicate 5 (Post 0 (small_event 7) 1) ++ replicate 5 (Post 1 (small_event 8) 1) ++ replicate 10 Poll.

Lemma two_producers_lose_event :
  let s := run_of 2 two_producers in
  reachable 2 s ∧ c_drops s = 0%nat
  ∧ ev_type <$> c_posted s = [7; 8] ∧ ev_type <$> c_delivered s = [8; 0].
Proof. split; [apply run_of_reachable|]. split_and!; vm_compute; reflexivity. Qed.
