(* ===== verification/Plugin.v ===== *)
(** Plugins (src/koe_plugin.c, include/koe_plugin.h): the registry, loading and
    unloading of mruby virtual machines, and the pass of an event through them.
    The build without mruby, in which loading fails and the pass does nothing, is
    not modelled. *)

From S2P Require Import Prelude Event.
Import Strings.String.StringSyntax.

(** * mruby

    The interpreter is a parameter: its states, its values, and the calls the
    host makes. A method call never escapes (an exception is left in the state).
    Looking up a constant that is not there and converting a string with an
    embedded NUL to a C string raise outside any protected call: the interpreter
    then ends the process ([None]). Its memory is taken not to run out. *)
Class Mruby := {
  mrb_state : Type;
  mrb_value : Type;
  mrb_new : mrb_state;
  mrb_exc : mrb_state → bool;
  mrb_clear_exc : mrb_state → mrb_state;
  mrb_load : mrb_state → bytes → mrb_state;
  mrb_const_get : mrb_state → bytes → option mrb_value;
  mrb_str_new : mrb_state → bytes → mrb_state * mrb_value;
  mrb_false_value : mrb_value;
  mrb_funcall : mrb_state → mrb_value → bytes → list mrb_value → mrb_state * mrb_value;
  mrb_respond_to : mrb_state → mrb_value → bytes → bool;
  mrb_test : mrb_value → bool;
  mrb_string_p : mrb_value → bool;
  mrb_str_to_cstr : mrb_state → mrb_value → option bytes;
}.

(** * Data *)
Inductive koe_plugin_permission_t :=
  | KOE_PLUGIN_PERM_READ_EVENTS | KOE_PLUGIN_PERM_MODIFY_EVENTS | KOE_PLUGIN_PERM_SEND_MESSAGES
  | KOE_PLUGIN_PERM_READ_CONTACTS | KOE_PLUGIN_PERM_SANDBOX_FS.
Definition permission_bit (p : koe_plugin_permission_t) : Z :=
  match p with
  | KOE_PLUGIN_PERM_READ_EVENTS => Z.shiftl 1 0
  | KOE_PLUGIN_PERM_MODIFY_EVENTS => Z.shiftl 1 1
  | KOE_PLUGIN_PERM_SEND_MESSAGES => Z.shiftl 1 2
  | KOE_PLUGIN_PERM_READ_CONTACTS => Z.shiftl 1 3
  | KOE_PLUGIN_PERM_SANDBOX_FS => Z.shiftl 1 4
  end.

Definition KOE_PLUGIN_MAX : nat := 32.

(** The strings are the whole arrays (64, 32, 256, 64, 256 and 256 bytes). *)
Record koe_plugin_descriptor_t := KoePluginDescriptor {
  pd_name : bytes; pd_version : bytes; pd_description : bytes; pd_author : bytes; pd_permissions : Z;
  pd_entry_point : bytes; pd_sandbox_dir : bytes; pd_enabled : bool;
}.

Section Plugins.
Context `{Mruby}.

(** [current_event] is only ever set and reset. *)
Record koe_plugin_vm := KoePluginVm { vm_mrb : mrb_state; vm_current_event : option koe_event_t }.

Record koe_plugin_t := KoePlugin {
  pl_desc : koe_plugin_descriptor_t;
  pl_vm : option koe_plugin_vm;
  pl_loaded : bool;
  pl_events_processed : Z;
  pl_events_suppressed : Z;
  pl_errors : Z;
}.

(** [pr_plugins] is the whole array; [pr_plugins_dir] is 512 bytes. *)
Record koe_plugin_registry_t := KoePluginRegistry {
  pr_plugins : list koe_plugin_t; pr_count : nat; pr_plugins_dir : bytes;
}.

Definition zero_plugin : koe_plugin_t :=
  KoePlugin (KoePluginDescriptor (zeros 64) (zeros 32) (zeros 256) (zeros 64) 0 (zeros 256) (zeros 256) false)
    None false 0 0 0.

Definition set_vm (vm : option koe_plugin_vm) (p : koe_plugin_t) : koe_plugin_t :=
  KoePlugin (pl_desc p) vm (pl_loaded p) (pl_events_processed p) (pl_events_suppressed p) (pl_errors p).
Definition set_loaded (b : bool) (p : koe_plugin_t) : koe_plugin_t :=
  KoePlugin (pl_desc p) (pl_vm p) b (pl_events_processed p) (pl_events_suppressed p) (pl_errors p).

(** * Lifecycle *)

(** No directory is scanned. *)
Definition koe_plugin_registry_load (plugins_dir : bytes) : Z * koe_plugin_registry_t :=
  (0, KoePluginRegistry (replicate KOE_PLUGIN_MAX zero_plugin) 0 (strncpy (zeros 512) plugins_dir 511)).

Definition NL : bytes := [10].
Definition KOE_PLUGIN_API_RB : bytes :=
  str "module KoeEvent" ++ NL ++ str "  class << self" ++ NL
  ++ str "    attr_accessor :type, :sender_id, :body, :suppressed, :metadata" ++ NL
  ++ str "    def suppress!" ++ NL ++ str "      @suppressed = true" ++ NL ++ str "    end" ++ NL ++ str "  end" ++ NL
  ++ str "  self.metadata = {}" ++ NL ++ str "  self.suppressed = false" ++ NL ++ str "end" ++ NL ++ NL
  ++ str "module Koe" ++ NL ++ str "  def self.send(to_short_id, body)" ++ NL
  ++ str "    _native_send(to_short_id, body)" ++ NL ++ str "  end" ++ NL
  ++ str "  def self.log(msg)" ++ NL ++ str "    _native_log(msg.to_s)" ++ NL ++ str "  end" ++ NL
  ++ str "  def self.contact(short_id)" ++ NL
  ++ str "    { 'short_id' => short_id, 'display_name' => '?', 'verified' => false }" ++ NL
  ++ str "  end" ++ NL ++ str "end" ++ NL.

(** Every failure frees the machine and leaves [loaded] as it was. *)
Definition koe_plugin_enable (plugin : koe_plugin_t) : M (Z * koe_plugin_t) :=
  ok ← malloc;
  if negb ok then mret (-1, set_vm None plugin)
  else
    opened ← malloc;
    if negb opened then mret (-1, set_vm None plugin)
    else
      let mrb := mrb_load mrb_new KOE_PLUGIN_API_RB in
      if mrb_exc mrb then mret (-1, set_vm None plugin)
      else
        f ← fopen_rb (cstr (pd_entry_point (pl_desc plugin)));
        match f with
        | None => mret (-1, set_vm None plugin)
        | Some script =>
            let mrb := mrb_load mrb script in
            if mrb_exc mrb then mret (-1, set_vm None plugin)
            else mret (0, set_loaded true (set_vm (Some (KoePluginVm mrb None)) plugin))
        end.

Definition koe_plugin_disable (plugin : koe_plugin_t) : koe_plugin_t :=
  set_loaded false (set_vm None plugin).

Definition koe_plugin_reload (plugin : koe_plugin_t) : M (Z * koe_plugin_t) :=
  koe_plugin_enable (koe_plugin_disable plugin).

(** * Dispatch *)

(** The message payload of an event: the body is at offset 40 of the union, 4096
    bytes long, and its length is behind it. *)
Definition BODY_OFFSET : nat := 40.
Definition BODY_SIZE : nat := 4096.
Definition BODY_LEN_OFFSET : nat := 4136.
Definition MESSAGE_SIZE : nat := 4168.

Definition message_body (ev : koe_event_t) : option bytes :=
  len ← peek (ev_data ev) BODY_LEN_OFFSET 8;
  body ← peek (ev_data ev) BODY_OFFSET BODY_SIZE;
  peek body 0 (Z.to_nat (le_val len)).
Definition set_message_body (ev : koe_event_t) (body : bytes) : option koe_event_t :=
  d ← poke (ev_data ev) BODY_OFFSET body;
  d ← poke d BODY_LEN_OFFSET (le64 (zlen body));
  Some (KoeEvent (ev_type ev) (ev_timestamp ev) (ev_suppressed ev) d).
Definition set_suppressed (ev : koe_event_t) : koe_event_t :=
  KoeEvent (ev_type ev) (ev_timestamp ev) true (ev_data ev).

Definition is_message (ev : koe_event_t) : bool := ev_type ev =? event_code KOE_EV_MSG_RECEIVED.

(** A plugin that sees events. *)
Definition eligible (p : koe_plugin_t) : bool :=
  pl_loaded p && pd_enabled (pl_desc p)
  && negb (Z.land (pd_permissions (pl_desc p)) (permission_bit KOE_PLUGIN_PERM_MODIFY_EVENTS) =? 0).

(** Setting up KoeEvent and calling the script: the machine afterwards and
    whether it suppressed the event. *)
Definition call_plugin (mrb : mrb_state) (koe_event : mrb_value) (ev : koe_event_t)
  : option (mrb_state * bool) :=
  let '(mrb, ty) := mrb_str_new mrb (dec_int (ev_type ev)) in
  let mrb := (mrb_funcall mrb koe_event (str "type=") [ty]).1 in
  mrb ← (if is_message ev then
           body ← message_body ev;
           let '(mrb, b) := mrb_str_new mrb body in
           Some (mrb_funcall mrb koe_event (str "body=") [b]).1
         else Some mrb);
  let mrb := (mrb_funcall mrb koe_event (str "suppressed=") [mrb_false_value]).1 in
  let mrb := if mrb_respond_to mrb koe_event (str "on_event")
             then (mrb_funcall mrb koe_event (str "on_event") []).1 else mrb in
  let '(mrb, suppressed) := mrb_funcall mrb koe_event (str "suppressed") [] in
  Some (mrb, mrb_test suppressed).

(** Taking over the body the script left, if it is a string that fits. *)
Definition take_body (mrb : mrb_state) (koe_event : mrb_value) (ev : koe_event_t)
  : option (mrb_state * koe_event_t) :=
  if is_message ev && negb (ev_suppressed ev) then
    let '(mrb, new_body) := mrb_funcall mrb koe_event (str "body") [] in
    if mrb_string_p new_body then
      body ← mrb_str_to_cstr mrb new_body;
      if (length body <? BODY_SIZE)%nat then ev ← set_message_body ev body; Some (mrb, ev)
      else Some (mrb, ev)
    else Some (mrb, ev)
  else Some (mrb, ev).

(** One turn of the loop, for an eligible plugin. *)
Definition run_plugin (p : koe_plugin_t) (ev : koe_event_t) : option (koe_plugin_t * koe_event_t) :=
  vm ← pl_vm p;
  koe_event ← mrb_const_get (vm_mrb vm) (str "KoeEvent");
  r ← call_plugin (vm_mrb vm) koe_event ev;
  let '(mrb, suppressed) := r in
  let ev := if (suppressed : bool) then set_suppressed ev else ev in
  r ← take_body mrb koe_event ev;
  let '(mrb, ev) := r in
  let exc := mrb_exc mrb in
  let mrb := if exc then mrb_clear_exc mrb else mrb in
  Some (KoePlugin (pl_desc p) (Some (KoePluginVm mrb None)) (pl_loaded p)
          (u64 (pl_events_processed p + 1))
          (if suppressed then u64 (pl_events_suppressed p + 1) else pl_events_suppressed p)
          (if exc then u64 (pl_errors p + 1) else pl_errors p), ev).

Fixpoint dispatch_loop (ps : list koe_plugin_t) (ev : koe_event_t) : option (list koe_plugin_t * koe_event_t) :=
  match ps with
  | [] => Some ([], ev)
  | p :: ps' =>
      r ← (if eligible p then run_plugin p ev else Some (p, ev));
      r' ← dispatch_loop ps' r.2;
      Some (r.1 :: r'.1, r'.2)
  end.

(** The code, the registry and the event. *)
Definition koe_plugin_dispatch (reg : koe_plugin_registry_t) (ev : koe_event_t)
  : option (Z * koe_plugin_registry_t * koe_event_t) :=
  r ← dispatch_loop (take (pr_count reg) (pr_plugins reg)) ev;
  Some (if ev_suppressed r.2 then 1 else 0,
        KoePluginRegistry (r.1 ++ drop (pr_count reg) (pr_plugins reg)) (pr_count reg) (pr_plugins_dir reg),
        r.2).
End Plugins.

(** * Callbacks and statistics *)

(** The static function and context pointers; nothing reads them. *)
Record plugin_callbacks := PluginCallbacks {
  s_send_fn : option nat; s_send_ctx : nat; s_log_fn : option nat; s_log_ctx : nat;
}.
Definition koe_plugin_set_send_cb (g : plugin_callbacks) (fn : option nat) (ctx : nat) : plugin_callbacks :=
  PluginCallbacks fn ctx (s_log_fn g) (s_log_ctx g).
Definition koe_plugin_set_log_cb (g : plugin_callbacks) (fn : option nat) (ctx : nat) : plugin_callbacks :=
  PluginCallbacks (s_send_fn g) (s_send_ctx g) fn ctx.

(** [%llu]: at most twenty digits. *)
Definition dec_u64 (x : Z) : bytes := dec_digits 20 x.
Definition koe_plugin_stats `{Mruby} (p : koe_plugin_t) (buf_len : nat) : bytes :=
  snprintf_trunc buf_len
    (str "[" ++ cstr (pd_name (pl_desc p)) ++ str " v" ++ cstr (pd_version (pl_desc p)) ++ str "] events="
     ++ dec_u64 (pl_events_processed p) ++ str " suppressed=" ++ dec_u64 (pl_events_suppressed p)
     ++ str " errors=" ++ dec_u64 (pl_errors p) ++ str " loaded="
     ++ (if pl_loaded p then str "yes" else str "no")).

(** * The invariant *)

(** A loaded plugin has a machine. *)
Definition plugin_ok `{Mruby} (p : koe_plugin_t) : Prop := pl_loaded p = true → is_Some (pl_vm p).
Definition plugins_ok `{Mruby} (reg : koe_plugin_registry_t) : Prop :=
  length (pr_plugins reg) = KOE_PLUGIN_MAX ∧ (pr_count reg ≤ KOE_PLUGIN_MAX)%nat ∧ Forall plugin_ok (pr_plugins reg).

(** A message event whose body length is within the body. *)
Definition event_ok (ev : koe_event_t) : Prop :=
  is_message ev = true → (MESSAGE_SIZE ≤ length (ev_data ev))%nat ∧ is_Some (message_body ev).

(** A body and its length written to a buffer, and read back. *)
Lemma poke_body (o n l : nat) (data body : bytes) :
  (o + n ≤ l)%nat → (l + 8 ≤ length data)%nat → (length body ≤ n)%nat → zlen body < 2 ^ 64 →
  ∃ d1 d2 b, poke data o body = Some d1 ∧ poke d1 l (le64 (zlen body)) = Some d2 ∧ length d2 = length data
    ∧ peek d2 l 8 = Some (le64 (zlen body)) ∧ peek d2 o n = Some b
    ∧ peek b 0 (Z.to_nat (le_val (le64 (zlen body)))) = Some body.
Proof.
  intros Hl Hd Hb Hz. pose proof (length_le64 (zlen body)) as L8.
  destruct (poke data o body) as [d1|] eqn:H1; [|unfold poke in H1; case_decide; [done|lia]].
  pose proof (length_poke _ _ _ _ H1) as L1.
  destruct (poke d1 l (le64 (zlen body))) as [d2|] eqn:H2; [|unfold poke in H2; case_decide; [done|lia]].
  pose proof (length_poke _ _ _ _ H2) as L2. pose proof (peek_poke _ _ _ _ H2) as P2. rewrite L8 in P2.
  destruct (peek d2 o n) as [b|] eqn:P1; [|unfold peek in P1; case_decide; [done|lia]].
  exists d1, d2, b. split_and!; [done|done|congruence|done|done|].
  unfold le64. rewrite u64_id, le_val_le_bytes by (unfold zlen in *; simpl; lia). unfold zlen. rewrite Nat2Z.id.
  rewrite (peek_peek _ _ _ _ 0 (length body) P1), Nat.add_0_r by lia.
  rewrite (peek_poke_before _ _ _ _ _ _ H2) by lia. by apply (peek_poke data).
Qed.

Lemma message_layout :
  (BODY_OFFSET + BODY_SIZE ≤ BODY_LEN_OFFSET)%nat ∧ (BODY_LEN_OFFSET + 8 ≤ MESSAGE_SIZE)%nat
  ∧ Z.of_nat BODY_SIZE < 2 ^ 64.
Proof. split_and!; [by apply Nat.leb_le|by apply Nat.leb_le|done]. Qed.

Lemma set_message_body_run ev body :
  (MESSAGE_SIZE ≤ length (ev_data ev))%nat → (length body < BODY_SIZE)%nat →
  ∃ d, set_message_body ev body = Some (KoeEvent (ev_type ev) (ev_timestamp ev) (ev_suppressed ev) d)
    ∧ length d = length (ev_data ev)
    ∧ message_body (KoeEvent (ev_type ev) (ev_timestamp ev) (ev_suppressed ev) d) = Some body.
Proof.
  intros Hd Hb. pose proof message_layout as (L1 & L2 & L3). unfold set_message_body, message_body.
  revert Hd Hb L1 L2 L3. generalize BODY_OFFSET BODY_SIZE BODY_LEN_OFFSET MESSAGE_SIZE. intros o n l m Hd Hb L1 L2 L3.
  destruct (poke_body o n l (ev_data ev) body) as (d1 & d2 & b & -> & H2 & Hlen & P1 & P2 & P3);
    [lia|lia|lia|unfold zlen; lia|].
  cbn [mbind option_bind]. rewrite H2. cbn [mbind option_bind]. exists d2. split; [done|]. split; [done|].
  cbn [ev_data]. rewrite P1. cbn [mbind option_bind]. rewrite P2. done.
Qed.

(** * Dispatch *)

(** What one plugin or all of them may do to an event. *)
Definition tamed (ev ev' : koe_event_t) : Prop :=
  event_ok ev' ∧ ev_type ev' = ev_type ev ∧ ev_timestamp ev' = ev_timestamp ev
  ∧ (ev_suppressed ev = true → ev_suppressed ev' = true)
  ∧ length (ev_data ev') = length (ev_data ev)
  ∧ (is_message ev = false ∨ ev_suppressed ev = true → ev_data ev' = ev_data ev).

Lemma tamed_refl ev : event_ok ev → tamed ev ev.
Proof. by intros. Qed.
Lemma tamed_trans ev1 ev2 ev3 : tamed ev1 ev2 → tamed ev2 ev3 → tamed ev1 ev3.
Proof.
  intros (_ & T1 & S1 & P1 & L1 & D1) (O2 & T2 & S2 & P2 & L2 & D2). split_and!; [done|congruence..|by auto|congruence|].
  intros Hc. rewrite D2; [by apply D1|]. unfold is_message in *. rewrite T1. destruct Hc; auto.
Qed.

Section Dispatch.
Context `{Mruby}.

Lemma call_plugin_run mrb ke ev : event_ok ev → ∃ mrb' b, call_plugin mrb ke ev = Some (mrb', b).
Proof.
  intros Hok. unfold call_plugin. destruct (mrb_str_new mrb _) as [m1 ty]. unfold event_ok in Hok.
  destruct (is_message ev).
  - destruct (Hok eq_refl) as [_ [body ->]]. cbn [mbind option_bind]. destruct (mrb_str_new _ body) as [m2 b].
    cbn [mbind option_bind]. destruct (mrb_funcall _ _ (str "suppressed") _). by eexists _, _.
  - cbn [mbind option_bind]. destruct (mrb_funcall _ _ (str "suppressed") _). by eexists _, _.
Qed.

(** Where a script makes the host raise outside a protected call: it has taken
    the constant KoeEvent away, or the body it leaves is a string that has no C
    string. *)
Definition body_raises (mrb : mrb_state) (ke : mrb_value) (ev : koe_event_t) : Prop :=
  is_message ev = true ∧ ev_suppressed ev = false
  ∧ ∃ mrb' body, mrb_funcall mrb ke (str "body") [] = (mrb', body) ∧ mrb_string_p body = true ∧ mrb_str_to_cstr mrb' body = None.
Definition raises (p : koe_plugin_t) (ev : koe_event_t) : Prop :=
  ∃ vm, pl_vm p = Some vm
    ∧ (mrb_const_get (vm_mrb vm) (str "KoeEvent") = None
       ∨ ∃ ke mrb, mrb_const_get (vm_mrb vm) (str "KoeEvent") = Some ke ∧ call_plugin (vm_mrb vm) ke ev = Some (mrb, false)
                   ∧ body_raises mrb ke ev).

Lemma take_body_run mrb ke ev :
  event_ok ev →
  take_body mrb ke ev = None ∧ body_raises mrb ke ev
  ∨ ∃ mrb' ev', take_body mrb ke ev = Some (mrb', ev') ∧ tamed ev ev'.
Proof.
  intros Hok. unfold take_body, body_raises. pose proof Hok as Hok'. unfold event_ok in Hok.
  destruct (is_message ev) eqn:Hm; cbn [andb]; [|right; by eauto using tamed_refl].
  destruct (ev_suppressed ev) eqn:Hs; cbn [negb]; [right; by eauto using tamed_refl|].
  destruct (mrb_funcall mrb ke (str "body") []) as [m nb]. destruct (mrb_string_p nb) eqn:Hp; [|right; by eauto using tamed_refl].
  destruct (mrb_str_to_cstr m nb) as [body|] eqn:Hbody; cbn [mbind option_bind]; [right|left; by eauto 10].
  destruct (Nat.ltb_spec (length body) BODY_SIZE) as [Hlt|]; [|by eauto using tamed_refl].
  destruct (Hok eq_refl) as [Hlen _]. destruct (set_message_body_run ev body Hlen Hlt) as (d & -> & Hd & Hnew).
  cbn [mbind option_bind]. eexists _, _. split; [done|].
  split_and!; try done; [|intros [?|?]; congruence]. intros _. cbn [ev_data]. rewrite Hd. split; [done|]. by eexists.
Qed.

Lemma event_ok_ext ev ev' : ev_type ev' = ev_type ev → ev_data ev' = ev_data ev → event_ok ev → event_ok ev'.
Proof. intros Ht Hd. unfold event_ok, is_message, message_body. by rewrite Ht, Hd. Qed.

Lemma set_suppressed_tamed ev : event_ok ev → tamed ev (set_suppressed ev).
Proof.
  intros Hok. split; [by apply (event_ok_ext ev)|]. do 2 (split; [exact eq_refl|]).
  split; [intros _; exact eq_refl|]. split; [exact eq_refl|]. intros _. exact eq_refl.
Qed.

(** A turn of the loop counts the event, unless the script makes the host raise. *)
Lemma run_plugin_run p ev :
  plugin_ok p → eligible p = true → event_ok ev →
  run_plugin p ev = None ∧ raises p ev
  ∨ ∃ p' ev', run_plugin p ev = Some (p', ev') ∧ tamed ev ev' ∧ plugin_ok p' ∧ pl_desc p' = pl_desc p
      ∧ pl_loaded p' = pl_loaded p ∧ pl_events_processed p' = u64 (pl_events_processed p + 1).
Proof.
  intros Hp He Hok. unfold eligible in He. apply andb_true_iff in He as [[Hl _]%andb_true_iff _].
  destruct (Hp Hl) as [vm Hvm]. unfold run_plugin. rewrite Hvm. cbn [mbind option_bind].
  destruct (mrb_const_get (vm_mrb vm) (str "KoeEvent")) as [ke|] eqn:Hke; cbn [mbind option_bind].
  2:{ left. split; [done|]. exists vm. by auto. }
  destruct (call_plugin_run (vm_mrb vm) ke ev Hok) as (m1 & b & Hcall). rewrite Hcall. cbn [mbind option_bind].
  set (ev1 := if b then set_suppressed ev else ev).
  assert (H1 : tamed ev ev1) by (unfold ev1; destruct b; [by apply set_suppressed_tamed|by apply tamed_refl]).
  destruct (take_body_run m1 ke ev1) as [[-> Hr]|(m2 & ev2 & -> & H2)]; [apply H1|..]; cbn [mbind option_bind].
  - left. split; [done|]. exists vm. split; [done|]. right. exists ke, m1. destruct b; [by destruct Hr as (_ & [=] & _)|done].
  - right. eexists _, _. split; [done|]. split; [by eapply tamed_trans|]. split_and!; try done. intros _. by eexists.
Qed.

(** One plugin before and after a dispatch. *)
Definition counted (p p' : koe_plugin_t) : Prop :=
  if eligible p then pl_desc p' = pl_desc p ∧ pl_loaded p' = pl_loaded p
                     ∧ pl_events_processed p' = u64 (pl_events_processed p + 1)
  else p' = p.

(** One of the plugins, called with what the ones before it made of the event,
    makes the host raise. *)
Definition some_raises (ps : list koe_plugin_t) (ev : koe_event_t) : Prop :=
  ∃ p ev', p ∈ ps ∧ eligible p = true ∧ tamed ev ev' ∧ raises p ev'.

Lemma dispatch_loop_run ps ev :
  Forall plugin_ok ps → event_ok ev →
  dispatch_loop ps ev = None ∧ some_raises ps ev
  ∨ ∃ ps' ev', dispatch_loop ps ev = Some (ps', ev') ∧ tamed ev ev' ∧ Forall plugin_ok ps' ∧ Forall2 counted ps ps'.
Proof.
  intros Hps. revert ev. induction Hps as [|p ps Hp Hps IH]; intros ev Hok; cbn [dispatch_loop].
  { right. eexists _, _. split; [done|]. by split; [apply tamed_refl|]. }
  assert (Hstep : (if eligible p then run_plugin p ev else Some (p, ev)) = None ∧ eligible p = true ∧ raises p ev
    ∨ ∃ p1 ev1, (if eligible p then run_plugin p ev else Some (p, ev)) = Some (p1, ev1)
        ∧ tamed ev ev1 ∧ plugin_ok p1 ∧ counted p p1).
  { unfold counted. destruct (eligible p) eqn:He; [|right; exists p, ev; by split_and!; [|apply tamed_refl|..]].
    destruct (run_plugin_run p ev Hp He Hok) as [[-> Hr]|(p1 & ev1 & -> & ? & ? & ? & ? & ?)]; [by left|right; by eauto 10]. }
  destruct Hstep as [(-> & He & Hr)|(p1 & ev1 & -> & T1 & O1 & C1)]; cbn [mbind option_bind fst snd].
  { left. split; [done|]. exists p, ev. split_and!; [left|done|by apply tamed_refl|done]. }
  destruct (IH ev1) as [[-> (q & ev2 & Hq & He & T2 & Hr)]|(ps2 & ev2 & -> & T2 & O2 & C2)]; [apply T1|..];
    cbn [mbind option_bind fst snd].
  - left. split; [done|]. exists q, ev2. split_and!; [by right|done|by eapply tamed_trans|done].
  - right. eexists _, _. split; [done|]. split; [by eapply tamed_trans|]. split; by constructor.
Qed.

(** The invariant of the registry after a dispatch. *)
Lemma dispatch_keeps reg ev ps ev' :
  plugins_ok reg → dispatch_loop (take (pr_count reg) (pr_plugins reg)) ev = Some (ps, ev') →
  Forall plugin_ok ps → Forall2 counted (take (pr_count reg) (pr_plugins reg)) ps →
  let reg' := KoePluginRegistry (ps ++ drop (pr_count reg) (pr_plugins reg)) (pr_count reg) (pr_plugins_dir reg) in
  koe_plugin_dispatch reg ev = Some (if ev_suppressed ev' then 1 else 0, reg', ev')
  ∧ plugins_ok reg' ∧ take (pr_count reg) (pr_plugins reg') = ps
  ∧ drop (pr_count reg) (pr_plugins reg') = drop (pr_count reg) (pr_plugins reg).
Proof.
  intros (Hlen & Hc & Hall) E O C. assert (Hl : length ps = pr_count reg) by (rewrite <-(Forall2_length _ _ _ C), length_take; lia).
  unfold koe_plugin_dispatch. rewrite E. cbn [mbind option_bind fst snd pr_plugins].
  rewrite (take_app_length' ps), (drop_app_length' ps) by done. split_and!; try done.
  split; [|split; [done|by apply Forall_app; split; [|apply Forall_drop]]].
  cbn [pr_plugins]. rewrite length_app, length_drop. lia.
Qed.

End Dispatch.

(** * Plugins in the event loop *)
Lemma event_ok_stamp t ev : event_ok ev → event_ok (set_timestamp t ev).
Proof. apply event_ok_ext; reflexivity. Qed.

Section Loop.
Context `{Mruby} {S : Type} (call : koe_listener_t → koe_event_t → S → S * list action).

(** The state of the loop is the registry and the state of the application. *)
Definition plugin_hook (ev : koe_event_t) (st : koe_plugin_registry_t * S)
  : option (koe_event_t * (koe_plugin_registry_t * S)) :=
  r ← koe_plugin_dispatch st.1 ev; Some (r.2, (r.1.2, st.2)).
Definition call_app (l : koe_listener_t) (ev : koe_event_t) (st : koe_plugin_registry_t * S)
  : (koe_plugin_registry_t * S) * list action :=
  let '(a, acts) := call l ev st.2 in ((st.1, a), acts).
Lemma call_app_snd l ev st : (call_app l ev st).2 = (call l ev st.2).2.
Proof. unfold call_app. by destruct (call l ev st.2). Qed.

(** Callbacks may post well-formed events, as long as these count for less, over
    all the listeners there may be, than the event the callback was called with,
    by some measure of the types. *)
Definition posts_less (measure : Z → nat) : Prop :=
  (∀ t, 0 < measure t)%nat
  ∧ ∀ l ev a, Forall event_ok (posted (call l ev a).2)
    ∧ (KOE_MAX_LISTENERS * total_cost (measure ∘ ev_type) (posted (call l ev a).2) < measure (ev_type ev))%nat.

Lemma plugin_listeners measure hook :
  posts_less measure →
  Listeners call_app (if (hook : bool) then Some plugin_hook else None) event_ok (λ st, plugins_ok st.1) (measure ∘ ev_type).
Proof.
  intros Hp. split.
  - intros l ev [reg a] Hr. unfold call_app. cbn. by destruct (call l ev a).
  - intros l ev st. rewrite call_app_snd. apply Hp.
  - intros l ev st. rewrite call_app_snd. apply Hp.
  - apply event_ok_stamp.
  - done.
  - intros ev. apply Hp.
  - destruct hook; [|done]. intros f ev [reg a] ev' st' [= <-] Hev Hr. unfold plugin_hook. cbn [fst snd] in *.
    destruct (dispatch_loop_run (take (pr_count reg) (pr_plugins reg)) ev)
      as [[E _]|(ps & ev1 & E & T & O & C)]; [by apply Forall_take, Hr|done|..].
    + unfold koe_plugin_dispatch. by rewrite E.
    + destruct (dispatch_keeps reg ev ps ev1 Hr E O C) as (-> & Hreg' & _). cbn. intros [= <- <-]. cbn.
      split; [done|]. destruct T as (_ & -> & _). done.
Qed.
End Loop.

(** * Loading and unloading *)
Lemma koe_plugin_reload_ok `{Mruby} p w :
  runs w (koe_plugin_reload p) (λ r _, plugin_ok r.2 ∧ (r.1 = 0 ∧ pl_loaded r.2 = true ∨ r.1 = -1 ∧ pl_loaded r.2 = false)).
Proof.
  unfold koe_plugin_reload, koe_plugin_enable. apply runs_malloc. destruct (w_heap w _); cbn [negb];
    [|apply runs_ret; by split; [|right]].
  apply runs_malloc. destruct (w_heap _ _); cbn [negb]; [|apply runs_ret; by split; [|right]].
  case_match; [apply runs_ret; by split; [|right]|].
  apply runs_fopen. intros [script|]; [case_match|]; apply runs_ret.
  - by split; [|right].
  - split; [by eexists|by left].
  - by split; [|right].
Qed.

(** Enabling a plugin that is already loaded and whose script no longer loads
    leaves it marked as loaded without a machine, and the next event
    dereferences a null pointer. *)
Lemma koe_plugin_enable_stale `{Mruby} p w reg i ev :
  eligible p = true → w_fs w !! cstr (pd_entry_point (pl_desc p)) = None →
  ∃ p' w', w ⊢ koe_plugin_enable p ⇓ (-1, p') ⊣ w'
    ∧ (take (pr_count reg) (pr_plugins reg) !! i = Some p' →
       Forall (λ q, eligible q = false) (take i (pr_plugins reg)) → koe_plugin_dispatch reg ev = None).
Proof.
  intros He Hf. assert (E : ∃ w', w ⊢ koe_plugin_enable p ⇓ (-1, set_vm None p) ⊣ w').
  { unfold koe_plugin_enable. unfold mbind at 1, M_bind at 1, malloc. destruct (w_heap w _); cbn [negb]; [|by eexists].
    unfold mbind at 1, M_bind at 1, malloc. destruct (w_heap _ _); cbn [negb]; [|by eexists].
    case_match; [by eexists|]. rewrite bind_fopen_absent by done. by eexists. }
  destruct E as [w' E]. exists (set_vm None p), w'. split; [done|]. intros Hi Hpre.
  assert (Hl : dispatch_loop (take (pr_count reg) (pr_plugins reg)) ev = None).
  { apply lookup_take_Some in Hi as [Hi Hlt].
    rewrite <-(take_drop_middle _ _ _ Hi), take_app_ge by (rewrite length_take; lia).
    destruct (pr_count reg - _)%nat as [|k] eqn:Hk; [rewrite length_take in Hk; apply lookup_lt_Some in Hi; lia|].
    cbn [firstn]. revert Hpre. generalize (take i (pr_plugins reg)). intros pre Hpre.
    induction Hpre as [|q pre Hq _ IH]; cbn [app dispatch_loop].
    - replace (eligible (set_vm None p)) with true by (by rewrite <-He). done.
    - rewrite Hq. cbn [mbind option_bind fst snd]. by rewrite IH. }
  unfold koe_plugin_dispatch. by rewrite Hl.
Qed.

(** * Witnesses *)

(** An interpreter with two variables, [body] and [suppressed], whose scripts
    suppress the event when their first byte is one and upper-case the first
    letter of the body otherwise. *)
Record toy_mrb := ToyMrb { tm_script : bytes; tm_body : bytes; tm_suppressed : bool }.
#[local] Instance toy_mruby : Mruby := {|
  mrb_state := toy_mrb;
  mrb_value := bytes;
  mrb_new := ToyMrb [] [] false;
  mrb_exc _ := false;
  mrb_clear_exc m := m;
  mrb_load m script := ToyMrb script (tm_body m) (tm_suppressed m);
  mrb_const_get _ name := Some name;
  mrb_str_new m s := (m, s);
  mrb_false_value := [];
  mrb_funcall m _ name args :=
    if bool_decide (name = str "body=") then (ToyMrb (tm_script m) (default [] (head args)) (tm_suppressed m), [])
    else if bool_decide (name = str "suppressed=") then (ToyMrb (tm_script m) (tm_body m) false, [])
    else if bool_decide (name = str "on_event") then
      (ToyMrb (tm_script m) (match tm_body m with b :: l => b - 32 :: l | [] => [] end)
         (bool_decide (head (tm_script m) = Some 1)), [])
    else if bool_decide (name = str "suppressed") then (m, if tm_suppressed m then [1] else [])
    else (m, tm_body m);
  mrb_respond_to _ _ _ := true;
  mrb_test v := negb (bool_decide (v = []));
  mrb_string_p _ := true;
  mrb_str_to_cstr _ v := if bool_decide (nonul v) then Some v else None;
|}.

Definition toy_plugin (script : bytes) (permissions : Z) : koe_plugin_t :=
  KoePlugin (KoePluginDescriptor (str "p" ++ zeros 63) (str "1" ++ zeros 31) (zeros 256) (zeros 64) permissions
               (zeros 256) (zeros 256) true) (Some (KoePluginVm (ToyMrb script [] false) None)) true 7 0 0.
Definition toy_registry : koe_plugin_registry_t :=
  KoePluginRegistry (toy_plugin [0] 2 :: toy_plugin [1] 1 :: replicate 30 zero_plugin) 2 (zeros 512).
Definition toy_message : koe_event_t :=
  KoeEvent 1 3 false (zeros 40 ++ str "hi" ++ zeros 4094 ++ le64 2 ++ zeros 24).

Lemma toy_registry_ok : plugins_ok toy_registry.
Proof.
  split; [reflexivity|]. split; [cbn; unfold KOE_PLUGIN_MAX; lia|]. repeat constructor; intros E; try discriminate E; by eexists.
Qed.
Lemma toy_message_ok : event_ok toy_message.
Proof. intros _. split; [by apply Nat.leb_le|]. apply (bool_decide_unpack _). vm_compute. exact I. Qed.


(** The first plugin rewrites the body; the second lacks the permission. *)
Example toy_dispatch_body :
  option_map (λ r, (r.1.1, message_body r.2)) (koe_plugin_dispatch toy_registry toy_message) = Some (0, Some (str "Hi")).
Proof. vm_compute. reflexivity. Qed.

(** A message with a NUL in its body, which any peer can send, is enough to end a
    process with a plugin that lets the body pass. *)
Definition nul_message : koe_event_t :=
  KoeEvent 1 3 false (zeros 40 ++ [104; 0; 105] ++ zeros 4093 ++ le64 3 ++ zeros 24).
Lemma koe_plugin_nul_ends_process :
  event_ok nul_message ∧ plugins_ok toy_registry ∧ koe_plugin_dispatch toy_registry nul_message = None.
Proof.
  split; [intros _; split; [by apply Nat.leb_le|]; apply (bool_decide_unpack _); vm_compute; exact I|].
  split; [apply toy_registry_ok|]. vm_compute. reflexivity.
Qed.

(** A listener that announces a received message to the others. *)
Definition announcer (l : koe_listener_t) (ev : koe_event_t) (log : list Z) : list Z * list action :=
  (log ++ [ev_type ev], if ev_type ev =? 1 then [Post (KoeEvent 5 0 false [])] else []).


(** The message and its announcement are dispatched. *)
Example toy_poll_announces :
  option_map (λ r, option_map (λ x, (x.1.1, x.2.2)) r.1)
    (koe_event_poll (call_app announcer) (Some plugin_hook) 33
      (EventState (ring_post ring_init toy_message) [KoeListener 1 0] true) (toy_registry, []) (world_at 1))
  = Some (Some (2, [1; 5])).
Proof. vm_compute. reflexivity. Qed.
