(* ===== verification/Presence.v ===== *)
(** Presence (src/koe_presence.c, include/koe_presence.h): the table of peers
    with its swap-remove expiry, typing indicators, and the packets that
    announce them. *)

From S2P Require Import Prelude Version Crc32 Packet Crypto Sealed.

(** * Data *)
Definition KOE_PRESENCE_TTL_LOCAL : Z := 30.
Definition KOE_PRESENCE_TTL_RELAY : Z := 90.
Definition KOE_PRESENCE_MAX_PEERS : nat := 512.

Inductive koe_presence_state_t :=
  | KOE_PRESENCE_OFFLINE | KOE_PRESENCE_ONLINE | KOE_PRESENCE_AWAY | KOE_PRESENCE_BUSY
  | KOE_PRESENCE_GHOST.
#[export] Instance koe_presence_state_t_eq_dec : EqDecision koe_presence_state_t.
Proof. solve_decision. Defined.

Definition presence_code (s : koe_presence_state_t) : Z :=
  match s with
  | KOE_PRESENCE_OFFLINE => 0 | KOE_PRESENCE_ONLINE => 1 | KOE_PRESENCE_AWAY => 2
  | KOE_PRESENCE_BUSY => 3 | KOE_PRESENCE_GHOST => 4
  end.

(** [pp_transport] is an [int] that holds a KOE_TRANSPORT_ value. *)
Record koe_peer_presence_t := KoePeerPresence {
  pp_pk : bytes;
  pp_state : koe_presence_state_t;
  pp_last_seen : Z;
  pp_transport : Z;
  pp_is_typing : bool;
  pp_typing_started_at : Z;
}.
#[export] Instance koe_peer_presence_t_eq_dec : EqDecision koe_peer_presence_t.
Proof. solve_decision. Defined.

Definition zero_presence : koe_peer_presence_t :=
  KoePeerPresence (zeros 32) KOE_PRESENCE_OFFLINE 0 0 false 0.

(** The whole array is kept: entries past the count are stale, not gone. *)
Record koe_presence_table_t := KoePresenceTable {
  pt_peers : list koe_peer_presence_t;
  pt_count : nat;
  pt_local_state : koe_presence_state_t;
}.

(** The entries in use. *)
Definition live (t : koe_presence_table_t) : list koe_peer_presence_t := take (pt_count t) (pt_peers t).

(** * The table *)
Definition koe_presence_init : koe_presence_table_t :=
  KoePresenceTable (replicate KOE_PRESENCE_MAX_PEERS zero_presence) 0 KOE_PRESENCE_OFFLINE.

(** The test of the search loops. *)
Definition peer_has (pk : bytes) (p : koe_peer_presence_t) : Prop := memeq 32 (pp_pk p) pk = true.
#[export] Instance peer_has_dec pk p : Decision (peer_has pk p).
Proof. unfold peer_has. apply _. Defined.

Definition set_seen (s : koe_presence_state_t) (t transport : Z) (p : koe_peer_presence_t)
  : koe_peer_presence_t :=
  KoePeerPresence (pp_pk p) s t transport (pp_is_typing p) (pp_typing_started_at p).

Definition set_peers (l : list koe_peer_presence_t) (t : koe_presence_table_t) : koe_presence_table_t :=
  KoePresenceTable l (pt_count t) (pt_local_state t).

(** A new entry overwrites four fields of the slot and keeps its typing fields. *)
Definition koe_presence_update (table : koe_presence_table_t) (pk : bytes)
    (state : koe_presence_state_t) (transport : Z) : M koe_presence_table_t :=
  match list_find (peer_has pk) (live table) with
  | Some (i, p) =>
      t ← time_null;
      mret (set_peers (<[i := set_seen state t transport p]> (pt_peers table)) table)
  | None =>
      if decide (pt_count table < KOE_PRESENCE_MAX_PEERS)%nat then
        p ← lift (pt_peers table !! pt_count table);
        t ← time_null;
        mret (KoePresenceTable
                (<[pt_count table :=
                     KoePeerPresence pk state t transport (pp_is_typing p) (pp_typing_started_at p)]>
                   (pt_peers table))
                (S (pt_count table)) (pt_local_state table))
      else mret table
  end.

(** The lifetime of an entry: the code compares the transport with
    [KOE_PRESENCE_ONLINE]. *)
Definition presence_ttl (transport : Z) : Z :=
  if transport =? presence_code KOE_PRESENCE_ONLINE then KOE_PRESENCE_TTL_LOCAL else KOE_PRESENCE_TTL_RELAY.

Definition koe_presence_get (table : koe_presence_table_t) (pk : bytes) : M koe_presence_state_t :=
  now ← time_null;
  match list_find (peer_has pk) (live table) with
  | Some (_, p) =>
      age ← lift (sub64 now (pp_last_seen p));
      if presence_ttl (pp_transport p) <? age then mret KOE_PRESENCE_OFFLINE else mret (pp_state p)
  | None => mret KOE_PRESENCE_OFFLINE
  end.

Definition koe_presence_is_online (table : koe_presence_table_t) (pk : bytes) : M Z :=
  s ← koe_presence_get table pk;
  mret (if decide (s = KOE_PRESENCE_OFFLINE) then 0 else 1).

(** The sweep, at most [fuel] iterations: the last entry replaces a stale one
    and is examined in turn. *)
Fixpoint expire_loop (fuel : nat) (now : Z) (peers : list koe_peer_presence_t) (count i : nat)
    (removed : Z) : option (list koe_peer_presence_t * nat * Z) :=
  if decide (i < count)%nat then
    match fuel with
    | O => None
    | S fuel' =>
        p ← peers !! i;
        age ← sub64 now (pp_last_seen p);
        if KOE_PRESENCE_TTL_RELAY <? age then
          lst ← peers !! (count - 1)%nat;
          expire_loop fuel' now (<[i := lst]> peers) (count - 1) i (removed + 1)
        else expire_loop fuel' now peers count (S i) removed
    end
  else Some (peers, count, removed).

Definition koe_presence_expire (table : koe_presence_table_t) : M (Z * koe_presence_table_t) :=
  now ← time_null;
  r ← lift (expire_loop (pt_count table) now (pt_peers table) (pt_count table) 0 0);
  let '(peers, count, removed) := r in
  mret (removed, KoePresenceTable peers count (pt_local_state table)).

(** * Typing indicators *)
Definition koe_presence_typing_expired (peer : koe_peer_presence_t) : M Z :=
  if negb (pp_is_typing peer) then mret 0
  else
    now ← time_null;
    age ← lift (sub64 now (pp_typing_started_at peer));
    mret (if 5 <? age then 1 else 0).

Definition set_typing_since (t : Z) (p : koe_peer_presence_t) : koe_peer_presence_t :=
  KoePeerPresence (pp_pk p) (pp_state p) (pp_last_seen p) (pp_transport p) true t.

(** The payload is not looked at. *)
Definition koe_presence_handle_typing (table : koe_presence_table_t) (pkt : koe_packet_t)
  : M koe_presence_table_t :=
  match list_find (peer_has (h_from (p_header pkt))) (live table) with
  | Some (i, p) =>
      t ← time_null;
      mret (set_peers (<[i := set_typing_since t p]> (pt_peers table)) table)
  | None => mret table
  end.

(** * The local state and packets *)
Definition koe_presence_set_local (table : koe_presence_table_t) (state : koe_presence_state_t)
    (ghost_active : bool) : Z * koe_presence_table_t :=
  (0, KoePresenceTable (pt_peers table) (pt_count table)
        (if ghost_active then KOE_PRESENCE_GHOST else state)).

Section Packets.
Context `{Sodium}.

Definition koe_presence_set_typing (pkt : koe_packet_t) (local_id : koe_identity_t) (to_pk : bytes)
    (sess : koe_session_t) (is_typing : Z) : M (Z * koe_packet_t) :=
  r ← seal_stack KOE_TYPE_TYPING KOE_FLAG_ENCRYPTED (id_pk local_id) to_pk [u8 is_typing] (tx_key sess);
  mret (sealed_result pkt r).

Definition koe_presence_build_packet (pkt : koe_packet_t) (local_id : koe_identity_t) (to_pk : bytes)
    (state : koe_presence_state_t) (sess : koe_session_t) : M (Z * koe_packet_t) :=
  r ← seal_stack KOE_TYPE_PRESENCE KOE_FLAG_ENCRYPTED (id_pk local_id) to_pk
        [u8 (presence_code state)] (tx_key sess);
  mret (sealed_result pkt r).

End Packets.

(** * The abstract table

    A finite map from peers to what was last heard of them, with the state the
    local user advertises. *)
Record sighting := Sighting { si_state : koe_presence_state_t; si_last_seen : Z; si_transport : Z }.

Definition sighting_of (p : koe_peer_presence_t) : sighting :=
  Sighting (pp_state p) (pp_last_seen p) (pp_transport p).

Definition presence_map (t : koe_presence_table_t) : gmap bytes sighting :=
  keyed_map pp_pk sighting_of (live t).

Inductive presence_op :=
  | OpUpdate (pk : bytes) (s : koe_presence_state_t) (transport : Z)
  | OpGet (pk : bytes)
  | OpIsOnline (pk : bytes)
  | OpExpire
  | OpTyping (pkt : koe_packet_t)
  | OpSetLocal (s : koe_presence_state_t) (ghost : bool).

Inductive presence_ret := RetNone | RetState (s : koe_presence_state_t) | RetInt (n : Z).

Definition table_op (op : presence_op) (t : koe_presence_table_t) : M (presence_ret * koe_presence_table_t) :=
  match op with
  | OpUpdate pk s tr => t' ← koe_presence_update t pk s tr; mret (RetNone, t')
  | OpGet pk => s ← koe_presence_get t pk; mret (RetState s, t)
  | OpIsOnline pk => n ← koe_presence_is_online t pk; mret (RetInt n, t)
  | OpExpire => r ← koe_presence_expire t; mret (RetInt r.1, r.2)
  | OpTyping pkt => t' ← koe_presence_handle_typing t pkt; mret (RetNone, t')
  | OpSetLocal s g => let r := koe_presence_set_local t s g in mret (RetInt r.1, r.2)
  end.

(** How many seconds a sighting lasts: thirty over WiFi Direct (transport 1),
    [bluetooth] over Bluetooth (transport 2), ninety over a relay. The header
    promises thirty for Bluetooth. *)
Definition lifetime (bluetooth transport : Z) : Z :=
  if transport =? 1 then 30 else if transport =? 2 then bluetooth else 90.

(** The state of a sighting at a given time. *)
Definition state_at (bluetooth now : Z) (o : option sighting) : M koe_presence_state_t :=
  match o with
  | Some v =>
      age ← lift (sub64 now (si_last_seen v));
      mret (if lifetime bluetooth (si_transport v) <? age then KOE_PRESENCE_OFFLINE else si_state v)
  | None => mret KOE_PRESENCE_OFFLINE
  end.

Definition ages_ok (now : Z) (m : gmap bytes sighting) : Prop :=
  map_Forall (λ _ v, is_Some (sub64 now (si_last_seen v))) m.
#[export] Instance ages_ok_dec now m : Decision (ages_ok now m).
Proof. unfold ages_ok. apply _. Defined.

(** What each operation promises. Keys that are not 32 bytes and times that
    overflow are outside the contract. Typing indicators are not part of the
    map. *)
Definition map_op (bluetooth : Z) (op : presence_op) (s : gmap bytes sighting * koe_presence_state_t)
  : M (presence_ret * (gmap bytes sighting * koe_presence_state_t)) :=
  let (m, local) := s in
  match op with
  | OpUpdate pk st tr =>
      if decide (length pk ≠ 32%nat) then ub
      else if decide (is_Some (m !! pk) ∨ (size m < KOE_PRESENCE_MAX_PEERS)%nat) then
        t ← time_null; mret (RetNone, (<[pk := Sighting st t tr]> m, local))
      else mret (RetNone, (m, local))
  | OpGet pk =>
      if decide (length pk ≠ 32%nat) then ub
      else t ← time_null; st ← state_at bluetooth t (m !! pk); mret (RetState st, (m, local))
  | OpIsOnline pk =>
      if decide (length pk ≠ 32%nat) then ub
      else t ← time_null; st ← state_at bluetooth t (m !! pk);
           mret (RetInt (if decide (st = KOE_PRESENCE_OFFLINE) then 0 else 1), (m, local))
  | OpExpire =>
      t ← time_null;
      if decide (ages_ok t m) then
        let m' := filter (λ kv, t - si_last_seen kv.2 ≤ 90) m in
        mret (RetInt (Z.of_nat (size m) - Z.of_nat (size m')), (m', local))
      else ub
  | OpTyping pkt =>
      if decide (length (h_from (p_header pkt)) ≠ 32%nat) then ub
      else if decide (is_Some (m !! h_from (p_header pkt))) then
        _ ← time_null; mret (RetNone, (m, local))
      else mret (RetNone, (m, local))
  | OpSetLocal st g => mret (RetInt 0, (m, if g then KOE_PRESENCE_GHOST else st))
  end.

(** The array has its size, no peer has two entries, and the map is the one of
    the entries in use. *)
Definition presence_ok (t : koe_presence_table_t) : Prop :=
  length (pt_peers t) = KOE_PRESENCE_MAX_PEERS ∧ (pt_count t ≤ KOE_PRESENCE_MAX_PEERS)%nat
  ∧ Forall (λ p, length (pp_pk p) = 32%nat) (live t) ∧ NoDup (pp_pk <$> live t).

Definition represents (t : koe_presence_table_t) (s : gmap bytes sighting * koe_presence_state_t) : Prop :=
  presence_ok t ∧ s = (presence_map t, pt_local_state t).

Lemma length_live t : presence_ok t → length (live t) = pt_count t.
Proof. intros (H1 & H2 & _). unfold live. rewrite length_take. lia. Qed.

Lemma live_find t pk :
  presence_ok t → length pk = 32%nat →
  match list_find (peer_has pk) (live t) with
  | Some (i, p) => live t !! i = Some p ∧ (i < pt_count t)%nat ∧ pp_pk p = pk
                   ∧ presence_map t !! pk = Some (sighting_of p)
  | None => presence_map t !! pk = None
  end.
Proof.
  intros Hok Hpk. pose proof Hok as (_ & _ & Hall & Hnd).
  pose proof (find_key pp_pk sighting_of pk (live t) Hall Hpk Hnd) as Hf. rewrite length_live in Hf by done.
  unfold peer_has. destruct (list_find _ _) as [[i p]|]; [exact Hf|apply Hf].
Qed.

(** Changing an entry in place without its key. *)
Lemma represents_set t i p p' :
  presence_ok t → live t !! i = Some p → (i < pt_count t)%nat → pp_pk p' = pp_pk p →
  represents (set_peers (<[i := p']> (pt_peers t)) t)
    (<[pp_pk p := sighting_of p']> (presence_map t), pt_local_state t).
Proof.
  intros (H1 & H2 & H3 & H4) Hi Hlt Hk. unfold represents, presence_ok, presence_map.
  assert (Hlive : live (set_peers (<[i := p']> (pt_peers t)) t) = <[i := p']> (live t)).
  { unfold live. simpl. by apply take_insert_lt. }
  destruct (keyed_map_insert pp_pk sighting_of (live t) i p p' H4 Hi Hk) as [Em Ek].
  rewrite Hlive, Em, Ek. simpl. rewrite length_insert. split_and!; [done..| |done|done].
  apply Forall_insert; [done|]. rewrite Hk. rewrite Forall_forall in H3. apply H3.
  by eapply list_elem_of_lookup_2.
Qed.

(** Using the next slot. *)
Lemma represents_push t p :
  presence_ok t → (pt_count t < KOE_PRESENCE_MAX_PEERS)%nat → length (pp_pk p) = 32%nat →
  presence_map t !! pp_pk p = None →
  represents (KoePresenceTable (<[pt_count t := p]> (pt_peers t)) (S (pt_count t)) (pt_local_state t))
    (<[pp_pk p := sighting_of p]> (presence_map t), pt_local_state t).
Proof.
  intros (H1 & H2 & H3 & H4) Hlt Hl Hn. unfold represents, presence_ok, presence_map in *.
  apply keyed_map_None in Hn.
  assert (Hlive : live (KoePresenceTable (<[pt_count t := p]> (pt_peers t)) (S (pt_count t)) (pt_local_state t))
                  = live t ++ [p]).
  { unfold live. simpl. erewrite take_S_r by (apply list_lookup_insert_eq; lia).
    by rewrite take_insert_ge. }
  rewrite Hlive, keyed_map_snoc by done. simpl. rewrite length_insert, fmap_app.
  split_and!; [done|lia| | |done].
  - apply Forall_app. split; [done|]. by constructor.
  - apply NoDup_app. split_and!; [done| |apply NoDup_singleton]. simpl. set_solver.
Qed.

(** The sweep keeps exactly the fresh entries and terminates within as many
    iterations as there are entries. *)
Lemma expire_loop_spec fuel now peers count i removed :
  (i ≤ count)%nat → (count ≤ length peers)%nat → (count - i ≤ fuel)%nat →
  Forall (λ p, is_Some (sub64 now (pp_last_seen p))) (take count peers) →
  ∃ peers' count',
    expire_loop fuel now peers count i removed
      = Some (peers', count', removed + Z.of_nat count - Z.of_nat count')
    ∧ length peers' = length peers ∧ (count' ≤ count)%nat
    ∧ take count' peers' ≡ₚ take i peers
        ++ filter (λ p, now - pp_last_seen p ≤ KOE_PRESENCE_TTL_RELAY) (drop i (take count peers)).
Proof.
  revert peers count i removed. induction fuel as [|fuel IH]; intros peers count i removed Hi Hc Hf Hall;
    cbn [expire_loop]; (case_decide as Hlt; [|assert (i = count) as -> by lia;
      exists peers, count; rewrite drop_ge, app_nil_r by (rewrite length_take; lia);
      split_and!; [do 2 f_equal; lia|done|lia|done]]); [lia|].
  destruct (lookup_lt_is_Some_2 peers i) as [p Hp]; [lia|].
  assert (Hpl : take count peers !! i = Some p) by (by rewrite lookup_take_lt).
  assert (Hage : is_Some (sub64 now (pp_last_seen p))).
  { rewrite Forall_forall in Hall. apply Hall. by eapply list_elem_of_lookup_2. }
  destruct Hage as [a Ha]. assert (a = now - pp_last_seen p) as ->.
  { unfold sub64, chk64 in Ha. by case_match; simplify_eq. }
  rewrite Hp. cbn [mbind option_bind]. rewrite Ha. cbn [mbind option_bind]. rewrite (drop_S _ _ _ Hpl), filter_cons.
  destruct (Z.ltb_spec KOE_PRESENCE_TTL_RELAY (now - pp_last_seen p)) as [Hst|Hfr].
  - rewrite decide_False by lia.
    destruct (lookup_lt_is_Some_2 peers (count - 1)) as [lst Hlst]; [lia|]. rewrite Hlst. cbn [mbind option_bind].
    set (l := take count peers) in *.
    assert (Hll : length l = count) by (unfold l; rewrite length_take; lia).
    assert (Hlast : l !! (length l - 1)%nat = Some lst) by (rewrite Hll; unfold l; rewrite lookup_take_lt by lia; done).
    assert (Hnew : take (count - 1) (<[i := lst]> peers) = take (length l - 1) (<[i := lst]> l)).
    { rewrite Hll. unfold l. rewrite <-take_insert_lt by lia. rewrite take_take. f_equal. lia. }
    pose proof (swap_remove l i p lst Hpl Hlast) as Hperm. rewrite <-Hnew in Hperm.
    destruct (IH (<[i := lst]> peers) (count - 1)%nat i (removed + 1)) as (peers' & count' & E & L & C & P);
      [lia|rewrite length_insert; lia|lia| |].
    { rewrite Hperm. apply Forall_app. split; [by apply Forall_take|by apply Forall_drop]. }
    exists peers', count'. rewrite E. split_and!; [do 2 f_equal; lia|by rewrite L, length_insert|lia|].
    rewrite P, take_insert_ge by lia.
    assert (Htk : take i (take (count - 1) (<[i := lst]> peers)) = take i peers).
    { rewrite take_take, Nat.min_l by lia. by rewrite take_insert_ge. }
    rewrite <-(take_drop i (take (count - 1) (<[i := lst]> peers))), Htk in Hperm.
    replace (take i l) with (take i peers) in Hperm by (unfold l; rewrite take_take, Nat.min_l by lia; done).
    apply Permutation_app_inv_l in Hperm. by rewrite Hperm.
  - rewrite decide_True by lia. destruct (IH peers count (S i) removed) as (peers' & count' & E & L & C & P); [lia..|done|].
    exists peers', count'. split_and!; [done|done|lia|]. rewrite P, (take_S_r _ _ _ Hp).
    rewrite <-app_assoc. done.
Qed.

Lemma koe_presence_expire_run t w :
  presence_ok t → ages_ok (now w) (presence_map t) →
  let m' := filter (λ kv, now w - si_last_seen kv.2 ≤ KOE_PRESENCE_TTL_RELAY) (presence_map t) in
  ∃ t', w ⊢ koe_presence_expire t
          ⇓ (Z.of_nat (size (presence_map t)) - Z.of_nat (size m'), t') ⊣ tick w
        ∧ represents t' (m', pt_local_state t).
Proof.
  intros Hok Hages m'. pose proof Hok as (H1 & H2 & H3 & H4).
  destruct (expire_loop_spec (pt_count t) (now w) (pt_peers t) (pt_count t) 0 0)
    as (peers' & count' & E & L & C & P); [lia..| |].
  { apply Forall_forall. intros p Hp. apply (Hages (pp_pk p) (sighting_of p)). by apply keyed_map_Some. }
  rewrite Z.add_0_l in E. rewrite take_0, drop_0 in P. simpl in P. fold (live t) in P.
  set (t' := KoePresenceTable peers' count' (pt_local_state t)).
  assert (Hnd : NoDup (pp_pk <$> live t')).
  { unfold live, t'. simpl. rewrite P. eapply sublist_NoDup; [exact H4|]. apply fmap_sublist, sublist_filter. }
  assert (Hm : presence_map t' = m').
  { unfold presence_map, m'. rewrite (keyed_map_perm _ _ _ _ Hnd P). by apply keyed_map_filter. }
  assert (Hok' : presence_ok t').
  { split_and!; simpl; [lia|lia| |done]. unfold live, t'. simpl. rewrite P.
    apply Forall_forall. intros p [_ Hp]%list_elem_of_filter. rewrite Forall_forall in H3. by apply H3. }
  assert (Hs : size (presence_map t) = pt_count t) by (unfold presence_map; by rewrite keyed_map_size, length_live).
  assert (Hs' : size m' = count') by (rewrite <-Hm; unfold presence_map; by rewrite keyed_map_size, length_live).
  exists t'. split; [|split; [done|by rewrite Hm]].
  unfold koe_presence_expire. rewrite bind_time, (bind_lift _ _ _ _ E). by rewrite Hs, Hs'.
Qed.

(** The code gives Bluetooth the lifetime of a relay. *)
Lemma presence_ttl_lifetime transport : presence_ttl transport = lifetime 90 transport.
Proof. unfold presence_ttl, lifetime. cbn. destruct (transport =? 1), (transport =? 2); done. Qed.

Lemma koe_presence_get_run t pk w :
  presence_ok t → length pk = 32%nat →
  koe_presence_get t pk w = (s ← state_at 90 (now w) (presence_map t !! pk); mret s) (tick w).
Proof.
  intros Hok Hpk. unfold koe_presence_get. rewrite bind_time.
  pose proof (live_find t pk Hok Hpk) as Hf. destruct (list_find _ _) as [[i p]|].
  - destruct Hf as (_ & _ & _ & ->). simpl. destruct (sub64 _ _); [|done]. mrun. rewrite presence_ttl_lifetime.
    by destruct (_ <? _).
  - by rewrite Hf.
Qed.

#[export] Instance presence_simulation : Simulation table_op (map_op 90) represents.
Proof.
  intros op t s ret s' w w' [Hok ->] Hop. destruct op as [pk st tr|pk|pk| |pkt|st g]; simpl in Hop |- *.
  - case_decide as Hpk; [done|]. pose proof (live_find t pk Hok) as Hf.
    assert (Hs : size (presence_map t) = pt_count t)
      by (destruct Hok as (? & ? & ? & ?); unfold presence_map; rewrite keyed_map_size by done; by apply length_live).
    unfold koe_presence_update. destruct (list_find _ _) as [[i p]|].
    + destruct Hf as (Hi & Hlt & Hp & Hm); [lia|]. rewrite decide_True in Hop by (left; eauto).
      injection Hop as <- <- <-. eexists. split; [done|]. rewrite <-Hp. by apply (represents_set t i p (set_seen st (now w) tr p)).
    + specialize (Hf ltac:(lia)). rewrite Hs in Hop. case_decide as Hroom.
      * destruct Hroom as [[v Hv]|Hroom]; [congruence|]. rewrite decide_True by done.
        destruct (lookup_lt_is_Some_2 (pt_peers t) (pt_count t)) as [q Hq]; [by destruct Hok as (-> & _)|].
        rewrite Hq. injection Hop as <- <- <-. eexists. split; [done|].
        apply (represents_push t (KoePeerPresence pk st (now w) tr (pp_is_typing q) (pp_typing_started_at q)));
          try done; lia.
      * rewrite decide_False by naive_solver. injection Hop as <- <- <-. by exists t.
  - case_decide as Hpk; [done|]. exists t.
    apply bind_inv in Hop as (? & ? & [= <- <-] & Hop). apply bind_inv in Hop as (st & w1 & Hst & [= <- <- <-]).
    split; [|done]. erewrite bind_run; [reflexivity|]. rewrite koe_presence_get_run by (done || lia).
    by erewrite bind_run.
  - case_decide as Hpk; [done|]. exists t.
    apply bind_inv in Hop as (? & ? & [= <- <-] & Hop). apply bind_inv in Hop as (st & w1 & Hst & [= <- <- <-]).
    split; [|done]. unfold koe_presence_is_online. erewrite bind_run; [reflexivity|].
    erewrite bind_run; [reflexivity|]. rewrite koe_presence_get_run by (done || lia). by erewrite bind_run.
  - mrun. case_decide as Hages; [|done]. destruct (koe_presence_expire_run t w Hok Hages) as (t' & Hrun & Hr).
    rewrite Hrun. injection Hop as <- <- <-. by exists t'.
  - case_decide as Hpk; [done|]. pose proof (live_find t (h_from (p_header pkt)) Hok) as Hf.
    unfold koe_presence_handle_typing. destruct (list_find _ _) as [[i p]|].
    + destruct Hf as (Hi & Hlt & Hp & Hm); [lia|]. rewrite decide_True in Hop by eauto.
      injection Hop as <- <- <-. eexists. split; [done|].
      replace (presence_map t) with (<[pp_pk p := sighting_of (set_typing_since (now w) p)]> (presence_map t)).
      { by apply represents_set. }
      apply insert_id. by rewrite Hp, Hm.
    + rewrite decide_False in Hop by (rewrite Hf by lia; intros []; done). injection Hop as <- <- <-. by exists t.
  - injection Hop as <- <- <-. eexists. split; [done|]. split; [exact Hok|done].
Qed.

(** Without Bluetooth its lifetime does not matter. *)
Definition no_bluetooth (op : presence_op) : Prop := match op with OpUpdate _ _ tr => tr ≠ 2 | _ => True end.
Definition no_bluetooth_seen (m : gmap bytes sighting) : Prop := map_Forall (λ _ v, si_transport v ≠ 2) m.

Lemma state_at_lifetime bt bt' t m pk :
  no_bluetooth_seen m → state_at bt t (m !! pk) = state_at bt' t (m !! pk).
Proof.
  intros Hm. destruct (m !! pk) as [v|] eqn:E; [|done]. specialize (Hm pk v E). cbn in Hm. cbn [state_at].
  unfold lifetime. by rewrite (proj2 (Z.eqb_neq _ _) Hm).
Qed.

Lemma map_op_lifetime bt bt' op s w :
  no_bluetooth op → no_bluetooth_seen s.1 → map_op bt op s w = map_op bt' op s w.
Proof.
  intros Ho Hm. destruct s as [m local], op as [pk st tr|pk|pk| |pkt|st g]; cbn [map_op fst] in *; [done| | |done..];
    (case_decide; [done|]); rewrite !bind_time; by rewrite (state_at_lifetime bt bt').
Qed.

Lemma map_op_seen bt op s r w w' :
  no_bluetooth op → no_bluetooth_seen s.1 → w ⊢ map_op bt op s ⇓ r ⊣ w' → no_bluetooth_seen r.2.1.
Proof.
  intros Ho Hm Hr. destruct s as [m local], op as [pk st tr|pk|pk| |pkt|st g]; cbn [map_op fst] in *.
  - case_decide; [done|]. case_decide; [|by injection Hr as <- <-]. rewrite bind_time in Hr. injection Hr as <- <-.
    by apply map_Forall_insert_2.
  - case_decide; [done|]. rewrite bind_time in Hr. apply bind_inv in Hr as (st & w1 & _ & Hr). by injection Hr as <- <-.
  - case_decide; [done|]. rewrite bind_time in Hr. apply bind_inv in Hr as (st & w1 & _ & Hr). by injection Hr as <- <-.
  - rewrite bind_time in Hr. case_decide; [|done]. injection Hr as <- <-. intros k v [Hk _]%map_lookup_filter_Some. by eapply Hm.
  - case_decide; [done|]. case_decide; [rewrite bind_time in Hr|]; by injection Hr as <- <-.
  - by injection Hr as <- <-.
Qed.

Lemma map_ops_lifetime bt bt' ops s w :
  Forall no_bluetooth ops → no_bluetooth_seen s.1 → run_ops (map_op bt) ops s w = run_ops (map_op bt') ops s w.
Proof.
  intros Ho. revert s w. induction Ho as [|op ops Hop Ho IH]; intros s w Hm; [done|]. cbn [run_ops].
  unfold mbind at 1 3, M_bind at 1 3. rewrite (map_op_lifetime bt bt') by done.
  destruct (map_op bt' op s w) as [[[ret s1] w1]|] eqn:E; [|done]. cbn [fst snd].
  unfold mbind at 1 2, M_bind at 1 2. by rewrite IH by by eapply (map_op_seen bt' op s (ret, s1)).
Qed.

(** C22: the presence table behaves as a finite map from peers to the last
    sighting of each. Any sequence of operations the map allows (keys of 32
    bytes, ages that fit 64 bits) returns, on a table that represents a map,
    exactly what the map returns: a peer counts as offline once its sighting is
    older than thirty seconds over WiFi Direct or ninety over a relay, a full
    table of 512 peers takes no new one, and a sweep removes exactly the
    sightings older than ninety seconds and reports how many. It consumes the
    clock the same way and leaves a table that represents the resulting map; the
    sweep's loop terminates. Bluetooth sightings last ninety seconds; with any
    other lifetime for them, such as the thirty seconds of the header, the
    refinement holds as long as there are none. *)
Theorem koe_presence_refines (bluetooth : Z) (ops : list presence_op) (t : koe_presence_table_t)
    (s s' : gmap bytes sighting * koe_presence_state_t) (rets : list presence_ret) (w w' : world) :
  bluetooth = 90 ∨ Forall no_bluetooth ops ∧ no_bluetooth_seen s.1 →
  represents t s →
  w ⊢ run_ops (map_op bluetooth) ops s ⇓ (rets, s') ⊣ w' →
  ∃ t', w ⊢ run_ops table_op ops t ⇓ (rets, t') ⊣ w' ∧ represents t' s'.
Proof.
  intros [->|[Ho Hm]]; [apply run_ops_simulates, _|]. rewrite (map_ops_lifetime bluetooth 90) by done.
  apply run_ops_simulates, _.
Qed.

Lemma koe_presence_init_represents : represents koe_presence_init (∅, KOE_PRESENCE_OFFLINE).
Proof. split; [|done]. split_and!; simpl; [done|lia|constructor|constructor]. Qed.

Lemma koe_presence_refines_witness :
  let ops := [OpUpdate (zeros 32) KOE_PRESENCE_AWAY 3; OpGet (zeros 32); OpExpire; OpIsOnline (replicate 32 1)] in
  ∃ t' s' w',
    world_at 100 ⊢ run_ops table_op ops koe_presence_init
      ⇓ ([RetNone; RetState KOE_PRESENCE_AWAY; RetInt 0; RetInt 0], t') ⊣ w'
    ∧ represents t' s'.
Proof.
  intros ops. subst ops.
  edestruct (koe_presence_refines 30
    [OpUpdate (zeros 32) KOE_PRESENCE_AWAY 3; OpGet (zeros 32); OpExpire; OpIsOnline (replicate 32 1)]
    koe_presence_init (∅, KOE_PRESENCE_OFFLINE)) with (w := world_at 100) as (t' & H1 & H2).
  - right. split; [repeat constructor; discriminate|apply map_Forall_empty].
  - exact koe_presence_init_represents.
  - vm_compute. reflexivity.
  - eexists t', _, _. split; [exact H1|exact H2].
Defined.

(** * Announcements *)
Lemma koe_presence_build_packet_run `{SodiumLaws} pkt id to_pk state sess w :
  identity_ok id → array_ok 32 to_pk → session_ok sess → heap_ok w →
  ∃ out, w ⊢ koe_presence_build_packet pkt id to_pk state sess ⇓ (0, out) ⊣ alloc (draw w)
    ∧ opens out (tx_key sess) [presence_code state]
    ∧ h_type (p_header out) = type_code KOE_TYPE_PRESENCE
    ∧ h_from (p_header out) = id_pk id ∧ h_to (p_header out) = to_pk.
Proof.
  intros [Hid _] Hto [Htx _] Hw.
  assert (Hc : byte_ok (presence_code state)) by (unfold byte_ok; destruct state; simpl; lia).
  destruct (seal_stack_run KOE_TYPE_PRESENCE KOE_FLAG_ENCRYPTED (id_pk id) to_pk [presence_code state]
              (tx_key sess) w) as (nonce & ct & _ & Hrun & Ho);
    [unfold byte_ok, KOE_FLAG_ENCRYPTED; lia|done..|by apply Forall_singleton|done|done|].
  eexists. split; [|split; [exact Ho|done]].
  unfold koe_presence_build_packet. rewrite u8_id by done. by erewrite bind_run by exact Hrun.
Qed.

(** * Typing indicators that stick *)

(** The payload, and with it whether the peer started or stopped typing, is
    ignored. *)
Lemma typing_stop_ignored t pkt payload :
  koe_presence_handle_typing t pkt = koe_presence_handle_typing t (KoePacket (p_header pkt) payload).
Proof. done. Qed.

Definition peer_a : bytes := replicate 32 1.
Definition peer_b : bytes := replicate 32 2.
Definition typing_packet (pk : bytes) : koe_packet_t :=
  KoePacket (set_from pk (p_header (koe_packet_init (type_code KOE_TYPE_TYPING) KOE_FLAG_ENCRYPTED))) None.

(** A clock that jumps by two minutes after the second reading. *)
Definition jump_world : world :=
  World (λ n, if decide (n < 2)%nat then 0 else 120) 0 (λ _, true) 0 (λ _ _, 5) 0 (λ _, true) 0 ∅.

(** A peer added after another one expired inherits the other's typing
    indicator. *)
Lemma stale_typing_inherited :
  (λ r, live r.1.2) <$> run_ops table_op
     [OpUpdate peer_a KOE_PRESENCE_ONLINE 1; OpTyping (typing_packet peer_a); OpExpire;
      OpUpdate peer_b KOE_PRESENCE_ONLINE 1] koe_presence_init jump_world
  = Some [KoePeerPresence peer_b KOE_PRESENCE_ONLINE 120 1 true 0].
Proof. vm_compute. reflexivity. Qed.

(** A Bluetooth peer (transport 2) is local, yet it keeps counting as online
    for the ninety seconds of a relay peer. *)
Lemma bluetooth_gets_relay_ttl : presence_ttl 2 = KOE_PRESENCE_TTL_RELAY ∧ presence_ttl 1 = KOE_PRESENCE_TTL_LOCAL.
Proof. done. Qed.
