(* ===== verification/Revoke.v ===== *)
(** Key revocation (src/koe_revoke.c, include/koe_revoke.h): notices signed by
    the old identity, and their packets, which carry the memory image of the
    structure. *)

From S2P Require Import Prelude Version Crc32 Packet Crypto Sealed Handshake.

(** * Data *)
Record koe_revocation_t := KoeRevocation {
  rv_old_pk : bytes; rv_new_pk : bytes; rv_revoked_at : Z; rv_reason : bytes; rv_sig : bytes;
}.

Definition revocation_ok (r : koe_revocation_t) : Prop :=
  array_ok 32 (rv_old_pk r) ∧ array_ok 32 (rv_new_pk r) ∧ - 2 ^ 63 ≤ rv_revoked_at r < 2 ^ 63
  ∧ array_ok 128 (rv_reason r) ∧ array_ok 64 (rv_sig r).

(** [sizeof(koe_revocation_t)]: no field needs padding. *)
Definition REVOCATION_SIZE : nat := 264.

Definition revocation_image (r : koe_revocation_t) : bytes :=
  rv_old_pk r ++ rv_new_pk r ++ le64 (rv_revoked_at r) ++ rv_reason r ++ rv_sig r.

Definition read_revocation (b : bytes) : option koe_revocation_t :=
  old_pk ← peek b 0 32;
  new_pk ← peek b 32 32;
  at_ ← peek b 64 8;
  reason ← peek b 72 128;
  sig ← peek b 200 64;
  Some (KoeRevocation old_pk new_pk (i64 (le_val at_)) reason sig).

(** The signed bytes. *)
Definition revoke_msg (r : koe_revocation_t) : bytes :=
  rv_old_pk r ++ rv_new_pk r ++ le64 (rv_revoked_at r).

Definition set_rv_sig (s : bytes) (r : koe_revocation_t) : koe_revocation_t :=
  KoeRevocation (rv_old_pk r) (rv_new_pk r) (rv_revoked_at r) (rv_reason r) s.

(** * Operations *)
Section Operations.
Context `{Sodium}.

Definition koe_revoke_build (old_id new_id : koe_identity_t) (reason : bytes)
  : M (Z * koe_revocation_t) :=
  t ← time_null;
  let rev := KoeRevocation (id_pk old_id) (id_pk new_id) t (strncpy (zeros 128) reason 127) (zeros 64) in
  match koe_sign (revoke_msg rev) old_id with
  | Some sig => mret (0, set_rv_sig sig rev)
  | None => mret (-1, rev)
  end.

Definition koe_revoke_verify (rev : koe_revocation_t) : Z :=
  koe_verify (rv_sig rev) (revoke_msg rev) (rv_old_pk rev).

Definition koe_revoke_build_packet (pkt : koe_packet_t) (rev : koe_revocation_t) (to : bytes)
  : M (Z * koe_packet_t) :=
  ok ← malloc;
  if negb ok then mret (-1, pkt)
  else mret (0, sealed_packet KOE_TYPE_REVOKE KOE_FLAG_SIGNED (rv_old_pk rev) to (zeros 24)
                  (revocation_image rev)).

(** The code and what is left in the output structure. *)
Definition koe_revoke_parse_packet (rev : koe_revocation_t) (pkt : koe_packet_t)
  : option (Z * koe_revocation_t) :=
  match p_payload pkt with
  | None => Some (-1, rev)
  | Some payload =>
      if h_length (p_header pkt) <? Z.of_nat REVOCATION_SIZE then Some (-1, rev)
      else
        image ← peek payload 0 REVOCATION_SIZE;
        r ← read_revocation image;
        Some (koe_revoke_verify r, r)
  end.

End Operations.

(** * The image *)
Lemma revocation_image_ok r : revocation_ok r → array_ok REVOCATION_SIZE (revocation_image r).
Proof.
  intros ([] & [] & _ & [] & []). split.
  - unfold revocation_image, REVOCATION_SIZE. rewrite !length_app, length_le64. lia.
  - unfold revocation_image. rewrite !bytes_ok_app. split_and!; auto with koe. apply le_bytes_ok.
Qed.

Lemma read_revocation_image r : revocation_ok r → read_revocation (revocation_image r) = Some r.
Proof.
  intros ([H1 _] & [H2 _] & H3 & [H4 _] & [H5 _]). unfold read_revocation, revocation_image.
  pose proof (length_le64 (rv_revoked_at r)) as H6.
  find_fields. rewrite H1, H2, H4, H6. simpl Nat.sub. rewrite <-H5, peek_all. cbn [mbind option_bind].
  rewrite i64_le64 by done. by destruct r.
Qed.

(** C26: a revocation notice built by an identity, sent and parsed is accepted,
    names the two keys, carries the time it was made and the reason cut to 127
    characters; its packet is well formed and validates. And whatever packet is
    parsed, it is accepted only if the notice's signature verifies, under the
    key it revokes, over the two keys and the time. *)
Theorem koe_revoke_roundtrip `{SodiumLaws} (old_id new_id : koe_identity_t) (to reason : bytes)
    (pkt : koe_packet_t) (any : koe_revocation_t) (w : world) :
  keypair old_id → identity_ok new_id → array_ok 32 to → bytes_ok reason → nonul reason →
  - 2 ^ 63 ≤ now w < 2 ^ 63 → heap_ok w →
  (∃ rev out,
    w ⊢ koe_revoke_build old_id new_id reason ⇓ (0, rev) ⊣ tick w
    ∧ tick w ⊢ koe_revoke_build_packet pkt rev to ⇓ (0, out) ⊣ alloc (tick w)
    ∧ packet_ok out ∧ koe_packet_validate out = 0
    ∧ koe_revoke_parse_packet any out = Some (0, rev)
    ∧ rv_old_pk rev = id_pk old_id ∧ rv_new_pk rev = id_pk new_id ∧ rv_revoked_at rev = now w
    ∧ cstr (rv_reason rev) = take 127 reason)
  ∧ ∀ p r, koe_revoke_parse_packet any p = Some (0, r) →
      crypto_sign_verify_detached (rv_sig r)
        (rv_old_pk r ++ rv_new_pk r ++ le64 (rv_revoked_at r)) (rv_old_pk r) = true.
Proof.
  intros Hold [Hnew _] Hto Hrb Hr Hnow Hw. split.
  - set (rev0 := KoeRevocation (id_pk old_id) (id_pk new_id) (now w) (strncpy (zeros 128) reason 127) (zeros 64)).
    destruct (koe_sign_verify old_id (revoke_msg rev0) Hold) as (sig & Hsig & Hsok & Hver).
    destruct (keypair_ok _ Hold) as [Hpk _].
    assert (Hok : revocation_ok (set_rv_sig sig rev0)).
    { unfold revocation_ok. simpl. split_and!; [exact Hpk|exact Hnew|lia|lia| |exact Hsok]. split.
      - by rewrite length_strncpy by (simpl; lia).
      - rewrite strncpy_zeros by lia. apply bytes_ok_app. auto with koe. }
    pose proof (revocation_image_ok _ Hok) as [Hil Hib].
    destruct (sealed_packet_ok KOE_TYPE_REVOKE KOE_FLAG_SIGNED (id_pk old_id) to (zeros 24)
      (revocation_image (set_rv_sig sig rev0))) as [Hpok Hval];
      [unfold byte_ok, KOE_FLAG_SIGNED; lia|done|done|split; [done|apply bytes_ok_zeros]|done
      |unfold zlen; rewrite Hil; unfold REVOCATION_SIZE; lia|].
    exists (set_rv_sig sig rev0). eexists. split_and!; [|unfold koe_revoke_build_packet; by rewrite bind_malloc_ok|done|done| |done..|].
    + unfold koe_revoke_build. rewrite bind_time. fold rev0. by rewrite Hsig.
    + unfold koe_revoke_parse_packet. cbn [p_payload sealed_packet p_header h_length set_checksum set_nonce set_to set_from set_length].
      unfold zlen. rewrite Hil, u32_id by (unfold REVOCATION_SIZE; lia). cbn [Z.ltb].
      rewrite Z.ltb_irrefl, <-Hil, peek_all. cbn [mbind option_bind].
      rewrite read_revocation_image by done. cbn [mbind option_bind]. do 2 f_equal. exact Hver.
    + apply cstr_strncpy_zeros; [done|lia].
  - intros p r. unfold koe_revoke_parse_packet. destruct (p_payload p) as [payload|]; [|intros [=]].
    destruct (_ <? _); [intros [=]|]. destruct (peek payload 0 _) as [image|]; [|done]. cbn [mbind option_bind].
    destruct (read_revocation image) as [r'|]; [|done]. cbn [mbind option_bind]. intros [= Hv <-].
    unfold koe_revoke_verify, koe_verify in Hv. by case_match.
Qed.

(** The reason is outside the signature: anybody can replace it. *)
Lemma koe_revoke_reason_unsigned `{Sodium} rev reason :
  koe_revoke_verify (KoeRevocation (rv_old_pk rev) (rv_new_pk rev) (rv_revoked_at rev) reason (rv_sig rev))
  = koe_revoke_verify rev.
Proof. done. Qed.

#[local] Existing Instance toy_sodium.
#[local] Existing Instance toy_laws.

Lemma koe_revoke_roundtrip_witness :
  let any := KoeRevocation [] [] 0 [] [] in
  ∃ rev out,
    world_at 7 ⊢ koe_revoke_build (toy_identity 1) (toy_identity 2) [108; 111; 115; 116] ⇓ (0, rev) ⊣ tick (world_at 7)
    ∧ koe_revoke_parse_packet any out = Some (0, rev) ∧ rv_revoked_at rev = 7.
Proof.
  intros any.
  destruct (koe_revoke_roundtrip (toy_identity 1) (toy_identity 2) (zeros 32) [108; 111; 115; 116]
    (koe_packet_init 0 0) any (world_at 7)) as [(rev & out & H1 & _ & _ & _ & H5 & _ & _ & H8 & _) _].
  - apply toy_identity_keypair. unfold byte_ok. lia.
  - apply keypair_ok, toy_identity_keypair. unfold byte_ok. lia.
  - apply (bool_decide_unpack _). vm_compute. exact I.
  - apply (bool_decide_unpack _). vm_compute. exact I.
  - repeat constructor; lia.
  - simpl. lia.
  - intros i. reflexivity.
  - exists rev, out. split; [exact H1|]. split; [exact H5|exact H8].
Defined.
