(* ===== verification/Media.v ===== *)
(** File transfer (src/koe_media.c, include/koe_media.h): offers as memory
    images in sealed packets, chunks, and the check of the received file. *)

From S2P Require Import Prelude Version Crc32 Packet Crypto Sealed Handshake.
Import Strings.String.StringSyntax.

(** * Data *)
Definition KOE_MEDIA_CHUNK_SIZE : Z := 64 * 1024.
Definition KOE_MEDIA_MAX_FILE_SIZE : Z := 512 * 1024 * 1024.
Definition KOE_MEDIA_TRANSFER_ID_LEN : nat := 16.

(** [of_filename] and [of_mime_type] are the whole arrays (256 and 128 bytes). *)
Record koe_media_offer_t := KoeMediaOffer {
  of_transfer_id : bytes; of_filename : bytes; of_mime_type : bytes; of_file_size : Z;
  of_chunk_count : Z; of_sha256 : bytes; of_sender_pk : bytes; of_recipient_pk : bytes; of_offered_at : Z;
}.

Inductive koe_media_state_t :=
  | KOE_MEDIA_IDLE | KOE_MEDIA_OFFERING | KOE_MEDIA_ACCEPTED | KOE_MEDIA_RECEIVING | KOE_MEDIA_DONE
  | KOE_MEDIA_REJECTED | KOE_MEDIA_FAILED.

(** [tr_fd] was opened for writing on [tr_save_path] (a 512-byte array). *)
Record koe_media_transfer_t := KoeMediaTransfer {
  tr_offer : koe_media_offer_t; tr_state : koe_media_state_t; tr_chunks_sent : Z;
  tr_chunks_received : Z; tr_save_path : bytes; tr_fd : Z;
}.

Definition offer_ok (o : koe_media_offer_t) : Prop :=
  array_ok 16 (of_transfer_id o) ∧ array_ok 256 (of_filename o) ∧ array_ok 128 (of_mime_type o)
  ∧ 0 ≤ of_file_size o < 2 ^ 64 ∧ 0 ≤ of_chunk_count o < 2 ^ 32 ∧ array_ok 32 (of_sha256 o)
  ∧ array_ok 32 (of_sender_pk o) ∧ array_ok 32 (of_recipient_pk o) ∧ - 2 ^ 63 ≤ of_offered_at o < 2 ^ 63.

(** The structure in memory, little-endian, with the four padding bytes (zero
    since the [memset]) that align the last field. *)
Definition OFFER_SIZE : nat := 520.
Definition offer_image (o : koe_media_offer_t) : bytes :=
  of_transfer_id o ++ of_filename o ++ of_mime_type o ++ le64 (of_file_size o)
  ++ le_bytes 4 (of_chunk_count o) ++ of_sha256 o ++ of_sender_pk o ++ of_recipient_pk o
  ++ zeros 4 ++ le64 (of_offered_at o).

Definition read_offer (b : bytes) : option koe_media_offer_t :=
  id ← peek b 0 16;
  filename ← peek b 16 256;
  mime ← peek b 272 128;
  size ← peek b 400 8;
  count ← peek b 408 4;
  sha ← peek b 412 32;
  sender ← peek b 444 32;
  recipient ← peek b 476 32;
  offered ← peek b 512 8;
  Some (KoeMediaOffer id filename mime (le_val size) (le_val count) sha sender recipient (i64 (le_val offered))).

(** * Strings *)
(** What follows the last [c], as [strrchr] finds it. *)
Fixpoint after_last (c : Z) (s : bytes) : option bytes :=
  match s with
  | [] => None
  | b :: s' =>
      match after_last c s' with
      | Some r => Some r
      | None => if b =? c then Some s' else None
      end
  end.

(** [strcasecmp(a, b) == 0] in the C locale. *)
Definition tolower (b : Z) : Z := if (65 <=? b) && (b <=? 90) then b + 32 else b.
Definition strcaseeq (a b : bytes) : bool := bool_decide (tolower <$> a = tolower <$> b).

Definition MIME_TABLE : list (bytes * bytes) :=
  [(str "jpg", str "image/jpeg"); (str "jpeg", str "image/jpeg"); (str "png", str "image/png");
   (str "gif", str "image/gif"); (str "webp", str "image/webp"); (str "mp4", str "video/mp4");
   (str "mkv", str "video/x-matroska"); (str "mp3", str "audio/mpeg"); (str "ogg", str "audio/ogg");
   (str "opus", str "audio/opus"); (str "pdf", str "application/pdf"); (str "zip", str "application/zip");
   (str "txt", str "text/plain"); (str "md", str "text/markdown")].

Definition koe_media_mime_from_extension (filename : bytes) : bytes :=
  match after_last 46 filename with
  | None | Some [] => str "application/octet-stream"
  | Some ext =>
      match list_find (λ e, strcaseeq e.1 ext = true) MIME_TABLE with
      | Some (_, e) => e.2
      | None => str "application/octet-stream"
      end
  end.

(** * Files *)

(** [write] to the descriptor [fd], positioned at the end of [path]: all the
    data, or an error after some of it; nothing on a descriptor that was closed. *)
Definition write_fd (fd : Z) (path data : bytes) : M bool := λ w,
  if fd <? 0 then Some (false, w) else
  let old := default [] (w_fs w !! path) in
  let ok := w_io w (w_ios w) in
  let n := Z.to_nat (w_rng w (w_draws w) 0%nat `mod` Z.max 1 (zlen data)) in
  Some (ok, set_fs (<[path := old ++ (if ok then data else take n data)]> (w_fs w)) (draw (iotick w))).

Section Operations.
Context `{Sodium}.

(** The hash of the whole file: the updates hash the concatenation of the
    blocks read. *)
Definition sha256_file (path : bytes) : M (option bytes) :=
  f ← fopen_rb path;
  mret (crypto_hash_sha256 <$> f).

Definition zero_offer : koe_media_offer_t :=
  KoeMediaOffer (zeros 16) (zeros 256) (zeros 128) 0 0 (zeros 32) (zeros 32) (zeros 32) 0.

Definition chunk_count (size : Z) : Z := u32 ((size + KOE_MEDIA_CHUNK_SIZE - 1) `div` KOE_MEDIA_CHUNK_SIZE).

(** [stat] fails on a file that is not there; [st_size] is its length. The
    sender's key is never filled in. *)
Definition koe_media_offer_build (file_path recipient_pk : bytes) (sess : koe_session_t)
    (offer_out : koe_media_offer_t) (pkt_out : koe_packet_t)
  : M (Z * koe_media_offer_t * koe_packet_t) :=
  st ← fopen_rb file_path;
  match st with
  | None => mret (-1, offer_out, pkt_out)
  | Some content =>
      if KOE_MEDIA_MAX_FILE_SIZE <? zlen content then mret (-1, offer_out, pkt_out)
      else
        id ← randombytes_buf KOE_MEDIA_TRANSFER_ID_LEN;
        offered_at ← time_null;
        let basename := default file_path (after_last 47 file_path) in
        let offer hash :=
          KoeMediaOffer id (strncpy (zeros 256) basename 255)
            (strncpy (zeros 128) (koe_media_mime_from_extension basename) 127)
            (zlen content) (chunk_count (zlen content)) hash (zeros 32) recipient_pk offered_at in
        h ← sha256_file file_path;
        match h with
        | None => mret (-1, offer (zeros 32), pkt_out)
        | Some hash =>
            let offer := offer hash in
            r ← seal_heap KOE_TYPE_MEDIA_OFFER KOE_FLAG_ENCRYPTED (of_sender_pk offer) recipient_pk
                  (offer_image offer) (tx_key sess);
            let '(rc, pkt) := sealed_result pkt_out r in
            mret (rc, offer, pkt)
        end
  end.

(** The last chunk's index, in [uint32_t]. *)
Definition is_last (offer : koe_media_offer_t) (chunk_index : Z) : bool :=
  chunk_index =? u32 (of_chunk_count offer - 1).

(** [file] is what the descriptor reads. *)
Definition koe_media_chunk_build (file : bytes) (chunk_index : Z) (offer : koe_media_offer_t)
    (sess : koe_session_t) (pkt_out : koe_packet_t) : M (Z * koe_packet_t) :=
  let offset := chunk_index * KOE_MEDIA_CHUNK_SIZE in
  seeked ← syscall;
  if negb seeked then mret (-1, pkt_out)
  else
    let remaining := u64 (of_file_size offer - offset) in
    let chunk_bytes := if remaining <? KOE_MEDIA_CHUNK_SIZE then remaining else KOE_MEDIA_CHUNK_SIZE in
    ok ← malloc;
    if negb ok then mret (-1, pkt_out)
    else
      ok ← syscall;
      let data := take (Z.to_nat chunk_bytes) (drop (Z.to_nat offset) file) in
      if negb ok || negb (zlen data =? chunk_bytes) then mret (-1, pkt_out)
      else
        let flags := Z.lor KOE_FLAG_ENCRYPTED KOE_FLAG_FRAGMENTED in
        let flags := if is_last offer chunk_index then Z.lor flags KOE_FLAG_LAST_FRAG else flags in
        r ← seal_heap KOE_TYPE_MEDIA_CHUNK flags (of_sender_pk offer) (of_recipient_pk offer)
              (be32 chunk_index ++ data) (tx_key sess);
        match r with
        | None => mret (-1, pkt_out)
        | Some pkt => mret (if is_last offer chunk_index then 1 else 0, pkt)
        end.

Definition koe_media_done_build (offer : koe_media_offer_t) (sess : koe_session_t) (pkt_out : koe_packet_t)
  : M (Z * koe_packet_t) :=
  r ← seal_heap KOE_TYPE_MEDIA_DONE KOE_FLAG_ENCRYPTED (of_sender_pk offer) (of_recipient_pk offer)
        (of_sha256 offer) (tx_key sess);
  mret (sealed_result pkt_out r).

(** The answer to an offer: the transfer id and whether it is accepted. *)
Definition media_ack (accept : Z) (offer : koe_media_offer_t) (sess : koe_session_t)
    (pkt_out : koe_packet_t) : M (Z * koe_packet_t) :=
  r ← seal_heap KOE_TYPE_MEDIA_ACK KOE_FLAG_ENCRYPTED (of_recipient_pk offer) (of_sender_pk offer)
        (of_transfer_id offer ++ [accept]) (tx_key sess);
  mret (sealed_result pkt_out r).
Definition koe_media_accept_build := media_ack 1.
Definition koe_media_reject_build := media_ack 0.

(** Decrypting a received payload: [None] for the code -1. *)
Definition open_payload (pkt : koe_packet_t) (sess : koe_session_t) : M (option bytes) :=
  ok ← malloc;
  if negb ok then mret None
  else
    ct ← lift (match p_payload pkt with
               | Some p => peek p 0 (Z.to_nat (h_length (p_header pkt)))
               | None => None
               end);
    mret (koe_decrypt ct (h_nonce (p_header pkt)) (rx_key sess)).

Definition koe_media_offer_parse (pkt : koe_packet_t) (sess : koe_session_t) (offer_out : koe_media_offer_t)
  : M (Z * koe_media_offer_t) :=
  if bool_decide (p_payload pkt = None) || (h_length (p_header pkt) <=? 16) then mret (-1, offer_out)
  else if h_length (p_header pkt) - 16 <? Z.of_nat OFFER_SIZE then mret (-1, offer_out)
  else
    plain ← open_payload pkt sess;
    match plain with
    | None => mret (-1, offer_out)
    | Some plain =>
        image ← lift (peek plain 0 OFFER_SIZE);
        offer ← lift (read_offer image);
        mret (0, offer)
    end.

Definition set_tr_received (n : Z) (t : koe_media_transfer_t) : koe_media_transfer_t :=
  KoeMediaTransfer (tr_offer t) (tr_state t) (tr_chunks_sent t) n (tr_save_path t) (tr_fd t).
Definition set_tr_fd (fd : Z) (t : koe_media_transfer_t) : koe_media_transfer_t :=
  KoeMediaTransfer (tr_offer t) (tr_state t) (tr_chunks_sent t) (tr_chunks_received t) (tr_save_path t) fd.

(** The index is read and dropped. *)
Definition koe_media_chunk_receive (transfer : koe_media_transfer_t) (pkt : koe_packet_t)
    (sess : koe_session_t) : M (Z * koe_media_transfer_t) :=
  if bool_decide (p_payload pkt = None) || (h_length (p_header pkt) <=? 16) then mret (-1, transfer)
  else
    plain ← open_payload pkt sess;
    match plain with
    | None => mret (-1, transfer)
    | Some plain =>
        if h_length (p_header pkt) - 16 <? 4 then mret (-1, transfer)
        else
          ok ← write_fd (tr_fd transfer) (cstr (tr_save_path transfer)) (drop 4 plain);
          if negb ok then mret (-1, transfer)
          else mret (0, set_tr_received (u32 (tr_chunks_received transfer + 1)) transfer)
    end.

Definition koe_media_finalise (transfer : koe_media_transfer_t) : M (Z * koe_media_transfer_t) :=
  let transfer := set_tr_fd (-1) transfer in
  h ← sha256_file (cstr (tr_save_path transfer));
  match h with
  | None => mret (-1, transfer)
  | Some actual => mret (if memeq 32 actual (of_sha256 (tr_offer transfer)) then 0 else -1, transfer)
  end.

(** The datagram that is broadcast. *)
Definition koe_media_announce (offer : koe_media_offer_t) : Z * bytes :=
  (0, of_transfer_id offer ++ of_sender_pk offer).

End Operations.

(** * The offer's image *)
Lemma offer_image_ok o : offer_ok o → array_ok OFFER_SIZE (offer_image o).
Proof.
  intros ([] & [] & [] & _ & _ & [] & [] & [] & _). split.
  - unfold offer_image, OFFER_SIZE. rewrite !length_app, !length_le64, length_le_bytes. simpl. lia.
  - unfold offer_image, le64. rewrite !bytes_ok_app. split_and!; auto with koe.
Qed.

Lemma read_offer_image o : offer_ok o → read_offer (offer_image o) = Some o.
Proof.
  intros ([H1 _] & [H2 _] & [H3 _] & H4 & H5 & [H6 _] & [H7 _] & [H8 _] & H9).
  unfold read_offer, offer_image.
  pose proof (length_le64 (of_file_size o)) as L1. pose proof (length_le64 (of_offered_at o)) as L2.
  pose proof (length_le_bytes 4 (of_chunk_count o)) as L3.
  assert (length (zeros 4) = 4%nat) as L4 by done.
  find_fields. rewrite H1, H2, H3, H6, H7, H8, L1, L3, L4. simpl Nat.sub.
  rewrite <-L2 at 1. rewrite peek_all. cbn [mbind option_bind].
  rewrite i64_le64 by done. unfold le64. rewrite u64_id by done.
  rewrite !le_val_le_bytes by (simpl; lia). by destruct o.
Qed.

(** * Names *)
Lemma after_last_ok c s r : bytes_ok s → after_last c s = Some r → bytes_ok r.
Proof.
  intros Hs. revert r. induction Hs as [|b s Hb Hs IH]; intros r; simpl; [done|].
  destruct (after_last c s); [intros [= <-]; by apply IH|]. destruct (b =? c); by intros [= <-].
Qed.

Lemma MIME_TABLE_ok : Forall (λ e, bytes_ok e.2 ∧ (length e.2 < 127)%nat ∧ 0 ∉ e.2) MIME_TABLE.
Proof. apply (bool_decide_unpack _). vm_compute. exact I. Qed.

Lemma koe_media_mime_ok s :
  let m := koe_media_mime_from_extension s in bytes_ok m ∧ (length m < 127)%nat ∧ 0 ∉ m.
Proof.
  assert (Hdef : bytes_ok (str "application/octet-stream") ∧ (length (str "application/octet-stream") < 127)%nat
                 ∧ 0 ∉ str "application/octet-stream") by (apply (bool_decide_unpack _); vm_compute; exact I).
  unfold koe_media_mime_from_extension. destruct (after_last 46 s) as [[|c ext]|]; [done| |done].
  destruct (list_find _ _) as [[i e]|] eqn:Hf; [|done].
  apply list_find_Some in Hf as (Hi & _). pose proof MIME_TABLE_ok as Ht. rewrite Forall_forall in Ht.
  apply Ht. by eapply list_elem_of_lookup_2.
Qed.

Lemma strncpy_array_ok s n m : bytes_ok s → (n ≤ m)%nat → array_ok m (strncpy (zeros m) s n).
Proof.
  intros Hs Hnm. split.
  - rewrite length_strncpy; unfold zeros; rewrite length_replicate; lia.
  - rewrite strncpy_zeros by done. apply bytes_ok_app. auto with koe.
Qed.

(** * A whole transfer *)

(** The data of chunk [i]. *)
Definition chunk (file : bytes) (i : Z) : bytes :=
  take (Z.to_nat KOE_MEDIA_CHUNK_SIZE) (drop (Z.to_nat (i * KOE_MEDIA_CHUNK_SIZE)) file).

Section Driver.
Context `{Sodium}.

(** The sender builds [n] chunks from index [i] on. *)
Fixpoint build_chunks (n : nat) (i : Z) (file : bytes) (offer : koe_media_offer_t) (sess : koe_session_t)
    (out : koe_packet_t) : M (list (Z * koe_packet_t)) :=
  match n with
  | O => mret []
  | S n' =>
      r ← koe_media_chunk_build file i offer sess out;
      rs ← build_chunks n' (i + 1) file offer sess out;
      mret (r :: rs)
  end.

(** The receiver takes them as they arrive. *)
Fixpoint receive_chunks (pkts : list koe_packet_t) (t : koe_media_transfer_t) (sess : koe_session_t)
  : M (list Z * koe_media_transfer_t) :=
  match pkts with
  | [] => mret ([], t)
  | pkt :: pkts' =>
      r ← koe_media_chunk_receive t pkt sess;
      rs ← receive_chunks pkts' r.2 sess;
      mret (r.1 :: rs.1, rs.2)
  end.

End Driver.

(** [offer] describes [file]. *)
Definition describes `{Sodium} (offer : koe_media_offer_t) (file : bytes) : Prop :=
  offer_ok offer ∧ of_file_size offer = zlen file ∧ of_chunk_count offer = chunk_count (zlen file)
  ∧ of_sha256 offer = crypto_hash_sha256 file.

Lemma chunk_count_spec size :
  0 < size ≤ KOE_MEDIA_MAX_FILE_SIZE →
  0 < chunk_count size < 2 ^ 32
  ∧ (chunk_count size - 1) * KOE_MEDIA_CHUNK_SIZE < size ≤ chunk_count size * KOE_MEDIA_CHUNK_SIZE.
Proof.
  unfold chunk_count, KOE_MEDIA_MAX_FILE_SIZE, KOE_MEDIA_CHUNK_SIZE. intros Hs.
  rewrite u32_id; lia.
Qed.

Lemma chunk_concat file n :
  concat (chunk file <$> seqZ 0 (Z.of_nat n)) = take (Z.to_nat (Z.of_nat n * KOE_MEDIA_CHUNK_SIZE)) file.
Proof.
  induction n as [|n IH]; [done|].
  rewrite seqZ_S, fmap_app, concat_app, IH.
  rewrite Z.add_0_l. cbn [fmap list_fmap concat]. rewrite app_nil_r. unfold chunk.
  rewrite take_take_drop. f_equal. unfold KOE_MEDIA_CHUNK_SIZE. lia.
Qed.

Section Transfer.
Context `{SodiumLaws}.

Lemma is_last_spec offer i :
  0 < of_chunk_count offer < 2 ^ 32 → is_last offer i = (i =? of_chunk_count offer - 1).
Proof. intros. unfold is_last. by rewrite u32_id by lia. Qed.

Lemma chunk_flags_ok (last : bool) :
  byte_ok (if last then Z.lor (Z.lor KOE_FLAG_ENCRYPTED KOE_FLAG_FRAGMENTED) KOE_FLAG_LAST_FRAG
           else Z.lor KOE_FLAG_ENCRYPTED KOE_FLAG_FRAGMENTED).
Proof. unfold byte_ok. destruct last; vm_compute; split; congruence. Qed.

(** The bytes [koe_media_chunk_build] reads are the chunk. *)
Lemma chunk_read file i :
  0 ≤ i * KOE_MEDIA_CHUNK_SIZE < zlen file → zlen file ≤ KOE_MEDIA_MAX_FILE_SIZE →
  let remaining := u64 (zlen file - i * KOE_MEDIA_CHUNK_SIZE) in
  let n := if remaining <? KOE_MEDIA_CHUNK_SIZE then remaining else KOE_MEDIA_CHUNK_SIZE in
  take (Z.to_nat n) (drop (Z.to_nat (i * KOE_MEDIA_CHUNK_SIZE)) file) = chunk file i
  ∧ zlen (chunk file i) = n.
Proof.
  intros Hi Hmax remaining n. unfold chunk. set (off := i * KOE_MEDIA_CHUNK_SIZE) in *.
  assert (Hr : remaining = zlen file - off) by (unfold remaining; rewrite u64_id; [done|unfold KOE_MEDIA_MAX_FILE_SIZE in *; lia]).
  assert (Hd : zlen (drop (Z.to_nat off) file) = remaining) by (rewrite Hr; unfold zlen in *; rewrite length_drop; lia).
  unfold n. destruct (Z.ltb_spec remaining KOE_MEDIA_CHUNK_SIZE).
  - rewrite !take_ge by (unfold zlen, KOE_MEDIA_CHUNK_SIZE in *; lia). done.
  - split; [done|]. unfold zlen, KOE_MEDIA_CHUNK_SIZE in *. rewrite length_take. lia.
Qed.

Lemma koe_media_chunk_build_run file offer sess out i w :
  describes offer file → bytes_ok file → 0 < zlen file ≤ KOE_MEDIA_MAX_FILE_SIZE → session_ok sess →
  heap_ok w → io_ok w → 0 ≤ i < of_chunk_count offer →
  ∃ pkt w', same_env w w'
    ∧ w ⊢ koe_media_chunk_build file i offer sess out
        ⇓ (if i =? of_chunk_count offer - 1 then 1 else 0, pkt) ⊣ w'
    ∧ opens pkt (tx_key sess) (be32 i ++ chunk file i).
Proof.
  intros (Hok & Hsz & Hcnt & _) Hb Hlen [Htx _] Hw Hio Hi.
  destruct (chunk_count_spec (zlen file) Hlen) as [Hc Hcs].
  destruct Hok as (_ & _ & _ & _ & _ & _ & Hsp & Hrp & _).
  assert (Hoff : 0 ≤ i * KOE_MEDIA_CHUNK_SIZE < zlen file).
  { unfold KOE_MEDIA_CHUNK_SIZE in *. rewrite Hcnt in Hi. nia. }
  destruct (chunk_read file i Hoff) as [Hrd Hcl]; [lia|].
  set (flags := if i =? of_chunk_count offer - 1
                then Z.lor (Z.lor KOE_FLAG_ENCRYPTED KOE_FLAG_FRAGMENTED) KOE_FLAG_LAST_FRAG
                else Z.lor KOE_FLAG_ENCRYPTED KOE_FLAG_FRAGMENTED).
  set (w1 := iotick (alloc (iotick w))).
  destruct (seal_heap_run KOE_TYPE_MEDIA_CHUNK flags (of_sender_pk offer) (of_recipient_pk offer)
              (be32 i ++ chunk file i) (tx_key sess) w1) as (nonce & ct & _ & Hrun & Ho);
    [apply chunk_flags_ok|done|done|done| | |done|].
  - apply bytes_ok_app. split; [apply be_bytes_ok|]. apply bytes_ok_take. by apply bytes_ok_drop.
  - unfold zlen, KOE_MEDIA_CHUNK_SIZE in *. rewrite length_app, length_be32. unfold chunk. rewrite length_take.
    unfold KOE_MEDIA_CHUNK_SIZE. lia.
  - eexists _, _. split; [|split; [|exact Ho]]; [|].
    2:{ unfold koe_media_chunk_build. rewrite bind_syscall_ok by done. cbn [negb].
        rewrite bind_malloc_ok by done. cbn [negb]. rewrite bind_syscall_ok by done. cbn [negb orb].
        rewrite Hsz, Hrd, Hcl, Z.eqb_refl. cbn [negb].
        rewrite is_last_spec by lia. fold flags. fold w1. erewrite bind_run by exact Hrun. done. }
    done.
Qed.

Lemma build_chunks_run n file offer sess out i w :
  describes offer file → bytes_ok file → 0 < zlen file ≤ KOE_MEDIA_MAX_FILE_SIZE → session_ok sess →
  heap_ok w → io_ok w → 0 ≤ i → i + Z.of_nat n ≤ of_chunk_count offer →
  ∃ rs w', same_env w w' ∧ w ⊢ build_chunks n i file offer sess out ⇓ rs ⊣ w'
    ∧ Forall2 (λ j r, r.1 = (if j =? of_chunk_count offer - 1 then 1 else 0)
                      ∧ opens r.2 (tx_key sess) (be32 j ++ chunk file j)) (seqZ i (Z.of_nat n)) rs.
Proof.
  intros Hd Hb Hlen Hs. revert i w. induction n as [|n IH]; intros i w Hw Hio Hi Hn.
  { exists [], w. split_and!; [done|done|constructor]. }
  destruct (koe_media_chunk_build_run file offer sess out i w) as (pkt & w1 & E1 & R1 & O1); [done..|lia|].
  destruct (IH (i + 1) w1) as (rs & w2 & E2 & R2 & F2); [by eapply heap_ok_env|by eapply io_ok_env|lia|lia|].
  eexists (_ :: rs), w2. split_and!; [by etrans| |].
  - cbn [build_chunks]. erewrite bind_run by exact R1. by erewrite bind_run by exact R2.
  - rewrite seqZ_cons by lia. constructor; [done|].
    replace (Z.succ i) with (i + 1) by lia. replace (Z.pred (Z.of_nat (S n))) with (Z.of_nat n) by lia. done.
Qed.

(** Receiving appends the data whatever the index says. *)
Lemma koe_media_chunk_receive_run t pkt sess idx data w old :
  opens pkt (rx_key sess) (be32 idx ++ data) → 0 ≤ tr_fd t → heap_ok w → io_ok w →
  w_fs w !! cstr (tr_save_path t) = Some old →
  ∃ w', same_env w w'
    ∧ w ⊢ koe_media_chunk_receive t pkt sess ⇓ (0, set_tr_received (u32 (tr_chunks_received t + 1)) t) ⊣ w'
    ∧ w_fs w' !! cstr (tr_save_path t) = Some (old ++ data).
Proof.
  intros Ho Hfd Hw Hio Hfs. destruct (opens_peek _ _ _ Ho) as (ct & Hp & Hpk & Hd).
  destruct Ho as (_ & _ & _ & _ & Hl & _).
  assert (Hz : zlen (be32 idx ++ data) = 4 + zlen data) by (unfold zlen; rewrite length_app, length_be32; lia).
  set (w1 := alloc w). set (path := cstr (tr_save_path t)) in *.
  exists (set_fs (<[path := old ++ data]> (w_fs w1)) (draw (iotick w1))).
  split_and!; [done| |simpl; by rewrite lookup_insert_eq].
  unfold koe_media_chunk_receive. rewrite Hp, Hl, Hz. cbn [bool_decide orb decide].
  rewrite (proj2 (Z.leb_gt _ _)) by (unfold zlen; lia). rewrite bool_decide_false by done. cbn [orb].
  rewrite (bind_run (open_payload pkt sess) _ w (Some (be32 idx ++ data)) w1).
  2:{ unfold open_payload. rewrite bind_malloc_ok by done. cbn [negb]. rewrite Hp, Hpk.
      unfold mbind, M_bind, lift, mret, M_ret. by rewrite Hd. }
  rewrite (proj2 (Z.ltb_ge _ _)) by (unfold zlen; lia).
  rewrite drop_app_ge, length_be32, Nat.sub_diag, drop_0 by (rewrite length_be32; lia).
  rewrite (bind_run (write_fd _ _ data) _ w1 true (set_fs (<[path := old ++ data]> (w_fs w1)) (draw (iotick w1)))).
  - done.
  - unfold write_fd. rewrite (proj2 (Z.ltb_ge _ _)) by done. fold path. change (w_fs w1) with (w_fs w). rewrite Hfs.
    change (w_io w1) with (w_io w). by rewrite Hio.
Qed.

Lemma receive_chunks_run file pkts idxs t sess w old :
  Forall2 (λ j pkt, opens pkt (rx_key sess) (be32 j ++ chunk file j)) idxs pkts →
  0 ≤ tr_fd t → heap_ok w → io_ok w → w_fs w !! cstr (tr_save_path t) = Some old →
  ∃ t' w', same_env w w'
    ∧ w ⊢ receive_chunks pkts t sess ⇓ (replicate (length pkts) 0, t') ⊣ w'
    ∧ w_fs w' !! cstr (tr_save_path t) = Some (old ++ concat (chunk file <$> idxs))
    ∧ tr_save_path t' = tr_save_path t ∧ tr_offer t' = tr_offer t.
Proof.
  intros HF. revert t w old. induction HF as [|j pkt idxs pkts Ho HF IH]; intros t w old Hfd Hw Hio Hfs.
  { exists t, w. rewrite app_nil_r. done. }
  destruct (koe_media_chunk_receive_run t pkt sess j (chunk file j) w old) as (w1 & E1 & R1 & F1); [done..|].
  destruct (IH (set_tr_received (u32 (tr_chunks_received t + 1)) t) w1 (old ++ chunk file j))
    as (t' & w2 & E2 & R2 & F2 & P2 & O2); [done|by eapply heap_ok_env|by eapply io_ok_env|done|].
  exists t', w2. split_and!; [by etrans| | |done|done].
  - cbn [receive_chunks]. erewrite bind_run by exact R1. cbn [fst snd]. by erewrite bind_run by exact R2.
  - rewrite fmap_cons. cbn [concat]. by rewrite app_assoc.
Qed.

End Transfer.

(** The codes of a complete run of chunks. *)
Lemma last_codes c :
  0 < c → (λ j, if j =? c - 1 then 1 else 0) <$> seqZ 0 c = replicate (Z.to_nat c - 1) 0 ++ [1].
Proof.
  intros Hc. assert (Hs : seqZ 0 c = seqZ 0 (c - 1) ++ [c - 1]).
  { replace c with (Z.of_nat (S (Z.to_nat (c - 1)))) at 1 by lia. rewrite seqZ_S. f_equal; f_equal; lia. }
  rewrite Hs, fmap_app. cbn [fmap list_fmap]. rewrite Z.eqb_refl. f_equal.
  symmetry. apply replicate_as_elem_of. rewrite length_fmap, length_seqZ. split; [lia|].
  intros x (j & -> & Hj%elem_of_seqZ)%list_elem_of_fmap. destruct (Z.eqb_spec j (c - 1)); lia.
Qed.

Section Complete.
Context `{SodiumLaws}.

(** The offer that is made of a file. *)
Definition built_offer (path file rpk id : bytes) (t : Z) : koe_media_offer_t :=
  let basename := default path (after_last 47 path) in
  KoeMediaOffer id (strncpy (zeros 256) basename 255) (strncpy (zeros 128) (koe_media_mime_from_extension basename) 127)
    (zlen file) (chunk_count (zlen file)) (crypto_hash_sha256 file) (zeros 32) rpk t.

Lemma built_offer_ok path file rpk id t :
  zlen file ≤ KOE_MEDIA_MAX_FILE_SIZE → bytes_ok path → array_ok 32 rpk → array_ok 16 id → - 2 ^ 63 ≤ t < 2 ^ 63 →
  offer_ok (built_offer path file rpk id t).
Proof.
  intros Hmax Hpath Hrpk Hid Ht.
  assert (Hbase : bytes_ok (default path (after_last 47 path))).
  { destruct (after_last 47 path) eqn:E; [by eapply after_last_ok|done]. }
  unfold offer_ok, built_offer. simpl. unfold KOE_MEDIA_MAX_FILE_SIZE in Hmax.
  split_and!; [done|by apply strncpy_array_ok; [|lia]
    |apply strncpy_array_ok; [apply koe_media_mime_ok|lia]|unfold zlen; lia|lia
    |by apply Z.mod_pos_bound|by apply Z.mod_pos_bound|apply crypto_hash_sha256_ok
    |split; [done|apply bytes_ok_zeros]|done|apply Ht|apply Ht].
Qed.

Lemma sha256_file_run path w :
  io_ok w → w ⊢ sha256_file path ⇓ (crypto_hash_sha256 <$> w_fs w !! path) ⊣ iotick w.
Proof. intros Hio. unfold sha256_file. by rewrite bind_fopen_ok. Qed.

(** Offering any file, whatever fails: a well-formed packet, or an error. *)
Lemma koe_media_offer_build_sound path rpk sess o pkt w :
  bytes_ok path → array_ok 32 rpk → session_ok sess → (∀ i, - 2 ^ 63 ≤ w_clock w i < 2 ^ 63) →
  runs w (koe_media_offer_build path rpk sess o pkt)
    (λ r _, r.1.1 = 0 → array_ok 16 (of_transfer_id r.1.2) ∧ packet_ok r.2
      ∧ h_length (p_header r.2) = Z.of_nat OFFER_SIZE + 16).
Proof.
  intros Hpath Hrpk [Htx _] Hc. unfold koe_media_offer_build, sha256_file.
  eapply (runs_bind _ _ _ (λ f w', w' = iotick w ∧ (f = None ∨ f = w_fs w !! path))).
  { eexists _, _. split; [reflexivity|]. split_and!; [done..|]. destruct (w_io w _); tauto. }
  intros f w' _ [-> Hf]. destruct f as [file|]; [|by apply runs_ret]. destruct Hf as [?|Hf]; [done|].
  destruct (Z.ltb_spec KOE_MEDIA_MAX_FILE_SIZE (zlen file)); [by apply runs_ret|]. apply runs_random, runs_time.
  eapply (runs_bind _ _ _ (λ h _, h = None ∨ h = Some (crypto_hash_sha256 file))).
  { eexists _, _. split; [reflexivity|]. split; [done|]. cbn. rewrite <-Hf. destruct (w_io w _); auto. }
  intros h w1 _ [->| ->]; [by apply runs_ret|].
  change (KoeMediaOffer _ _ _ _ _ _ _ _ _) with (built_offer path file rpk (random_bytes w 16) (now (draw w))).
  pose proof (random_array_ok w 16) as Hid. set (offer := built_offer _ _ _ _ _).
  assert (Hok : offer_ok offer) by (apply built_offer_ok; [done..|apply (Hc (w_tick w))]).
  pose proof (offer_image_ok offer Hok) as [Hil Hib].
  eapply runs_bind; [apply seal_heap_sound; [unfold byte_ok, KOE_FLAG_ENCRYPTED; lia|apply Hok|done|done|done|]|].
  { unfold zlen. rewrite Hil. unfold OFFER_SIZE. lia. }
  intros [p|] w' _ Hp; cbn [sealed_result]; [|by apply runs_ret]. apply runs_ret. intros _. cbn [fst snd].
  split; [done|]. destruct Hp as [Hp Hl]. split; [done|]. rewrite Hl. unfold zlen. by rewrite Hil.
Qed.

Lemma koe_media_offer_build_run path file rpk sess o pkt w :
  w_fs w !! path = Some file → zlen file ≤ KOE_MEDIA_MAX_FILE_SIZE → bytes_ok path → array_ok 32 rpk →
  session_ok sess → heap_ok w → io_ok w → - 2 ^ 63 ≤ now (draw w) < 2 ^ 63 →
  ∃ offer out w', same_env w w'
    ∧ w ⊢ koe_media_offer_build path rpk sess o pkt ⇓ (0, offer, out) ⊣ w'
    ∧ describes offer file ∧ opens out (tx_key sess) (offer_image offer)
    ∧ of_sender_pk offer = zeros 32 ∧ of_recipient_pk offer = rpk
    ∧ h_from (p_header out) = zeros 32 ∧ h_to (p_header out) = rpk.
Proof.
  intros Hfs Hmax Hpath Hrpk [Htx _] Hw Hio Ht.
  set (offer := built_offer path file rpk (random_bytes w 16) (now (draw w))).
  assert (Hok : offer_ok offer) by (apply built_offer_ok; [done..|apply random_array_ok|done]).
  pose proof (offer_image_ok offer Hok) as [Hil Hib].
  destruct (seal_heap_run KOE_TYPE_MEDIA_OFFER KOE_FLAG_ENCRYPTED (zeros 32) rpk (offer_image offer)
              (tx_key sess) (iotick (tick (draw (iotick w))))) as (nonce & ct & _ & Hrun & Ho);
    [unfold byte_ok, KOE_FLAG_ENCRYPTED; lia|split; [done|apply bytes_ok_zeros]|done|done|done
    |unfold zlen; rewrite Hil; unfold OFFER_SIZE; lia|done|].
  exists offer. eexists _, _. split; [|split; [|split; [|split; [exact Ho|done]]]]; [|..].
  2:{ unfold koe_media_offer_build. rewrite bind_fopen_ok, Hfs by done.
      rewrite (proj2 (Z.ltb_ge _ _)) by done. rewrite bind_random, bind_time.
      erewrite bind_run by (by apply sha256_file_run).
      change (w_fs (tick (draw (iotick w)))) with (w_fs w). rewrite Hfs. cbn [fmap option_fmap option_map].
      change (KoeMediaOffer _ _ _ _ _ _ _ _ _) with offer. change (of_sender_pk offer) with (zeros 32).
      erewrite bind_run by exact Hrun. reflexivity. }
  - done.
  - done.
Qed.

(** C21: a file of up to 512 MiB offered to a peer and sent chunk by chunk over a
    session arrives complete: the offer the peer parses is the one that was
    made, every chunk is built (the code 1 marks exactly the last) and received,
    the file written is byte for byte the one that was sent, and the final check
    of its hash succeeds. *)
Theorem koe_media_transfer_complete (path file rpk save : bytes) (sa sb : koe_session_t)
    (o o' : koe_media_offer_t) (pkt : koe_packet_t) (st : koe_media_state_t) (fd : Z) (w wr : world) :
  w_fs w !! path = Some file → bytes_ok file → 0 < zlen file ≤ KOE_MEDIA_MAX_FILE_SIZE → bytes_ok path →
  array_ok 32 rpk → session_ok sa → rx_key sb = tx_key sa →
  heap_ok w → io_ok w → - 2 ^ 63 ≤ now (draw w) < 2 ^ 63 →
  heap_ok wr → io_ok wr → 0 ≤ fd → w_fs wr !! cstr save = Some [] →
  ∃ offer opkt w1 rs w2 t' wr1 wr2,
    w ⊢ koe_media_offer_build path rpk sa o pkt ⇓ (0, offer, opkt) ⊣ w1
    ∧ w1 ⊢ build_chunks (Z.to_nat (of_chunk_count offer)) 0 file offer sa pkt ⇓ rs ⊣ w2
    ∧ rs.*1 = replicate (length rs - 1) 0 ++ [1]
    ∧ wr ⊢ koe_media_offer_parse opkt sb o' ⇓ (0, offer) ⊣ alloc wr
    ∧ alloc wr ⊢ receive_chunks rs.*2 (KoeMediaTransfer offer st 0 0 save fd) sb
        ⇓ (replicate (length rs) 0, t') ⊣ wr1
    ∧ w_fs wr1 !! cstr save = Some file
    ∧ wr1 ⊢ koe_media_finalise t' ⇓ (0, set_tr_fd (-1) t') ⊣ wr2.
Proof.
  intros Hfs Hb Hlen Hpath Hrpk Hsa Hrx Hw Hio Ht Hwr Hior Hfd Hfsr.
  destruct (koe_media_offer_build_run path file rpk sa o pkt w) as (offer & opkt & w1 & E1 & R1 & D1 & O1 & _);
    [done|lia|done..|].
  destruct (chunk_count_spec (zlen file) Hlen) as [Hc Hcs].
  pose proof D1 as (Hok & Hsz & Hcnt & Hsha).
  destruct (build_chunks_run (Z.to_nat (of_chunk_count offer)) file offer sa pkt 0 w1)
    as (rs & w2 & E2 & R2 & F2); [done..|by eapply heap_ok_env|by eapply io_ok_env|lia|lia|].
  assert (Hn : Z.of_nat (Z.to_nat (of_chunk_count offer)) = of_chunk_count offer) by lia.
  destruct (receive_chunks_run file rs.*2 (seqZ 0 (of_chunk_count offer))
              (KoeMediaTransfer offer st 0 0 save fd) sb (alloc wr) [])
    as (t' & wr1 & E3 & R3 & F3 & P3 & Of3); [|done..|].
  { rewrite Hn in F2. rewrite Forall2_fmap_r. eapply Forall2_impl; [exact F2|]. intros j r [_ Hr]. by rewrite Hrx. }
  exists offer, opkt, w1, rs, w2, t', wr1, (iotick wr1). rewrite length_fmap in R3.
  assert (Hfile : w_fs wr1 !! cstr save = Some file).
  { simpl in F3. rewrite F3. f_equal. rewrite <-Hn, chunk_concat. apply take_ge. unfold zlen in *. lia. }
  split_and!; [done|done| | |done|done|].
  - pose proof (Forall2_length _ _ _ F2) as L2. rewrite length_seqZ in L2.
    assert (Hrs : rs.*1 = (λ j, if j =? of_chunk_count offer - 1 then 1 else 0) <$> seqZ 0 (of_chunk_count offer)).
    { rewrite Hn in F2. clear -F2. induction F2 as [|j r js rs [Hr _] _ IH]; [done|]. by rewrite !fmap_cons, Hr, IH. }
    rewrite Hrs, last_codes by lia. by rewrite <-L2, Hn.
  - pose proof (offer_image_ok offer Hok) as [Hil _]. rewrite <-Hrx in O1.
    destruct (opens_peek _ _ _ O1) as (ct & Hp & Hpk & Hd). destruct O1 as (_ & _ & _ & _ & Hl & _).
    unfold koe_media_offer_parse. rewrite Hp, Hl. unfold zlen. rewrite Hil. rewrite bool_decide_false by done.
    cbn [orb]. rewrite (proj2 (Z.leb_gt _ _)), (proj2 (Z.ltb_ge _ _)) by (unfold OFFER_SIZE; lia).
    rewrite (bind_run (open_payload opkt sb) _ wr (Some (offer_image offer)) (alloc wr)).
    2:{ unfold open_payload. rewrite bind_malloc_ok by done. cbn [negb]. rewrite Hp, Hpk.
        unfold mbind, M_bind, lift, mret, M_ret. by rewrite Hd. }
    rewrite <-Hil, (bind_lift _ _ _ _ (peek_all _)).
    by rewrite (bind_lift _ _ _ _ (read_offer_image offer Hok)).
  - unfold koe_media_finalise. cbn [set_tr_fd tr_save_path tr_offer]. rewrite P3. cbn [tr_save_path].
    erewrite bind_run by (apply sha256_file_run; by eapply io_ok_env). rewrite Hfile, Of3.
    cbn [fmap option_fmap option_map tr_offer]. by rewrite Hsha, memeq_refl.
Qed.

End Complete.

(** * What the receiver does not check *)
Section Unchecked.
Context `{SodiumLaws}.

(** Chunks that arrive in the wrong order are accepted and written in that
    order. *)
Lemma swapped_chunks_accepted file p0 p1 t sess w :
  opens p0 (rx_key sess) (be32 0 ++ chunk file 0) → opens p1 (rx_key sess) (be32 1 ++ chunk file 1) →
  0 ≤ tr_fd t → heap_ok w → io_ok w → w_fs w !! cstr (tr_save_path t) = Some [] →
  ∃ t' w', w ⊢ receive_chunks [p1; p0] t sess ⇓ ([0; 0], t') ⊣ w'
    ∧ w_fs w' !! cstr (tr_save_path t) = Some (chunk file 1 ++ chunk file 0).
Proof.
  intros Hp0 Hp1 Hfd Hw Hio Hfs.
  destruct (receive_chunks_run file [p1; p0] [1; 0] t sess w []) as (t' & w' & _ & R & F & _); [|done..|].
  { constructor; [done|]. constructor; [done|]. constructor. }
  exists t', w'. split; [exact R|]. rewrite F, !fmap_cons. cbn [concat fmap list_fmap]. by rewrite app_nil_l, app_nil_r.
Qed.

(** The answer to an offer is addressed to the sender the offer names, which is
    the all-zero key, since [koe_media_offer_build] never fills it in. *)
Lemma media_ack_to_nobody accept offer sess out w :
  offer_ok offer → of_sender_pk offer = zeros 32 → session_ok sess → byte_ok accept → heap_ok w →
  ∃ pkt w', w ⊢ media_ack accept offer sess out ⇓ (0, pkt) ⊣ w' ∧ h_to (p_header pkt) = zeros 32.
Proof.
  intros Hok Hs [Htx _] Ha Hw. pose proof Hok as ([Hil Hib] & _ & _ & _ & _ & _ & Hsp & Hrp & _).
  destruct (seal_heap_run KOE_TYPE_MEDIA_ACK KOE_FLAG_ENCRYPTED (of_recipient_pk offer) (of_sender_pk offer)
              (of_transfer_id offer ++ [accept]) (tx_key sess) w) as (nonce & ct & _ & Hrun & _);
    [unfold byte_ok, KOE_FLAG_ENCRYPTED; lia|done|done|done
    |apply bytes_ok_app; split; [done|by apply Forall_singleton]
    |unfold zlen; rewrite length_app, Hil; simpl; lia|done|].
  eexists _, _. split; [unfold media_ack; erewrite bind_run by exact Hrun; reflexivity|]. done.
Qed.

End Unchecked.

#[local] Existing Instance toy_sodium.
#[local] Existing Instance toy_laws.

Definition media_sess_a : koe_session_t := KoeSession (replicate 32 1) (replicate 32 2).
Definition media_sess_b : koe_session_t := KoeSession (replicate 32 2) (replicate 32 1).

Lemma koe_media_transfer_complete_witness :
  ∃ offer opkt w1 t' wr1 wr2,
    set_fs {[str "a.txt" := [1; 2; 3]]} (world_at 5)
      ⊢ koe_media_offer_build (str "a.txt") (zeros 32) media_sess_a zero_offer (koe_packet_init 0 0)
      ⇓ (0, offer, opkt) ⊣ w1
    ∧ w_fs wr1 !! str "b" = Some [1; 2; 3]
    ∧ wr1 ⊢ koe_media_finalise t' ⇓ (0, set_tr_fd (-1) t') ⊣ wr2.
Proof.
  destruct (koe_media_transfer_complete (str "a.txt") [1; 2; 3] (zeros 32) (str "b" ++ zeros 511)
    media_sess_a media_sess_b zero_offer zero_offer (koe_packet_init 0 0) KOE_MEDIA_RECEIVING 3
    (set_fs {[str "a.txt" := [1; 2; 3]]} (world_at 5)) (set_fs {[str "b" := []]} (world_at 5)))
    as (offer & opkt & w1 & rs & w2 & t' & wr1 & wr2 & H1 & _ & _ & _ & _ & H6 & H7).
  - reflexivity.
  - apply (bool_decide_unpack _). vm_compute. exact I.
  - unfold zlen, KOE_MEDIA_MAX_FILE_SIZE. simpl. lia.
  - apply (bool_decide_unpack _). vm_compute. exact I.
  - apply (bool_decide_unpack _). vm_compute. exact I.
  - apply (bool_decide_unpack _). vm_compute. exact I.
  - reflexivity.
  - intros i. reflexivity.
  - intros i. reflexivity.
  - unfold now. simpl. lia.
  - intros i. reflexivity.
  - intros i. reflexivity.
  - lia.
  - vm_compute. reflexivity.
  - exists offer, opkt, w1, t', wr1, wr2. split; [exact H1|]. split; [exact H6|exact H7].
Defined.
