(* ===== verification/Channel.v ===== *)
(** Broadcast channels (src/koe_channel.c, include/koe_channel.h): the list of
    subscribers, posts sealed for each of them, and subscription requests. *)

From S2P Require Import Prelude Version Crc32 Packet Crypto Sealed Handshake Message.

(** * Data *)

(** [ch_name] and [ch_description] are the whole arrays (128 and 512 bytes). *)
Record koe_channel_t := KoeChannel {
  ch_id : bytes; ch_name : bytes; ch_description : bytes; ch_created_at : Z; ch_post_count : Z;
  ch_owner : bool;
}.

Record koe_subscriber_node_t := KoeSubscriber { sub_pk : bytes; sub_subscribed_at : Z }.

(** The linked list from its head on. *)
Record koe_subscriber_list_t := KoeSubscribers {
  sl_nodes : list koe_subscriber_node_t;
  sl_count : Z;
}.

Definition set_post_count (n : Z) (ch : koe_channel_t) : koe_channel_t :=
  KoeChannel (ch_id ch) (ch_name ch) (ch_description ch) (ch_created_at ch) n (ch_owner ch).

(** * Operations *)
Definition koe_channel_create (local_id : koe_identity_t) (name description : bytes) : M (Z * koe_channel_t) :=
  t ← time_null;
  mret (0, KoeChannel (id_pk local_id) (strncpy (zeros 128) name 127)
             (strncpy (zeros 512) description 511) t 0 true).

Definition sub_is (pk : bytes) (n : koe_subscriber_node_t) : Prop := memeq 32 (sub_pk n) pk = true.
#[export] Instance sub_is_dec pk n : Decision (sub_is pk n).
Proof. unfold sub_is. apply _. Defined.

Definition koe_channel_add_subscriber (subs : koe_subscriber_list_t) (pk : bytes)
  : M (Z * koe_subscriber_list_t) :=
  match list_find (sub_is pk) (sl_nodes subs) with
  | Some _ => mret (-1, subs)
  | None =>
      ok ← malloc;
      if negb ok then mret (-1, subs)
      else
        t ← time_null;
        mret (0, KoeSubscribers (KoeSubscriber pk t :: sl_nodes subs) (u64 (sl_count subs + 1)))
  end.

Definition koe_channel_remove_subscriber (subs : koe_subscriber_list_t) (pk : bytes)
  : Z * koe_subscriber_list_t :=
  match list_find (sub_is pk) (sl_nodes subs) with
  | Some (i, _) =>
      (0, KoeSubscribers (take i (sl_nodes subs) ++ drop (S i) (sl_nodes subs)) (u64 (sl_count subs - 1)))
  | None => (-1, subs)
  end.

Definition koe_subscriber_list_free (subs : koe_subscriber_list_t) : koe_subscriber_list_t :=
  KoeSubscribers [] 0.

Section Operations.
Context `{Sodium} {S : Type} (send_fn : bytes → koe_packet_t → S → Z * S).

(** The key a post is sealed with for one subscriber. *)
Definition sub_key (owner_id : koe_identity_t) (pk : bytes) : bytes :=
  generichash 32 (id_sk owner_id ++ pk) 32.

(** The loop over the subscribers: one that cannot be served is skipped. The
    signature of the body is computed and dropped. *)
Fixpoint post_loop (owner_id : koe_identity_t) (subs : list koe_subscriber_node_t) (body : bytes) (ctx : S)
  : M S :=
  match subs with
  | [] => mret ctx
  | sub :: subs' =>
      r ← seal_heap KOE_TYPE_CHANNEL (Z.lor KOE_FLAG_ENCRYPTED KOE_FLAG_SIGNED) (id_pk owner_id) (sub_pk sub)
            body (sub_key owner_id (sub_pk sub));
      match r with
      | None => post_loop owner_id subs' body ctx
      | Some pkt => post_loop owner_id subs' body (send_fn (sub_pk sub) pkt ctx).2
      end
  end.

Definition koe_channel_post (ch : koe_channel_t) (owner_id : koe_identity_t) (subs : koe_subscriber_list_t)
    (body : bytes) (ctx : S) : M (Z * koe_channel_t * S) :=
  if negb (ch_owner ch) then mret (-1, ch, ctx)
  else
    ctx ← post_loop owner_id (sl_nodes subs) body ctx;
    mret (0, set_post_count (u64 (ch_post_count ch + 1)) ch, ctx).

Definition koe_channel_subscribe (pkt : koe_packet_t) (local_id : koe_identity_t) (owner_pk : bytes)
    (sess : koe_session_t) : M (Z * koe_packet_t) :=
  r ← seal_heap KOE_TYPE_MSG KOE_FLAG_ENCRYPTED (id_pk local_id) owner_pk (id_pk local_id) (tx_key sess);
  mret (sealed_result pkt r).

(** The owner's key is ignored. *)
Definition koe_channel_receive_post (msg : koe_message_t) (pkt : koe_packet_t) (owner_pk : bytes)
    (sess : koe_session_t) : M (Z * koe_message_t) :=
  koe_message_decrypt msg pkt sess.

End Operations.

(** * Subscribers *)

(** The count is the number of nodes and nobody is subscribed twice. *)
Definition subs_ok (subs : koe_subscriber_list_t) : Prop :=
  sl_count subs = zlen (sl_nodes subs) ∧ zlen (sl_nodes subs) < 2 ^ 64 - 1
  ∧ Forall (λ n, length (sub_pk n) = 32%nat) (sl_nodes subs) ∧ NoDup (sub_pk <$> sl_nodes subs).

Lemma sub_find subs pk :
  Forall (λ n, length (sub_pk n) = 32%nat) subs → length pk = 32%nat → NoDup (sub_pk <$> subs) →
  match list_find (sub_is pk) subs with
  | Some (i, n) => subs !! i = Some n ∧ sub_pk n = pk
  | None => pk ∉ sub_pk <$> subs
  end.
Proof.
  intros Hall Hpk Hnd. pose proof (find_key sub_pk sub_subscribed_at pk subs Hall Hpk Hnd) as Hf.
  unfold sub_is. destruct (list_find _ _) as [[i n]|]; tauto.
Qed.

(** Adding puts a new subscriber in front and refuses one already there. *)
Lemma koe_channel_add_subscriber_run subs pk w :
  subs_ok subs → length pk = 32%nat → zlen (sl_nodes subs) < 2 ^ 64 - 2 → heap_ok w →
  (pk ∈ sub_pk <$> sl_nodes subs ∧ w ⊢ koe_channel_add_subscriber subs pk ⇓ (-1, subs) ⊣ w)
  ∨ ((pk ∉ sub_pk <$> sl_nodes subs)
     ∧ ∃ subs', w ⊢ koe_channel_add_subscriber subs pk ⇓ (0, subs') ⊣ tick (alloc w)
         ∧ subs_ok subs' ∧ (sub_pk <$> sl_nodes subs') = pk :: (sub_pk <$> sl_nodes subs)).
Proof.
  intros (Hc & Hb & Hl & Hnd) Hpk Hmax Hw. unfold koe_channel_add_subscriber.
  pose proof (sub_find (sl_nodes subs) pk Hl Hpk Hnd) as Hf. destruct (list_find _ _) as [[i n]|].
  - left. destruct Hf as [Hi <-]. split; [|done]. apply list_elem_of_fmap_2. by eapply list_elem_of_lookup_2.
  - right. split; [done|]. eexists. split; [by rewrite bind_malloc_ok|]. split; [|done].
    split_and!; simpl.
    + rewrite Hc, u64_id; unfold zlen in *; simpl; lia.
    + unfold zlen in *. simpl. lia.
    + by constructor.
    + by constructor.
Qed.

(** Removing takes out exactly that subscriber. *)
Lemma koe_channel_remove_subscriber_run subs pk :
  subs_ok subs → length pk = 32%nat →
  let r := koe_channel_remove_subscriber subs pk in
  subs_ok r.2 ∧ r.1 = (if decide (pk ∈ sub_pk <$> sl_nodes subs) then 0 else -1)
  ∧ ∀ q, q ∈ sub_pk <$> sl_nodes r.2 ↔ q ∈ sub_pk <$> sl_nodes subs ∧ q ≠ pk.
Proof.
  intros (Hc & Hb & Hl & Hnd) Hpk. unfold koe_channel_remove_subscriber.
  pose proof (sub_find (sl_nodes subs) pk Hl Hpk Hnd) as Hf. destruct (list_find _ _) as [[i n]|].
  - destruct Hf as [Hi <-]. pose proof (take_drop_middle _ _ _ Hi) as Hs.
    assert (Hp : sl_nodes subs ≡ₚ n :: (take i (sl_nodes subs) ++ drop (Datatypes.S i) (sl_nodes subs)))
      by (rewrite <-Hs at 1; by rewrite Permutation_middle).
    set (rest := take i (sl_nodes subs) ++ drop (Datatypes.S i) (sl_nodes subs)) in *.
    assert (Hlen : zlen (sl_nodes subs) = zlen rest + 1) by (unfold zlen; rewrite Hp; simpl; lia).
    rewrite Hp in Hl. apply Forall_cons in Hl as [_ Hl].
    pose proof Hnd as Hnd'. rewrite Hp, fmap_cons in Hnd'. apply NoDup_cons in Hnd' as [Hn Hnd'].
    split; [split_and!; simpl; [rewrite Hc, u64_id; unfold zlen in *; lia|lia|done|done]|]. simpl. split.
    + rewrite decide_True; [done|]. rewrite Hp, fmap_cons. left.
    + intros q. rewrite Hp, fmap_cons, elem_of_cons. naive_solver.
  - simpl. split; [done|]. split; [by rewrite decide_False|]. intros q. split; [|naive_solver].
    intros Hq. split; [done|]. by intros ->.
Qed.

(** * Posting *)
Section Posting.
Context `{SodiumLaws} {S : Type} (send_fn : bytes → koe_packet_t → S → Z * S).

(** The callback run over a list of recipients and packets. *)
Definition send_all (sent : list (bytes * koe_packet_t)) (ctx : S) : S :=
  foldl (λ s e, (send_fn e.1 e.2 s).2) ctx sent.

(** What a subscriber's [koe_channel_receive_post] makes of a packet: the body
    when the session's receiving key opens it, nothing otherwise. *)
Lemma koe_channel_receive_post_run old pkt owner_pk sess w :
  packet_ok pkt → Z.land (h_flags (p_header pkt)) KOE_FLAG_ENCRYPTED ≠ 0 → 16 ≤ h_length (p_header pkt) → heap_ok w →
  ∃ ct, p_payload pkt = Some ct ∧
  match koe_decrypt ct (h_nonce (p_header pkt)) (rx_key sess) with
  | Some plain => ∃ msg', w ⊢ koe_channel_receive_post old pkt owner_pk sess ⇓ (0, msg') ⊣ tick (alloc w)
      ∧ m_body msg' = Some plain ∧ m_from msg' = h_from (p_header pkt) ∧ m_to msg' = h_to (p_header pkt)
  | None => w ⊢ koe_channel_receive_post old pkt owner_pk sess ⇓ (-1, old) ⊣ alloc w
  end.
Proof.
  intros [Hh Hp] Hf Hl Hw. destruct (p_payload pkt) as [ct|] eqn:Hct; [|lia]. exists ct. split; [done|].
  destruct Hp as (Hb & Hz & _). unfold koe_channel_receive_post, koe_message_decrypt.
  rewrite (proj2 (Z.eqb_neq _ _) Hf). destruct (Z.ltb_spec (h_length (p_header pkt)) 16); [lia|].
  rewrite bind_malloc_ok by done. cbn [negb]. rewrite Hct, (bind_lift _ _ _ ct).
  2:{ rewrite <-Hz. unfold zlen. rewrite Nat2Z.id. apply peek_all. }
  destruct (koe_decrypt _ _ _) as [plain|]; [|done]. rewrite bind_time. by eexists.
Qed.

(** What is sent to one subscriber: a packet flagged as encrypted and signed
    whose payload is the sealed body and nothing else. The key is the hash of
    the owner's secret key and the subscriber's public key; whoever receives
    with it gets the body, and with a key that does not open it nothing. *)
Definition post_for (owner_id : koe_identity_t) (body : bytes) (e : bytes * koe_packet_t) : Prop :=
  packet_ok e.2 ∧ koe_packet_validate e.2 = 0
  ∧ h_type (p_header e.2) = type_code KOE_TYPE_CHANNEL
  ∧ h_flags (p_header e.2) = Z.lor KOE_FLAG_ENCRYPTED KOE_FLAG_SIGNED
  ∧ h_from (p_header e.2) = id_pk owner_id ∧ h_to (p_header e.2) = e.1
  ∧ ∃ ct, p_payload e.2 = Some ct ∧ zlen ct = zlen body + 16
    ∧ ∀ old owner_pk sess w, heap_ok w →
        (rx_key sess = generichash 32 (id_sk owner_id ++ e.1) 32 →
         ∃ msg', w ⊢ koe_channel_receive_post old e.2 owner_pk sess ⇓ (0, msg') ⊣ tick (alloc w)
           ∧ m_body msg' = Some body ∧ m_from msg' = id_pk owner_id ∧ m_to msg' = e.1)
        ∧ (koe_decrypt ct (h_nonce (p_header e.2)) (rx_key sess) = None →
           w ⊢ koe_channel_receive_post old e.2 owner_pk sess ⇓ (-1, old) ⊣ alloc w).

Lemma opens_post_for owner_id body pk nonce ct :
  let pkt := sealed_packet KOE_TYPE_CHANNEL (Z.lor KOE_FLAG_ENCRYPTED KOE_FLAG_SIGNED) (id_pk owner_id) pk nonce ct in
  opens pkt (generichash 32 (id_sk owner_id ++ pk) 32) body → post_for owner_id body (pk, pkt).
Proof.
  intros pkt Ho. pose proof Ho as (Hp & Hv & ct' & Hct & Hlen & Hd). split_and!; try done.
  exists ct'. split; [done|]. split; [destruct Hp as [_ Hp]; cbn [snd] in *; rewrite Hct in Hp; lia|].
  intros old owner_pk sess w Hw.
  destruct (koe_channel_receive_post_run old pkt owner_pk sess w Hp) as (ct2 & Hct2 & R);
    [by vm_compute|rewrite Hlen; unfold zlen; lia|done|].
  rewrite Hct in Hct2. injection Hct2 as <-. split; [intros Hk; cbn [fst] in Hk; rewrite Hk, Hd in R; exact R|].
  cbn [snd]. intros Hn. by rewrite Hn in R.
Qed.

Lemma post_loop_run owner_id subs body ctx w :
  identity_ok owner_id → Forall (λ n, array_ok 32 (sub_pk n)) subs → bytes_ok body →
  zlen body + 16 < 2 ^ 32 → heap_ok w →
  ∃ sent w', same_env w w' ∧ w ⊢ post_loop send_fn owner_id subs body ctx ⇓ send_all sent ctx ⊣ w'
    ∧ sent.*1 = sub_pk <$> subs ∧ Forall (post_for owner_id body) sent.
Proof.
  intros [Hid _] Hs Hb Hl. revert ctx w. induction Hs as [|n subs Hn Hs IH]; intros ctx w Hw.
  { exists [], w. split_and!; [done|done|done|constructor]. }
  destruct (seal_heap_run KOE_TYPE_CHANNEL (Z.lor KOE_FLAG_ENCRYPTED KOE_FLAG_SIGNED) (id_pk owner_id)
              (sub_pk n) body (sub_key owner_id (sub_pk n)) w) as (nonce & ct & _ & Hrun & Ho);
    [by vm_compute|done|done|apply generichash_ok; lia|done..|].
  apply opens_post_for in Ho. set (pkt := sealed_packet _ _ _ _ _ _) in *.
  destruct (IH (send_fn (sub_pk n) pkt ctx).2 (draw (alloc w))) as (sent & w' & E & R & Hf & F); [done|].
  exists ((sub_pk n, pkt) :: sent), w'. split_and!; [by etrans| |by rewrite !fmap_cons, Hf|by constructor].
  cbn [post_loop]. by erewrite bind_run by exact Hrun.
Qed.

(** C25: while memory lasts, a post by the owner of a channel sends every
    subscriber, in the order of the list, one well-formed packet that validates,
    is addressed from the owner to it, is flagged as signed, and holds the sealed
    body and its tag with no signature behind them. [koe_channel_receive_post]
    returns the body when the session's receiving key is the hash of the owner's
    secret key and the subscriber's public key, and -1 under any key that does
    not open the packet. The callback's failures do not stop the loop, and the
    post is counted. Anybody else posts nothing. *)
Theorem koe_channel_post_delivers (ch : koe_channel_t) (owner_id : koe_identity_t)
    (subs : koe_subscriber_list_t) (body : bytes) (ctx : S) (w : world) :
  identity_ok owner_id → Forall (λ n, array_ok 32 (sub_pk n)) (sl_nodes subs) → bytes_ok body →
  zlen body + 16 < 2 ^ 32 → heap_ok w → 0 ≤ ch_post_count ch < 2 ^ 64 - 1 →
  if ch_owner ch then
    ∃ sent w',
      w ⊢ koe_channel_post send_fn ch owner_id subs body ctx
        ⇓ (0, set_post_count (ch_post_count ch + 1) ch, send_all sent ctx) ⊣ w'
      ∧ sent.*1 = sub_pk <$> sl_nodes subs ∧ Forall (post_for owner_id body) sent
  else w ⊢ koe_channel_post send_fn ch owner_id subs body ctx ⇓ (-1, ch, ctx) ⊣ w.
Proof.
  intros Hid Hs Hb Hl Hw Hc. unfold koe_channel_post. destruct (ch_owner ch); [|done]. cbn [negb].
  destruct (post_loop_run owner_id (sl_nodes subs) body ctx w) as (sent & w' & _ & R & Hf & F); [done..|].
  exists sent, w'. split_and!; [|done|done]. erewrite bind_run by exact R. by rewrite u64_id by lia.
Qed.

End Posting.

#[local] Existing Instance toy_sodium.
#[local] Existing Instance toy_laws.

Definition demo_channel : koe_channel_t := KoeChannel (zeros 32) (zeros 128) (zeros 512) 0 4 true.

Lemma koe_channel_post_delivers_witness :
  ∃ sent w',
    world_at 3 ⊢ koe_channel_post (λ pk _ log, (-1, log ++ [pk])) demo_channel (toy_identity 1)
        (KoeSubscribers [KoeSubscriber (zeros 32) 0; KoeSubscriber (replicate 32 9) 0] 2) [104; 105] []
      ⇓ (0, set_post_count 5 demo_channel, send_all (λ pk _ log, (-1, log ++ [pk])) sent []) ⊣ w'
    ∧ sent.*1 = [zeros 32; replicate 32 9].
Proof.
  destruct (koe_channel_post_delivers (λ pk _ log, (-1, log ++ [pk])) demo_channel (toy_identity 1)
    (KoeSubscribers [KoeSubscriber (zeros 32) 0; KoeSubscriber (replicate 32 9) 0] 2) [104; 105] [] (world_at 3))
    as (sent & w' & H1 & H2 & _).
  - apply keypair_ok, toy_identity_keypair. unfold byte_ok. lia.
  - apply (bool_decide_unpack _). vm_compute. exact I.
  - apply (bool_decide_unpack _). vm_compute. exact I.
  - vm_compute. reflexivity.
  - intros i. reflexivity.
  - simpl. lia.
  - exists sent, w'. split; [exact H1|exact H2].
Defined.

(** The key of a post is made from the owner's secret key, and a subscriber
    receives with the key of its session with the owner: here the two complete a
    handshake, the owner posts, and the subscriber cannot open the post. *)
Definition post_to_peer : M (option (Z * Z)) :=
  i ← koe_handshake_init witness_packet (toy_identity 2) (id_pk (toy_identity 1));
  r ← koe_handshake_respond witness_packet i.2 (toy_identity 1);
  p ← koe_channel_post (λ _ pkt _, (0, Some pkt)) demo_channel (toy_identity 1)
        (KoeSubscribers [KoeSubscriber (id_pk (toy_identity 2)) 0] 1) [104; 105] None;
  match koe_handshake_finalise i.1.2 r.2 (toy_identity 2), p.2 with
  | Some (0, hs), Some pkt =>
      m ← koe_channel_receive_post witness_message pkt (id_pk (toy_identity 1)) (hs_session hs);
      mret (Some (p.1.1, m.1))
  | _, _ => mret None
  end.

Lemma koe_channel_post_unreadable : ∃ w', world_at 3 ⊢ post_to_peer ⇓ Some (0, -1) ⊣ w'.
Proof. eexists. vm_compute. reflexivity. Qed.
