(* ===== verification/Audio.v ===== *)
(** Voice calls (src/koe_audio.c, include/koe_audio.h): Opus frames in sealed
    packets, the jitter buffer, and call signalling. The codec is a parameter. *)

From S2P Require Import Prelude Version Crc32 Packet Crypto Sealed Handshake.

(** * Data *)
Definition KOE_AUDIO_FRAME_SAMPLES : nat := 160.
Definition KOE_AUDIO_MAX_FRAME_BYTES : Z := 256.
Definition KOE_JITTER_BUF_FRAMES : nat := 4.

Inductive koe_call_state_t := KOE_CALL_IDLE | KOE_CALL_RINGING | KOE_CALL_ACTIVE | KOE_CALL_ENDED.

(** libopus. [opus_encoder_new] is an encoder with the settings [koe_audio_init]
    makes. An encoder turns a frame of samples into at most
    [KOE_AUDIO_MAX_FRAME_BYTES] bytes ([None] for a negative code) and a decoder
    turns a frame ([None]: a lost one) and its stated length into a code and the
    samples; both carry state. *)
Class Opus := {
  encoder : Type;
  decoder : Type;
  opus_encoder_new : encoder;
  opus_decoder_new : decoder;
  opus_encode : encoder → list Z → option bytes * encoder;
  opus_decode : decoder → option bytes → Z → list Z → Z * list Z * decoder;
}.

Section Audio.
Context `{Opus}.

Record koe_audio_ctx_t := KoeAudio {
  a_encoder : option encoder;
  a_decoder : option decoder;
  a_state : koe_call_state_t;
  a_remote_pk : bytes;
  a_muted : bool;
  a_speaker_muted : bool;
  a_frames_sent : Z;
  a_frames_received : Z;
  a_frames_lost : Z;
  a_jitter_buf : list (list Z);
  a_jitter_write : nat;
  a_jitter_read : nat;
}.

Definition set_codec (e : option encoder) (d : option decoder) (s : koe_call_state_t) (c : koe_audio_ctx_t)
  : koe_audio_ctx_t :=
  KoeAudio e d s (a_remote_pk c) (a_muted c) (a_speaker_muted c) (a_frames_sent c) (a_frames_received c)
    (a_frames_lost c) (a_jitter_buf c) (a_jitter_write c) (a_jitter_read c).
Definition set_frames (sent received lost : Z) (c : koe_audio_ctx_t) : koe_audio_ctx_t :=
  KoeAudio (a_encoder c) (a_decoder c) (a_state c) (a_remote_pk c) (a_muted c) (a_speaker_muted c)
    sent received lost (a_jitter_buf c) (a_jitter_write c) (a_jitter_read c).
Definition set_jitter (buf : list (list Z)) (wr : nat) (c : koe_audio_ctx_t) : koe_audio_ctx_t :=
  KoeAudio (a_encoder c) (a_decoder c) (a_state c) (a_remote_pk c) (a_muted c) (a_speaker_muted c)
    (a_frames_sent c) (a_frames_received c) (a_frames_lost c) buf wr (a_jitter_read c).

(** * Calls *)

(** Creating either codec may fail. *)
Definition koe_audio_init (remote_pk : bytes) : M (Z * koe_audio_ctx_t) :=
  let ctx := KoeAudio None None KOE_CALL_IDLE remote_pk false false 0 0 0
               (replicate KOE_JITTER_BUF_FRAMES (zeros KOE_AUDIO_FRAME_SAMPLES)) 0 0 in
  ok ← malloc;
  if negb ok then mret (-1, ctx)
  else
    ok ← malloc;
    if negb ok then mret (-1, ctx)
    else mret (0, set_codec (Some opus_encoder_new) (Some opus_decoder_new) KOE_CALL_RINGING ctx).

Definition koe_audio_destroy (ctx : koe_audio_ctx_t) : koe_audio_ctx_t :=
  set_codec None None KOE_CALL_ENDED ctx.

Definition koe_audio_set_mute (muted : bool) (c : koe_audio_ctx_t) : koe_audio_ctx_t :=
  KoeAudio (a_encoder c) (a_decoder c) (a_state c) (a_remote_pk c) muted (a_speaker_muted c)
    (a_frames_sent c) (a_frames_received c) (a_frames_lost c) (a_jitter_buf c) (a_jitter_write c) (a_jitter_read c).
Definition koe_audio_set_speaker_mute (muted : bool) (c : koe_audio_ctx_t) : koe_audio_ctx_t :=
  KoeAudio (a_encoder c) (a_decoder c) (a_state c) (a_remote_pk c) (a_muted c) muted
    (a_frames_sent c) (a_frames_received c) (a_frames_lost c) (a_jitter_buf c) (a_jitter_write c) (a_jitter_read c).

(** * Frames *)
Section Frames.
Context `{Sodium}.

(** A NULL encoder is undefined. The sender field of the header is filled with
    the session's sending key. *)
Definition koe_audio_encode_frame (ctx : koe_audio_ctx_t) (pcm : list Z) (sess : koe_session_t)
    (pkt_out : koe_packet_t) : M (Z * koe_audio_ctx_t * koe_packet_t) :=
  if a_muted ctx then mret (0, ctx, pkt_out)
  else
    enc ← lift (a_encoder ctx);
    let '(opus, enc) := opus_encode enc pcm in
    let ctx := set_codec (Some enc) (a_decoder ctx) (a_state ctx) ctx in
    match opus with
    | None => mret (-1, ctx, pkt_out)
    | Some opus_buf =>
        r ← seal_heap KOE_TYPE_AUDIO KOE_FLAG_ENCRYPTED (tx_key sess) (a_remote_pk ctx) opus_buf (tx_key sess);
        match r with
        | None => mret (-1, ctx, pkt_out)
        | Some pkt =>
            mret (0, set_frames (u64 (a_frames_sent ctx + 1)) (a_frames_received ctx) (a_frames_lost ctx) ctx, pkt)
        end
    end.

Definition count_lost (ctx : koe_audio_ctx_t) : koe_audio_ctx_t :=
  set_frames (a_frames_sent ctx) (a_frames_received ctx) (u64 (a_frames_lost ctx + 1)) ctx.

(** The code, the context and the samples; a slot outside the jitter buffer is
    undefined. *)
Definition koe_audio_decode_frame (ctx : koe_audio_ctx_t) (pkt : koe_packet_t) (sess : koe_session_t)
    (pcm : list Z) : M (Z * koe_audio_ctx_t * list Z) :=
  match p_payload pkt with
  | Some payload =>
      if h_length (p_header pkt) <=? 16 then
        dec ← lift (a_decoder ctx);
        let '(n, pcm, dec) := opus_decode dec None 0 pcm in
        let ctx := set_codec (a_encoder ctx) (Some dec) (a_state ctx) (count_lost ctx) in
        mret (if 0 <? n then 0 else -1, ctx, pcm)
      else
        ok ← malloc;
        if negb ok then mret (-1, ctx, pcm)
        else
          ct ← lift (peek payload 0 (Z.to_nat (h_length (p_header pkt))));
          match koe_decrypt ct (h_nonce (p_header pkt)) (rx_key sess) with
          | None => mret (-1, count_lost ctx, pcm)
          | Some plain =>
              dec ← lift (a_decoder ctx);
              let '(n, pcm, dec) := opus_decode dec (Some plain) (i32 (h_length (p_header pkt) - 16)) pcm in
              let ctx := set_codec (a_encoder ctx) (Some dec) (a_state ctx) ctx in
              if n <? 0 then mret (-1, ctx, pcm)
              else
                let ctx := set_frames (a_frames_sent ctx) (u64 (a_frames_received ctx + 1)) (a_frames_lost ctx) ctx in
                _ ← lift (a_jitter_buf ctx !! a_jitter_write ctx);
                mret (0, set_jitter (<[a_jitter_write ctx := pcm]> (a_jitter_buf ctx))
                           ((a_jitter_write ctx + 1) `mod` KOE_JITTER_BUF_FRAMES)%nat ctx, pcm)
          end
  | None =>
      dec ← lift (a_decoder ctx);
      let '(n, pcm, dec) := opus_decode dec None 0 pcm in
      let ctx := set_codec (a_encoder ctx) (Some dec) (a_state ctx) (count_lost ctx) in
      mret (if 0 <? n then 0 else -1, ctx, pcm)
  end.

End Frames.
End Audio.

(** * Signalling *)
Section Signals.
Context `{Sodium}.

Definition build_call_signal (pkt : koe_packet_t) (signal_type : Z) (local_id : koe_identity_t)
    (remote_pk : bytes) (sess : koe_session_t) : M (Z * koe_packet_t) :=
  r ← seal_stack (if signal_type =? 1 then KOE_TYPE_HELLO else KOE_TYPE_ACK) KOE_FLAG_ENCRYPTED
        (id_pk local_id) remote_pk [signal_type] (tx_key sess);
  mret (sealed_result pkt r).

Definition koe_audio_build_call_start (pkt : koe_packet_t) := build_call_signal pkt 1.
Definition koe_audio_build_call_end (pkt : koe_packet_t) := build_call_signal pkt 0.

End Signals.

(** * Frames on the wire *)
Section Frames.
Context `{Opus} `{SodiumLaws}.

Lemma koe_audio_encode_frame_run ctx pcm sess out frame e e' w :
  a_muted ctx = false → a_encoder ctx = Some e → opus_encode e pcm = (Some frame, e') →
  bytes_ok frame → zlen frame ≤ KOE_AUDIO_MAX_FRAME_BYTES → array_ok 32 (a_remote_pk ctx) →
  session_ok sess → heap_ok w →
  ∃ ctx' pkt, w ⊢ koe_audio_encode_frame ctx pcm sess out ⇓ (0, ctx', pkt) ⊣ draw (alloc w)
    ∧ opens pkt (tx_key sess) frame ∧ h_from (p_header pkt) = tx_key sess
    ∧ h_to (p_header pkt) = a_remote_pk ctx
    ∧ a_frames_sent ctx' = u64 (a_frames_sent ctx + 1).
Proof.
  intros Hm He Henc Hb Hl Hpk [Htx _] Hw. unfold KOE_AUDIO_MAX_FRAME_BYTES in Hl.
  destruct (seal_heap_run KOE_TYPE_AUDIO KOE_FLAG_ENCRYPTED (tx_key sess) (a_remote_pk ctx) frame (tx_key sess) w)
    as (nonce & ct & _ & Hrun & Ho); [by vm_compute|done..|lia|done|].
  eexists _, _. split.
  { unfold koe_audio_encode_frame. rewrite Hm, (bind_lift _ _ _ _ He), Henc. by erewrite bind_run by exact Hrun. }
  split; [exact Ho|done].
Qed.

(** A voice frame carries, in the clear, the key that opens it: the sender
    field of the header of every frame [koe_audio_encode_frame] emits is the
    session's sending key, so whoever sees one frame decrypts it, and every other
    packet of the session. The peer, for its part, does get the frame: decoding
    hands it to the codec and puts the samples in the next slot of the jitter
    buffer. *)
Lemma koe_audio_frame_leaks_key (ctx rctx : koe_audio_ctx_t) (pcm pcm0 pcm1 : list Z)
    (sa sb : koe_session_t) (out : koe_packet_t) (frame : bytes) (e e' : encoder) (d d' : decoder)
    (n : Z) (w wr : world) :
  a_muted ctx = false → a_encoder ctx = Some e → opus_encode e pcm = (Some frame, e') →
  bytes_ok frame → 0 < zlen frame ≤ KOE_AUDIO_MAX_FRAME_BYTES → array_ok 32 (a_remote_pk ctx) →
  session_ok sa → rx_key sb = tx_key sa → heap_ok w → heap_ok wr →
  a_decoder rctx = Some d → opus_decode d (Some frame) (zlen frame) pcm0 = (n, pcm1, d') → 0 ≤ n →
  (a_jitter_write rctx < length (a_jitter_buf rctx))%nat →
  ∃ ctx' pkt rctx',
    w ⊢ koe_audio_encode_frame ctx pcm sa out ⇓ (0, ctx', pkt) ⊣ draw (alloc w)
    ∧ (∃ ct, p_payload pkt = Some ct
             ∧ koe_decrypt ct (h_nonce (p_header pkt)) (h_from (p_header pkt)) = Some frame)
    ∧ h_from (p_header pkt) = tx_key sa
    ∧ wr ⊢ koe_audio_decode_frame rctx pkt sb pcm0 ⇓ (0, rctx', pcm1) ⊣ alloc wr
    ∧ a_jitter_buf rctx' = <[a_jitter_write rctx := pcm1]> (a_jitter_buf rctx)
    ∧ a_jitter_write rctx' = ((a_jitter_write rctx + 1) `mod` 4)%nat
    ∧ a_frames_received rctx' = u64 (a_frames_received rctx + 1).
Proof.
  intros Hm He Henc Hb Hl Hpk Hsa Hrx Hw Hwr Hd Hdec Hn Hj. unfold KOE_AUDIO_MAX_FRAME_BYTES in Hl.
  destruct (koe_audio_encode_frame_run ctx pcm sa out frame e e' w) as (ctx' & pkt & Hrun & Ho & Hfrom & _);
    [done..|unfold KOE_AUDIO_MAX_FRAME_BYTES; lia|done|done|done|].
  destruct (opens_peek _ _ _ Ho) as (ct & Hp & Hpeek & Hdecr). pose proof Ho as (_ & _ & _ & _ & Hlen & _).
  exists ctx', pkt. eexists. split; [done|]. split; [exists ct; by rewrite Hfrom|]. split; [done|]. split.
  { unfold koe_audio_decode_frame. rewrite Hp, (proj2 (Z.leb_gt _ _)) by lia.
    rewrite bind_malloc_ok by done. cbn [negb]. rewrite (bind_lift _ _ _ _ Hpeek), Hrx, Hdecr.
    rewrite (bind_lift _ _ _ _ Hd), Hlen, i32_id by lia. replace (zlen frame + 16 - 16) with (zlen frame) by lia.
    rewrite Hdec, (proj2 (Z.ltb_ge _ _)) by lia.
    destruct (lookup_lt_is_Some_2 _ _ Hj) as [old Hold]. by rewrite (bind_lift _ _ _ _ Hold). }
  done.
Qed.

(** A call that [koe_audio_init] set up: both codecs are there and the write
    position is a slot of the jitter buffer. *)
Definition voice_ok (ctx : koe_audio_ctx_t) : Prop :=
  is_Some (a_encoder ctx) ∧ is_Some (a_decoder ctx)
  ∧ length (a_jitter_buf ctx) = KOE_JITTER_BUF_FRAMES ∧ (a_jitter_write ctx < KOE_JITTER_BUF_FRAMES)%nat.

Lemma koe_audio_init_ok pk w : runs w (koe_audio_init pk) (λ r _, r.1 = 0 → voice_ok r.2).
Proof.
  unfold koe_audio_init. apply runs_malloc. destruct (w_heap w _); cbn [negb]; [|by apply runs_ret].
  apply runs_malloc. destruct (w_heap _ _); cbn [negb]; apply runs_ret; [|done].
  intros _. unfold voice_ok, KOE_JITTER_BUF_FRAMES. cbn. split_and!; by eexists || lia.
Qed.

(** Whatever packet arrives during a call, decoding it stays inside the jitter
    buffer and the call goes on. *)
Lemma koe_audio_decode_frame_ok ctx pkt sess pcm w :
  voice_ok ctx → packet_ok pkt →
  runs w (koe_audio_decode_frame ctx pkt sess pcm) (λ r _, voice_ok r.1.2).
Proof.
  intros Hc [_ Hp]. pose proof Hc as (He & [d Hd] & Hl & Hw). unfold koe_audio_decode_frame.
  assert (Hlost : ∀ d', voice_ok (set_codec (a_encoder ctx) (Some d') (a_state ctx) (count_lost ctx)))
    by (intros d'; unfold voice_ok; cbn; by split_and!).
  destruct (p_payload pkt) as [payload|].
  2:{ eapply runs_lift; [exact Hd|]. destruct (opus_decode d None 0 pcm) as [[n out] d']. by apply runs_ret. }
  destruct (_ <=? 16).
  { eapply runs_lift; [exact Hd|]. destruct (opus_decode d None 0 pcm) as [[n out] d']. by apply runs_ret. }
  apply runs_malloc. destruct (w_heap w _); cbn [negb]; [|by apply runs_ret].
  destruct Hp as (_ & Hlen & _). eapply runs_lift; [rewrite <-Hlen; unfold zlen; rewrite Nat2Z.id; apply peek_all|].
  destruct (koe_decrypt _ _ _) as [plain|]; [|by apply runs_ret]. eapply runs_lift; [exact Hd|].
  destruct (opus_decode d _ _ pcm) as [[n out] d']. destruct (n <? 0); [by apply runs_ret|].
  destruct (lookup_lt_is_Some_2 (a_jitter_buf ctx) (a_jitter_write ctx)) as [old Hold]; [by rewrite Hl|].
  eapply runs_lift; [exact Hold|]. apply runs_ret. split_and!.
  - done.
  - by eexists.
  - cbn. by rewrite length_insert.
  - cbn [a_jitter_write set_jitter fst snd]. apply Nat.mod_upper_bound. by unfold KOE_JITTER_BUF_FRAMES.
Qed.

(** So does encoding a frame, whatever the codec makes of the samples. *)
Lemma koe_audio_encode_frame_ok ctx pcm sess out w :
  voice_ok ctx → runs w (koe_audio_encode_frame ctx pcm sess out) (λ r _, voice_ok r.1.2).
Proof.
  intros Hc. pose proof Hc as ([e He] & Hd & Hl & Hw). unfold koe_audio_encode_frame.
  destruct (a_muted ctx); [by apply runs_ret|]. eapply runs_lift; [exact He|].
  destruct (opus_encode e pcm) as [[frame|] e']; [|apply runs_ret; by repeat split].
  eapply total_bind_runs; [unfold seal_heap, koe_nonce_generate; total|].
  intros [pkt|] w' _; apply runs_ret; by repeat split.
Qed.

(** The packet that starts a call has the type of a handshake HELLO; a peer that
    hands it to the handshake answers -1. *)
Lemma call_start_is_no_hello pkt id remote sess w :
  identity_ok id → array_ok 32 remote → session_ok sess → heap_ok w →
  ∃ out, w ⊢ koe_audio_build_call_start pkt id remote sess ⇓ (0, out) ⊣ alloc (draw w)
    ∧ h_type (p_header out) = type_code KOE_TYPE_HELLO
    ∧ ∀ ack id' w', w' ⊢ koe_handshake_respond ack out id' ⇓ (-1, zero_handshake, ack) ⊣ w'.
Proof.
  intros [Hid _] Hr [Htx _] Hw.
  destruct (seal_stack_run KOE_TYPE_HELLO KOE_FLAG_ENCRYPTED (id_pk id) remote [1] (tx_key sess) w)
    as (nonce & ct & _ & Hrun & Ho); [by vm_compute|done..|by apply Forall_singleton|done|done|].
  pose proof Ho as (_ & _ & ct' & Hp & Hl & _).
  eexists. split; [unfold koe_audio_build_call_start, build_call_signal; cbn [Z.eqb Pos.eqb];
                   by erewrite bind_run by exact Hrun|].
  split; [done|]. intros ack id' w'. unfold koe_handshake_respond. cbn [sealed_result snd].
  rewrite Hp, Hl. done.
Qed.

End Frames.

#[local] Existing Instance toy_sodium.
#[local] Existing Instance toy_laws.

(** A codec that packs the first sample modulo 256 and repeats it. *)
#[local] Instance toy_opus : Opus := {|
  encoder := unit; decoder := unit; opus_encoder_new := (); opus_decoder_new := ();
  opus_encode _ pcm := (Some [default 0 (head pcm) `mod` 256], ());
  opus_decode _ f _ pcm := (160, replicate 160 (default 0 (f ≫= head)), ()) |}.

Definition call_ctx : koe_audio_ctx_t :=
  KoeAudio (Some ()) (Some ()) KOE_CALL_ACTIVE (zeros 32) false false 0 0 0 (replicate 4 (zeros 160)) 3 0.

Lemma koe_audio_frame_leaks_key_witness :
  ∃ ctx' pkt rctx',
    world_at 1 ⊢ koe_audio_encode_frame call_ctx (replicate 160 42) (KoeSession (replicate 32 6) (replicate 32 7))
        (koe_packet_init 0 0) ⇓ (0, ctx', pkt) ⊣ draw (alloc (world_at 1))
    ∧ h_from (p_header pkt) = replicate 32 6
    ∧ world_at 1 ⊢ koe_audio_decode_frame call_ctx pkt (KoeSession (replicate 32 7) (replicate 32 6)) (zeros 160)
        ⇓ (0, rctx', replicate 160 42) ⊣ alloc (world_at 1)
    ∧ a_jitter_write rctx' = 0%nat.
Proof.
  destruct (koe_audio_frame_leaks_key call_ctx call_ctx (replicate 160 42) (zeros 160) (replicate 160 42)
    (KoeSession (replicate 32 6) (replicate 32 7)) (KoeSession (replicate 32 7) (replicate 32 6))
    (koe_packet_init 0 0) [42] () () () () 160 (world_at 1) (world_at 1))
    as (ctx' & pkt & rctx' & H1 & _ & H3 & H4 & _ & H6 & _).
  - reflexivity.
  - reflexivity.
  - reflexivity.
  - apply (bool_decide_unpack _). vm_compute. exact I.
  - unfold zlen, KOE_AUDIO_MAX_FRAME_BYTES. simpl. lia.
  - apply (bool_decide_unpack _). vm_compute. exact I.
  - apply (bool_decide_unpack _). vm_compute. exact I.
  - reflexivity.
  - intros i. reflexivity.
  - intros i. reflexivity.
  - reflexivity.
  - reflexivity.
  - lia.
  - simpl. lia.
  - exists ctx', pkt, rctx'. split; [exact H1|]. split; [exact H3|]. split; [exact H4|exact H6].
Defined.
