(* ===== verification/Identity.v ===== *)
(** Profiles and the contact book (src/koe_identity.c, include/koe_identity.h):
    the book as a linked list, its refinement of a finite map, and its
    persistence through the database layer. *)

From S2P Require Import Prelude Crypto Handshake Db.
Import Strings.String.StringSyntax.

(** * Data *)
Record koe_profile_t := KoeProfile {
  pf_keys : koe_identity_t; pf_display_name : bytes; pf_short_id : bytes; pf_created_at : Z;
}.

(** [ct_display_name] and [ct_short_id] are the whole arrays (64 and 16 bytes). *)
Record koe_contact_t := KoeContact {
  ct_pk : bytes; ct_display_name : bytes; ct_short_id : bytes; ct_added_at : Z; ct_last_seen : Z;
  ct_verified : Z; ct_blocked : Z;
}.

(** The linked list from its head on. *)
Record koe_contact_book_t := KoeContactBook { bk_contacts : list koe_contact_t; bk_count : Z }.

(** * Profiles *)
Definition identity_path (dir : bytes) : bytes := snprintf_trunc 512 (dir ++ str "/identity.koe").

Section Profiles.
Context `{Sodium}.

Definition zero_profile : koe_profile_t :=
  KoeProfile (KoeIdentity (zeros 32) (zeros 64)) (zeros 64) (zeros 16) 0.

Definition koe_profile_create (display_name passphrase dir : bytes) : M (Z * koe_profile_t) :=
  g ← koe_identity_generate (pf_keys zero_profile);
  if negb (g.1 =? 0) then mret (-1, zero_profile)
  else
    t ← time_null;
    let p := KoeProfile g.2 (strncpy (zeros 64) display_name 63) (koe_identity_short_id (id_pk g.2)) t in
    rc ← koe_identity_save (pf_keys p) (identity_path dir) passphrase;
    mret (rc, p).

Definition koe_profile_load (p : koe_profile_t) (dir passphrase : bytes) : M (Z * koe_profile_t) :=
  l ← koe_identity_load (pf_keys p) (identity_path dir) passphrase;
  if negb (l.1 =? 0) then mret (-1, KoeProfile l.2 (pf_display_name p) (pf_short_id p) (pf_created_at p))
  else mret (0, KoeProfile l.2 (pf_display_name p) (koe_identity_short_id (id_pk l.2)) (pf_created_at p)).

Definition koe_profile_save (p : koe_profile_t) (dir passphrase : bytes) : M Z :=
  koe_identity_save (pf_keys p) (identity_path dir) passphrase.

Definition koe_profile_short_id (out pk : bytes) : bytes :=
  strncpy out (cstr (koe_identity_short_id pk)) 16.

End Profiles.

(** * The book *)
Definition koe_contact_book_init : koe_contact_book_t := KoeContactBook [] 0.
Definition koe_contact_book_free (book : koe_contact_book_t) : koe_contact_book_t := KoeContactBook [] 0.

Definition contact_is (pk : bytes) (c : koe_contact_t) : Prop := memeq 32 (ct_pk c) pk = true.
#[export] Instance contact_is_dec pk c : Decision (contact_is pk c).
Proof. unfold contact_is. apply _. Defined.

(** The contact the returned pointer designates. *)
Definition koe_contact_find (book : koe_contact_book_t) (pk : bytes) : option koe_contact_t :=
  snd <$> list_find (contact_is pk) (bk_contacts book).
Definition koe_contact_find_by_short_id (book : koe_contact_book_t) (short_id : bytes) : option koe_contact_t :=
  snd <$> list_find (λ c, cstr (ct_short_id c) = short_id) (bk_contacts book).

Definition koe_contact_add (book : koe_contact_book_t) (pk display_name : bytes)
  : M (Z * koe_contact_book_t) :=
  match koe_contact_find book pk with
  | Some _ => mret (-1, book)
  | None =>
      ok ← malloc;
      if negb ok then mret (-1, book)
      else
        t ← time_null;
        let c := KoeContact pk (strncpy (zeros 64) display_name 63) (koe_identity_short_id pk) t 0 0 0 in
        mret (0, KoeContactBook (c :: bk_contacts book) (bk_count book + 1))
  end.

Definition koe_contact_remove (book : koe_contact_book_t) (pk : bytes) : Z * koe_contact_book_t :=
  match list_find (contact_is pk) (bk_contacts book) with
  | Some (i, _) =>
      (0, KoeContactBook (take i (bk_contacts book) ++ drop (S i) (bk_contacts book)) (bk_count book - 1))
  | None => (-1, book)
  end.

(** Writing through the pointer [koe_contact_find] returns. *)
Definition set_contact (f : koe_contact_t → koe_contact_t) (book : koe_contact_book_t) (pk : bytes)
  : Z * koe_contact_book_t :=
  match list_find (contact_is pk) (bk_contacts book) with
  | Some (i, c) => (0, KoeContactBook (<[i := f c]> (bk_contacts book)) (bk_count book))
  | None => (-1, book)
  end.
Definition put_verified (v : Z) (c : koe_contact_t) : koe_contact_t :=
  KoeContact (ct_pk c) (ct_display_name c) (ct_short_id c) (ct_added_at c) (ct_last_seen c) v (ct_blocked c).
Definition put_blocked (b : Z) (c : koe_contact_t) : koe_contact_t :=
  KoeContact (ct_pk c) (ct_display_name c) (ct_short_id c) (ct_added_at c) (ct_last_seen c) (ct_verified c) b.
Definition koe_contact_set_verified (book : koe_contact_book_t) (pk : bytes) (v : Z) :=
  set_contact (put_verified v) book pk.
Definition koe_contact_set_blocked (book : koe_contact_book_t) (pk : bytes) (b : Z) :=
  set_contact (put_blocked b) book pk.

(** * Persistence *)

(** The definition koe_identity.c gives: it lists nothing. *)
Definition koe_db_contact_list (conn : koe_db_conn_t) : Z * list koe_db_contact_t := (0, []).

Definition contact_of_row (r : koe_db_contact_t) : koe_contact_t :=
  KoeContact (dc_pk r) (strncpy (zeros 64) (cstr (dc_display_name r)) 63)
    (strncpy (zeros 16) (cstr (dc_short_id r)) 15) (dc_added_at r) (dc_last_seen r) (dc_verified r) (dc_blocked r).

Fixpoint load_loop (rows : list koe_db_contact_t) (book : koe_contact_book_t) : M (Z * koe_contact_book_t) :=
  match rows with
  | [] => mret (0, book)
  | r :: rows' =>
      ok ← malloc;
      if negb ok then mret (-1, book)
      else load_loop rows' (KoeContactBook (contact_of_row r :: bk_contacts book) (bk_count book + 1))
  end.

Definition koe_contact_book_load (book : koe_contact_book_t) (conn : koe_db_conn_t) : M (Z * koe_contact_book_t) :=
  let '(rc, rows) := koe_db_contact_list conn in
  if negb (rc =? 0) then mret (-1, book) else load_loop rows book.

Definition row_of_contact (c : koe_contact_t) : koe_db_contact_t :=
  KoeDbContact (ct_pk c) (strncpy (zeros 64) (cstr (ct_display_name c)) 63)
    (strncpy (zeros 16) (cstr (ct_short_id c)) 15) (ct_added_at c) (ct_last_seen c) (ct_blocked c) (ct_verified c).

(** The result of an upsert is ignored. *)
Fixpoint save_loop (cs : list koe_contact_t) (conn : koe_db_conn_t) : M koe_db_conn_t :=
  match cs with
  | [] => mret conn
  | c :: cs' => r ← koe_db_contact_upsert conn (row_of_contact c); save_loop cs' r.2
  end.

Definition koe_contact_book_save (book : koe_contact_book_t) (conn : koe_db_conn_t) : M (Z * koe_db_conn_t) :=
  conn ← save_loop (bk_contacts book) conn;
  mret (0, conn).

(** * The abstract book *)
Definition book_map (book : koe_contact_book_t) : gmap bytes koe_contact_t :=
  keyed_map ct_pk id (bk_contacts book).

(** The count is the number of contacts and nobody is listed twice. *)
Definition book_ok (book : koe_contact_book_t) : Prop :=
  bk_count book = zlen (bk_contacts book) ∧ Forall (λ c, length (ct_pk c) = 32%nat) (bk_contacts book)
  ∧ NoDup (ct_pk <$> bk_contacts book).

Definition keeps (book : koe_contact_book_t) (m : gmap bytes koe_contact_t) : Prop :=
  book_ok book ∧ m = book_map book.

Inductive book_op :=
  | BookAdd (pk name : bytes) | BookRemove (pk : bytes) | BookFind (pk : bytes)
  | BookVerify (pk : bytes) (v : Z) | BookBlock (pk : bytes) (b : Z).

Inductive book_ret := BookCode (rc : Z) | BookContact (c : option koe_contact_t).

Definition book_run (op : book_op) (book : koe_contact_book_t) : M (book_ret * koe_contact_book_t) :=
  match op with
  | BookAdd pk name => r ← koe_contact_add book pk name; mret (BookCode r.1, r.2)
  | BookRemove pk => let r := koe_contact_remove book pk in mret (BookCode r.1, r.2)
  | BookFind pk => mret (BookContact (koe_contact_find book pk), book)
  | BookVerify pk v => let r := koe_contact_set_verified book pk v in mret (BookCode r.1, r.2)
  | BookBlock pk b => let r := koe_contact_set_blocked book pk b in mret (BookCode r.1, r.2)
  end.

Definition op_key (op : book_op) : bytes :=
  match op with BookAdd pk _ | BookRemove pk | BookFind pk | BookVerify pk _ | BookBlock pk _ => pk end.

Definition code_of {A} (o : option A) : Z := match o with Some _ => 0 | None => -1 end.

(** What each operation promises, on a finite map. *)
Definition map_run (op : book_op) (m : gmap bytes koe_contact_t) : M (book_ret * gmap bytes koe_contact_t) :=
  if decide (length (op_key op) ≠ 32%nat) then ub
  else
    match op with
    | BookAdd pk name =>
        match m !! pk with
        | Some _ => mret (BookCode (-1), m)
        | None =>
            ok ← malloc;
            if negb ok then mret (BookCode (-1), m)
            else
              t ← time_null;
              mret (BookCode 0, <[pk := KoeContact pk (strncpy (zeros 64) name 63)
                                          (koe_identity_short_id pk) t 0 0 0]> m)
        end
    | BookRemove pk => mret (BookCode (code_of (m !! pk)), delete pk m)
    | BookFind pk => mret (BookContact (m !! pk), m)
    | BookVerify pk v => mret (BookCode (code_of (m !! pk)), alter (put_verified v) pk m)
    | BookBlock pk b => mret (BookCode (code_of (m !! pk)), alter (put_blocked b) pk m)
    end.

(** * Refinement *)
Lemma book_find book pk :
  book_ok book → length pk = 32%nat →
  match list_find (contact_is pk) (bk_contacts book) with
  | Some (i, c) => bk_contacts book !! i = Some c ∧ (i < length (bk_contacts book))%nat ∧ ct_pk c = pk
                   ∧ book_map book !! pk = Some c
  | None => (pk ∉ ct_pk <$> bk_contacts book) ∧ book_map book !! pk = None
  end.
Proof. intros (_ & Hall & Hnd) Hpk. exact (find_key ct_pk id pk (bk_contacts book) Hall Hpk Hnd). Qed.

Lemma koe_contact_find_map book pk :
  book_ok book → length pk = 32%nat → koe_contact_find book pk = book_map book !! pk.
Proof.
  intros Hok Hpk. pose proof (book_find book pk Hok Hpk) as Hf. unfold koe_contact_find.
  destruct (list_find _ _) as [[i c]|]; simpl; symmetry; apply Hf.
Qed.

Lemma set_contact_keeps f book pk :
  (∀ c, ct_pk (f c) = ct_pk c) → book_ok book → length pk = 32%nat →
  let r := set_contact f book pk in
  r.1 = code_of (book_map book !! pk) ∧ keeps r.2 (alter f pk (book_map book)).
Proof.
  intros Hk Hok Hpk. pose proof (book_find book pk Hok Hpk) as Hf. unfold set_contact.
  destruct (list_find _ _) as [[i c]|].
  - destruct Hf as (Hi & _ & Hc & Hm). rewrite Hm. split; [done|]. destruct Hok as (H1 & H2 & H3).
    destruct (keyed_map_insert ct_pk id (bk_contacts book) i c (f c) H3 Hi (Hk c)) as [Em Ek].
    split; [split_and!; simpl|].
    + unfold zlen. by rewrite length_insert.
    + apply Forall_insert; [done|]. rewrite Hk. rewrite Forall_forall in H2. apply H2.
      by eapply list_elem_of_lookup_2.
    + by rewrite Ek.
    + unfold book_map in *. simpl. rewrite Em. rewrite Hc. apply map_eq. intros q.
      destruct (decide (q = pk)) as [->|Hq].
      * by rewrite lookup_alter_eq, lookup_insert_eq, Hm.
      * by rewrite lookup_alter_ne, lookup_insert_ne by done.
  - destruct Hf as [_ Hm]. rewrite Hm. split; [done|]. split; [done|]. simpl. symmetry.
    apply map_eq. intros q. destruct (decide (q = pk)) as [->|Hq]; [by rewrite lookup_alter_eq, Hm|].
    by rewrite lookup_alter_ne.
Qed.

#[export] Instance book_simulation : Simulation book_run map_run keeps.
Proof.
  intros op book m ret m' w w' [Hok ->] Hop. unfold map_run in Hop. case_decide as Hpk; [done|].
  assert (Hl : length (op_key op) = 32%nat) by lia. clear Hpk.
  destruct op as [pk name|pk|pk|pk v|pk b]; cbn [op_key book_run] in *.
  - unfold koe_contact_add. rewrite koe_contact_find_map by done.
    destruct (book_map book !! pk) as [c|] eqn:Hm.
    { injection Hop as <- <- <-. by exists book. }
    mrun. destruct (w_heap w (w_allocs w)).
    2:{ injection Hop as <- <- <-. by exists book. }
    injection Hop as <- <- <-. eexists. split; [done|]. destruct Hok as (H1 & H2 & H3).
    split; [split_and!; simpl|].
    + rewrite H1. unfold zlen. simpl. lia.
    + by constructor.
    + constructor; [|done]. by apply (keyed_map_None ct_pk id).
    + done.
  - pose proof (book_find book pk Hok Hl) as Hf. unfold koe_contact_remove.
    destruct (list_find _ _) as [[i c]|].
    + destruct Hf as (Hi & Hlt & Hc & Hm). rewrite Hm in Hop. injection Hop as <- <- <-.
      eexists. split; [done|]. destruct Hok as (H1 & H2 & H3).
      destruct (keyed_map_delete ct_pk id (bk_contacts book) i c H3 Hi) as [Em Hnd].
      split; [split_and!; simpl|].
      * rewrite H1. unfold zlen. rewrite length_app, length_take, length_drop. lia.
      * apply Forall_app. split; [by apply Forall_take|by apply Forall_drop].
      * done.
      * unfold book_map in *. simpl. by rewrite Em, Hc.
    + destruct Hf as [_ Hm]. rewrite Hm, delete_id in Hop by done. injection Hop as <- <- <-. by exists book.
  - rewrite koe_contact_find_map by done. injection Hop as <- <- <-. by exists book.
  - destruct (set_contact_keeps (put_verified v) book pk) as [Hr Hk]; [done..|].
    injection Hop as <- <- <-. eexists. split; [|exact Hk]. by rewrite <-Hr.
  - destruct (set_contact_keeps (put_blocked b) book pk) as [Hr Hk]; [done..|].
    injection Hop as <- <- <-. eexists. split; [|exact Hk]. by rewrite <-Hr.
Qed.

(** C23: the contact book behaves as a finite map from keys to contacts: any
    sequence of additions, removals, lookups and flag changes returns, on a book
    that represents a map, exactly what the map returns (an existing contact is
    never added twice, an unknown one is refused), and leaves a book that
    represents the resulting map and counts its contacts. *)
Theorem koe_contact_book_refines (ops : list book_op) (book : koe_contact_book_t)
    (m m' : gmap bytes koe_contact_t) (rets : list book_ret) (w w' : world) :
  keeps book m →
  w ⊢ run_ops map_run ops m ⇓ (rets, m') ⊣ w' →
  ∃ book', w ⊢ run_ops book_run ops book ⇓ (rets, book') ⊣ w' ∧ keeps book' m'.
Proof.
  apply run_ops_simulates, _.
Qed.

Lemma koe_contact_book_init_keeps : keeps koe_contact_book_init ∅.
Proof. split; [|done]. split_and!; [done|constructor|constructor]. Qed.

Lemma koe_contact_book_refines_witness :
  let ops := [BookAdd (zeros 32) [65]; BookAdd (zeros 32) [66]; BookVerify (zeros 32) 1; BookRemove (zeros 32);
              BookBlock (zeros 32) 1] in
  ∃ book' m' w',
    world_at 9 ⊢ run_ops book_run ops koe_contact_book_init
      ⇓ ([BookCode 0; BookCode (-1); BookCode 0; BookCode 0; BookCode (-1)], book') ⊣ w'
    ∧ keeps book' m'.
Proof.
  intros ops. subst ops.
  edestruct (koe_contact_book_refines
    [BookAdd (zeros 32) [65]; BookAdd (zeros 32) [66]; BookVerify (zeros 32) 1; BookRemove (zeros 32);
     BookBlock (zeros 32) 1] koe_contact_book_init ∅) with (w := world_at 9) as (book' & H1 & H2).
  - exact koe_contact_book_init_keeps.
  - vm_compute. reflexivity.
  - eexists book', _, _. split; [exact H1|exact H2].
Defined.

(** * Contacts that are saved and never come back *)

(** Nothing is ever loaded, whatever the database holds. *)
Lemma koe_contact_book_load_nothing book conn w :
  w ⊢ koe_contact_book_load book conn ⇓ (0, book) ⊣ w.
Proof. done. Qed.

(** The key of a row the database holds. *)
Definition stored (pk : bytes) (conn : koe_db_conn_t) : Prop :=
  ∃ d, conn = Some d ∧ pk ∈ cr_pk <$> d_contacts d.

Lemma upsert_stores d c w :
  io_ok w → 0 ∈ dc_display_name c → 0 ∈ dc_short_id c →
  ∃ d' w', same_env w w' ∧ w ⊢ koe_db_contact_upsert (Some d) c ⇓ (0, Some d') ⊣ w'
    ∧ stored (dc_pk c) (Some d') ∧ ∀ pk, stored pk (Some d) → stored pk (Some d').
Proof.
  intros Hio Hn Hs. unfold koe_db_contact_upsert, prepare, step. rewrite bind_syscall_ok by done. cbn [negb].
  rewrite (bind_lift _ _ _ (cstr (dc_display_name c))) by (unfold read_cstr; by rewrite decide_True).
  rewrite (bind_lift _ _ _ (cstr (dc_short_id c))) by (unfold read_cstr; by rewrite decide_True).
  rewrite bind_syscall_ok by done. eexists _, (iotick (iotick w)).
  split; [done|]. split; [reflexivity|].
  split; [eexists; split; [reflexivity|]; simpl; rewrite fmap_app; set_solver|].
  intros pk (d0 & [= <-] & Hpk). eexists. split; [reflexivity|]. simpl. rewrite fmap_app, elem_of_app.
  destruct (decide (pk = dc_pk c)) as [->|Hne]; [right; simpl; set_solver|]. left.
  apply list_elem_of_fmap in Hpk as (r & -> & Hr). apply list_elem_of_fmap. exists r. split; [done|].
  by apply list_elem_of_filter.
Qed.

Lemma strncpy_terminated s n m : (n < m)%nat → 0 ∈ strncpy (zeros m) s n.
Proof.
  intros Hnm. rewrite strncpy_zeros by lia. apply elem_of_app. right. apply elem_of_replicate. lia.
Qed.

(** Every contact of a saved book is in the database, and yet a fresh book
    loaded from it is empty. *)
Lemma contacts_lost_on_restart book d w :
  io_ok w →
  ∃ d' w', w ⊢ koe_contact_book_save book (Some d) ⇓ (0, Some d') ⊣ w'
    ∧ (∀ c, c ∈ bk_contacts book → stored (ct_pk c) (Some d'))
    ∧ ∀ w2, w2 ⊢ koe_contact_book_load koe_contact_book_init (Some d') ⇓ (0, koe_contact_book_init) ⊣ w2.
Proof.
  intros Hio.
  assert (Hloop : ∀ cs d w, io_ok w → ∃ d' w', w ⊢ save_loop cs (Some d) ⇓ Some d' ⊣ w'
    ∧ (∀ c, c ∈ cs → stored (ct_pk c) (Some d')) ∧ ∀ pk, stored pk (Some d) → stored pk (Some d')).
  { intros cs. induction cs as [|c cs IH]; intros d0 w0 Hio0.
    { exists d0, w0. split; [done|]. split; [set_solver|done]. }
    destruct (upsert_stores d0 (row_of_contact c) w0) as (d1 & w1 & E1 & R1 & S1 & K1);
      [done|apply strncpy_terminated; lia..|].
    destruct (IH d1 w1) as (d2 & w2 & R2 & S2 & K2); [by eapply io_ok_env|].
    exists d2, w2. split; [cbn [save_loop]; by erewrite bind_run by exact R1|]. split; [|auto].
    intros c' [->|Hc]%elem_of_cons; [by apply K2|by apply S2]. }
  destruct (Hloop (bk_contacts book) d w Hio) as (d' & w' & R & S & _).
  exists d', w'. split; [|done]. unfold koe_contact_book_save. by erewrite bind_run by exact R.
Qed.
