(* ===== verification/Ghost.v ===== *)
(** Ghost mode, secret chats and travel mode (src/koe_ghost.c,
    include/koe_ghost.h). *)

From S2P Require Import Prelude Version Crc32 Packet Crypto.
Import Strings.String.StringSyntax.

(** * Ghost mode *)
Record koe_ghost_state_t := KoeGhost {
  gh_active : bool; gh_suppress_read_receipts : bool; gh_suppress_typing : bool;
}.

Definition is_direct_msg (type : Z) : bool :=
  (type =? type_code KOE_TYPE_MSG) || (type =? type_code KOE_TYPE_AUDIO)
  || (type =? type_code KOE_TYPE_HELLO) || (type =? type_code KOE_TYPE_HELLO_ACK).

Definition koe_ghost_enable (g : koe_ghost_state_t) : koe_ghost_state_t := KoeGhost true true true.
Definition koe_ghost_disable (g : koe_ghost_state_t) : koe_ghost_state_t := KoeGhost false false false.

Definition koe_ghost_should_respond (g : koe_ghost_state_t) (packet_type : Z) : bool :=
  if negb (gh_active g) then true else is_direct_msg packet_type.

(** * Secret chats

    The static flag is threaded as a [bool]. *)
Definition secret_path (data_dir : bytes) : bytes := snprintf_trunc 512 (data_dir ++ str "/secret.koe").

(** The PIN is not used. *)
Definition koe_secret_chat_unlock (pin data_dir : bytes) (s_secret_unlocked : bool) : M (Z * bool) :=
  f ← fopen_rb (secret_path data_dir);
  match f with
  | None =>
      opened ← syscall;
      _ ← (if (opened : bool) then
             salt ← randombytes_buf 32;
             f ← fwrite_chunk [] (str "KOESEC" ++ [1]);
             f ← fwrite_chunk f salt;
             fwrite_file (secret_path data_dir) f
           else mret ());
      mret (0, true)
  | Some _ => mret (0, true)
  end.

Definition koe_secret_chat_lock (s_secret_unlocked : bool) : bool := false.
Definition koe_secret_chat_is_unlocked (s_secret_unlocked : bool) : bool := s_secret_unlocked.

(** The overwriting loop: blocks of at most 512 zeros until the size is
    covered; a failed write leaves its block. *)
Fixpoint zero_loop (fuel : nat) (done_ rest : bytes) : M bytes :=
  match fuel with
  | O => mret (done_ ++ rest)
  | S fuel' =>
      match rest with
      | [] => mret done_
      | _ =>
          ok ← syscall;
          let block := take 512 rest in
          zero_loop fuel' (done_ ++ (if (ok : bool) then zeros (length block) else block)) (drop 512 rest)
      end
  end.

Definition koe_secret_chat_wipe (data_dir : bytes) (s_secret_unlocked : bool) : M (Z * bool) :=
  let path := secret_path data_dir in
  f ← fopen_rb path;
  match f with
  | Some content =>
      content ← zero_loop (length content) [] content;
      _ ← fwrite_file path content;
      removed ← syscall;
      _ ← (if (removed : bool) then fremove path else mret ());
      mret (0, false)
  | None => mret (0, false)
  end.

(** * Travel mode *)
Definition travel_path (data_dir : bytes) : bytes := snprintf_trunc 512 (data_dir ++ str "/travel.koe").
Definition TRAVEL_MAGIC : bytes := str "KOETRV" ++ [1].

Section Travel.
Context `{Sodium}.

(** [crypto_generichash(h, 32, pin, strlen(pin), NULL, 0)]. *)
Definition pin_hash (pin : bytes) : bytes := generichash 32 pin 32.

Definition koe_travel_mode_enable (recovery_pin data_dir : bytes) : M Z :=
  opened ← syscall;
  if negb opened then mret (-1)
  else
    f ← fwrite_chunk [] TRAVEL_MAGIC;
    f ← fwrite_chunk f (pin_hash recovery_pin);
    _ ← fwrite_file (travel_path data_dir) f;
    mret 0.

(** [fread] into an uninitialised array whose result is not checked: what the
    file does not provide is whatever was in memory. *)
Definition fread_unchecked (f : bytes) (off n : nat) : M bytes :=
  junk ← randombytes_buf n;
  let got := take n (drop off f) in
  mret (got ++ drop (length got) junk).

(** The magic is read and not looked at. *)
Definition koe_travel_mode_disable (recovery_pin data_dir : bytes) : M Z :=
  f ← fopen_rb (travel_path data_dir);
  match f with
  | None => mret (-1)
  | Some f =>
      _ ← fread_unchecked f 0 7;
      stored_hash ← fread_unchecked f 7 32;
      if negb (bool_decide (stored_hash = pin_hash recovery_pin)) then mret (-1)
      else
        removed ← syscall;
        _ ← (if (removed : bool) then fremove (travel_path data_dir) else mret ());
        mret 0
  end.

Definition koe_travel_mode_active (data_dir : bytes) : M Z :=
  f ← fopen_rb (travel_path data_dir);
  mret (match f with Some _ => 1 | None => 0 end).

End Travel.

(** * Correctness *)

(** While ghost mode is on only messages, audio and handshakes are answered. *)
Lemma koe_ghost_should_respond_spec g t :
  koe_ghost_should_respond (koe_ghost_enable g) (type_code t) = true
  ↔ t = KOE_TYPE_MSG ∨ t = KOE_TYPE_AUDIO ∨ t = KOE_TYPE_HELLO ∨ t = KOE_TYPE_HELLO_ACK.
Proof. destruct t; (split; [intros; simplify_eq/=; tauto|intros Ht; by repeat destruct Ht as [Ht|Ht]]). Qed.

(** Any PIN unlocks the secret chats, the first time and every time after. *)
Lemma koe_secret_chat_unlock_any_pin pin data_dir s w :
  ∃ w', w ⊢ koe_secret_chat_unlock pin data_dir s ⇓ (0, true) ⊣ w'.
Proof.
  unfold koe_secret_chat_unlock. unfold mbind at 1, M_bind at 1, fopen_rb. cbn [w_io iotick].
  destruct (if w_io w (w_ios w) then _ else None) as [f|]; [by eexists|].
  unfold mbind at 1, M_bind at 1, syscall. cbn [w_io iotick]. destruct (w_io w _); [|by eexists].
  destruct (fwrite_chunk_any [] (str "KOESEC" ++ [1]) (draw (iotick (iotick w)))) as (l1 & w1 & R1 & _).
  destruct (fwrite_chunk_any ([] ++ l1) (random_bytes (iotick (iotick w)) 32) w1) as (l2 & w2 & R2 & _).
  erewrite bind_run; [by eexists|]. erewrite bind_run by reflexivity.
  rewrite (bind_run _ _ _ _ _ R1), (bind_run _ _ _ _ _ R2). reflexivity.
Qed.

(** A file that is there but cannot be opened for reading at the moment is taken
    for a first unlock, and its contents are replaced. *)
Lemma koe_secret_chat_unlock_overwrites pin data_dir s w :
  w_io w (w_ios w) = false → (∀ i, (w_ios w < i)%nat → w_io w i = true) →
  ∃ w', w ⊢ koe_secret_chat_unlock pin data_dir s ⇓ (0, true) ⊣ w'
    ∧ w_fs w' !! secret_path data_dir = Some (str "KOESEC" ++ [1] ++ random_bytes w 32).
Proof.
  intros Hfail Hok. unfold koe_secret_chat_unlock. unfold mbind at 1, M_bind at 1, fopen_rb. rewrite Hfail.
  unfold mbind at 1, M_bind at 1, syscall. cbn [w_io w_ios iotick]. rewrite Hok by lia.
  unfold fwrite_chunk. mrun. rewrite Hok by (clear; lia). cbn. rewrite Hok by (clear; lia).
  eexists. split; [reflexivity|]. cbn [w_fs set_fs]. by rewrite lookup_insert_eq.
Qed.

(** The loop covers the whole file within as many blocks as it has bytes. *)
Lemma zero_loop_run fuel a rest w :
  io_ok w → (length rest ≤ fuel)%nat → ∃ w', same_env w w' ∧ w_fs w' = w_fs w
    ∧ w ⊢ zero_loop fuel a rest ⇓ (a ++ zeros (length rest)) ⊣ w'.
Proof.
  revert a rest w. induction fuel as [|fuel IH]; intros a rest w Hio Hl.
  { destruct rest; [|simpl in Hl; lia]. by exists w. }
  destruct rest as [|b rest]; [exists w; by rewrite app_nil_r|]. cbn [zero_loop].
  rewrite bind_syscall_ok by done. set (r := b :: rest) in *.
  destruct (IH (a ++ zeros (length (take 512 r))) (drop 512 r) (iotick w)) as (w' & E & F & R);
    [done|rewrite length_drop; simpl in *; lia|].
  exists w'. split; [done|]. split; [done|]. rewrite R. do 2 f_equal. rewrite <-app_assoc. f_equal.
  unfold zeros. rewrite <-replicate_add. f_equal. rewrite length_take, length_drop. lia.
Qed.

(** A wipe during which nothing fails zeroes the file before removing it and
    locks the secret chats. *)
Lemma koe_secret_chat_wipe_run data_dir s content w :
  io_ok w → w_fs w !! secret_path data_dir = Some content →
  ∃ w', w ⊢ koe_secret_chat_wipe data_dir s ⇓ (0, false) ⊣ w' ∧ w_fs w' !! secret_path data_dir = None.
Proof.
  intros Hio Hf. unfold koe_secret_chat_wipe. rewrite bind_fopen_ok, Hf by done.
  destruct (zero_loop_run (length content) [] content (iotick w)) as (w' & E & F & R); [done|lia|].
  erewrite bind_run by exact R. erewrite bind_run by done.
  rewrite bind_syscall_ok by (apply (io_ok_env (iotick w)); done).
  eexists. split; [done|]. simpl. apply lookup_delete_eq.
Qed.

Section Correctness.
Context `{SodiumLaws}.

(** The second field of the travel file is the hash. *)
Lemma travel_file_read pin w :
  w ⊢ fread_unchecked (TRAVEL_MAGIC ++ pin_hash pin) 7 32 ⇓ pin_hash pin ⊣ draw w.
Proof.
  pose proof (generichash_ok 32 pin 32 ltac:(lia)) as [Hl _]. fold (pin_hash pin) in Hl.
  unfold fread_unchecked. rewrite bind_random.
  rewrite drop_app_ge by done. simpl Nat.sub. rewrite drop_0, take_ge by lia.
  rewrite drop_ge; [by rewrite app_nil_r|]. rewrite length_random_bytes. lia.
Qed.

(** Travel mode is on once enabled, stays on for a PIN with another hash, and
    is off after the PIN it was enabled with. *)
Lemma koe_travel_mode_guard pin wrong data_dir w :
  io_ok w → pin_hash wrong ≠ pin_hash pin →
  ∃ w1, w ⊢ koe_travel_mode_enable pin data_dir ⇓ 0 ⊣ w1
    ∧ w1 ⊢ koe_travel_mode_active data_dir ⇓ 1 ⊣ iotick w1
    ∧ (∃ w2, w1 ⊢ koe_travel_mode_disable wrong data_dir ⇓ (-1) ⊣ w2 ∧ w_fs w2 = w_fs w1)
    ∧ ∃ w2, w1 ⊢ koe_travel_mode_disable pin data_dir ⇓ 0 ⊣ w2
        ∧ w2 ⊢ koe_travel_mode_active data_dir ⇓ 0 ⊣ iotick w2.
Proof.
  intros Hio Hne. set (path := travel_path data_dir).
  set (w1 := set_fs (<[path := TRAVEL_MAGIC ++ pin_hash pin]> (w_fs w)) (iotick (iotick (iotick w)))).
  exists w1. split.
  { unfold koe_travel_mode_enable. rewrite bind_syscall_ok by done. cbn [negb].
    do 2 rewrite bind_fwrite_chunk_ok by done. done. }
  assert (Hf : w_fs w1 !! path = Some (TRAVEL_MAGIC ++ pin_hash pin)) by apply lookup_insert_eq.
  assert (Hopen : ∀ given, koe_travel_mode_disable given data_dir w1
    = (if negb (bool_decide (pin_hash pin = pin_hash given)) then mret (-1)
       else removed ← syscall; _ ← (if (removed : bool) then fremove path else mret ()); mret 0)
        (draw (draw (iotick w1)))).
  { intros given. unfold koe_travel_mode_disable. fold path. rewrite bind_fopen_ok, Hf by done.
    erewrite bind_run by (unfold fread_unchecked; rewrite bind_random; reflexivity).
    by erewrite bind_run by apply travel_file_read. }
  split; [|split].
  - unfold koe_travel_mode_active. fold path. by rewrite bind_fopen_ok, Hf.
  - eexists. rewrite Hopen, bool_decide_false by done. done.
  - eexists. rewrite Hopen, bool_decide_true by done. cbn [negb]. rewrite bind_syscall_ok by done.
    split; [done|]. unfold koe_travel_mode_active. fold path. rewrite bind_fopen_absent; [done|apply lookup_delete_eq].
Qed.

End Correctness.
