(* ===== verification/Account.v ===== *)
(** Accounts (src/koe_account.c, include/koe_account.h): the registry and its
    file, and the identities of the accounts. Files are in a flat table without
    directories: of creating these, whose results are ignored, only the
    undefined case is left. *)

From S2P Require Import Prelude Version Crc32 Packet Crypto Handshake.
Import Strings.String.StringSyntax.

(** * Data *)
Definition KOE_ACCOUNT_MAX : nat := 16.

(** The two strings are the whole arrays (64 and 256 bytes). *)
Record koe_account_descriptor_t := KoeAccountDescriptor {
  ad_id : bytes; ad_display_name : bytes; ad_data_subdir : bytes; ad_created_at : Z;
  ad_last_active_at : Z; ad_active : Z;
}.

(** [ac_passphrase] is the whole array (256 bytes). *)
Record koe_account_t := KoeAccount {
  ac_desc : koe_account_descriptor_t; ac_keys : koe_identity_t; ac_passphrase : bytes;
}.

(** [rg_accounts] is the whole array; [rg_data_root] is 512 bytes. *)
Record koe_account_registry_t := KoeAccountRegistry {
  rg_accounts : list koe_account_descriptor_t; rg_count : nat; rg_data_root : bytes;
}.

Definition zero_descriptor : koe_account_descriptor_t :=
  KoeAccountDescriptor (zeros 32) (zeros 64) (zeros 256) 0 0 0.

Definition descriptor_ok (d : koe_account_descriptor_t) : Prop :=
  array_ok 32 (ad_id d) ∧ array_ok 64 (ad_display_name d) ∧ array_ok 256 (ad_data_subdir d)
  ∧ - 2 ^ 63 ≤ ad_created_at d < 2 ^ 63 ∧ - 2 ^ 63 ≤ ad_last_active_at d < 2 ^ 63
  ∧ - 2 ^ 31 ≤ ad_active d < 2 ^ 31.

Definition registry_ok (reg : koe_account_registry_t) : Prop :=
  length (rg_accounts reg) = KOE_ACCOUNT_MAX ∧ (rg_count reg ≤ KOE_ACCOUNT_MAX)%nat
  ∧ Forall descriptor_ok (rg_accounts reg) ∧ length (rg_data_root reg) = 512%nat.

Definition set_active (a : Z) (d : koe_account_descriptor_t) : koe_account_descriptor_t :=
  KoeAccountDescriptor (ad_id d) (ad_display_name d) (ad_data_subdir d) (ad_created_at d) (ad_last_active_at d) a.

(** A descriptor in memory, little-endian, with four bytes of padding at the
    end. *)
Definition DESCRIPTOR_SIZE : nat := 376.
Definition descriptor_image (d : koe_account_descriptor_t) : bytes :=
  ad_id d ++ ad_display_name d ++ ad_data_subdir d ++ le64 (ad_created_at d) ++ le64 (ad_last_active_at d)
  ++ le_bytes 4 (u32 (ad_active d)) ++ zeros 4.

Definition read_descriptor (b : bytes) : option koe_account_descriptor_t :=
  id ← peek b 0 32;
  name ← peek b 32 64;
  subdir ← peek b 96 256;
  created ← peek b 352 8;
  last ← peek b 360 8;
  active ← peek b 368 4;
  Some (KoeAccountDescriptor id name subdir (i64 (le_val created)) (i64 (le_val last)) (i32 (le_val active))).

(** * Paths *)
Definition REGISTRY_MAGIC : bytes := str "KOEREG" ++ [1].
Definition registry_path (reg : koe_account_registry_t) : bytes :=
  snprintf_trunc 512 (cstr (rg_data_root reg) ++ str "/accounts.koe").
Definition account_identity_path (reg : koe_account_registry_t) (d : koe_account_descriptor_t) : bytes :=
  snprintf_trunc 512
    (cstr (rg_data_root reg) ++ str "/accounts/" ++ cstr (ad_data_subdir d) ++ str "/identity.koe").

(** The directory of an account. *)
Definition account_dir (reg : koe_account_registry_t) (d : koe_account_descriptor_t) : bytes :=
  snprintf_trunc 512 (cstr (rg_data_root reg) ++ str "/accounts/" ++ cstr (ad_data_subdir d)).

(** A path that fills the local copy but for its last byte, which is not
    initialised, is read past what was written. *)
Definition account_mkdir_p (path : bytes) : M unit :=
  if (511 <=? length path)%nat then ub else mret ().

(** * The registry file *)

(** A descriptor of which the file has only the first bytes, over a cleared
    slot. *)
Definition read_partial (f : bytes) : koe_account_descriptor_t :=
  default zero_descriptor (read_descriptor (f ++ zeros (DESCRIPTOR_SIZE - length f))).

(** [fread] of the descriptors one after the other: those read, the last one
    possibly in part, and whether there were as many as wanted. *)
Fixpoint read_descriptors (n : nat) (f : bytes) : list koe_account_descriptor_t * bool :=
  match n with
  | O => ([], true)
  | S n' =>
      match peek f 0 DESCRIPTOR_SIZE ≫= read_descriptor with
      | None => ([read_partial f], false)
      | Some d =>
          let r := read_descriptors n' (drop DESCRIPTOR_SIZE f) in
          (set_active 0 d :: r.1, r.2)
      end
  end.

(** The code and the registry. On failure the descriptors already read stay in
    the array and the count is zero. *)
Definition koe_account_registry_load (data_root passphrase : bytes) : M (Z * koe_account_registry_t) :=
  let reg := KoeAccountRegistry (replicate KOE_ACCOUNT_MAX zero_descriptor) 0
               (strncpy (zeros 512) data_root 511) in
  f ← fopen_rb (registry_path reg);
  match f with
  | None => mret (0, reg)
  | Some f =>
      match peek f 0 7 with
      | None => mret (-1, reg)
      | Some magic =>
          if negb (memeq 7 magic REGISTRY_MAGIC) then mret (-1, reg)
          else
            match peek f 7 4 with
            | None => mret (-1, reg)
            | Some c =>
                let count := i32 (le_val c) in
                if (count <? 0) || (Z.of_nat KOE_ACCOUNT_MAX <? count) then mret (-1, reg)
                else
                  let '(ds, ok) := read_descriptors (Z.to_nat count) (drop 11 f) in
                  let accounts := ds ++ drop (length ds) (rg_accounts reg) in
                  if (ok : bool) then mret (0, KoeAccountRegistry accounts (Z.to_nat count) (rg_data_root reg))
                  else mret (-1, KoeAccountRegistry accounts 0 (rg_data_root reg))
            end
      end
  end.

Fixpoint write_descriptors (ds : list koe_account_descriptor_t) (f : bytes) : M bytes :=
  match ds with
  | [] => mret f
  | d :: ds' => f ← fwrite_chunk f (descriptor_image d); write_descriptors ds' f
  end.

(** The results of the writes are ignored. *)
Definition koe_account_registry_save (reg : koe_account_registry_t) (passphrase : bytes) : M Z :=
  _ ← account_mkdir_p (cstr (rg_data_root reg));
  opened ← syscall;
  if negb opened then mret (-1)
  else
    f ← fwrite_chunk [] REGISTRY_MAGIC;
    f ← fwrite_chunk f (le_bytes 4 (Z.of_nat (rg_count reg)));
    f ← write_descriptors (take (rg_count reg) (rg_accounts reg)) f;
    _ ← fwrite_file (registry_path reg) f;
    mret 0.

(** * Operations *)
Section Operations.
Context `{Sodium}.

Definition set_account (i : nat) (d : koe_account_descriptor_t) (n : nat) (reg : koe_account_registry_t)
  : koe_account_registry_t :=
  KoeAccountRegistry (<[i := d]> (rg_accounts reg)) n (rg_data_root reg).

(** The descriptor is written to its slot before anything can fail. *)
Definition koe_account_create (out : koe_account_t) (reg : koe_account_registry_t)
    (display_name passphrase : bytes) : M (Z * koe_account_t * koe_account_registry_t) :=
  if decide (KOE_ACCOUNT_MAX ≤ rg_count reg)%nat then mret (-1, out, reg)
  else
    g ← koe_identity_generate (ac_keys out);
    if negb (g.1 =? 0) then mret (-1, KoeAccount (ac_desc out) g.2 (ac_passphrase out), reg)
    else
      created ← time_null;
      last ← time_null;
      let desc := KoeAccountDescriptor (id_pk g.2) (strncpy (zeros 64) display_name 63)
                    (strncpy (zeros 256) (cstr (koe_identity_short_id (id_pk g.2))) 255) created last 1 in
      let reg := set_account (rg_count reg) desc (rg_count reg) reg in
      let out := KoeAccount desc g.2 (strncpy (ac_passphrase out) passphrase 255) in
      _ ← account_mkdir_p (account_dir reg desc);
      rc ← koe_identity_save (ac_keys out) (account_identity_path reg desc) passphrase;
      if negb (rc =? 0) then mret (-1, out, reg)
      else
        let reg := set_account (rg_count reg) desc (S (rg_count reg)) reg in
        _ ← koe_account_registry_save reg passphrase;
        mret (0, out, reg).

(** [idx] in range, and the descriptor there. *)
Definition account_at (reg : koe_account_registry_t) (idx : Z) : option koe_account_descriptor_t :=
  if (idx <? 0) || (Z.of_nat (rg_count reg) <=? idx) then None else rg_accounts reg !! Z.to_nat idx.

Definition koe_account_activate (out : koe_account_t) (reg : koe_account_registry_t) (idx : Z)
    (passphrase : bytes) : M (Z * koe_account_t) :=
  match account_at reg idx with
  | None => mret (-1, out)
  | Some desc =>
      l ← koe_identity_load (ac_keys out) (account_identity_path reg desc) passphrase;
      if negb (l.1 =? 0) then mret (-1, KoeAccount (ac_desc out) l.2 (ac_passphrase out))
      else mret (0, KoeAccount (set_active 1 desc) l.2 (strncpy (ac_passphrase out) passphrase 255))
  end.

Definition koe_account_deactivate (account : koe_account_t) : koe_account_t :=
  KoeAccount (set_active 0 (ac_desc account)) (KoeIdentity (zeros 32) (zeros 64)) (zeros 256).

(** The entries after the deleted one move down; the last stays behind, out of
    use. *)
Definition koe_account_delete (reg : koe_account_registry_t) (idx : Z) : M (Z * koe_account_registry_t) :=
  match account_at reg idx with
  | None => mret (-1, reg)
  | Some d =>
      if negb (ad_active d =? 0) then mret (-1, reg)
      else
        let i := Z.to_nat idx in
        let n := (rg_count reg - 1)%nat in
        let accounts := take i (rg_accounts reg) ++ take (n - i) (drop (S i) (rg_accounts reg))
                        ++ drop n (rg_accounts reg) in
        let reg := KoeAccountRegistry accounts n (rg_data_root reg) in
        rc ← koe_account_registry_save reg [];
        mret (rc, reg)
  end.

Definition set_display_name (name : bytes) (d : koe_account_descriptor_t) : koe_account_descriptor_t :=
  KoeAccountDescriptor (ad_id d) (strncpy (ad_display_name d) name 63) (ad_data_subdir d)
    (ad_created_at d) (ad_last_active_at d) (ad_active d).

Definition koe_account_rename (reg : koe_account_registry_t) (idx : Z) (new_name : bytes)
  : M (Z * koe_account_registry_t) :=
  match account_at reg idx with
  | None => mret (-1, reg)
  | Some d =>
      let reg := set_account (Z.to_nat idx) (set_display_name new_name d) (rg_count reg) reg in
      rc ← koe_account_registry_save reg [];
      mret (rc, reg)
  end.

(** The path lacks the data root. [check] is uninitialised. *)
Definition koe_account_change_passphrase (account : koe_account_t) (check : koe_identity_t)
    (old_passphrase new_passphrase : bytes) : M (Z * koe_account_t) :=
  if ad_active (ac_desc account) =? 0 then mret (-1, account)
  else
    let id_path := snprintf_trunc 512 (cstr (ad_data_subdir (ac_desc account)) ++ str "/identity.koe") in
    l ← koe_identity_load check id_path old_passphrase;
    if negb (l.1 =? 0) then mret (-1, account)
    else
      rc ← koe_identity_save (ac_keys account) id_path new_passphrase;
      if negb (rc =? 0) then mret (-1, account)
      else mret (0, KoeAccount (ac_desc account) (ac_keys account)
                      (strncpy (ac_passphrase account) new_passphrase 255)).

End Operations.

(** * The registry file, written and read back *)
Lemma descriptor_image_length d : descriptor_ok d → length (descriptor_image d) = DESCRIPTOR_SIZE.
Proof.
  intros ([] & [] & [] & _). unfold descriptor_image, DESCRIPTOR_SIZE.
  rewrite !length_app, !length_le64, length_le_bytes. simpl. lia.
Qed.

Lemma read_descriptor_image d : descriptor_ok d → read_descriptor (descriptor_image d) = Some d.
Proof.
  intros ([H1 _] & [H2 _] & [H3 _] & H4 & H5 & H6). unfold read_descriptor, descriptor_image.
  pose proof (length_le64 (ad_created_at d)) as L1. pose proof (length_le64 (ad_last_active_at d)) as L2.
  pose proof (length_le_bytes 4 (u32 (ad_active d))) as L3. find_fields.
  rewrite !i64_le64 by done. rewrite le_val_le_bytes by (unfold u32; simpl; lia).
  assert (i32 (u32 (ad_active d)) = ad_active d) as -> by (unfold i32, u32; lia). by destruct d.
Qed.

Lemma read_descriptors_images ds rest :
  Forall descriptor_ok ds →
  read_descriptors (length ds) (concat (descriptor_image <$> ds) ++ rest) = (set_active 0 <$> ds, true).
Proof.
  induction 1 as [|d ds Hd _ IH]; [done|]. pose proof (descriptor_image_length d Hd) as Hl.
  rewrite fmap_cons. cbn [concat length read_descriptors]. rewrite <-app_assoc, peek_here by done.
  cbn [mbind option_bind]. rewrite read_descriptor_image by done.
  rewrite drop_app_ge, Hl, Nat.sub_diag, drop_0 by lia. by rewrite IH.
Qed.

Lemma write_descriptors_run ds f w :
  io_ok w → ∃ w', same_env w w' ∧ w_fs w' = w_fs w
    ∧ w ⊢ write_descriptors ds f ⇓ (f ++ concat (descriptor_image <$> ds)) ⊣ w'.
Proof.
  revert f w. induction ds as [|d ds IH]; intros f w Hio; [exists w; by rewrite app_nil_r|].
  destruct (IH (f ++ descriptor_image d) (iotick w)) as (w' & E & F & R); [done|].
  exists w'. split; [done|]. split; [done|]. cbn [write_descriptors].
  rewrite bind_fwrite_chunk_ok, R, fmap_cons by done. cbn [concat]. by rewrite app_assoc.
Qed.

(** The file [koe_account_registry_save] leaves when nothing fails. *)
Definition registry_image (reg : koe_account_registry_t) : bytes :=
  REGISTRY_MAGIC ++ le_bytes 4 (Z.of_nat (rg_count reg))
  ++ concat (descriptor_image <$> take (rg_count reg) (rg_accounts reg)).

Lemma account_mkdir_p_run path w : (length path < 511)%nat → w ⊢ account_mkdir_p path ⇓ () ⊣ w.
Proof. intros Hl. unfold account_mkdir_p. by rewrite (proj2 (Nat.leb_gt _ _)). Qed.

Lemma koe_account_registry_save_run reg passphrase w :
  (length (cstr (rg_data_root reg)) < 511)%nat → io_ok w →
  runs w (koe_account_registry_save reg passphrase)
    (λ rc w', rc = 0 ∧ w_fs w' = <[registry_path reg := registry_image reg]> (w_fs w)).
Proof.
  intros Hroot Hio. set (w1 := iotick (iotick (iotick w))).
  destruct (write_descriptors_run (take (rg_count reg) (rg_accounts reg))
              (REGISTRY_MAGIC ++ le_bytes 4 (Z.of_nat (rg_count reg))) w1) as (w2 & E & F & R); [done|].
  eexists _, _. split; [|split; [|split; [reflexivity|]]].
  - unfold koe_account_registry_save. erewrite bind_run by by apply account_mkdir_p_run.
    rewrite bind_syscall_ok by done. cbn [negb].
    do 2 rewrite bind_fwrite_chunk_ok by done.
    erewrite bind_run by exact R. done.
  - exact E.
  - cbn [w_fs set_fs]. unfold registry_image. by rewrite F, <-app_assoc.
Qed.

(** Reading it back. *)
Lemma koe_account_registry_load_run reg data_root passphrase w :
  registry_ok reg → rg_data_root reg = strncpy (zeros 512) data_root 511 →
  io_ok w → w_fs w !! registry_path reg = Some (registry_image reg) →
  ∃ reg', w ⊢ koe_account_registry_load data_root passphrase ⇓ (0, reg') ⊣ iotick w
    ∧ rg_count reg' = rg_count reg ∧ rg_data_root reg' = rg_data_root reg
    ∧ take (rg_count reg') (rg_accounts reg') = set_active 0 <$> take (rg_count reg) (rg_accounts reg).
Proof.
  intros (Hl & Hc & Hok & _) Hroot Hio Hfs. unfold KOE_ACCOUNT_MAX, registry_image in *.
  set (ds := take (rg_count reg) (rg_accounts reg)) in *.
  assert (Hds : length ds = rg_count reg) by (unfold ds; rewrite length_take; lia).
  set (n := Z.of_nat (rg_count reg)) in *.
  assert (Hn : i32 (le_val (le_bytes 4 n)) = n).
  { rewrite le_val_le_bytes by (simpl; lia). apply i32_id. lia. }
  set (reg0 := KoeAccountRegistry (replicate KOE_ACCOUNT_MAX zero_descriptor) 0 (strncpy (zeros 512) data_root 511)).
  assert (Hpath : registry_path reg0 = registry_path reg) by (unfold registry_path; simpl; by rewrite Hroot).
  assert (Hrd : read_descriptors (rg_count reg) (concat (descriptor_image <$> ds)) = (set_active 0 <$> ds, true)).
  { rewrite <-Hds, <-(app_nil_r (concat _)). apply read_descriptors_images. unfold ds. by apply Forall_take. }
  eexists. split.
  { unfold koe_account_registry_load. fold reg0. rewrite bind_fopen_ok, Hpath, Hfs by done.
    rewrite (peek_here REGISTRY_MAGIC) by done. rewrite memeq_refl. cbn [negb].
    rewrite (peek_skip REGISTRY_MAGIC), (peek_here (le_bytes 4 n)) by (done || simpl; lia || apply length_le_bytes).
    rewrite Hn,  (proj2 (Z.ltb_ge n 0)), (proj2 (Z.ltb_ge (Z.of_nat KOE_ACCOUNT_MAX) n)) by (unfold KOE_ACCOUNT_MAX, n; lia).
    cbn [orb].
    rewrite (drop_app_ge REGISTRY_MAGIC), (drop_app_ge (le_bytes 4 n)) by (rewrite ?length_le_bytes; simpl; lia).
    replace (11 - length REGISTRY_MAGIC - length (le_bytes 4 n))%nat with 0%nat by (rewrite length_le_bytes; simpl; lia).
    rewrite drop_0. unfold n. rewrite Nat2Z.id, Hrd. reflexivity. }
  simpl. split; [done|]. split; [done|]. rewrite take_app_le by (rewrite length_fmap; lia).
  apply take_ge. rewrite length_fmap. lia.
Qed.

(** C24: while no system call fails, a registry that is saved under any
    passphrase and loaded again from the same data root under any other has the
    same accounts in the same order, every field unchanged except that none of
    them is marked active: the passphrases are ignored and the file is not
    encrypted. *)
Theorem koe_account_registry_save_load (reg : koe_account_registry_t) (data_root passphrase passphrase' : bytes) (w : world) :
  registry_ok reg → rg_data_root reg = strncpy (zeros 512) data_root 511 →
  (length (cstr (rg_data_root reg)) < 511)%nat → io_ok w →
  ∃ w1, w ⊢ koe_account_registry_save reg passphrase ⇓ 0 ⊣ w1
    ∧ ∀ w2, io_ok w2 → w_fs w2 !! registry_path reg = w_fs w1 !! registry_path reg →
        ∃ reg', w2 ⊢ koe_account_registry_load data_root passphrase' ⇓ (0, reg') ⊣ iotick w2
          ∧ rg_count reg' = rg_count reg ∧ rg_data_root reg' = rg_data_root reg
          ∧ take (rg_count reg') (rg_accounts reg')
            = set_active 0 <$> take (rg_count reg) (rg_accounts reg).
Proof.
  intros Hok Hroot Hlen Hio.
  destruct (koe_account_registry_save_run reg passphrase w Hlen Hio) as (rc & w1 & R & _ & -> & F). exists w1. split; [done|].
  intros w2 Hio2 Hfs. apply koe_account_registry_load_run; [done..|]. by rewrite Hfs, F, lookup_insert_eq.
Qed.

Definition demo_account (b : Z) : koe_account_descriptor_t :=
  KoeAccountDescriptor (replicate 32 b) (str "me" ++ zeros 62) (str "dir" ++ zeros 253) 10 20 1.
Definition demo_registry : koe_account_registry_t :=
  KoeAccountRegistry (demo_account 1 :: demo_account 2 :: replicate 14 zero_descriptor) 2
    (strncpy (zeros 512) (str "/data") 511).

Lemma koe_account_registry_save_load_witness :
  ∃ w1 w2 reg', world_at 0 ⊢ koe_account_registry_save demo_registry (str "one") ⇓ 0 ⊣ w1
    ∧ w_fs w2 = w_fs w1 ∧ w2 ⊢ koe_account_registry_load (str "/data") (str "other") ⇓ (0, reg') ⊣ iotick w2
    ∧ take (rg_count reg') (rg_accounts reg') = [set_active 0 (demo_account 1); set_active 0 (demo_account 2)].
Proof.
  destruct (koe_account_registry_save_load demo_registry (str "/data") (str "one") (str "other") (world_at 0)) as (w1 & H1 & H2).
  - split_and!; [reflexivity|simpl; unfold KOE_ACCOUNT_MAX; lia| |reflexivity].
    apply (bool_decide_unpack _). vm_compute. exact I.
  - reflexivity.
  - vm_compute. lia.
  - intros i. reflexivity.
  - destruct (H2 (set_fs (w_fs w1) (world_at 9)) (λ i, eq_refl) eq_refl) as (reg' & H3 & _ & _ & H4).
    exists w1, (set_fs (w_fs w1) (world_at 9)), reg'.
    split; [exact H1|]. split; [reflexivity|]. split; [exact H3|exact H4].
Defined.

(** * A new account, created and activated *)

(** Identities are not stored over the registry. *)
Lemma identity_path_ne reg d :
  (length (cstr (rg_data_root reg)) < 500)%nat → account_identity_path reg d ≠ registry_path reg.
Proof.
  intros Hl E. apply (f_equal (λ p, p !! (length (cstr (rg_data_root reg)) + 9)%nat)) in E.
  unfold account_identity_path, registry_path, snprintf_trunc in E.
  rewrite !lookup_take_lt, (lookup_app_r (cstr _)), (lookup_app_r (cstr _) (str "/accounts.koe")) in E by lia.
  replace (_ + 9 - _)%nat with 9%nat in E by lia. rewrite (lookup_app_l (str "/accounts/")) in E by (vm_compute; lia).
  vm_compute in E. discriminate E.
Qed.

Lemma registry_ok_set reg d n :
  registry_ok reg → descriptor_ok d → (n ≤ KOE_ACCOUNT_MAX)%nat → registry_ok (set_account (rg_count reg) d n reg).
Proof.
  intros (Hl & Hc & Hf & Hr) Hd Hn. split_and!; cbn [set_account rg_accounts rg_count rg_data_root]; try done.
  - by rewrite length_insert.
  - by apply Forall_insert.
Qed.

(** The registry and the identity of [account] are on file. *)
Definition account_stored `{Sodium} (fs : gmap bytes bytes) (reg : koe_account_registry_t)
    (account : koe_account_t) (passphrase : bytes) : Prop :=
  identity_saved fs (account_identity_path reg (ac_desc account)) passphrase (ac_keys account)
  ∧ fs !! registry_path reg = Some (registry_image reg).

(** The clock can be stored in a descriptor. *)
Definition clock_fits (w : world) : Prop := ∀ i, - 2 ^ 63 ≤ w_clock w i < 2 ^ 63.

Lemma new_descriptor_ok pk name created last :
  array_ok 32 pk → bytes_ok name → - 2 ^ 63 ≤ created < 2 ^ 63 → - 2 ^ 63 ≤ last < 2 ^ 63 →
  descriptor_ok (KoeAccountDescriptor pk (strncpy (zeros 64) name 63)
    (strncpy (zeros 256) (cstr (koe_identity_short_id pk)) 255) created last 1).
Proof.
  intros Hpk Hn Hc Hl. unfold descriptor_ok. cbn [ad_id ad_display_name ad_data_subdir ad_created_at ad_last_active_at ad_active].
  split_and!; try done; try lia.
  - split; [rewrite length_strncpy; [done|]|by apply bytes_ok_strncpy]. unfold zeros. rewrite length_replicate. lia.
  - split; [rewrite length_strncpy; [done|]|apply bytes_ok_strncpy, bytes_ok_cstr, koe_identity_short_id_bytes].
    unfold zeros. rewrite length_replicate. lia.
Qed.

Lemma length_data_subdir pk :
  (length (cstr (strncpy (zeros 256) (cstr (koe_identity_short_id pk)) 255)) ≤ 16)%nat.
Proof.
  rewrite cstr_strncpy_zeros by (apply nonul_cstr || lia). rewrite length_take.
  pose proof (length_cstr (koe_identity_short_id pk)) as Hl. unfold koe_identity_short_id in Hl at 2.
  destruct (b58_loop _ _ _) as [pos tmp]. rewrite length_strncpy in Hl by (unfold zeros; rewrite length_replicate; lia).
  unfold zeros in Hl. rewrite length_replicate in Hl. lia.
Qed.

Lemma account_dir_short reg pk name created last :
  (length (cstr (rg_data_root reg)) < 480)%nat →
  (length (account_dir reg (KoeAccountDescriptor pk name
     (strncpy (zeros 256) (cstr (koe_identity_short_id pk)) 255) created last 1)) < 511)%nat.
Proof.
  intros Hl. unfold account_dir, snprintf_trunc. rewrite length_take, !length_app.
  pose proof (length_data_subdir pk). cbn [ad_data_subdir]. change (length (str "/accounts/")) with 10%nat. lia.
Qed.

Lemma koe_account_create_run `{SodiumLaws} out reg name passphrase w :
  registry_ok reg → (rg_count reg < KOE_ACCOUNT_MAX)%nat → (length (cstr (rg_data_root reg)) < 480)%nat →
  bytes_ok name → heap_ok w → io_ok w → clock_fits w →
  runs w (koe_account_create out reg name passphrase) (λ r w',
    let '(rc, account, reg') := r in
    rc = 0 ∧ keypair (ac_keys account) ∧ ad_active (ac_desc account) = 1
    ∧ registry_ok reg' ∧ rg_count reg' = S (rg_count reg) ∧ rg_data_root reg' = rg_data_root reg
    ∧ rg_accounts reg' !! rg_count reg = Some (ac_desc account)
    ∧ account_stored (w_fs w') reg' account passphrase).
Proof.
  intros Hreg Hc Hroot Hname Hheap Hio Hclock. unfold koe_account_create. rewrite decide_False by lia.
  destruct (koe_identity_generate_run (ac_keys out) w) as (id & Hgen & Hid).
  eapply (runs_bind _ _ _ (λ g _, g = (0, id))); [by exists (0, id), (draw w)|].
  intros g w1 E1 ->. cbn [fst snd Z.eqb negb]. apply runs_time, runs_time.
  set (desc := KoeAccountDescriptor _ _ _ _ _ _). set (reg1 := set_account _ desc _ reg).
  assert (Hdesc : descriptor_ok desc).
  { destruct E1 as (Ec & _). apply new_descriptor_ok; [by apply keypair_ok|done|..]; unfold now; cbn; rewrite Ec; apply Hclock. }
  assert (Hne : account_identity_path reg1 desc ≠ registry_path reg1) by (apply identity_path_ne; cbn; lia).
  eapply (runs_bind _ _ _ (λ _ w', w' = tick (tick w1))).
  { eexists _, _. split; [by apply account_mkdir_p_run, account_dir_short|done]. }
  intros _ ? _ ->.
  eapply runs_bind; [apply koe_identity_save_run; [by apply keypair_ok|by eauto with koe..]|].
  intros rc w2 E2 (-> & Hsaved & _). cbn [Z.eqb negb].
  set (reg2 := set_account _ desc _ reg1).
  eapply runs_bind; [apply koe_account_registry_save_run; [cbn; lia|]|].
  { eapply io_ok_env, Hio. etrans; [exact E1|]. etrans; [|exact E2]. done. }
  intros rc w3 _ (_ & Hfs). apply runs_ret. cbn [ac_keys ac_desc].
  assert (Hlook : rg_accounts reg2 !! rg_count reg = Some desc).
  { apply list_lookup_insert_eq. cbn [reg1 set_account rg_accounts rg_count]. rewrite length_insert.
    destruct Hreg as (-> & _). lia. }
  split_and!; try done.
  - apply (registry_ok_set reg1); [apply registry_ok_set; [done..|lia]|done|cbn; lia].
  - rewrite Hfs. unfold account_stored, identity_saved in *. split.
    + destruct Hsaved as (salt & nonce & ct & Hs). exists salt, nonce, ct.
      rewrite lookup_insert_ne; [exact Hs|]. by apply not_eq_sym.
    + by rewrite lookup_insert_eq.
Qed.

Lemma koe_account_activate_run `{SodiumLaws} out reg idx desc id passphrase w :
  account_at reg idx = Some desc → identity_ok id → heap_ok w → io_ok w →
  identity_saved (w_fs w) (account_identity_path reg desc) passphrase id →
  w ⊢ koe_account_activate out reg idx passphrase
    ⇓ (0, KoeAccount (set_active 1 desc) id (strncpy (ac_passphrase out) passphrase 255)) ⊣ alloc (iotick w).
Proof.
  intros Hd Hid Hheap Hio Hsaved. unfold koe_account_activate. rewrite Hd.
  by erewrite bind_run by by apply koe_identity_load_run.
Qed.

(** A registry that is there but cannot be opened at the moment is taken for a
    fresh installation: the first account created then replaces it by a registry
    with that account alone. *)
Lemma koe_account_registry_unreadable `{SodiumLaws} root name passphrase out w w2 :
  w_io w (w_ios w) = false → nonul root → (length root < 480)%nat → bytes_ok root →
  heap_ok w2 → io_ok w2 → clock_fits w2 → bytes_ok name →
  ∃ reg, w ⊢ koe_account_registry_load root passphrase ⇓ (0, reg) ⊣ iotick w ∧ rg_count reg = 0%nat
    ∧ runs w2 (koe_account_create out reg name passphrase) (λ r w3, r.1.1 = 0
        ∧ w_fs w3 !! registry_path reg = Some (registry_image r.2) ∧ rg_count r.2 = 1%nat).
Proof.
  intros Hfail Hn Hl Hb Hheap Hio Hclock Hname.
  set (reg := KoeAccountRegistry (replicate KOE_ACCOUNT_MAX zero_descriptor) 0 (strncpy (zeros 512) root 511)).
  assert (Hroot : cstr (rg_data_root reg) = root)
    by (unfold reg; cbn [rg_data_root]; rewrite cstr_strncpy_zeros by (done || lia); apply take_ge; lia).
  exists reg. split_and!; [|done|].
  { unfold koe_account_registry_load, fopen_rb. unfold mbind, M_bind. by rewrite Hfail. }
  eapply runs_mono; [apply koe_account_create_run; try done|].
  - split_and!; cbn [reg rg_accounts rg_count rg_data_root]; [done|unfold KOE_ACCOUNT_MAX; lia| |].
    + apply Forall_replicate. apply (bool_decide_unpack _). vm_compute. exact I.
    + rewrite length_strncpy; [done|]. unfold zeros. rewrite length_replicate. lia.
  - cbn. unfold KOE_ACCOUNT_MAX. lia.
  - by rewrite Hroot.
  - intros [[rc acc] reg'] w3 _ (-> & _ & _ & _ & Hc & Hr & _ & _ & Himg). split_and!; [done| |done].
    cbn [snd]. rewrite <-Himg. f_equal. unfold registry_path. by rewrite Hr.
Qed.

(** * Two operations that miss the account's files *)

Lemma write_descriptors_fs ds f w : ∃ f' w', w ⊢ write_descriptors ds f ⇓ f' ⊣ w' ∧ w_fs w' = w_fs w.
Proof.
  revert f w. induction ds as [|d ds IH]; intros f w; [by eexists _, _|]. cbn [write_descriptors].
  destruct (fwrite_chunk_any f (descriptor_image d) w) as (l & w1 & R1 & F1).
  destruct (IH (f ++ l) w1) as (f' & w' & R & F). exists f', w'.
  split; [by rewrite (bind_run _ _ _ _ _ R1)|by rewrite F].
Qed.

(** Saving touches no file but the registry. *)
Lemma koe_account_registry_save_fs reg passphrase w :
  (length (cstr (rg_data_root reg)) < 511)%nat →
  ∃ rc w', w ⊢ koe_account_registry_save reg passphrase ⇓ rc ⊣ w'
    ∧ ∀ path, path ≠ registry_path reg → w_fs w' !! path = w_fs w !! path.
Proof.
  intros Hl. unfold koe_account_registry_save. erewrite bind_run by by apply account_mkdir_p_run.
  rewrite (bind_run syscall _ w (w_io w (w_ios w)) (iotick w)) by done.
  destruct (w_io w (w_ios w)); [cbn [negb]|by eexists _, _].
  destruct (fwrite_chunk_any [] REGISTRY_MAGIC (iotick w)) as (l1 & w1 & R1 & F1). rewrite (bind_run _ _ _ _ _ R1).
  destruct (fwrite_chunk_any ([] ++ l1) (le_bytes 4 (Z.of_nat (rg_count reg))) w1) as (l2 & w2 & R2 & F2).
  rewrite (bind_run _ _ _ _ _ R2). edestruct write_descriptors_fs as (f' & w' & R & F). erewrite bind_run by exact R. eexists _, _. split; [done|].
  intros path Hp. simpl. rewrite lookup_insert_ne by done. by rewrite F, F2, F1.
Qed.

(** The results of the writes are ignored: with the magic cut short the code is
    still 0, and the file cannot be loaded. *)
Lemma koe_account_registry_save_ignores_write_errors reg data_root passphrase w :
  (length data_root < 480)%nat → nonul data_root → rg_data_root reg = strncpy (zeros 512) data_root 511 → rg_count reg = 0%nat →
  w_io w (w_ios w) = true → w_io w (S (w_ios w)) = false → w_io w (S (S (w_ios w))) = false →
  ∃ w', w ⊢ koe_account_registry_save reg passphrase ⇓ 0 ⊣ w'
    ∧ ∀ w2, io_ok w2 → w_fs w2 = w_fs w' → ∃ reg' w3, w2 ⊢ koe_account_registry_load data_root passphrase ⇓ (-1, reg') ⊣ w3.
Proof.
  intros Hl Hn Hroot Hc H0 H1 H2.
  assert (Hcstr : cstr (rg_data_root reg) = data_root)
    by (rewrite Hroot, cstr_strncpy_zeros by (done || lia); apply take_ge; lia).
  unfold koe_account_registry_save. erewrite bind_run by (apply account_mkdir_p_run; rewrite Hcstr; lia).
  rewrite (bind_run syscall _ w true (iotick w)) by (unfold syscall; by rewrite H0). cbn [negb].
  destruct (fwrite_chunk_short [] REGISTRY_MAGIC (iotick w)) as (l1 & w1 & R1 & L1 & I1 & S1); [done|done|].
  rewrite (bind_run _ _ _ _ _ R1).
  destruct (fwrite_chunk_short ([] ++ l1) (le_bytes 4 (Z.of_nat (rg_count reg))) w1) as (l2 & w2 & R2 & L2 & _);
    [done|by rewrite I1, S1|].
  rewrite (bind_run _ _ _ _ _ R2), Hc. cbn [take write_descriptors]. eexists. split; [reflexivity|].
  intros w3 Hio Hfs. rewrite length_le_bytes in L2. change (length REGISTRY_MAGIC) with 7%nat in L1.
  set (reg0 := KoeAccountRegistry (replicate KOE_ACCOUNT_MAX zero_descriptor) 0 (strncpy (zeros 512) data_root 511)).
  assert (Hpath : registry_path reg0 = registry_path reg) by (unfold registry_path; by rewrite Hroot).
  unfold koe_account_registry_load. fold reg0. rewrite bind_fopen_ok, Hpath, Hfs by done. cbn [w_fs set_fs]. rewrite lookup_insert_eq.
  assert (Hlen : (length (([] ++ l1) ++ l2) < 11)%nat) by (rewrite !length_app; cbn [length]; lia).
  revert Hlen. generalize (([] ++ l1) ++ l2). intros f Hlen.
  destruct (peek f 0 7) as [m|]; [|by eexists _, _]. destruct (negb _); [by eexists _, _|].
  replace (peek f 7 4) with (@None bytes) by (unfold peek; rewrite decide_False; [done|lia]). by eexists _, _.
Qed.

(** Deleting an account leaves its identity file where it is. *)
Lemma koe_account_delete_keeps_identity reg idx d w :
  account_at reg idx = Some d → account_identity_path reg d ≠ registry_path reg →
  (length (cstr (rg_data_root reg)) < 511)%nat →
  ∃ rc reg' w', w ⊢ koe_account_delete reg idx ⇓ (rc, reg') ⊣ w'
    ∧ w_fs w' !! account_identity_path reg d = w_fs w !! account_identity_path reg d.
Proof.
  intros Hd Hp Hl. unfold koe_account_delete. rewrite Hd. destruct (negb _); [by eexists _, _, _|].
  set (reg' := KoeAccountRegistry _ _ _).
  destruct (koe_account_registry_save_fs reg' [] w Hl) as (rc & w' & R & F).
  exists rc, reg', w'. split; [by erewrite bind_run by exact R|]. by apply F.
Qed.

(** Changing the passphrase looks for the identity under the bare name of the
    account's directory, not under the data root: it fails although the
    passphrase is right and the identity is in its place. *)
Lemma koe_account_change_passphrase_misses `{Sodium} account check old new w :
  w_fs w !! snprintf_trunc 512 (cstr (ad_data_subdir (ac_desc account)) ++ str "/identity.koe") = None →
  ∃ w', w ⊢ koe_account_change_passphrase account check old new ⇓ (-1, account) ⊣ w' ∧ w_fs w' = w_fs w.
Proof.
  intros Hf. unfold koe_account_change_passphrase. destruct (_ =? 0); [by eexists|]. exists (iotick w).
  erewrite bind_run; [|unfold koe_identity_load; by rewrite bind_fopen_absent]. done.
Qed.
