(* ===== verification/Files.v ===== *)
(** A hierarchical file system: directories, regular files and other nodes under
    a root, reached by slash-separated paths. There are no symbolic links and
    paths are followed from the root. Components that create or list
    directories use it instead of the flat file table of the environment. *)

From S2P Require Import Prelude.

(** * Paths *)
Definition SLASH : Z := 47.
Definition DOT : Z := 46.

(** The pieces of a path between its slashes, empty ones included. *)
Fixpoint split_path (cur p : bytes) : list bytes :=
  match p with
  | [] => [cur]
  | b :: p' => if b =? SLASH then cur :: split_path [] p' else split_path (cur ++ [b]) p'
  end.

(** Following one piece from a directory. *)
Definition walk (dir : list bytes) (piece : bytes) : list bytes :=
  if bool_decide (piece = []) || bool_decide (piece = [DOT]) then dir
  else if bool_decide (piece = [DOT; DOT]) then take (length dir - 1) dir
  else dir ++ [piece].

Definition resolve (p : bytes) : list bytes := foldl walk [] (split_path [] p).

(** [a/b]. *)
Definition join (a b : bytes) : bytes := a ++ SLASH :: b.

(** A name that [readdir] can return for an entry, and one that does not start
    with a dot. *)
Definition name_ok (n : bytes) : Prop := n ≠ [] ∧ (SLASH ∉ n) ∧ nonul n ∧ bytes_ok n.
Definition hidden (n : bytes) : bool := bool_decide (head n = Some DOT).
Definition visible (n : bytes) : Prop := name_ok n ∧ (hidden n = false).

(** * The tree *)
Inductive node := File (content : bytes) | Dir | Special.
Abbreviation fsys := (gmap (list bytes) node).

#[export] Instance node_eq_dec : EqDecision node.
Proof. solve_decision. Defined.

Definition lookup_node (fs : fsys) (p : list bytes) : option node :=
  match p with [] => Some Dir | _ => fs !! p end.
Definition is_dir (fs : fsys) (p : list bytes) : Prop := lookup_node fs p = Some Dir.
Definition parent (p : list bytes) : list bytes := take (length p - 1) p.

#[export] Instance is_dir_dec fs p : Decision (is_dir fs p).
Proof. unfold is_dir. apply _. Defined.

(** The names in a directory; the order in which they are returned is up to the
    file system. *)
Class ReaddirOrder := {
  readdir_order : list bytes → list bytes;
  readdir_order_perm l : readdir_order l ≡ₚ l;
}.

Definition child_name (d k : list bytes) : option bytes :=
  match last k with
  | Some n => if decide (k = d ++ [n]) then Some n else None
  | None => None
  end.
Definition children (fs : fsys) (d : list bytes) : list bytes := omap (child_name d) (map_to_list fs).*1.
Definition readdir `{ReaddirOrder} (fs : fsys) (d : list bytes) : list bytes :=
  readdir_order ([DOT] :: [DOT; DOT] :: children fs d).

(** * System calls

    Each may fail for reasons of its own; otherwise the state of the tree
    decides. *)
Definition opendir (fs : fsys) (path : bytes) : M (option (list bytes)) :=
  ok ← syscall;
  mret (if ok && bool_decide (is_dir fs (resolve path)) then Some (resolve path) else None).
Definition stat (fs : fsys) (path : bytes) : M (option node) :=
  ok ← syscall;
  mret (if (ok : bool) then lookup_node fs (resolve path) else None).
Definition mkdir_at (fs : fsys) (p : list bytes) : fsys :=
  if bool_decide (lookup_node fs p = None ∧ is_dir fs (parent p)) then <[p := Dir]> fs else fs.
Definition mkdir (fs : fsys) (path : bytes) : M fsys :=
  ok ← syscall;
  mret (if (ok : bool) then mkdir_at fs (resolve path) else fs).

(** [fopen(path, "rb")]: the contents of a regular file. *)
Definition fopen_read (fs : fsys) (path : bytes) : M (option bytes) :=
  ok ← syscall;
  mret (match lookup_node fs (resolve path) with
        | Some (File c) => if (ok : bool) then Some c else None
        | _ => None
        end).

(** [fopen(path, "wb")]: whether [path] names a regular file, or nothing, in an
    existing directory. *)
Definition writable (fs : fsys) (p : list bytes) : Prop :=
  p ≠ [] ∧ is_dir fs (parent p) ∧ fs !! p ≠ Some Dir ∧ fs !! p ≠ Some Special.
#[export] Instance writable_dec fs p : Decision (writable fs p).
Proof. unfold writable. apply _. Defined.
Definition fopen_write (fs : fsys) (path : bytes) : M bool :=
  ok ← syscall;
  mret (ok && bool_decide (writable fs (resolve path))).
(** The file is closed with this content. *)
Definition fclose_write (fs : fsys) (path content : bytes) : fsys := <[resolve path := File content]> fs.

(** Every node is in a directory and has a proper name. *)
Definition fs_ok (fs : fsys) : Prop := ∀ p n, is_Some (fs !! (p ++ [n])) → is_dir fs p ∧ name_ok n.

(** * Lemmas on paths *)
Lemma split_path_app cur a b : split_path cur (a ++ SLASH :: b) = split_path cur a ++ split_path [] b.
Proof.
  revert cur. induction a as [|x a IH]; intros cur; cbn [app split_path]; [done|].
  destruct (x =? SLASH); [by rewrite IH|apply IH].
Qed.
Lemma split_path_name cur n : SLASH ∉ n → split_path cur n = [cur ++ n].
Proof.
  revert cur. induction n as [|x n IH]; intros cur Hn; cbn [split_path]; [by rewrite app_nil_r|].
  apply not_elem_of_cons in Hn as [Hx Hn]. destruct (Z.eqb_spec x SLASH); [done|].
  rewrite IH by done. by rewrite <-app_assoc.
Qed.

Lemma walk_visible d n : visible n → walk d n = d ++ [n].
Proof.
  intros [[Hn _] Hh]. unfold hidden in Hh. apply bool_decide_eq_false in Hh. unfold walk.
  rewrite !bool_decide_false; [done|..]; intros ->; done.
Qed.

(** The path of a file below a directory, as the archive spells it. *)
Definition rel_of (p : list bytes) : bytes := concat ((λ n, SLASH :: n) <$> p).

Lemma join_join a b c : join (join a b) c = join a (join b c).
Proof. unfold join. by rewrite <-app_assoc. Qed.
Lemma rel_of_snoc p n : rel_of (p ++ [n]) = join (rel_of p) n.
Proof. unfold rel_of, join. rewrite fmap_app, concat_app. cbn. by rewrite app_nil_r. Qed.

Lemma resolve_join a b : resolve (join a b) = foldl walk (resolve a) (split_path [] b).
Proof. unfold resolve, join. by rewrite split_path_app, foldl_app. Qed.

Lemma resolve_snoc a n : visible n → resolve (join a n) = resolve a ++ [n].
Proof.
  intros Hn. rewrite resolve_join, split_path_name by apply Hn. cbn [foldl app]. by apply walk_visible.
Qed.

Lemma resolve_rel base p : Forall visible p → resolve (join base (rel_of p)) = resolve base ++ p.
Proof.
  induction p as [|n p IH] using rev_ind; intros Hp.
  - rewrite resolve_join, app_nil_r. reflexivity.
  - apply Forall_app in Hp as [Hp Hn]. rewrite Forall_singleton in Hn. rewrite rel_of_snoc.
    rewrite <-join_join, (resolve_snoc _ n Hn), (IH Hp). by rewrite app_assoc.
Qed.

Lemma parent_snoc p n : parent (p ++ [n]) = p.
Proof. unfold parent. rewrite length_app. cbn. by rewrite Nat.add_sub, take_app_length. Qed.

Lemma lookup_node_snoc fs p n : lookup_node fs (p ++ [n]) = fs !! (p ++ [n]).
Proof. by destruct p. Qed.
Lemma length_join a b : length (join a b) = (length a + S (length b))%nat.
Proof. unfold join. by rewrite length_app. Qed.
Lemma take_join a b : take (length a) (join a b) = a.
Proof. unfold join. by rewrite take_app_length. Qed.
Lemma rel_of_inj p q : Forall visible p → Forall visible q → rel_of p = rel_of q → p = q.
Proof.
  intros Hp Hq E. pose proof (resolve_rel [] p Hp) as H1. rewrite E, resolve_rel in H1 by done.
  by apply app_inv_head in H1.
Qed.
Lemma snprintf_trunc_fits n s : (length s < n)%nat → snprintf_trunc n s = s.
Proof. intros. apply take_ge. lia. Qed.

Lemma nonul_join a b : nonul a → nonul b → nonul (join a b).
Proof. intros. apply Forall_app. split; [done|]. by constructor. Qed.
Lemma nonul_rel p : Forall visible p → nonul (rel_of p).
Proof.
  induction 1 as [|n p Hn _ IH]; [constructor|]. apply Forall_cons. split; [done|].
  apply Forall_app. split; [apply Hn|exact IH].
Qed.

Lemma bytes_ok_rel p : Forall visible p → bytes_ok (rel_of p).
Proof.
  induction 1 as [|n p Hn _ IH]; [constructor|]. apply Forall_cons. split; [unfold byte_ok, SLASH; lia|].
  apply Forall_app. split; [apply Hn|exact IH].
Qed.

Lemma is_dir_insert_file fs p q c :
  is_dir fs q → fs !! p ≠ Some Dir → is_dir (<[p := File c]> fs) q.
Proof.
  unfold is_dir, lookup_node. destruct q as [|x q]; [done|]. intros Hq Hp.
  rewrite lookup_insert_ne; [done|]. by intros ->.
Qed.
Lemma is_dir_insert_dir fs p q : is_dir fs q → is_dir (<[p := Dir]> fs) q.
Proof.
  unfold is_dir, lookup_node. destruct q as [|x q]; [done|]. intros Hq. destruct (decide (p = x :: q)) as [->|].
  - by rewrite lookup_insert_eq.
  - by rewrite lookup_insert_ne.
Qed.

Lemma elem_of_children fs d n : n ∈ children fs d ↔ is_Some (fs !! (d ++ [n])).
Proof.
  unfold children. rewrite list_elem_of_omap. split.
  - intros (k & Hk & Hc). apply list_elem_of_fmap in Hk as ([k' v] & -> & Hk). simpl in Hc.
    unfold child_name in Hc. destruct (last k') as [n'|]; [|done]. case_decide as E; [|done].
    injection Hc as ->. rewrite <-E. exists v. by apply elem_of_map_to_list.
  - intros [v Hv]. exists (d ++ [n]). split.
    + apply list_elem_of_fmap. exists (d ++ [n], v). split; [done|]. by apply elem_of_map_to_list.
    + unfold child_name. by rewrite last_snoc, decide_True.
Qed.

Lemma elem_of_readdir `{ReaddirOrder} fs d n :
  hidden n = false → n ∈ readdir fs d ↔ is_Some (fs !! (d ++ [n])).
Proof.
  intros Hn. unfold readdir. rewrite readdir_order_perm, !elem_of_cons, elem_of_children.
  split; [|by auto]. intros [->|[->|?]]; [discriminate Hn..|done].
Qed.

Lemma fs_ok_parent fs p q : fs_ok fs → is_Some (fs !! (p ++ q)) → q ≠ [] → is_dir fs p.
Proof.
  intros Hok. induction q as [|n q IH] using rev_ind; intros Hq Hne; [done|].
  rewrite app_assoc in Hq. apply Hok in Hq as [Hd _]. destruct q as [|x q]; [by rewrite app_nil_r in Hd|].
  apply IH; [|done]. unfold is_dir, lookup_node in Hd. destruct (p ++ x :: q) eqn:E; [by destruct p|].
  by eexists.
Qed.

(** [fs_ok] is decidable: check every node. *)
#[export] Instance name_ok_dec n : Decision (name_ok n).
Proof. unfold name_ok, nonul. apply _. Defined.
#[export] Instance visible_dec n : Decision (visible n).
Proof. unfold visible. apply _. Defined.
Lemma fs_ok_nodes fs :
  map_Forall (λ k _, is_dir fs (parent k) ∧ name_ok (default [] (last k))) fs → fs_ok fs.
Proof.
  intros Hall p n [v Hv]. specialize (Hall _ _ Hv). simpl in Hall. by rewrite parent_snoc, last_snoc in Hall.
Qed.

(** One possible order. *)
Definition readdir_as_stored : ReaddirOrder := {| readdir_order l := l; readdir_order_perm l := reflexivity l |}.
