(* ===== verification/Backup.v ===== *)
(** Backups (src/koe_backup.c, include/koe_backup.h): the archive of a directory
    tree, its encryption into a .koebak file, and its extraction. *)

From S2P Require Import Prelude Version Crc32 Packet Crypto Files.
Import Strings.String.StringSyntax.

(** * The archive buffer *)

(** The bytes in use and the capacity. Sizes stay far below the range of
    [size_t]. *)
Record koe_archive_t := KoeArchive { ar_data : bytes; ar_cap : Z }.

Definition archive_append (a : koe_archive_t) (b : bytes) : M (Z * koe_archive_t) :=
  r ← (if ar_cap a <? zlen (ar_data a) + zlen b then
         ok ← malloc;
         mret (if (ok : bool) then Some ((ar_cap a + zlen b) * 2) else None)
       else mret (Some (ar_cap a)));
  match r with
  | None => mret (-1, a)
  | Some cap =>
      if cap <? zlen (ar_data a) + zlen b then ub
      else mret (0, KoeArchive (ar_data a ++ b) cap)
  end.

Definition MAX_ARCHIVED : Z := 64 * 1024 * 1024.

(** Path length, path, data length, data; a part that cannot be appended is left
    out. *)
Definition archive_entry (a : koe_archive_t) (rel_path file_data : bytes) : M koe_archive_t :=
  let path_len := u16 (zlen rel_path) in
  let data_len := u32 (zlen file_data) in
  r1 ← archive_append a (le_bytes 2 path_len);
  r2 ← archive_append r1.2 (take (Z.to_nat path_len) rel_path);
  r3 ← archive_append r2.2 (le_bytes 4 data_len);
  r4 ← archive_append r3.2 (take (Z.to_nat data_len) file_data);
  mret r4.2.

Definition archive_file (fs : fsys) (a : koe_archive_t) (rel_path abs_path : bytes) : M (Z * koe_archive_t) :=
  f ← fopen_read fs abs_path;
  match f with
  | None => mret (0, a)
  | Some content =>
      told ← syscall;
      if negb told || (MAX_ARCHIVED <? zlen content) then mret (0, a)
      else
        ok ← malloc;
        if negb ok then mret (-1, a)
        else
          read ← syscall;
          if negb read then mret (-1, a)
          else a ← archive_entry a rel_path content; mret (0, a)
  end.

Section Walk.
Context `{ReaddirOrder} (fs : fsys).

(** The [while] loop over the entries of one directory; [descend] is the
    recursive call. [None] is a recursion deeper than the fuel. *)
Fixpoint archive_entries (descend : koe_archive_t → bytes → M (option koe_archive_t)) (rel abs : bytes)
    (names : list bytes) (a : koe_archive_t) : M (option koe_archive_t) :=
  match names with
  | [] => mret (Some a)
  | n :: names' =>
      if hidden n then archive_entries descend rel abs names' a
      else
        let child_rel := snprintf_trunc 512 (join rel n) in
        let child_abs := snprintf_trunc 512 (join abs n) in
        st ← stat fs child_abs;
        match st with
        | Some Dir =>
            r ← descend a child_rel;
            match r with
            | None => mret None
            | Some a => archive_entries descend rel abs names' a
            end
        | Some (File _) =>
            r ← archive_file fs a child_rel child_abs;
            archive_entries descend rel abs names' r.2
        | _ => archive_entries descend rel abs names' a
        end
  end.

Fixpoint archive_dir (fuel : nat) (base : bytes) (a : koe_archive_t) (rel : bytes) : M (option koe_archive_t) :=
  match fuel with
  | O => mret None
  | S fuel' =>
      let abs := snprintf_trunc 512 (join base rel) in
      d ← opendir fs abs;
      match d with
      | None => mret (Some a)
      | Some d => archive_entries (archive_dir fuel' base) rel abs (readdir fs d) a
      end
  end.
End Walk.

(** * The file *)
Definition KOE_BACKUP_MAGIC : bytes := str "KOEBAK".
Definition KOE_BACKUP_MAGIC_LEN : nat := 6.
Definition KOE_BACKUP_VERSION : Z := 1.

Record koe_backup_header_t := KoeBackupHeader {
  bh_magic : bytes; bh_version : Z; bh_created_at : Z; bh_salt : bytes; bh_nonce : bytes; bh_payload_len : Z;
}.

(** The header in memory: one byte of padding [pad] after the version. *)
Definition BACKUP_HEADER_SIZE : nat := 80.
Definition backup_header_image (pad : bytes) (h : koe_backup_header_t) : bytes :=
  bh_magic h ++ [bh_version h] ++ pad ++ le64 (bh_created_at h) ++ bh_salt h ++ bh_nonce h
  ++ le64 (bh_payload_len h).
Definition read_backup_header (b : bytes) : option koe_backup_header_t :=
  magic ← peek b 0 6;
  version ← peek b 6 1;
  created ← peek b 8 8;
  salt ← peek b 16 32;
  nonce ← peek b 48 24;
  len ← peek b 72 8;
  Some (KoeBackupHeader magic (le_val version) (le_val created) salt nonce (le_val len)).

Section Operations.
Context `{Sodium} `{ReaddirOrder}.

(** The archive, the key from a fresh salt, the ciphertext. The padding byte and
    the last sixteen bytes of the salt field are uninitialised. *)
Definition koe_backup_export (fuel : nat) (fs : fsys) (out_path passphrase data_dir : bytes)
  : M (option (Z * fsys)) :=
  ok ← malloc;
  if negb ok then mret (Some (-1, fs))
  else
    r ← archive_dir fs fuel data_dir (KoeArchive [] 65536) [];
    match r with
    | None => mret None
    | Some arc =>
        salt ← randombytes_buf 16;
        hashed ← malloc;
        if negb hashed then mret (Some (-1, fs))
        else
          let key := crypto_pwhash 32 passphrase salt in
          nonce ← koe_nonce_generate;
          ok ← malloc;
          if negb ok then mret (Some (-1, fs))
          else
            match koe_encrypt (ar_data arc) nonce key with
            | None => mret (Some (-1, fs))
            | Some ct =>
                opened ← fopen_write fs out_path;
                if negb opened then mret (Some (-1, fs))
                else
                  uninit ← randombytes_buf 17;
                  created ← time_null;
                  let hdr := KoeBackupHeader KOE_BACKUP_MAGIC KOE_BACKUP_VERSION created
                               (salt ++ drop 1 uninit) nonce (zlen (ar_data arc) + Z.of_nat KOE_TAG_LEN) in
                  f ← fwrite_chunk [] (backup_header_image (take 1 uninit) hdr);
                  f ← fwrite_chunk f ct;
                  mret (Some (0, fclose_write fs out_path f))
            end
    end.

(** Where the last slash of a path is. *)
Definition last_slash (p : bytes) : option nat :=
  match list_find (λ b, b = SLASH) (reverse p) with
  | Some (i, _) => Some (length p - S i)%nat
  | None => None
  end.

(** Writing one extracted file. [strncpy] of a path of 511 bytes leaves
    [dir_path] without a terminator: the search for its last slash then depends
    on an uninitialised byte, and leaves the array unless it is zero. *)
Definition extract_file (fs : fsys) (data_dir rel_path data : bytes) : M fsys :=
  let abs_path := snprintf_trunc 512 (join data_dir rel_path) in
  uninit ← randombytes_buf 1;
  if (511 <=? length abs_path)%nat && negb (bool_decide (uninit = [0])) then ub
  else
    fs ← match last_slash abs_path with
         | Some i => mkdir fs (take i abs_path)
         | None => mret fs
         end;
    opened ← fopen_write fs abs_path;
    if (opened : bool) then
      f ← fwrite_chunk [] data;
      mret (fclose_write fs abs_path f)
    else mret fs.

(** The extraction loop; [None] is running out of fuel. *)
Fixpoint extract_loop (fuel : nat) (fs : fsys) (data_dir plain : bytes) (offset : nat) : M (option fsys) :=
  if (length plain <=? offset + 6)%nat then mret (Some fs)
  else
    match fuel with
    | O => mret None
    | S fuel' =>
        pl ← lift (peek plain offset 2);
        let path_len := Z.to_nat (le_val pl) in
        let offset := (offset + 2)%nat in
        if (length plain <? offset + path_len)%nat then mret (Some fs)
        else
          rel_path ← lift (peek plain offset (if (path_len <? 511)%nat then path_len else 511%nat));
          let offset := (offset + path_len)%nat in
          dl ← lift (peek plain offset 4);
          let data_len := Z.to_nat (le_val dl) in
          let offset := (offset + 4)%nat in
          if (length plain <? offset + data_len)%nat then mret (Some fs)
          else
            data ← lift (peek plain offset data_len);
            fs ← extract_file fs data_dir (cstr rel_path) data;
            extract_loop fuel' fs data_dir plain (offset + data_len)
    end.

(** Every iteration consumes at least six bytes. *)
Definition koe_backup_import (fs : fsys) (in_path passphrase data_dir : bytes) : M (option (Z * fsys)) :=
  f ← fopen_read fs in_path;
  match f with
  | None => mret (Some (-1, fs))
  | Some f =>
      match peek f 0 BACKUP_HEADER_SIZE ≫= read_backup_header with
      | None => mret (Some (-1, fs))
      | Some hdr =>
          if negb (memeq KOE_BACKUP_MAGIC_LEN (bh_magic hdr) KOE_BACKUP_MAGIC) then mret (Some (-1, fs))
          else
            ok ← malloc;
            if negb ok then mret (Some (-1, fs))
            else if zlen f - Z.of_nat BACKUP_HEADER_SIZE <? bh_payload_len hdr then mret (Some (-1, fs))
            else
              ct ← lift (peek f BACKUP_HEADER_SIZE (Z.to_nat (bh_payload_len hdr)));
              hashed ← malloc;
              if negb hashed then mret (Some (-1, fs))
              else
                let key := crypto_pwhash 32 passphrase (take 16 (bh_salt hdr)) in
                ok ← malloc;
                if negb ok then mret (Some (-1, fs))
                else
                  match koe_decrypt ct (bh_nonce hdr) key with
                  | None => mret (Some (-1, fs))
                  | Some plain =>
                      r ← extract_loop (length plain) fs data_dir plain 0;
                      mret ((λ fs, (0, fs)) <$> r)
                  end
      end
  end.
End Operations.

(** Server upload and download and device migration are not implemented. *)
Definition koe_backup_upload (relay_host : bytes) (port : Z) (id : koe_identity_t) (data_dir : bytes) : Z := -1.
Definition koe_backup_download (relay_host : bytes) (port : Z) (id : koe_identity_t) (out_dir : bytes)
    (version : Z) : Z := -1.
Definition koe_migrate_send (data_dir : bytes) (id : koe_identity_t) : Z := -1.
Definition koe_migrate_receive (source_addr : bytes) (token : Z) (out_dir : bytes) : Z := -1.

(** * What is archived *)

(** The entries of the archive and their encoding. *)
Definition encode_entry (e : bytes * bytes) : bytes :=
  le_bytes 2 (zlen e.1) ++ e.1 ++ le_bytes 4 (zlen e.2) ++ e.2.
Definition encode (es : list (bytes * bytes)) : bytes := concat (encode_entry <$> es).

(** The visible files of at most 64 MiB below the directory [d], by their path
    components: what the string-based walk is meant to find. *)
Section Tree.
Context `{ReaddirOrder} (fs : fsys) (d : list bytes).

Fixpoint tree_entries (fuel : nat) (p : list bytes) : list (bytes * bytes) :=
  match fuel with
  | O => []
  | S fuel' =>
      readdir fs (d ++ p) ≫= λ n,
        if hidden n then []
        else match fs !! (d ++ p ++ [n]) with
             | Some Dir => tree_entries fuel' (p ++ [n])
             | Some (File c) => if MAX_ARCHIVED <? zlen c then [] else [(rel_of (p ++ [n]), c)]
             | _ => []
             end
  end.

(** The entries for the names of one directory. *)
Definition name_entries (fuel : nat) (p : list bytes) (n : bytes) : list (bytes * bytes) :=
  if hidden n then []
  else match fs !! (d ++ p ++ [n]) with
       | Some Dir => tree_entries fuel (p ++ [n])
       | Some (File c) => if MAX_ARCHIVED <? zlen c then [] else [(rel_of (p ++ [n]), c)]
       | _ => []
       end.

Lemma tree_entries_S fuel p : tree_entries (S fuel) p = readdir fs (d ++ p) ≫= name_entries fuel p.
Proof. reflexivity. Qed.
End Tree.

(** A path of 511 bytes has fewer than 256 components. *)
Definition MAX_DEPTH : nat := 256.
Definition backup_entries `{ReaddirOrder} (fs : fsys) (base : bytes) : list (bytes * bytes) :=
  tree_entries fs (resolve base) MAX_DEPTH [].

(** A directory that can be archived: every visible path below it fits the
    512-byte buffers. *)
Definition source_ok (fs : fsys) (base : bytes) : Prop :=
  fs_ok fs ∧ is_dir fs (resolve base) ∧ (length base < 511)%nat
  ∧ ∀ p nd, p ≠ [] → Forall visible p → fs !! (resolve base ++ p) = Some nd →
      (length (join base (rel_of p)) ≤ 511)%nat ∧ (∀ c, nd = File c → bytes_ok c).

(** * The walk *)
Definition archive_ok (a : koe_archive_t) : Prop := 0 ≤ ar_cap a ∧ zlen (ar_data a) ≤ ar_cap a.

Lemma archive_append_runs a b w :
  archive_ok a → heap_ok w →
  runs w (archive_append a b) (λ r _, ar_data r.2 = ar_data a ++ b ∧ archive_ok r.2).
Proof.
  intros [H0 Hc] Hheap. unfold archive_append.
  eapply (runs_bind _ _ _ (λ r _, ∃ cap, r = Some cap ∧ zlen (ar_data a) + zlen b ≤ cap)).
  - destruct (Z.ltb_spec (ar_cap a) (zlen (ar_data a) + zlen b)).
    + apply runs_malloc_ok; [done|]. apply runs_ret. eexists. split; [done|]. unfold zlen in *. lia.
    + apply runs_ret. by eexists.
  - intros r w' _ (cap & -> & Hcap). destruct (Z.ltb_spec cap (zlen (ar_data a) + zlen b)); [lia|].
    apply runs_ret. split; [done|]. split; cbn; unfold zlen in *; rewrite ?length_app; lia.
Qed.

Lemma archive_entry_runs a rel c w :
  archive_ok a → heap_ok w → zlen rel < 2 ^ 16 → zlen c < 2 ^ 32 →
  runs w (archive_entry a rel c) (λ a' _, ar_data a' = ar_data a ++ encode_entry (rel, c) ∧ archive_ok a').
Proof.
  intros Ha Hh Hr Hc. unfold archive_entry.
  rewrite u16_id, u32_id by (unfold zlen in *; lia).
  rewrite !take_ge by (unfold zlen; lia).
  eapply runs_bind; [by apply archive_append_runs|]. intros r1 w1 E1 [D1 A1].
  eapply runs_bind; [by eapply archive_append_runs; eauto with koe|]. intros r2 w2 E2 [D2 A2].
  assert (heap_ok w2) by (eauto with koe).
  eapply runs_bind; [by apply archive_append_runs|]. intros r3 w3 E3 [D3 A3].
  eapply runs_bind; [by eapply archive_append_runs; eauto with koe|]. intros r4 w4 _ [D4 A4].
  apply runs_ret. split; [|done]. rewrite D4, D3, D2, D1. unfold encode_entry. cbn [fst snd]. by rewrite !app_assoc.
Qed.

Lemma archive_file_runs fs a rel abs c w :
  archive_ok a → heap_ok w → io_ok w → zlen rel < 2 ^ 16 → lookup_node fs (resolve abs) = Some (File c) →
  runs w (archive_file fs a rel abs)
    (λ r _, ar_data r.2 = ar_data a ++ encode (if MAX_ARCHIVED <? zlen c then [] else [(rel, c)])
            ∧ archive_ok r.2).
Proof.
  intros Ha Hh Hio Hr Hl. unfold archive_file, fopen_read.
  eapply (runs_bind _ _ _ (λ r _, r = Some c)).
  { apply runs_syscall_ok; [done|]. rewrite Hl. by apply runs_ret. }
  intros r w1 E1 ->. apply runs_syscall_ok; [by eauto with koe|]. cbn [negb orb].
  destruct (Z.ltb_spec MAX_ARCHIVED (zlen c)).
  { apply runs_ret. cbn. by rewrite app_nil_r. }
  apply runs_malloc_ok; [by eapply heap_ok_env; eauto with koe|]. cbn [negb].
  apply runs_syscall_ok; [by eauto with koe|]. cbn [negb].
  eapply runs_bind; [apply archive_entry_runs; [done|by eapply heap_ok_env; eauto with koe|done|]|].
  { unfold MAX_ARCHIVED in *. lia. }
  intros a' w' _ [D A]. apply runs_ret. split; [|done]. cbn. by rewrite D, app_nil_r.
Qed.

Section WalkProofs.
Context `{ReaddirOrder} (fs : fsys) (base : bytes) (Hsrc : source_ok fs base).

Definition archives (es : list (bytes * bytes)) (a : koe_archive_t) (r : option koe_archive_t) : Prop :=
  ∃ a', r = Some a' ∧ ar_data a' = ar_data a ++ encode es ∧ archive_ok a'.

Lemma archives_app es1 es2 a a1 r :
  ar_data a1 = ar_data a ++ encode es1 → archives es2 a1 r → archives (es1 ++ es2) a r.
Proof.
  intros D1 (a2 & -> & D2 & A2). exists a2. split; [done|]. split; [|done].
  rewrite D2, D1. unfold encode. by rewrite fmap_app, concat_app, app_assoc.
Qed.

(** A visible entry of a directory of the tree, and its paths. *)
Lemma source_child p n nd :
  Forall visible p → hidden n = false → fs !! (resolve base ++ p ++ [n]) = Some nd →
  Forall visible (p ++ [n])
  ∧ snprintf_trunc 512 (join (rel_of p) n) = rel_of (p ++ [n])
  ∧ snprintf_trunc 512 (join (join base (rel_of p)) n) = join base (rel_of (p ++ [n]))
  ∧ lookup_node fs (resolve (join base (rel_of (p ++ [n])))) = Some nd
  ∧ zlen (rel_of (p ++ [n])) < 2 ^ 16
  ∧ (length (join base (rel_of p)) + 2 ≤ length (join base (rel_of (p ++ [n]))) ≤ 511)%nat.
Proof.
  destruct Hsrc as (Hok & _ & _ & Hfit). intros Hp Hh Hn.
  assert (Hname : name_ok n).
  { eapply (Hok (resolve base ++ p)). rewrite <-app_assoc, Hn. by eexists. }
  assert (Hv : Forall visible (p ++ [n])) by (apply Forall_app; split; [done|]; by constructor).
  destruct (Hfit (p ++ [n]) nd) as [Hlen _]; [by destruct p|done|done|].
  rewrite <-rel_of_snoc, join_join, <-rel_of_snoc.
  pose proof Hlen as Hlen'. rewrite length_join in Hlen'.
  rewrite !snprintf_trunc_fits by lia. rewrite resolve_rel by done.
  split_and!; try done; [by rewrite app_assoc, lookup_node_snoc, <-app_assoc|unfold zlen; lia|].
  rewrite rel_of_snoc, !length_join. destruct Hname as [Hne _]. destruct n; [done|]. cbn [length]. lia.
Qed.

Lemma archive_entries_runs fuel p descend names a w :
  Forall visible p →
  (∀ n, n ∈ names → hidden n = false → is_Some (fs !! (resolve base ++ p ++ [n]))) →
  (∀ a n w, hidden n = false → fs !! (resolve base ++ p ++ [n]) = Some Dir → archive_ok a → heap_ok w → io_ok w →
     runs w (descend a (rel_of (p ++ [n]))) (λ r _, archives (tree_entries fs (resolve base) fuel (p ++ [n])) a r)) →
  archive_ok a → heap_ok w → io_ok w →
  runs w (archive_entries fs descend (rel_of p) (join base (rel_of p)) names a)
    (λ r _, archives (names ≫= name_entries fs (resolve base) fuel p) a r).
Proof.
  intros Hp Hnames Hdesc. revert a w. induction names as [|n names IH]; intros a w Ha Hh Hio; cbn [archive_entries].
  { apply runs_ret. exists a. split; [done|]. split; [by rewrite app_nil_r|done]. }
  assert (IH' : ∀ es a1 w1, same_env w w1 → ar_data a1 = ar_data a ++ encode es → archive_ok a1 →
    runs w1 (archive_entries fs descend (rel_of p) (join base (rel_of p)) names a1)
      (λ r _, archives (es ++ (names ≫= name_entries fs (resolve base) fuel p)) a r)).
  { intros es a1 w1 E D A. eapply runs_mono; [apply IH; [intros; apply Hnames; [by right|done]|..]; by eauto with koe|].
    intros r w2 _ Hr. by eapply archives_app. }
  cbn [mbind list_bind]. unfold name_entries at 1. destruct (hidden n) eqn:Hn.
  { apply (IH' []); [done|by rewrite app_nil_r|done]. }
  destruct (Hnames n) as [nd Hnd]; [left|done|].
  destruct (source_child p n nd Hp Hn Hnd) as (Hv & -> & -> & Hl & Hz & _). rewrite Hnd.
  unfold stat. eapply (runs_bind _ _ _ (λ r _, r = Some nd)).
  { apply runs_syscall_ok; [done|]. apply runs_ret. exact Hl. }
  intros r w1 E1 ->. destruct nd as [c| |].
  - eapply runs_bind; [apply archive_file_runs; eauto with koe|]. intros r w2 E2 [D A].
    apply (IH' _ r.2); [by etrans|done|done].
  - eapply runs_bind; [apply Hdesc; eauto with koe|]. intros r w2 E2 (a1 & -> & D & A).
    apply (IH' _ a1); [by etrans|done|done].
  - apply (IH' []); [done|by rewrite app_nil_r|done].
Qed.

(** With fuel for the 256 levels that fit a path, the walk is the one on path
    components. *)
Lemma archive_dir_runs fuel p a w :
  Forall visible p → is_dir fs (resolve base ++ p) →
  (length (join base (rel_of p)) ≤ 511)%nat → (512 ≤ length (join base (rel_of p)) + 2 * fuel)%nat →
  archive_ok a → heap_ok w → io_ok w →
  runs w (archive_dir fs fuel base a (rel_of p)) (λ r _, archives (tree_entries fs (resolve base) fuel p) a r).
Proof.
  revert p a w. induction fuel as [|fuel IH]; intros p a w Hp Hd Hl Hf Ha Hh Hio; [lia|].
  cbn [archive_dir]. rewrite snprintf_trunc_fits by lia. unfold opendir.
  eapply (runs_bind _ _ _ (λ r _, r = Some (resolve base ++ p))).
  { apply runs_syscall_ok; [done|]. apply runs_ret. rewrite resolve_rel by done. by rewrite bool_decide_true. }
  intros r w1 E1 ->. rewrite tree_entries_S. apply archive_entries_runs; try (by eauto with koe).
  - intros n Hn Hh'. rewrite elem_of_readdir in Hn by done. by rewrite <-app_assoc in Hn.
  - intros a' n w' Hn Hdir Ha' Hh' Hio'.
    destruct (source_child p n Dir Hp Hn Hdir) as (Hv & _ & _ & Hlk & _ & Hlen).
    apply IH; try done; [|lia|lia]. unfold is_dir. by rewrite app_assoc, lookup_node_snoc, <-app_assoc.
Qed.
End WalkProofs.

(** The files of the source that are archived. *)
Definition archived (fs : fsys) (base : bytes) (p : list bytes) (c : bytes) : Prop :=
  p ≠ [] ∧ Forall visible p ∧ fs !! (resolve base ++ p) = Some (File c) ∧ zlen c ≤ MAX_ARCHIVED.

#[export] Instance archived_dec fs base p c : Decision (archived fs base p c).
Proof. unfold archived. apply _. Defined.

Section Entries.
Context `{ReaddirOrder} (fs : fsys) (base : bytes) (Hsrc : source_ok fs base).

Lemma tree_entries_sound fuel p e :
  Forall visible p → e ∈ tree_entries fs (resolve base) fuel p → ∃ q, archived fs base q e.2 ∧ e.1 = rel_of q.
Proof.
  revert p. induction fuel as [|fuel IH]; intros p Hp He; [by apply not_elem_of_nil in He|].
  rewrite tree_entries_S in He. apply list_elem_of_bind in He as (n & He & Hn). unfold name_entries in He.
  destruct (hidden n) eqn:Hh; [by apply not_elem_of_nil in He|].
  destruct (fs !! (resolve base ++ p ++ [n])) as [[c| |]|] eqn:Hnd; try by apply not_elem_of_nil in He.
  - destruct (source_child fs base Hsrc p n _ Hp Hh Hnd) as (Hv & _).
    destruct (Z.ltb_spec MAX_ARCHIVED (zlen c)); [by apply not_elem_of_nil in He|].
    apply list_elem_of_singleton in He as ->. exists (p ++ [n]). by split; [|done]; split_and!; [destruct p|..].
  - destruct (source_child fs base Hsrc p n _ Hp Hh Hnd) as (Hv & _). by apply (IH (p ++ [n])).
Qed.

Lemma tree_entries_complete fuel p q c :
  archived fs base (p ++ q) c → q ≠ [] → (512 ≤ length (join base (rel_of p)) + 2 * fuel)%nat →
  (length (join base (rel_of p)) ≤ 511)%nat → (rel_of (p ++ q), c) ∈ tree_entries fs (resolve base) fuel p.
Proof.
  revert p q. induction fuel as [|fuel IH]; intros p q (_ & Hv & Hf & Hc) Hq Hl Hl'; [lia|].
  destruct q as [|n q]; [done|]. rewrite tree_entries_S. apply list_elem_of_bind. exists n.
  pose proof Hv as [Hp Hv']%Forall_app. apply Forall_cons in Hv' as [[Hn Hh] Hq'].
  assert (Hnd : ∃ nd, fs !! (resolve base ++ p ++ [n]) = Some nd ∧ (nd = Dir ∨ q = [] ∧ nd = File c)).
  { destruct q as [|x q]; [by eexists; eauto|]. exists Dir. split; [|by left].
    assert (is_dir fs (resolve base ++ p ++ [n])) as Hd.
    { eapply (fs_ok_parent fs _ (x :: q)); [apply Hsrc| |done]. rewrite <-!app_assoc. by eexists. }
    unfold is_dir in Hd. by rewrite app_assoc, lookup_node_snoc, <-app_assoc in Hd. }
  destruct Hnd as (nd & Hnd & Hcase). split.
  - unfold name_entries. rewrite Hh, Hnd. destruct Hcase as [->|[-> ->]].
    + destruct (source_child fs base Hsrc p n _ Hp Hh Hnd) as (Hv2 & _ & _ & _ & _ & Hlen).
      destruct q as [|x q]; [by rewrite Hnd in Hf|].
      change (p ++ n :: x :: q) with (p ++ [n] ++ x :: q). rewrite app_assoc.
      apply IH; [|done|lia|lia]. by split_and!; rewrite <-?app_assoc; [destruct p|..].
    + destruct (Z.ltb_spec MAX_ARCHIVED (zlen c)); [lia|]. by apply list_elem_of_singleton.
  - apply elem_of_readdir; [done|]. rewrite <-app_assoc, Hnd. by eexists.
Qed.
End Entries.

(** * Extraction *)
Definition restore_entry (target : bytes) (fs : fsys) (e : bytes * bytes) : fsys :=
  let abs := join target e.1 in
  let fs := match last_slash abs with Some i => mkdir_at fs (resolve (take i abs)) | None => fs end in
  if bool_decide (writable fs (resolve abs)) then fclose_write fs abs e.2 else fs.

(** An entry that fits the buffers of the loop. *)
Definition entry_fits (target : bytes) (e : bytes * bytes) : Prop :=
  e.1 ≠ [] ∧ nonul e.1 ∧ (length (join target e.1) ≤ 510)%nat ∧ zlen e.2 < 2 ^ 32.

Lemma extract_file_runs fs target e w :
  entry_fits target e → io_ok w →
  runs w (extract_file fs target e.1 e.2) (λ r _, r = restore_entry target fs e).
Proof.
  intros (_ & _ & Hl & _) Hio. unfold extract_file, restore_entry. rewrite snprintf_trunc_fits by lia.
  apply runs_random. rewrite (proj2 (Nat.leb_gt _ _)) by lia. cbn [andb].
  eapply (runs_bind _ _ _ (λ r _, r = match last_slash (join target e.1) with
            | Some i => mkdir_at fs (resolve (take i (join target e.1))) | None => fs end)).
  { destruct (last_slash _); [|by apply runs_ret]. unfold mkdir. apply runs_syscall_ok; [done|].
    by apply runs_ret. }
  intros fs1 w1 E1 ->. unfold fopen_write. set (fs1 := match _ with Some i => _ | None => _ end).
  eapply (runs_bind _ _ _ (λ r _, r = bool_decide (writable fs1 (resolve (join target e.1))))).
  { apply runs_syscall_ok; [by eauto with koe|]. by apply runs_ret. }
  intros r w2 E2 ->. case_bool_decide; [|by apply runs_ret]. unfold fwrite_chunk.
  eapply (runs_bind _ _ _ (λ r _, r = e.2)).
  { apply runs_syscall_ok; [by eauto with koe|]. by apply runs_ret. }
  intros r w3 E3 ->. by apply runs_ret.
Qed.

Lemma length_encode_entry e : length (encode_entry e) = (6 + length e.1 + length e.2)%nat.
Proof. unfold encode_entry. rewrite !length_app, !length_le_bytes. lia. Qed.

Lemma encode_cons e es : encode (e :: es) = encode_entry e ++ encode es.
Proof. reflexivity. Qed.

(** One iteration on an encoded entry. *)
Lemma extract_loop_cons fuel fs target pre e rest w R :
  let plain := pre ++ encode_entry e ++ rest in
  entry_fits target e →
  runs w (fs ← extract_file fs target e.1 e.2;
          extract_loop fuel fs target plain (length (pre ++ encode_entry e))) R →
  runs w (extract_loop (S fuel) fs target plain (length pre)) R.
Proof.
  intros plain (Hne & Hnul & Hlen & Hz) Hr. rewrite length_join in Hlen. cbn [extract_loop].
  assert (Hpl : length plain = (length pre + (6 + length e.1 + length e.2) + length rest)%nat)
    by (unfold plain; rewrite !length_app, length_encode_entry; lia).
  assert (Hn0 : (0 < length e.1)%nat) by (destruct (e.1); [done|cbn; lia]).
  assert (Hat : ∀ a b c, encode_entry e ++ rest = a ++ b ++ c →
                 peek plain (length pre + length a) (length b) = Some b).
  { intros a b c Hs. unfold plain. rewrite Hs, app_assoc. by apply peek_app; [rewrite length_app|]. }
  rewrite (proj2 (Nat.leb_gt _ _)) by lia. unfold encode_entry in Hat. rewrite <-!app_assoc in Hat.
  pose proof (Hat [] _ _ eq_refl) as P1. rewrite length_le_bytes, Nat.add_0_r in P1.
  pose proof (Hat (le_bytes 2 (zlen e.1)) _ _ eq_refl) as P2. rewrite length_le_bytes in P2.
  pose proof (Hat (le_bytes 2 (zlen e.1) ++ e.1) (le_bytes 4 (zlen e.2)) _ (app_assoc _ _ _)) as P3.
  pose proof (Hat (le_bytes 2 (zlen e.1) ++ e.1 ++ le_bytes 4 (zlen e.2)) e.2 rest) as P4.
  rewrite !length_app, !length_le_bytes in P3. rewrite !length_app, !length_le_bytes, <-!app_assoc in P4.
  specialize (P4 eq_refl).
  eapply runs_lift; [exact P1|]. rewrite le_val_le_bytes by (unfold zlen; simpl; lia).
  assert (Hz1 : Z.to_nat (zlen e.1) = length e.1) by (unfold zlen; lia). rewrite Hz1.
  rewrite (proj2 (Nat.ltb_ge _ _)) by lia. rewrite (proj2 (Nat.ltb_lt _ _)) by lia.
  eapply runs_lift; [exact P2|].
  eapply runs_lift; [rewrite <-Nat.add_assoc; exact P3|]. rewrite le_val_le_bytes by (unfold zlen in *; simpl; lia).
  assert (Hz2 : Z.to_nat (zlen e.2) = length e.2) by (unfold zlen; lia). rewrite Hz2.
  rewrite (proj2 (Nat.ltb_ge _ _)) by lia.
  eapply runs_lift; [rewrite <-!Nat.add_assoc; exact P4|]. rewrite cstr_nonul by done.
  rewrite length_app, length_encode_entry in Hr.
  by replace (length pre + 2 + length e.1 + 4 + length e.2)%nat
    with (length pre + (6 + length e.1 + length e.2))%nat by lia.
Qed.

Lemma extract_loop_runs fuel fs target pre es w :
  Forall (entry_fits target) es → (length (encode es) ≤ fuel)%nat → io_ok w →
  runs w (extract_loop fuel fs target (pre ++ encode es) (length pre))
    (λ r _, r = Some (foldl (restore_entry target) fs es)).
Proof.
  intros Hes. revert fuel fs pre w. induction Hes as [|e es He Hes IH]; intros fuel fs pre w Hf Hio.
  { assert (E : extract_loop fuel fs target (pre ++ encode []) (length pre) = mret (Some fs)).
    { unfold encode. cbn [fmap list_fmap concat]. rewrite app_nil_r.
      destruct fuel; cbn [extract_loop]; by rewrite (proj2 (Nat.leb_le _ _)) by lia. }
    rewrite E. by apply runs_ret. }
  rewrite encode_cons in *. rewrite length_app, length_encode_entry in Hf.
  destruct fuel as [|fuel]; [lia|]. apply extract_loop_cons; [done|].
  eapply runs_bind; [by apply extract_file_runs|]. intros fs1 w1 E1 ->. rewrite app_assoc.
  apply IH; [lia|by eauto with koe].
Qed.

(** * Restoring a tree *)
Lemma last_slash_join a n : SLASH ∉ n → last_slash (join a n) = Some (length a).
Proof.
  intros Hn. unfold last_slash, join. rewrite reverse_app, reverse_cons, <-app_assoc.
  rewrite list_find_app_r.
  - cbn. rewrite decide_True by done. cbn. rewrite length_reverse, length_app. cbn. f_equal. lia.
  - apply list_find_None. rewrite Forall_forall. intros x Hx ->. by rewrite elem_of_reverse in Hx.
Qed.

Section Restore.
Context (target : bytes) (files : list bytes → bytes → Prop).
Let t := resolve target.

(** [files] are visible, have one content each, and none lies below another. *)
Hypothesis files_visible : ∀ p c, files p c → p ≠ [] ∧ Forall visible p.
Hypothesis files_fun : ∀ p c c', files p c → files p c' → c = c'.
Hypothesis files_leaves : ∀ p n c c', files (p ++ [n]) c → ¬ files p c'.

(** The directory of every file exists or can be made, and nothing but a file
    is in the way. *)
Definition restorable (fs : fsys) : Prop :=
  ∀ p n c, files (p ++ [n]) c →
    (is_dir fs (t ++ p) ∨ (lookup_node fs (t ++ p) = None ∧ is_dir fs (parent (t ++ p))))
    ∧ fs !! (t ++ p ++ [n]) ≠ Some Dir ∧ fs !! (t ++ p ++ [n]) ≠ Some Special.

Lemma mkdir_at_restorable fs p n c :
  restorable fs → files (p ++ [n]) c →
  let fs' := mkdir_at fs (t ++ p) in
  restorable fs' ∧ is_dir fs' (t ++ p) ∧ ∀ q c', files q c' → fs' !! (t ++ q) = fs !! (t ++ q).
Proof.
  intros Hr Hf fs'. destruct (Hr p n c Hf) as [[Hd|[Hnone Hpar]] _]; unfold fs', mkdir_at.
  { rewrite bool_decide_false; [by split_and!|]. unfold is_dir in Hd. intros [? _]. congruence. }
  rewrite bool_decide_true by done.
  assert (Hkeep : ∀ q c', files q c' → <[t ++ p := Dir]> fs !! (t ++ q) = fs !! (t ++ q)).
  { intros q c' Hq. rewrite lookup_insert_ne; [done|]. intros E. apply app_inv_head in E as ->.
    by eapply files_leaves. }
  split_and!; [|unfold is_dir, lookup_node; destruct (t ++ p) eqn:E; [done|by rewrite lookup_insert_eq]|done].
  intros q m c' Hq. rewrite (Hkeep _ _ Hq). destruct (Hr q m c' Hq) as [Hcase Hnd]. split; [|done].
  destruct (decide (t ++ q = t ++ p)) as [->|Hne].
  - left. unfold is_dir, lookup_node. destruct (t ++ p) eqn:E; [done|by rewrite lookup_insert_eq].
  - destruct Hcase as [Hd|[Hn Hd]]; [left; by apply is_dir_insert_dir|right].
    split; [|by apply is_dir_insert_dir]. unfold lookup_node in *. destruct (t ++ q); [done|].
    by rewrite lookup_insert_ne.
Qed.

Lemma restore_entry_restorable fs p c :
  restorable fs → files p c →
  let fs' := restore_entry target fs (rel_of p, c) in
  restorable fs' ∧ fs' !! (t ++ p) = Some (File c)
  ∧ ∀ q c', files q c' → q ≠ p → fs' !! (t ++ q) = fs !! (t ++ q).
Proof.
  intros Hr Hf fs'. destruct (files_visible p c Hf) as [Hne Hv].
  destruct (exists_last Hne) as (q & n & ->). pose proof Hv as [Hq Hn]%Forall_app. rewrite Forall_singleton in Hn.
  unfold fs', restore_entry. cbn [fst snd].
  rewrite rel_of_snoc, <-join_join, last_slash_join, resolve_snoc by apply Hn.
  rewrite take_join, resolve_rel by done. fold t.
  destruct (mkdir_at_restorable fs q n c Hr Hf) as (Hr1 & Hd1 & Hk1). set (fs1 := mkdir_at fs (t ++ q)) in *.
  destruct (Hr1 q n c Hf) as [_ [Hnd Hns]]. rewrite app_assoc in Hnd, Hns.
  rewrite bool_decide_true; [|by split_and!; [destruct (t ++ q)|rewrite parent_snoc|..]].
  unfold fclose_write. rewrite resolve_snoc, resolve_rel by done. fold t. rewrite <-app_assoc in *.
  split_and!; [|by rewrite lookup_insert_eq|].
  - intros q' m c' Hq'. destruct (Hr1 q' m c' Hq') as [Hcase Hnd']. split.
    + destruct Hcase as [Hd|[Hno Hd]]; [left; by apply is_dir_insert_file|right].
      split; [|by apply is_dir_insert_file]. unfold lookup_node in *. destruct (t ++ q') as [|x l] eqn:E; [done|].
      rewrite <-E in *. rewrite lookup_insert_ne; [done|]. intros E'. apply app_inv_head in E' as <-.
      by eapply files_leaves.
    + destruct (decide (t ++ q' ++ [m] = t ++ q ++ [n])) as [->|]; [by rewrite lookup_insert_eq|].
      by rewrite lookup_insert_ne.
  - intros q' c' Hq' Hne'. rewrite lookup_insert_ne by (intros E; by apply app_inv_head in E as <-).
    by apply (Hk1 q' c').
Qed.

Lemma restore_all fs es :
  restorable fs → Forall (λ e, ∃ p, files p e.2 ∧ e.1 = rel_of p) es →
  let fs' := foldl (restore_entry target) fs es in
  ∀ p c, files p c → ((rel_of p, c) ∈ es ∨ fs !! (t ++ p) = Some (File c)) → fs' !! (t ++ p) = Some (File c).
Proof.
  intros Hr Hes. revert fs Hr. induction Hes as [|[rel c0] es (p0 & Hp0 & Hrel) Hes IH]; intros fs Hr fs' p c Hf Hin.
  { by destruct Hin as [[]%elem_of_nil|?]. }
  cbn in Hp0, Hrel. subst rel. destruct (restore_entry_restorable fs p0 c0 Hr Hp0) as (Hr' & Hw & Hk).
  apply (IH _ Hr' p c Hf). destruct (decide (p = p0)) as [->|Hne].
  - right. by rewrite (files_fun _ _ _ Hf Hp0).
  - destruct Hin as [[E|?]%elem_of_cons|Hin]; [|by left|right; by rewrite (Hk p c)].
    injection E as E ->. apply rel_of_inj in E as ->; [done|by eapply files_visible..].
Qed.
End Restore.

(** * Round trip *)
Section Roundtrip.
Context `{SodiumLaws} `{ReaddirOrder}.

Lemma read_backup_header_image pad h :
  length pad = 1%nat → array_ok 6 (bh_magic h) → byte_ok (bh_version h) → length (bh_salt h) = 32%nat →
  length (bh_nonce h) = 24%nat → 0 ≤ bh_payload_len h < 2 ^ 64 →
  ∃ h', read_backup_header (backup_header_image pad h) = Some h' ∧ bh_magic h' = bh_magic h
    ∧ bh_salt h' = bh_salt h ∧ bh_nonce h' = bh_nonce h ∧ bh_payload_len h' = bh_payload_len h.
Proof.
  intros Hp [Hm _] Hv Hs Hn Hl. unfold read_backup_header, backup_header_image.
  pose proof (length_le64 (bh_created_at h)) as L1. pose proof (length_le64 (bh_payload_len h)) as L2.
  find_fields. rewrite Hm, Hp, L1, Hs, Hn. simpl Nat.sub. rewrite <-L2, peek_all. cbn [mbind option_bind].
  eexists. split; [reflexivity|]. cbn [bh_magic bh_salt bh_nonce bh_payload_len].
  split_and!; try done. unfold le64. by rewrite le_val_le_bytes, u64_id by (rewrite ?u64_id; simpl; lia).
Qed.

(** A .koebak file that holds [plain]. *)
Definition backup_holds (passphrase file plain : bytes) : Prop :=
  ∃ pad h ct, file = backup_header_image pad h ++ ct ∧ length pad = 1%nat ∧ bh_magic h = KOE_BACKUP_MAGIC
    ∧ byte_ok (bh_version h) ∧ length (bh_salt h) = 32%nat ∧ length (bh_nonce h) = 24%nat
    ∧ bh_payload_len h = zlen ct ∧ zlen ct < 2 ^ 64
    ∧ koe_decrypt ct (bh_nonce h) (crypto_pwhash 32 passphrase (take 16 (bh_salt h))) = Some plain.

Lemma koe_backup_export_runs fs out_path passphrase data_dir w :
  let es := backup_entries fs data_dir in
  source_ok fs data_dir → zlen (encode es) < 2 ^ 32 → bytes_ok (encode es) → writable fs (resolve out_path) →
  heap_ok w → io_ok w →
  runs w (koe_backup_export MAX_DEPTH fs out_path passphrase data_dir)
    (λ r _, ∃ f, r = Some (0, fclose_write fs out_path f) ∧ backup_holds passphrase f (encode es)).
Proof.
  intros es Hsrc Hz Hb Hw Hh Hio. unfold koe_backup_export. apply runs_malloc_ok; [done|]. cbn [negb].
  eapply runs_bind.
  { apply (archive_dir_runs fs data_dir Hsrc MAX_DEPTH [] (KoeArchive [] 65536)); try done.
    - rewrite app_nil_r. apply Hsrc.
    - rewrite length_join. cbn. destruct Hsrc as (_ & _ & ? & _). lia.
    - rewrite length_join. unfold MAX_DEPTH. cbn [rel_of]. lia. }
  intros r w1 E1 (arc & -> & Harc & _). cbn [ar_data app] in Harc. change (tree_entries _ _ _ _) with es in Harc. rewrite Harc.
  assert (Hh1 : heap_ok w1) by (by eauto with koe). assert (Hio1 : io_ok w1) by (by eauto with koe).
  apply runs_random. apply runs_malloc_ok; [done|]. cbn [negb]. unfold koe_nonce_generate, KOE_NONCE_LEN.
  apply runs_random. apply runs_malloc_ok; [done|]. cbn [negb].
  set (salt := random_bytes w1 16). set (nonce := random_bytes _ 24).
  destruct (koe_decrypt_encrypt (encode es) nonce (crypto_pwhash 32 passphrase salt)) as (ct & -> & [Hct _] & Hdec);
    [done|done|apply random_array_ok|apply crypto_pwhash_ok; lia|].
  unfold fopen_write. eapply (runs_bind _ _ _ (λ r _, r = true)).
  { apply runs_syscall_ok; [done|]. apply runs_ret. by rewrite bool_decide_true. }
  intros r w2 E2 ->. cbn [negb]. apply runs_random. apply runs_time. set (uninit := random_bytes w2 17).
  set (h := KoeBackupHeader _ _ _ _ _ _). assert (Hio2 : io_ok w2) by (by eapply (io_ok_env _ _ E2)).
  unfold fwrite_chunk.
  eapply (runs_bind _ _ _ (λ r _, r = backup_header_image (take 1 uninit) h)).
  { apply runs_syscall_ok; [done|]. by apply runs_ret. }
  intros f1 w3 E3 ->.
  eapply (runs_bind _ _ _ (λ r _, r = backup_header_image (take 1 uninit) h ++ ct)).
  { apply runs_syscall_ok; [by eauto with koe|]. by apply runs_ret. }
  intros f2 w4 E4 ->. apply runs_ret. eexists. split; [reflexivity|]. exists (take 1 uninit), h, ct.
  assert (Hu : length uninit = 17%nat) by apply length_random_bytes.
  assert (Hs : length salt = 16%nat) by apply length_random_bytes.
  assert (Hn : length nonce = 24%nat) by apply length_random_bytes.
  clearbody uninit salt nonce. unfold h. cbn [bh_magic bh_version bh_salt bh_nonce bh_payload_len]. split_and!; try reflexivity.
  - by rewrite length_take, Hu.
  - unfold byte_ok, KOE_BACKUP_VERSION. lia.
  - by rewrite length_app, length_drop, Hu, Hs.
  - exact Hn.
  - unfold zlen. rewrite Hct. unfold KOE_TAG_LEN. lia.
  - unfold zlen in *. lia.
  - by rewrite (take_app_length' salt _ 16) by done.
Qed.

(** Importing such a file is extracting [plain]. *)
Lemma koe_backup_import_extracts fs in_path passphrase target f plain w :
  lookup_node fs (resolve in_path) = Some (File f) → backup_holds passphrase f plain → heap_ok w → io_ok w →
  ∃ w1, same_env w w1 ∧ koe_backup_import fs in_path passphrase target w
    = (r ← extract_loop (length plain) fs target plain 0; mret ((λ fs, (0, fs)) <$> r)) w1.
Proof.
  intros Hf (pad & h & ct & -> & Hp & Hm & Hv & Hs & Hn & Hl & Hz & Hdec) Hh Hio.
  assert (Hlen : length (backup_header_image pad h) = BACKUP_HEADER_SIZE).
  { unfold backup_header_image. rewrite !length_app, !length_le64, Hm, Hp, Hs, Hn. reflexivity. }
  exists (alloc (alloc (alloc (iotick w)))). split; [done|]. unfold koe_backup_import.
  rewrite (bind_run _ _ _ (Some (backup_header_image pad h ++ ct)) (iotick w))
    by (unfold fopen_read; rewrite bind_syscall_ok, Hf by done; done).
  rewrite peek_here by done. cbn [mbind option_bind].
  destruct (read_backup_header_image pad h) as (h' & -> & M' & S' & N' & L'); try done.
  { rewrite Hm. by apply (bool_decide_unpack _). } { rewrite Hl. unfold zlen in *. lia. }
  rewrite M', Hm, memeq_refl. cbn [negb]. rewrite bind_malloc_ok by done. cbn [negb].
  rewrite L', Hl. unfold zlen at 1. rewrite length_app, Hlen.
  rewrite (proj2 (Z.ltb_ge _ _)) by (unfold zlen; lia). rewrite (bind_lift _ _ _ ct).
  2:{ rewrite peek_skip, Hlen, Nat.sub_diag by lia. unfold zlen. rewrite Nat2Z.id. apply peek_all. }
  rewrite bind_malloc_ok by done. cbn [negb]. rewrite bind_malloc_ok by done. cbn [negb].
  by rewrite N', S', Hdec.
Qed.

Lemma koe_backup_import_runs fs in_path passphrase target f es w :
  lookup_node fs (resolve in_path) = Some (File f) → backup_holds passphrase f (encode es) →
  Forall (entry_fits target) es → heap_ok w → io_ok w →
  runs w (koe_backup_import fs in_path passphrase target)
    (λ r _, r = Some (0, foldl (restore_entry target) fs es)).
Proof.
  intros Hf Hb Hes Hh Hio.
  destruct (koe_backup_import_extracts fs in_path passphrase target f _ w Hf Hb Hh Hio) as (w1 & E1 & Himp).
  destruct (extract_loop_runs (length (encode es)) fs target [] es w1) as (r & w2 & R & E2 & ->);
    [done|lia|by eauto with koe|].
  eexists _, w2. split; [rewrite Himp; by erewrite bind_run by exact R|]. split; [by etrans|done].
Qed.

(** A directory into which the files of the source can be restored. *)
Definition target_ok (fs : fsys) (base : bytes) (fs2 : fsys) (target : bytes) : Prop :=
  restorable target (archived fs base) fs2
  ∧ ∀ p c, archived fs base p c → (length (join target (rel_of p)) ≤ 510)%nat.

Lemma archived_leaves fs base p n c c' :
  fs_ok fs → archived fs base (p ++ [n]) c → ¬ archived fs base p c'.
Proof.
  intros Hok (_ & _ & Hf & _) (Hne & _ & Hf' & _). rewrite app_assoc in Hf.
  destruct (Hok (resolve base ++ p) n) as [Hd _]; [by eexists|]. unfold is_dir, lookup_node in Hd.
  destruct (resolve base ++ p) eqn:E; [by destruct (resolve base), p|congruence].
Qed.

Lemma backup_entries_archived fs base :
  source_ok fs base → Forall (λ e, ∃ p, archived fs base p e.2 ∧ e.1 = rel_of p) (backup_entries fs base).
Proof.
  intros Hsrc. apply Forall_forall. intros e He. eapply tree_entries_sound; [done| |exact He]. constructor.
Qed.

Lemma encode_bytes_ok fs base : source_ok fs base → bytes_ok (encode (backup_entries fs base)).
Proof.
  intros Hsrc. pose proof (backup_entries_archived fs base Hsrc) as Hall. unfold encode.
  induction Hall as [|e es (p & (Hne & Hv & Hf & _) & Hrel) _ IH]; [constructor|]. cbn [fmap list_fmap concat].
  apply bytes_ok_app. split; [|done]. unfold encode_entry. rewrite !bytes_ok_app.
  split_and!; [apply le_bytes_ok|rewrite Hrel; by apply bytes_ok_rel|apply le_bytes_ok|].
  destruct Hsrc as (_ & _ & _ & Hfit). by destruct (Hfit p _ Hne Hv Hf) as [_ Hb]; apply Hb.
Qed.

(** C17: a backup that is exported and imported again with the same passphrase
    restores every visible file of at most 64 MiB, under the same path below the
    target and with the same content, when the paths fit the 512-byte buffers,
    the archive is below 4 GiB, nothing fails, and the target has every directory
    that is needed up to the last level. *)
Theorem koe_backup_roundtrip (fs : fsys) (out_path passphrase data_dir : bytes) (w : world) :
  source_ok fs data_dir → zlen (encode (backup_entries fs data_dir)) < 2 ^ 32 →
  writable fs (resolve out_path) → heap_ok w → io_ok w →
  ∃ fs1 w1, w ⊢ koe_backup_export MAX_DEPTH fs out_path passphrase data_dir ⇓ Some (0, fs1) ⊣ w1
    ∧ ∀ fs2 in_path target w2,
        lookup_node fs2 (resolve in_path) = fs1 !! resolve out_path → target_ok fs data_dir fs2 target →
        heap_ok w2 → io_ok w2 →
        ∃ fs3 w3, w2 ⊢ koe_backup_import fs2 in_path passphrase target ⇓ Some (0, fs3) ⊣ w3
          ∧ ∀ p c, archived fs data_dir p c → fs3 !! (resolve target ++ p) = Some (File c).
Proof.
  intros Hsrc Hz Hw Hh Hio.
  destruct (koe_backup_export_runs fs out_path passphrase data_dir w) as (r & w1 & R1 & _ & f & -> & Hf);
    try done; [by apply encode_bytes_ok|].
  exists (fclose_write fs out_path f), w1. split; [exact R1|]. intros fs2 in_path target w2 Hin [Hres Hfit] Hh2 Hio2.
  unfold fclose_write in Hin. rewrite lookup_insert_eq in Hin.
  pose proof (backup_entries_archived fs data_dir Hsrc) as Hall.
  destruct (koe_backup_import_runs fs2 in_path passphrase target f (backup_entries fs data_dir) w2)
    as (r & w3 & R3 & _ & ->); try done.
  { eapply Forall_impl; [exact Hall|]. intros e (p & Hp & Hrel). pose proof Hp as (Hne & Hv & _ & Hc).
    unfold entry_fits. rewrite Hrel. split_and!; [by destruct p|by apply nonul_rel|by eapply Hfit|].
    unfold MAX_ARCHIVED in Hc. lia. }
  eexists _, w3. split; [exact R3|]. intros p c Hp. eapply (restore_all target (archived fs data_dir)); try done.
  - intros q c' Hq. split; apply Hq.
  - intros q c1 c2 (_ & _ & H1' & _) (_ & _ & H2' & _). congruence.
  - intros q n c1 c2 Hq. eapply archived_leaves; [apply Hsrc|exact Hq].
  - left. apply (tree_entries_complete fs data_dir Hsrc MAX_DEPTH [] p c); [done|apply Hp|..];
      rewrite length_join; cbn [rel_of fmap list_fmap concat length]; destruct Hsrc as (_ & _ & ? & _);
      unfold MAX_DEPTH; lia.
Qed.
End Roundtrip.

(** * Termination *)

(** No entry of the archive makes the loop read past its end, and every path fits
    the buffers with its terminator. *)
Fixpoint entries_inside (fuel : nat) (target plain : bytes) (offset : nat) : bool :=
  if (length plain <=? offset + 6)%nat then true
  else
    match fuel with
    | O => true
    | S fuel' =>
        match peek plain offset 2 with
        | None => false
        | Some pl =>
            let path_len := Z.to_nat (le_val pl) in
            if (length plain <? offset + 2 + path_len)%nat then true
            else
              match peek plain (offset + 2 + path_len) 4 with
              | None => false
              | Some dl =>
                  let data_len := Z.to_nat (le_val dl) in
                  if (length plain <? offset + 2 + path_len + 4 + data_len)%nat then true
                  else (length target + 1 + path_len <? 511)%nat
                       && entries_inside fuel' target plain (offset + 2 + path_len + 4 + data_len)
              end
        end
    end.

Lemma total_extract_file fs target rel data :
  (length target + 1 + length rel < 511)%nat → total (extract_file fs target rel data).
Proof.
  intros Hl. unfold extract_file, mkdir, fopen_write, fwrite_chunk. apply total_bind; [apply total_random|]. intros u.
  rewrite (proj2 (Nat.leb_gt 511 _)); [cbn [andb]|].
  - apply total_bind; [destruct (last_slash _); total|]. intros fs1. apply total_bind; [total|]. intros []; total.
  - unfold snprintf_trunc. rewrite length_take, length_join. lia.
Qed.

(** Every iteration consumes at least six bytes, so the size of the archive is
    fuel enough. *)
Lemma extract_loop_total fuel fs target plain offset w :
  (length plain ≤ offset + fuel)%nat → entries_inside fuel target plain offset = true →
  runs w (extract_loop fuel fs target plain offset) (λ r _, is_Some r).
Proof.
  revert fs offset w. induction fuel as [|fuel IH]; intros fs offset w Hf He; cbn [extract_loop entries_inside] in *.
  { destruct (Nat.leb_spec (length plain) (offset + 6)); [|lia]. apply runs_ret. by eexists. }
  destruct (Nat.leb_spec (length plain) (offset + 6)); [apply runs_ret; by eexists|].
  destruct (peek plain offset 2) as [pl|] eqn:Hpl; [|done]. eapply runs_lift; [done|].
  destruct (Nat.ltb_spec (length plain) (offset + 2 + Z.to_nat (le_val pl))); [apply runs_ret; by eexists|].
  destruct (peek plain (offset + 2 + Z.to_nat (le_val pl)) 4) as [dl|] eqn:Hdl; [|done].
  set (n := if (_ <? 511)%nat then _ else _).
  assert (Hn : (n ≤ Z.to_nat (le_val pl))%nat) by (unfold n; destruct (Nat.ltb_spec (Z.to_nat (le_val pl)) 511); lia).
  assert (Hrel : ∃ rel, peek plain (offset + 2) n = Some rel) by (unfold peek; rewrite decide_True by lia; by eexists).
  destruct Hrel as [rel Hrel]. eapply runs_lift; [exact Hrel|]. eapply runs_lift; [done|].
  destruct (Nat.ltb_spec (length plain) (offset + 2 + Z.to_nat (le_val pl) + 4 + Z.to_nat (le_val dl)));
    [apply runs_ret; by eexists|].
  apply andb_true_iff in He as [Hlen He]. apply Nat.ltb_lt in Hlen.
  assert (Hdata : ∃ data, peek plain (offset + 2 + Z.to_nat (le_val pl) + 4) (Z.to_nat (le_val dl)) = Some data)
    by (unfold peek; rewrite decide_True by lia; by eexists).
  destruct Hdata as [data Hdata]. eapply runs_lift; [exact Hdata|].
  eapply total_bind_runs; [apply total_extract_file|intros fs1 w1 _; apply IH; [lia|exact He]].
  apply peek_Some in Hrel as [Hr _]. pose proof (length_cstr rel). lia.
Qed.

(** C30: importing returns, in every environment, for every file that does not
    decrypt to an archive with an entry that is cut short behind its path or whose
    path does not fit: with 0, or with -1 and the file system untouched. *)
Theorem koe_backup_import_terminates `{Sodium} (fs : fsys) (in_path passphrase target : bytes) (w : world) :
  (∀ f hdr ct plain, lookup_node fs (resolve in_path) = Some (File f) →
     peek f 0 BACKUP_HEADER_SIZE ≫= read_backup_header = Some hdr →
     peek f BACKUP_HEADER_SIZE (Z.to_nat (bh_payload_len hdr)) = Some ct →
     koe_decrypt ct (bh_nonce hdr) (crypto_pwhash 32 passphrase (take 16 (bh_salt hdr))) = Some plain →
     entries_inside (length plain) target plain 0 = true) →
  ∃ rc fs' w', w ⊢ koe_backup_import fs in_path passphrase target ⇓ Some (rc, fs') ⊣ w'
    ∧ (rc = 0 ∨ rc = -1 ∧ fs' = fs).
Proof.
  intros Hin. assert (Hrun : runs w (koe_backup_import fs in_path passphrase target)
    (λ r _, ∃ rc fs', r = Some (rc, fs') ∧ (rc = 0 ∨ rc = -1 ∧ fs' = fs))).
  2:{ destruct Hrun as (r & w' & R & _ & rc & fs' & -> & Hr). by exists rc, fs', w'. }
  assert (Hfail : ∀ w, runs w (mret (Some (-1, fs))) (λ r _, ∃ rc fs', r = Some (rc, fs') ∧ (rc = 0 ∨ rc = -1 ∧ fs' = fs))).
  { intros w0. apply runs_ret. eexists _, _. split; [done|by right]. }
  unfold koe_backup_import. eapply (runs_bind _ _ _ (λ o _, ∀ f, o = Some f → lookup_node fs (resolve in_path) = Some (File f))).
  { unfold fopen_read. apply runs_syscall, runs_ret. intros f. repeat case_match; naive_solver. }
  intros [f|] w1 _ Hf; [|done]. specialize (Hf f eq_refl).
  destruct (peek f 0 BACKUP_HEADER_SIZE ≫= read_backup_header) as [hdr|] eqn:Hhdr; [|done].
  destruct (negb _); [done|]. apply runs_malloc. destruct (w_heap _ _); cbn [negb]; [|done].
  destruct (Z.ltb_spec (zlen f - Z.of_nat BACKUP_HEADER_SIZE) (bh_payload_len hdr)) as [|Hlen]; [done|].
  assert (Hct : ∃ ct, peek f BACKUP_HEADER_SIZE (Z.to_nat (bh_payload_len hdr)) = Some ct).
  { destruct (peek f 0 BACKUP_HEADER_SIZE) as [b|] eqn:Hb; [|done]. unfold peek in Hb. case_decide; [|done].
    unfold peek. rewrite decide_True; [by eexists|]. unfold zlen, BACKUP_HEADER_SIZE in *. lia. }
  destruct Hct as [ct Hct]. eapply runs_lift; [exact Hct|].
  apply runs_malloc. destruct (w_heap _ _); cbn [negb]; [|done].
  apply runs_malloc. destruct (w_heap _ _); cbn [negb]; [|done].
  destruct (koe_decrypt _ _ _) as [plain|] eqn:Hd; [|done].
  eapply runs_bind; [apply extract_loop_total; [lia|by eapply Hin]|]. intros r w2 _ [fs' ->].
  apply runs_ret. eexists _, _. split; [done|by left].
Qed.

(** The walk does not end in a directory whose path has 510 bytes: with the slash
    it fills the buffer, every entry is cut to the directory itself, and the
    recursion never returns. *)
Lemma archive_dir_diverges `{ReaddirOrder} fs base dir n fuel a rel w :
  length dir = 510%nat → snprintf_trunc 512 (join base rel) = dir ++ [SLASH] → (length rel ≤ 511)%nat →
  is_dir fs (resolve (dir ++ [SLASH])) → n ∈ readdir fs (resolve (dir ++ [SLASH])) → hidden n = false → io_ok w →
  runs w (archive_dir fs fuel base a rel) (λ r _, r = None).
Proof.
  intros Hdir Habs Hrel Hd Hn Hh. revert a rel Habs Hrel w. induction fuel as [|fuel IH];
    intros a rel Habs Hrel w Hio; [by apply runs_ret|]. cbn [archive_dir]. rewrite Habs. unfold opendir.
  eapply (runs_bind _ _ _ (λ r _, r = Some (resolve (dir ++ [SLASH])))).
  { apply runs_syscall_ok; [done|]. apply runs_ret. by rewrite bool_decide_true. }
  intros r w1 E1 ->. assert (Hio1 : io_ok w1) by (by eauto with koe). clear E1 Hio.
  assert (Hchild : ∀ m, snprintf_trunc 512 (join (dir ++ [SLASH]) m) = dir ++ [SLASH]).
  { intros m. unfold snprintf_trunc, join. rewrite take_app_le, take_ge by (rewrite length_app, Hdir; cbn; lia). done. }
  assert (Hsub : ∀ m, snprintf_trunc 512 (join base (snprintf_trunc 512 (join rel m))) = dir ++ [SLASH]).
  { intros m. rewrite <-Habs. assert (Hlen : length (dir ++ [SLASH]) = 511%nat) by (rewrite length_app, Hdir; done).
    rewrite <-Habs in Hlen. unfold snprintf_trunc, join in *. rewrite length_take in Hlen.
    rewrite (take_app_ge rel) by lia.
    change (SLASH :: rel ++ ?x) with ((SLASH :: rel) ++ x). rewrite app_assoc, take_app_le by lia. done. }
  revert a w1 Hio1. induction (readdir fs (resolve (dir ++ [SLASH]))) as [|m names IHn]; intros a w1 Hio1.
  { by apply elem_of_nil in Hn. }
  cbn [archive_entries]. destruct (hidden m) eqn:Hm.
  { apply IHn; [|done]. apply elem_of_cons in Hn as [->|]; [congruence|done]. }
  unfold stat. rewrite Hchild. eapply (runs_bind _ _ _ (λ r _, r = Some Dir)).
  { apply runs_syscall_ok; [done|]. by apply runs_ret. }
  intros r w2 E2 ->. eapply runs_bind; [apply IH; [apply Hsub| |by eauto with koe]|].
  - unfold snprintf_trunc. rewrite length_take. lia.
  - intros r w3 _ ->. by apply runs_ret.
Qed.

(** * Where extraction goes wrong *)

(** An archive that ends right after a path makes the loop read the length of the
    data behind the end of the buffer. *)
Lemma koe_backup_import_overread `{SodiumLaws} fs in_path passphrase target f path w :
  lookup_node fs (resolve in_path) = Some (File f) → (5 ≤ length path)%nat → zlen path < 2 ^ 16 →
  backup_holds passphrase f (le_bytes 2 (zlen path) ++ path) → heap_ok w → io_ok w →
  koe_backup_import fs in_path passphrase target w = None.
Proof.
  intros Hf H5 H16 Hb Hh Hio.
  destruct (koe_backup_import_extracts fs in_path passphrase target f _ w Hf Hb Hh Hio) as (w1 & _ & ->).
  set (plain := le_bytes 2 (zlen path) ++ path).
  assert (Hl : length plain = (2 + length path)%nat) by (unfold plain; by rewrite length_app, length_le_bytes).
  rewrite Hl. cbn [Nat.add extract_loop]. unfold mbind at 1, M_bind at 1.
  rewrite Hl, (proj2 (Nat.leb_gt _ _)) by lia.
  rewrite (bind_lift _ _ _ (le_bytes 2 (zlen path))) by (by apply peek_here; [|apply length_le_bytes]).
  rewrite le_val_le_bytes by (unfold zlen in *; simpl; lia).
  assert (Hz : Z.to_nat (zlen path) = length path) by (unfold zlen; lia). rewrite Hz.
  rewrite (proj2 (Nat.ltb_ge _ _)) by lia.
  set (k := if (length path <? 511)%nat then _ else _).
  assert (Hk : (k ≤ length path)%nat) by (unfold k; destruct (Nat.ltb_spec (length path) 511); lia).
  assert (Hrel : ∃ rel, peek plain (0 + 2) k = Some rel) by (unfold peek; rewrite decide_True by lia; by eexists).
  destruct Hrel as [rel Hrel]. rewrite (bind_lift _ _ _ _ Hrel).
  assert (Hn : peek plain (0 + 2 + length path) 4 = None) by (unfold peek; by rewrite decide_False by lia).
  unfold mbind at 1, M_bind at 1, lift at 1. cbn [Nat.add] in Hn |- *. by rewrite Hn.
Qed.

(** A path in the archive is not confined to the target directory. *)
Lemma restore_entry_escapes fs target d m name c :
  resolve target = d ++ [m] → visible name → is_dir fs (resolve target) → writable fs (d ++ [name]) →
  (length (join target (join (str "..") name)) ≤ 510)%nat →
  restore_entry target fs (join (str "..") name, c) !! (d ++ [name]) = Some (File c).
Proof.
  intros Ht Hn Hd Hw Hl. unfold restore_entry. cbn [fst snd].
  rewrite <-join_join, last_slash_join, take_join, (resolve_snoc _ name Hn) by apply Hn.
  assert (Hup : resolve (join target (str "..")) = d).
  { rewrite resolve_join, Ht. cbn [str]. change (walk (d ++ [m]) [DOT; DOT] = d). unfold walk. cbn.
    rewrite length_app. cbn. by rewrite Nat.add_sub, take_app_length. }
  assert (Hdd : is_dir fs d) by (destruct Hw as (_ & Hw & _); by rewrite parent_snoc in Hw).
  rewrite Hup. unfold mkdir_at.
  rewrite (bool_decide_false (lookup_node fs d = None ∧ _)) by (intros [? _]; unfold is_dir in Hdd; congruence).
  rewrite bool_decide_true by done. unfold fclose_write. rewrite (resolve_snoc _ name Hn), Hup. apply lookup_insert_eq.
Qed.

(** Only the last directory of a path is created: a file two missing levels down
    is lost, and the import does not notice. *)
Lemma restore_entry_deep fs target p n c :
  Forall visible (p ++ [n]) → lookup_node fs (resolve target ++ p) = None →
  ¬ is_dir fs (parent (resolve target ++ p)) → restore_entry target fs (rel_of (p ++ [n]), c) = fs.
Proof.
  intros [Hp Hn]%Forall_app Hno Hpar. rewrite Forall_singleton in Hn. unfold restore_entry. cbn [fst snd].
  rewrite rel_of_snoc, <-join_join, last_slash_join, take_join, (resolve_snoc _ n Hn), resolve_rel by (done || apply Hn).
  unfold mkdir_at. rewrite (bool_decide_false (lookup_node _ _ = None ∧ _)) by (by intros [_ ?]).
  rewrite bool_decide_false; [done|]. intros (_ & Hd & _). rewrite parent_snoc in Hd. unfold is_dir in Hd. congruence.
Qed.

(** * Witness *)

(** The two conditions, node by node. *)
Definition node_fits (base : bytes) (b k : list bytes) (nd : node) : Prop :=
  (length (join base (rel_of (drop (length b) k))) ≤ 511)%nat
  ∧ bytes_ok (match nd with File c => c | _ => [] end).
Definition node_restorable (fs2 : fsys) (target : bytes) (b t k : list bytes) (nd : node) : Prop :=
  let p := drop (length b) k in
  nd = Dir ∨ nd = Special
  ∨ (is_dir fs2 (t ++ parent p)
     ∨ (lookup_node fs2 (t ++ parent p) = None ∧ is_dir fs2 (parent (t ++ parent p))))
    ∧ fs2 !! (t ++ p) ≠ Some Dir ∧ fs2 !! (t ++ p) ≠ Some Special
    ∧ (length (join target (rel_of p)) ≤ 510)%nat.
#[local] Instance node_fits_dec base b k nd : Decision (node_fits base b k nd).
Proof. unfold node_fits. apply _. Defined.
#[local] Instance node_restorable_dec fs2 target b t k nd : Decision (node_restorable fs2 target b t k nd).
Proof. unfold node_restorable. apply _. Defined.

Lemma source_ok_nodes fs base :
  let b := resolve base in
  map_Forall (λ k _, is_dir fs (parent k) ∧ name_ok (default [] (last k))) fs →
  is_dir fs b → (length base < 511)%nat →
  map_Forall (node_fits base b) fs →
  source_ok fs base.
Proof.
  intros b H1 H2 H3 H4. split_and!; [by apply fs_ok_nodes|done|done|].
  intros p nd _ _ Hp. specialize (H4 _ _ Hp). unfold node_fits, b in H4. rewrite drop_app_length in H4.
  destruct H4 as [H4 H5]. split; [done|]. by intros c ->.
Qed.

Lemma target_ok_nodes fs base fs2 target :
  map_Forall (node_restorable fs2 target (resolve base) (resolve target)) fs →
  target_ok fs base fs2 target.
Proof.
  intros Hall. split.
  - intros p n c (_ & _ & Hf & _). specialize (Hall _ _ Hf). unfold node_restorable in Hall.
    rewrite drop_app_length, parent_snoc in Hall. by destruct Hall as [|[|(? & ? & ? & _)]].
  - intros p c (_ & _ & Hf & _). specialize (Hall _ _ Hf). unfold node_restorable in Hall.
    rewrite drop_app_length in Hall. by destruct Hall as [|[|(_ & _ & _ & ?)]].
Qed.

#[local] Existing Instance toy_sodium.
#[local] Existing Instance toy_laws.
#[local] Existing Instance readdir_as_stored.

Definition demo_fs : fsys :=
  <[[str "d"] := Dir]> (<[[str "t"] := Dir]> (<[[str "d"; str "a"] := File [1; 2; 3]]>
  (<[[str "d"; str ".h"] := File [9]]> (<[[str "d"; str "s"] := Dir]> (<[[str "d"; str "s"; str "b"] := File []]> ∅))))).

Definition demo_export : option (option (Z * fsys) * world) :=
  koe_backup_export MAX_DEPTH demo_fs (str "x.koebak") (str "pw") (str "/d") (world_at 5).
Definition demo_exported : fsys := match demo_export with Some (Some (_, fs), _) => fs | _ => ∅ end.

Lemma koe_backup_roundtrip_witness :
  ∃ fs1 w1 fs3 w3,
    world_at 5 ⊢ koe_backup_export MAX_DEPTH demo_fs (str "x.koebak") (str "pw") (str "/d") ⇓ Some (0, fs1) ⊣ w1
    ∧ world_at 6 ⊢ koe_backup_import fs1 (str "x.koebak") (str "pw") (str "/t") ⇓ Some (0, fs3) ⊣ w3
    ∧ fs3 !! [str "t"; str "a"] = Some (File [1; 2; 3]) ∧ fs3 !! [str "t"; str "s"; str "b"] = Some (File []).
Proof.
  destruct (koe_backup_roundtrip demo_fs (str "x.koebak") (str "pw") (str "/d") (world_at 5)) as (fs1 & w1 & R1 & Hin).
  - apply source_ok_nodes; apply (bool_decide_unpack _); vm_compute; exact I.
  - vm_compute. reflexivity.
  - apply (bool_decide_unpack _). vm_compute. exact I.
  - intros i. reflexivity.
  - intros i. reflexivity.
  - assert (E : demo_exported = fs1) by (unfold demo_exported, demo_export; rewrite R1; reflexivity).
    destruct (Hin demo_exported (str "x.koebak") (str "/t") (world_at 6)) as (fs3 & w3 & R3 & Hall).
    + rewrite E. reflexivity.
    + apply target_ok_nodes. apply (bool_decide_unpack _). vm_compute. exact I.
    + intros i. reflexivity.
    + intros i. reflexivity.
    + exists fs1, w1, fs3, w3. rewrite E in R3. split_and!; [exact R1|exact R3| |].
      * apply (Hall [str "a"] [1; 2; 3]). apply (bool_decide_unpack _). vm_compute. exact I.
      * apply (Hall [str "s"; str "b"] []). apply (bool_decide_unpack _). vm_compute. exact I.
Defined.

Lemma koe_backup_import_terminates_witness :
  ∃ rc fs' w', world_at 6 ⊢ koe_backup_import demo_exported (str "x.koebak") (str "pw") (str "/t") ⇓ Some (rc, fs') ⊣ w'
    ∧ (rc = 0 ∨ rc = -1 ∧ fs' = demo_exported).
Proof.
  apply (koe_backup_import_terminates demo_exported (str "x.koebak") (str "pw") (str "/t") (world_at 6)).
  intros f hdr ct plain Hf Hh Hc Hd.
  assert (Hall : forallb (λ b, b) (default [false] (
    n ← lookup_node demo_exported (resolve (str "x.koebak"));
    match n with
    | File f =>
        hdr ← peek f 0 BACKUP_HEADER_SIZE ≫= read_backup_header;
        ct ← peek f BACKUP_HEADER_SIZE (Z.to_nat (bh_payload_len hdr));
        plain ← koe_decrypt ct (bh_nonce hdr) (crypto_pwhash 32 (str "pw") (take 16 (bh_salt hdr)));
        Some [entries_inside (length plain) (str "/t") plain 0]
    | _ => None
    end)) = true) by (vm_compute; reflexivity).
  rewrite Hf in Hall. cbn [mbind option_bind] in Hall.
  rewrite Hh in Hall. cbn [mbind option_bind] in Hall. rewrite Hc in Hall. cbn [mbind option_bind] in Hall.
  rewrite Hd in Hall. cbn in Hall. by rewrite andb_true_r in Hall.
Defined.
