(* ===== verification/Matrix.v ===== *)
(** The Matrix client (src/koe_matrix.c, include/koe_matrix.h): the requests it
    builds, the accumulation of the response and the extraction of fields from
    it. libcurl is a parameter. The build without libcurl, in which every call
    returns -1, is not modelled. *)

From S2P Require Import Prelude Version Crc32 Packet Crypto.
Import Strings.String.StringSyntax.

(** * Data *)
Definition KOE_MATRIX_ROOM_ID_MAX : nat := 256.
Definition KOE_MATRIX_USER_ID_MAX : nat := 256.
Definition KOE_MATRIX_TOKEN_MAX : nat := 512.

(** The strings are the whole arrays (256, 512 and 256 bytes). *)
Record koe_matrix_ctx_t := KoeMatrixCtx {
  mx_homeserver : bytes; mx_access_token : bytes; mx_user_id : bytes; mx_use_tls : bool; mx_timeout_ms : Z;
}.
Definition matrix_ok (ctx : koe_matrix_ctx_t) : Prop :=
  length (mx_homeserver ctx) = 256%nat ∧ length (mx_access_token ctx) = KOE_MATRIX_TOKEN_MAX
  ∧ length (mx_user_id ctx) = KOE_MATRIX_USER_ID_MAX.

Definition set_access_token (t : bytes) (ctx : koe_matrix_ctx_t) : koe_matrix_ctx_t :=
  KoeMatrixCtx (mx_homeserver ctx) t (mx_user_id ctx) (mx_use_tls ctx) (mx_timeout_ms ctx).
Definition set_user_id (u : bytes) (ctx : koe_matrix_ctx_t) : koe_matrix_ctx_t :=
  KoeMatrixCtx (mx_homeserver ctx) (mx_access_token ctx) u (mx_use_tls ctx) (mx_timeout_ms ctx).

(** * The response buffer

    [hr_buf] is what has been written, which a NUL follows; [None] is a buffer
    that could not be allocated. *)
Record koe_http_response_t := KoeHttpResponse { hr_buf : option bytes; hr_cap : Z }.

Definition response_init (cap : Z) : M koe_http_response_t :=
  ok ← malloc; mret (KoeHttpResponse (if (ok : bool) then Some [] else None) cap).

(** The result is the number of bytes taken; writing through a null buffer is
    undefined. *)
Definition write_cb (r : koe_http_response_t) (chunk : bytes) : M (nat * koe_http_response_t) :=
  let len := zlen (default [] (hr_buf r)) in
  g ← (if hr_cap r <? len + zlen chunk + 1 then
         ok ← malloc;
         mret (if (ok : bool) then Some (KoeHttpResponse (Some (default [] (hr_buf r))) (hr_cap r + zlen chunk + 1024))
               else None)
       else mret (Some r));
  match g with
  | None => mret (0%nat, r)
  | Some r =>
      match hr_buf r with
      | None => ub
      | Some b =>
          if hr_cap r <? len + zlen chunk + 1 then ub
          else mret (length chunk, KoeHttpResponse (Some (b ++ chunk)) (hr_cap r))
      end
  end.

(** libcurl hands over the body in pieces, and gives up when the callback does
    not take all of one. *)
Fixpoint feed (r : koe_http_response_t) (chunks : list bytes) : M (bool * koe_http_response_t) :=
  match chunks with
  | [] => mret (true, r)
  | c :: chunks' =>
      g ← write_cb r c;
      if (g.1 =? length c)%nat then feed g.2 chunks' else mret (false, g.2)
  end.

(** * Requests *)
Inductive http_method_t := HTTP_GET | HTTP_POST | HTTP_PUT.

Record http_request := HttpRequest {
  rq_method : http_method_t; rq_url : bytes; rq_headers : list bytes; rq_body : option bytes;
  rq_timeout_ms : Z; rq_verify_peer : bool;
}.

(** The network, by the number of the call: the pieces of the body, whether the
    transfer succeeds, and the status; and libsodium's URL-safe base64. *)
Class Curl := {
  curl_answer : nat → http_request → list bytes * bool * Z;
  sodium_bin2base64 : bytes → bytes;
}.

Definition status_ok (code : Z) : bool := (200 <=? code) && (code <? 300).

Definition QUOTE : bytes := [34].
Definition quoted (s : bytes) : bytes := QUOTE ++ s ++ QUOTE.
(** A member of a JSON object with a string value, which is not escaped. *)
Definition json_member (key : String.string) (v : bytes) : bytes := quoted (str key) ++ str ":" ++ quoted v.
#[global] Arguments json_member key%_string_scope v.
Definition json_object (members : bytes) : bytes := str "{" ++ members ++ str "}".

Section Http.
Context `{Curl}.

Definition curl_easy_perform (rq : http_request) (resp : koe_http_response_t) : M (bool * Z * koe_http_response_t) :=
  a ← (λ w, Some (curl_answer (w_ios w) rq, iotick w));
  let '(chunks, ok, code) := a in
  f ← feed resp chunks;
  mret (ok && f.1, code, f.2).

Definition auth_header (ctx : koe_matrix_ctx_t) : bytes :=
  snprintf_trunc (KOE_MATRIX_TOKEN_MAX + 32) (str "Authorization: Bearer " ++ cstr (mx_access_token ctx)).

Definition matrix_http (ctx : koe_matrix_ctx_t) (method : http_method_t) (path : bytes) (body : option bytes)
    (resp : koe_http_response_t) : M (Z * koe_http_response_t) :=
  ok ← malloc;
  if negb ok then mret (-1, resp)
  else
    let url := snprintf_trunc 512 (cstr (mx_homeserver ctx) ++ path) in
    let rq := HttpRequest method url [str "Content-Type: application/json"; auth_header ctx]
                (match method with
                 | HTTP_GET => None
                 | HTTP_POST => Some (default [] body)
                 | HTTP_PUT => body
                 end) (mx_timeout_ms ctx) (mx_use_tls ctx) in
    r ← curl_easy_perform rq resp;
    let '(ok, code, resp) := r in
    if negb ok then mret (-1, resp) else mret (if status_ok code then 0 else -1, resp).

(** * Field extraction *)
Definition json_pattern (key : bytes) : bytes := snprintf_trunc 256 (quoted key ++ str ":").

(** The code and [out]; [None] is a write outside [out]. *)
Definition json_get_str (json key out : bytes) (out_len : nat) : option (Z * bytes) :=
  match strstr json (json_pattern key) with
  | None => Some (-1, out)
  | Some p =>
      match skip_spaces (drop (length (json_pattern key)) p) with
      | b :: p =>
          if b =? 34 then
            out ← poke out 0 (read_until 34 (out_len - 1) p ++ [0]);
            Some (0, out)
          else Some (-1, out)
      | [] => Some (-1, out)
      end
  end.

(** The response as a C string; [None] when there is no buffer. *)
Definition response_string (r : koe_http_response_t) : option bytes := cstr <$> hr_buf r.

(** * Authentication *)
Context `{Sodium}.

Definition matrix_password (id : koe_identity_t) : bytes :=
  sodium_bin2base64 (generichash 32 (id_sk id ++ str "koe-matrix-auth") 32).

Definition koe_matrix_login (ctx : koe_matrix_ctx_t) (id : koe_identity_t) (homeserver : bytes)
  : M (Z * koe_matrix_ctx_t) :=
  let ctx := KoeMatrixCtx (strncpy (mx_homeserver ctx) homeserver 255) (mx_access_token ctx) (mx_user_id ctx) true 10000 in
  let body := snprintf_trunc 512
    (json_object (json_member "type" (str "m.login.password") ++ str ","
                  ++ json_member "user" (cstr (koe_identity_short_id (id_pk id))) ++ str ","
                  ++ json_member "password" (matrix_password id))) in
  resp ← response_init 4096;
  r ← matrix_http ctx HTTP_POST (str "/_matrix/client/r0/login") (Some body) resp;
  if r.1 =? 0 then
    json ← lift (response_string r.2);
    t ← lift (json_get_str json (str "access_token") (mx_access_token ctx) KOE_MATRIX_TOKEN_MAX);
    u ← lift (json_get_str json (str "user_id") (mx_user_id ctx) KOE_MATRIX_USER_ID_MAX);
    mret (r.1, set_user_id u.2 (set_access_token t.2 ctx))
  else mret (r.1, ctx).

(** A request whose response is not looked at. *)
Definition matrix_call (ctx : koe_matrix_ctx_t) (method : http_method_t) (path : bytes) (body : option bytes) : M Z :=
  resp ← response_init 256;
  r ← matrix_http ctx method path body resp;
  mret r.1.

(** The token is erased whatever the server says. *)
Definition koe_matrix_logout (ctx : koe_matrix_ctx_t) : M (Z * koe_matrix_ctx_t) :=
  rc ← matrix_call ctx HTTP_POST (str "/_matrix/client/r0/logout") (Some (str "{}"));
  mret (rc, set_access_token (zeros KOE_MATRIX_TOKEN_MAX) ctx).

(** * Rooms *)
Definition koe_matrix_room_create (ctx : koe_matrix_ctx_t) (name topic : bytes) (room_id_out : option bytes)
  : M (Z * option bytes) :=
  let body := snprintf_trunc 1024
    (json_object (json_member "name" name ++ str "," ++ json_member "topic" topic ++ str ","
      ++ quoted (str "initial_state") ++ str ":["
      ++ json_object (json_member "type" (str "m.room.encryption") ++ str "," ++ json_member "state_key" []
           ++ str "," ++ quoted (str "content") ++ str ":"
           ++ json_object (json_member "algorithm" (str "m.megolm.v1.aes-sha2")))
      ++ str "]")) in
  resp ← response_init 1024;
  r ← matrix_http ctx HTTP_POST (str "/_matrix/client/r0/createRoom") (Some body) resp;
  match room_id_out with
  | Some out =>
      if r.1 =? 0 then
        json ← lift (response_string r.2);
        g ← lift (json_get_str json (str "room_id") out KOE_MATRIX_ROOM_ID_MAX);
        mret (r.1, Some g.2)
      else mret (r.1, Some out)
  | None => mret (r.1, None)
  end.

(** [/_matrix/client/r0/rooms/<room_id>/<what>], cut at 511 characters. *)
Definition room_path (room_id what : bytes) : bytes :=
  snprintf_trunc 512 (str "/_matrix/client/r0/rooms/" ++ room_id ++ str "/" ++ what).

Definition koe_matrix_room_set_name (ctx : koe_matrix_ctx_t) (room_id new_name : bytes) : M Z :=
  matrix_call ctx HTTP_PUT (room_path room_id (str "state/m.room.name"))
    (Some (snprintf_trunc 256 (json_object (json_member "name" new_name)))).

Definition koe_matrix_room_set_topic (ctx : koe_matrix_ctx_t) (room_id new_topic : bytes) : M Z :=
  matrix_call ctx HTTP_PUT (room_path room_id (str "state/m.room.topic"))
    (Some (snprintf_trunc 1200 (json_object (json_member "topic" new_topic)))).

Definition koe_matrix_room_invite (ctx : koe_matrix_ctx_t) (room_id user_id : bytes) : M Z :=
  matrix_call ctx HTTP_POST (room_path room_id (str "invite"))
    (Some (snprintf_trunc 512 (json_object (json_member "user_id" user_id)))).

Definition koe_matrix_room_join (ctx : koe_matrix_ctx_t) (room_id : bytes) : M Z :=
  matrix_call ctx HTTP_POST (room_path room_id (str "join")) (Some (str "{}")).

Definition koe_matrix_room_leave (ctx : koe_matrix_ctx_t) (room_id : bytes) : M Z :=
  matrix_call ctx HTTP_POST (room_path room_id (str "leave")) (Some (str "{}")).

Definition matrix_membership_action (ctx : koe_matrix_ctx_t) (room_id action user_id : bytes)
    (reason : option bytes) : M Z :=
  matrix_call ctx HTTP_POST (room_path room_id action)
    (Some (snprintf_trunc 512 (json_object (json_member "user_id" user_id ++ str ","
                                             ++ json_member "reason" (default [] reason))))).

Definition koe_matrix_room_kick (ctx : koe_matrix_ctx_t) (room_id user_id : bytes) (reason : option bytes) : M Z :=
  matrix_membership_action ctx room_id (str "kick") user_id reason.
Definition koe_matrix_room_ban (ctx : koe_matrix_ctx_t) (room_id user_id : bytes) (reason : option bytes) : M Z :=
  matrix_membership_action ctx room_id (str "ban") user_id reason.
Definition koe_matrix_room_unban (ctx : koe_matrix_ctx_t) (room_id user_id : bytes) : M Z :=
  matrix_membership_action ctx room_id (str "unban") user_id (Some []).

(** The code and the member count; the server is not asked. *)
Definition koe_matrix_room_members (ctx : koe_matrix_ctx_t) (room_id : bytes) (max : Z) : Z * Z := (0, 0).

Definition koe_matrix_room_set_power (ctx : koe_matrix_ctx_t) (room_id user_id : bytes) (power_level : Z) : M Z :=
  matrix_call ctx HTTP_PUT (room_path room_id (str "state/m.room.power_levels"))
    (Some (snprintf_trunc 512
       (json_object (quoted (str "users") ++ str ":" ++ json_object (quoted user_id ++ str ":" ++ dec_int power_level))))).

(** * Synchronisation and media *)

(** Tokens are whole arrays of 256 bytes. The callback gets the whole response
    as one event of the type m.sync.response (a null pointer when there is no
    buffer); it carries a state [S]. *)
Definition koe_matrix_sync {S} (ctx : koe_matrix_ctx_t) (token : option bytes) (timeout_ms : Z)
    (cb : option (bytes → bytes → option bytes → S → S)) (st : S) (next_token : option bytes)
  : M (Z * option bytes * S) :=
  let since := match token with Some t => cstr t | None => [] end in
  let path := snprintf_trunc 512
    (if bool_decide (since = []) then str "/_matrix/client/r0/sync?timeout=" ++ dec_int timeout_ms
     else str "/_matrix/client/r0/sync?since=" ++ since ++ str "&timeout=" ++ dec_int timeout_ms) in
  resp ← response_init 65536;
  r ← matrix_http ctx HTTP_GET path None resp;
  if r.1 =? 0 then
    next ← (match next_token with
            | Some out =>
                json ← lift (response_string r.2);
                g ← lift (json_get_str json (str "next_batch") out 256);
                mret (Some g.2)
            | None => mret None
            end);
    match cb with
    | Some cb => mret (r.1, next, cb [] (str "m.sync.response") (response_string r.2) st)
    | None => mret (r.1, next, st)
    end
  else mret (r.1, next_token, st).

Definition koe_matrix_media_upload (ctx : koe_matrix_ctx_t) (data content_type : bytes) (mxc_uri_out : option bytes)
  : M (Z * option bytes) :=
  ok ← malloc;
  if negb ok then mret (-1, mxc_uri_out)
  else
    let url := snprintf_trunc 512 (cstr (mx_homeserver ctx) ++ str "/_matrix/media/r0/upload") in
    let rq := HttpRequest HTTP_POST url
                [auth_header ctx; snprintf_trunc 256 (str "Content-Type: " ++ content_type)] (Some data)
                (mx_timeout_ms ctx) (mx_use_tls ctx) in
    resp ← response_init 512;
    r ← curl_easy_perform rq resp;
    let '(ok, code, resp) := r in
    if ok && status_ok code then
      match mxc_uri_out with
      | Some out =>
          json ← lift (response_string resp);
          g ← lift (json_get_str json (str "content_uri") out 256);
          mret (0, Some g.2)
      | None => mret (0, None)
      end
    else mret (-1, mxc_uri_out).

Definition koe_matrix_media_download (ctx : koe_matrix_ctx_t) (mxc_uri : bytes) : Z := -1.
End Http.

(** * The response, however it is cut *)
Definition response_holds (b : bytes) (r : koe_http_response_t) : Prop :=
  hr_buf r = Some b ∧ zlen b + 1 ≤ hr_cap r.

Lemma write_cb_runs r b chunk w :
  response_holds b r → heap_ok w →
  runs w (write_cb r chunk) (λ g _, g.1 = length chunk ∧ response_holds (b ++ chunk) g.2).
Proof.
  intros [Hb Hc] Hh. unfold write_cb. rewrite Hb. change (default [] (Some b)) with b.
  eapply (runs_bind _ _ _ (λ g _, ∃ r', g = Some r' ∧ hr_buf r' = Some b ∧ zlen b + zlen chunk + 1 ≤ hr_cap r')).
  - destruct (Z.ltb_spec (hr_cap r) (zlen b + zlen chunk + 1)).
    + apply runs_malloc_ok; [done|]. apply runs_ret. eexists. split; [done|]. split; [done|]. cbn. lia.
    + apply runs_ret. by exists r.
  - intros g w' _ (r' & -> & Hb' & Hc'). rewrite Hb'. rewrite (proj2 (Z.ltb_ge _ _)) by lia. apply runs_ret.
    split; [done|]. split; [done|]. cbn. unfold zlen in *. rewrite length_app. lia.
Qed.

Lemma feed_runs chunks r b w :
  response_holds b r → heap_ok w →
  runs w (feed r chunks) (λ g _, g.1 = true ∧ response_holds (b ++ concat chunks) g.2).
Proof.
  revert r b w. induction chunks as [|c chunks IH]; intros r b w Hr Hh; cbn [feed].
  { apply runs_ret. by rewrite app_nil_r. }
  eapply runs_bind; [by apply write_cb_runs|]. intros g w1 E1 [-> Hg]. rewrite Nat.eqb_refl.
  eapply runs_mono; [apply IH; [exact Hg|by eauto with koe]|]. intros g' w2 _ [Ht Hr']. cbn [concat].
  by rewrite app_assoc.
Qed.

(** The answer to the next request, whatever it is. *)
Definition answers `{Curl} (w : world) (chunks : list bytes) (ok : bool) (code : Z) : Prop :=
  ∀ rq, curl_answer (w_ios w) rq = (chunks, ok, code).

Lemma curl_easy_perform_runs `{Curl} rq resp b chunks ok code w :
  response_holds b resp → heap_ok w → curl_answer (w_ios w) rq = (chunks, ok, code) →
  runs w (curl_easy_perform rq resp) (λ r _, r.1 = (ok, code) ∧ response_holds (b ++ concat chunks) r.2).
Proof.
  intros Hr Hh Ha. unfold curl_easy_perform. eapply (runs_bind _ _ _ (λ a _, a = (chunks, ok, code))).
  { by eexists _, _. }
  intros a w1 E1 ->. eapply runs_bind; [apply feed_runs; [exact Hr|by eapply heap_ok_env; eauto with koe]|].
  intros f w2 _ [Ht Hf]. apply runs_ret. cbn [fst snd]. by rewrite Ht, andb_true_r.
Qed.

(** The request [matrix_http] sends. *)
Definition request_for (ctx : koe_matrix_ctx_t) (method : http_method_t) (path : bytes) (body : option bytes) : http_request :=
  HttpRequest method (snprintf_trunc 512 (cstr (mx_homeserver ctx) ++ path))
    [str "Content-Type: application/json"; auth_header ctx]
    (match method with HTTP_GET => None | HTTP_POST => Some (default [] body) | HTTP_PUT => body end)
    (mx_timeout_ms ctx) (mx_use_tls ctx).

Lemma matrix_http_runs `{Curl} ctx method path body resp b chunks ok code w :
  response_holds b resp → heap_ok w → curl_answer (w_ios w) (request_for ctx method path body) = (chunks, ok, code) →
  runs w (matrix_http ctx method path body resp)
    (λ r _, r.1 = (if ok && status_ok code then 0 else -1) ∧ response_holds (b ++ concat chunks) r.2).
Proof.
  intros Hr Hh Ha. unfold matrix_http. apply runs_malloc_ok; [done|]. cbn [negb].
  eapply runs_bind; [apply curl_easy_perform_runs; [exact Hr|done|exact Ha]|].
  intros [[ok' code'] resp'] w2 _ [[= -> ->] Hb]. destruct ok; cbn [negb andb]; by apply runs_ret.
Qed.

(** Whatever the answer is, a response buffer is left. *)
Lemma matrix_http_safe `{Curl} ctx method path body resp b w :
  response_holds b resp → heap_ok w →
  runs w (matrix_http ctx method path body resp) (λ r _, ∃ b', response_holds b' r.2).
Proof.
  intros Hr Hh. unfold matrix_http. apply runs_malloc_ok; [done|]. cbn [negb]. set (rq := HttpRequest _ _ _ _ _ _).
  destruct (curl_answer (w_ios (alloc w)) rq) as [[chunks ok] code] eqn:Ha.
  eapply runs_bind; [apply curl_easy_perform_runs; [exact Hr|done|exact Ha]|].
  intros [[ok' code'] resp'] w2 _ [_ Hb]. destruct ok'; apply runs_ret; by eexists.
Qed.

(** A request with a fresh response buffer. *)
Lemma response_init_runs {B} cap w (f : koe_http_response_t → M B) R :
  heap_ok w → runs (alloc w) (f (KoeHttpResponse (Some []) cap)) R → runs w (response_init cap ≫= f) R.
Proof. intros Hh Hr. unfold runs, response_init, mbind, M_bind, malloc, mret, M_ret in *. by rewrite Hh. Qed.

Lemma response_fresh cap : 1 ≤ cap → response_holds [] (KoeHttpResponse (Some []) cap).
Proof. by split. Qed.

Lemma matrix_call_runs `{Curl} ctx method path body chunks ok code w :
  heap_ok w → answers w chunks ok code →
  runs w (matrix_call ctx method path body) (λ rc _, rc = if ok && status_ok code then 0 else -1).
Proof.
  intros Hh Ha. unfold matrix_call. apply response_init_runs; [done|].
  eapply runs_bind; [apply matrix_http_runs; [apply response_fresh; lia|done|apply Ha]|]. intros r w' _ [E _].
  by apply runs_ret.
Qed.

(** * Fields *)

(** The first occurrence of [key] in quotes and with a colon behind it is
    followed by the quoted [v]. *)
Definition json_field (json key v : bytes) : Prop :=
  ∃ pre sp post, json = pre ++ json_pattern key ++ sp ++ 34 :: v ++ 34 :: post
    ∧ Forall (λ b, b = 32) sp ∧ (34 ∉ v)
    ∧ ∀ k, (k < length pre)%nat → take (length (json_pattern key)) (drop k json) ≠ json_pattern key.

Lemma poke_string out v :
  (length v < length out)%nat → poke out 0 (v ++ [0]) = Some (v ++ 0 :: drop (S (length v)) out).
Proof.
  intros Hl. rewrite poke_app by (rewrite length_app; cbn; lia). rewrite take_0, length_app. cbn [app length].
  by rewrite Nat.add_1_r, <-app_assoc.
Qed.

Lemma json_get_str_field json key v out out_len :
  json_field json key v → (length v < out_len ≤ length out)%nat →
  json_get_str json key out out_len = Some (0, v ++ 0 :: drop (S (length v)) out).
Proof.
  intros (pre & sp & post & -> & Hsp & Hv & Hfirst) Hl. unfold json_get_str.
  rewrite strstr_first by done. rewrite drop_app_length, skip_spaces_app by done. cbn [Z.eqb Pos.eqb].
  rewrite read_until_stop by (done || lia). by rewrite poke_string by lia.
Qed.

(** Whatever the response is, what is written stays inside the array. *)
Lemma json_get_str_bounded json key out out_len :
  (0 < out_len ≤ length out)%nat →
  ∃ rc out', json_get_str json key out out_len = Some (rc, out') ∧ length out' = length out
    ∧ (rc = -1 ∧ out' = out
       ∨ rc = 0 ∧ ∃ v, out' = v ++ 0 :: drop (S (length v)) out ∧ (length v < out_len)%nat ∧ (34 ∉ v)).
Proof.
  intros Hl. unfold json_get_str. destruct (strstr _ _) as [p|]; [|by eauto 10].
  destruct (skip_spaces _) as [|b q]; [by eauto 10|]. destruct (b =? 34); [|by eauto 10].
  set (v := read_until 34 (out_len - 1) q). assert (Hv : (length v < out_len)%nat).
  { pose proof (length_read_until 34 (out_len - 1) q). unfold v. lia. }
  rewrite poke_string by lia. cbn [mbind option_bind]. eexists _, _. split; [done|].
  split; [rewrite length_app; cbn [length]; rewrite length_drop; lia|]. right. split; [done|].
  exists v. split_and!; [done|done|]. unfold v. generalize (out_len - 1)%nat. clear. intros n. revert q.
  induction n as [|n IH]; intros q; [by apply not_elem_of_nil|]. destruct q as [|b q]; [by apply not_elem_of_nil|].
  cbn [read_until]. destruct (Z.eqb_spec b 34); [by apply not_elem_of_nil|]. by apply not_elem_of_cons.
Qed.

(** C34: extracting a field from any response whatsoever never writes outside the
    output array: either nothing is written, or a terminated string shorter than
    the array that contains no quote; and when the first occurrence of the quoted
    key with a colon right behind it is followed, perhaps after spaces, by a
    quoted value without a quote in it that fits, the result is that value. A
    value with an escaped quote and a key with a space before the colon are not
    covered. *)
Theorem json_get_str_safe (json key out : bytes) (out_len : nat) :
  (0 < out_len ≤ length out)%nat →
  (∃ rc out', json_get_str json key out out_len = Some (rc, out') ∧ length out' = length out
     ∧ (rc = -1 ∧ out' = out
        ∨ rc = 0 ∧ ∃ v, out' = v ++ 0 :: drop (S (length v)) out ∧ (length v < out_len)%nat ∧ (34 ∉ v)))
  ∧ (∀ v, json_field json key v → nonul v → (length v < out_len)%nat →
       ∃ out', json_get_str json key out out_len = Some (0, out') ∧ cstr out' = v).
Proof.
  intros Hl. split; [by apply json_get_str_bounded|]. intros v Hf Hn Hv.
  eexists. split; [by apply (json_get_str_field json key v); [|lia]|]. by apply cstr_app_nul.
Qed.

(** * Sessions with the server *)
Lemma json_field_nonul json key v : nonul json → json_field json key v → nonul v.
Proof.
  intros Hn (pre & sp & post & -> & _). unfold nonul in *. rewrite !Forall_app, Forall_cons, Forall_app in Hn. apply Hn.
Qed.

Lemma auth_header_fits ctx : matrix_ok ctx → auth_header ctx = str "Authorization: Bearer " ++ cstr (mx_access_token ctx).
Proof.
  intros (_ & Hl & _). unfold auth_header. apply take_ge. rewrite length_app. cbn [str length].
  pose proof (length_cstr (mx_access_token ctx)) as Hc. rewrite Hl in Hc. unfold KOE_MATRIX_TOKEN_MAX in *.
  change (length (str "Authorization: Bearer ")) with 22%nat. lia.
Qed.

(** The login request, as the Matrix API wants it: the user is the short id, the
    password the base64 of a hash of the secret key. Whatever token the context
    held is sent along. *)
Definition login_request `{Curl} `{Sodium} (ctx : koe_matrix_ctx_t) (id : koe_identity_t) (homeserver : bytes) : http_request :=
  HttpRequest HTTP_POST (homeserver ++ str "/_matrix/client/r0/login")
    [str "Content-Type: application/json"; str "Authorization: Bearer " ++ cstr (mx_access_token ctx)]
    (Some (str "{" ++ quoted (str "type") ++ str ":" ++ quoted (str "m.login.password")
           ++ str "," ++ quoted (str "user") ++ str ":" ++ quoted (cstr (koe_identity_short_id (id_pk id)))
           ++ str "," ++ quoted (str "password") ++ str ":"
           ++ quoted (sodium_bin2base64 (generichash 32 (id_sk id ++ str "koe-matrix-auth") 32)) ++ str "}"))
    10000 true.

Lemma login_request_sent `{Curl} `{Sodium} ctx id homeserver body :
  matrix_ok ctx → nonul homeserver → (length homeserver < 255)%nat →
  (length (sodium_bin2base64 (generichash 32 (id_sk id ++ str "koe-matrix-auth") 32)) ≤ 43)%nat →
  body = snprintf_trunc 512
    (json_object (json_member "type" (str "m.login.password") ++ str ","
                  ++ json_member "user" (cstr (koe_identity_short_id (id_pk id))) ++ str ","
                  ++ json_member "password" (matrix_password id))) →
  request_for (KoeMatrixCtx (strncpy (mx_homeserver ctx) homeserver 255) (mx_access_token ctx) (mx_user_id ctx) true 10000)
    HTTP_POST (str "/_matrix/client/r0/login") (Some body) = login_request ctx id homeserver.
Proof.
  intros Hm Hn Hl Hpw ->. unfold request_for, login_request. f_equal.
  - cbn [mx_homeserver]. rewrite cstr_strncpy_short by done. unfold snprintf_trunc. apply take_ge.
    rewrite length_app. change (length (str "/_matrix/client/r0/login")) with 24%nat. lia.
  - do 2 f_equal. exact (auth_header_fits ctx Hm).
  - cbn [default]. f_equal. unfold json_object, json_member, quoted, matrix_password, snprintf_trunc.
    rewrite take_ge; [by rewrite <-!app_assoc|].
    assert (Hs : (length (cstr (koe_identity_short_id (id_pk id))) ≤ 16)%nat).
    { etransitivity; [apply length_cstr|]. unfold koe_identity_short_id. destruct (b58_loop _ _ _).
      rewrite length_strncpy; cbn; lia. }
    rewrite !length_app. repeat change (length QUOTE) with 1%nat.
    repeat match goal with |- context [length (str ?s)] =>
      let n := eval vm_compute in (length (str s)) in change (length (str s)) with n end. lia.
Qed.

(** C33: a login sends its request to the login address of the home server with
    the user and password made from the identity, and when the server answers
    that request with success, in pieces cut anywhere, the access token and the
    user id are stored and every later request carries that token in full in its
    authorisation header. The answer is one in which each of the two keys, at its
    first occurrence in quotes with a colon right behind it, has a quoted value without
    escaped quotes that fits its array; memory lasts, the home server's name is
    shorter than 255 bytes and the encoded password has the 43 characters of an
    unpadded base64 of 32 bytes. *)
Theorem koe_matrix_login_token `{Curl} `{Sodium} (ctx : koe_matrix_ctx_t) (id : koe_identity_t)
    (homeserver token user : bytes) (chunks : list bytes) (code : Z) (w : world) :
  matrix_ok ctx → heap_ok w → nonul homeserver → (length homeserver < 255)%nat →
  (length (sodium_bin2base64 (generichash 32 (id_sk id ++ str "koe-matrix-auth") 32)) ≤ 43)%nat →
  curl_answer (w_ios w) (login_request ctx id homeserver) = (chunks, true, code) → 200 ≤ code < 300 → nonul (concat chunks) →
  json_field (concat chunks) (str "access_token") token → json_field (concat chunks) (str "user_id") user →
  (length token < KOE_MATRIX_TOKEN_MAX)%nat → (length user < KOE_MATRIX_USER_ID_MAX)%nat →
  ∃ ctx' w', w ⊢ koe_matrix_login ctx id homeserver ⇓ (0, ctx') ⊣ w'
    ∧ matrix_ok ctx' ∧ cstr (mx_access_token ctx') = token ∧ cstr (mx_user_id ctx') = user
    ∧ ∀ method path body, rq_headers (request_for ctx' method path body)
        = [str "Content-Type: application/json"; str "Authorization: Bearer " ++ token].
Proof.
  intros Hm Hheap Hn Hlh Hpw Ha Hcode Hnul Ht Hu Hlt Hlu. pose proof Hm as (Hh1 & Hh2 & Hh3).
  assert (Hs : status_ok code = true) by (unfold status_ok; apply andb_true_iff; lia).
  assert (Hrun : runs w (koe_matrix_login ctx id homeserver) (λ r _, r.1 = 0 ∧ matrix_ok r.2
    ∧ cstr (mx_access_token r.2) = token ∧ cstr (mx_user_id r.2) = user)).
  { unfold koe_matrix_login. apply response_init_runs; [done|].
    eapply runs_bind; [apply matrix_http_runs; [apply response_fresh; lia|done|]|].
    { rewrite (login_request_sent ctx id homeserver) by done. exact Ha. }
    intros r w1 _ [E [Hb _]]. rewrite E, Hs. cbn [andb Z.eqb].
    eapply runs_lift; [unfold response_string; rewrite Hb; reflexivity|]. cbn [app]. rewrite cstr_nonul by done.
    eapply runs_lift; [by apply (json_get_str_field _ _ token); [|cbn [mx_access_token]; lia]|].
    eapply runs_lift; [by apply (json_get_str_field _ _ user); [|cbn [mx_user_id]; lia]|].
    apply runs_ret. cbn [fst snd set_user_id set_access_token mx_access_token mx_user_id].
    split; [done|]. split; [|split; (apply cstr_app_nul; by eapply json_field_nonul)].
    split_and!; cbn [mx_homeserver mx_access_token mx_user_id set_user_id set_access_token].
    - by rewrite length_strncpy by lia.
    - rewrite length_app. cbn [length]. rewrite length_drop. lia.
    - rewrite length_app. cbn [length]. rewrite length_drop. lia. }
  destruct Hrun as ([rc ctx'] & w' & R & _ & Hrc & Hok & Htok & Huser). cbn [fst] in Hrc. subst rc. exists ctx', w'. split_and!; try done.
  intros method path body. cbn [snd] in *. cbn [request_for rq_headers]. by rewrite auth_header_fits, Htok.
Qed.

(** Whatever the server answers, logging in and out keeps the context in shape. *)
Lemma koe_matrix_login_safe `{Curl} `{Sodium} ctx id homeserver w :
  matrix_ok ctx → heap_ok w → runs w (koe_matrix_login ctx id homeserver) (λ r _, matrix_ok r.2).
Proof.
  intros (Hh1 & Hh2 & Hh3) Hheap. unfold koe_matrix_login. apply response_init_runs; [done|].
  assert (Hhs : length (strncpy (mx_homeserver ctx) homeserver 255) = 256%nat) by (rewrite length_strncpy; lia).
  eapply runs_bind; [apply (matrix_http_safe _ _ _ _ _ []); [by apply response_fresh|done]|].
  intros r w1 _ [b [Hb _]]. destruct (r.1 =? 0); [|by apply runs_ret].
  eapply runs_lift; [unfold response_string; rewrite Hb; reflexivity|].
  unfold KOE_MATRIX_TOKEN_MAX, KOE_MATRIX_USER_ID_MAX in *. cbn [mx_access_token mx_user_id].
  destruct (json_get_str_bounded (cstr b) (str "access_token") (mx_access_token ctx) 512) as (? & t & Et & Hlt & _); [lia|].
  destruct (json_get_str_bounded (cstr b) (str "user_id") (mx_user_id ctx) 256) as (? & u & Eu & Hlu & _); [lia|].
  eapply runs_lift; [exact Et|]. eapply runs_lift; [exact Eu|]. apply runs_ret.
  split_and!; cbn; [done|by rewrite Hlt|by rewrite Hlu].
Qed.

Lemma koe_matrix_logout_safe `{Curl} ctx w :
  matrix_ok ctx → heap_ok w →
  runs w (koe_matrix_logout ctx) (λ r _, matrix_ok r.2 ∧ mx_access_token r.2 = zeros KOE_MATRIX_TOKEN_MAX).
Proof.
  intros (Hh1 & Hh2 & Hh3) Hheap. unfold koe_matrix_logout, matrix_call.
  eapply (runs_bind _ _ _ (λ _ _, True)); [|intros rc w' _ _; by apply runs_ret].
  apply response_init_runs; [done|].
  eapply runs_bind; [apply (matrix_http_safe _ _ _ _ _ []); [by apply response_fresh|done]|]. intros r w' _ _. by apply runs_ret.
Qed.

(** Whatever the server answers, creating a room writes a room id inside the
    array it is given. *)
Lemma koe_matrix_room_create_safe `{Curl} ctx name topic out w :
  opt_ok (λ b : bytes, KOE_MATRIX_ROOM_ID_MAX ≤ length b)%nat out → heap_ok w →
  runs w (koe_matrix_room_create ctx name topic out) (λ r _, length <$> r.2 = length <$> out).
Proof.
  intros Hout Hheap. unfold koe_matrix_room_create. apply response_init_runs; [done|].
  eapply runs_bind; [apply (matrix_http_safe _ _ _ _ _ []); [by apply response_fresh|done]|].
  intros r w1 _ [b [Hb _]]. destruct out as [out|]; [|by apply runs_ret]. destruct (r.1 =? 0); [|by apply runs_ret].
  eapply runs_lift; [unfold response_string; rewrite Hb; reflexivity|].
  destruct (json_get_str_bounded (cstr b) (str "room_id") out KOE_MATRIX_ROOM_ID_MAX) as (rc & o & E & Hl & _).
  { cbn in Hout. unfold KOE_MATRIX_ROOM_ID_MAX in *. lia. }
  eapply runs_lift; [exact E|]. apply runs_ret. cbn. by rewrite Hl.
Qed.

(** Logging out erases the token whatever the server answers. *)
Lemma koe_matrix_logout_erases `{Curl} ctx chunks ok code w :
  heap_ok w → answers w chunks ok code →
  runs w (koe_matrix_logout ctx) (λ r _, r.1 = (if ok && status_ok code then 0 else -1) ∧ cstr (mx_access_token r.2) = []).
Proof.
  intros Hh Ha. unfold koe_matrix_logout. eapply runs_bind; [by eapply matrix_call_runs|]. intros rc w' _ ->.
  by apply runs_ret.
Qed.

(** When the response buffer cannot be allocated its size is recorded all the
    same, and the first piece of the response is copied to a null pointer. *)
Lemma matrix_call_null_response `{Curl} ctx method path body chunk chunks ok code w :
  w_heap w (w_allocs w) = false → w_heap w (S (w_allocs w)) = true → answers w (chunk :: chunks) ok code →
  zlen chunk < 256 → matrix_call ctx method path body w = None.
Proof.
  intros H0 H1 Ha Hc. unfold matrix_call, response_init, matrix_http, curl_easy_perform.
  unfold mbind, M_bind, malloc. cbn [mret M_ret]. rewrite H0. cbn. rewrite H1. cbn [negb]. cbn. unfold answers in Ha.
  rewrite Ha. cbn [feed]. unfold write_cb. cbn [hr_buf hr_cap default].
  rewrite (proj2 (Z.ltb_ge _ _)) by (unfold zlen in *; cbn; lia). done.
Qed.

(** Values are not escaped: a name that contains quotes adds members to the
    request. *)
Lemma json_member_injection key k a b :
  json_member key (a ++ QUOTE ++ str "," ++ quoted (str k) ++ str ":" ++ QUOTE ++ b)
  = json_member key a ++ str "," ++ json_member k b.
Proof. unfold json_member, quoted. by rewrite <-!app_assoc. Qed.

(** A room id that does not leave room for the action in the 512-byte path gives
    the same request whatever the action. *)
Lemma room_path_truncates room what what' :
  (486 ≤ length room)%nat → room_path room what = room_path room what'.
Proof.
  intros Hl. unfold room_path, snprintf_trunc.
  set (p := str "/_matrix/client/r0/rooms/"). assert (Hp : length p = 25%nat) by reflexivity. clearbody p.
  rewrite !(app_assoc p room).
  by rewrite !(take_app_le (p ++ room)) by (rewrite length_app, Hp; lia).
Qed.

(** * Witnesses *)
#[local] Existing Instance toy_sodium.

Definition login_answer : bytes :=
  json_object (json_member "user_id" (str "@me:hs") ++ str ", " ++ quoted (str "access_token") ++ str ": "
               ++ quoted (str "tok123")).
#[local] Instance toy_curl : Curl := {|
  curl_answer _ rq := match rq_method rq with
                      | HTTP_POST => ([take 7 login_answer; drop 7 login_answer], true, 200)
                      | _ => ([], true, 404)
                      end;
  sodium_bin2base64 b := b;
|}.
Definition matrix_zero : koe_matrix_ctx_t := KoeMatrixCtx (zeros 256) (zeros 512) (zeros 256) false 0.

(** Checking a field by search: no occurrence of the pattern before [pre]. *)
Definition field_at (json key v : bytes) (pre sp : nat) : bool :=
  bool_decide (take (length (json_pattern key) + sp + 1 + length v + 1) (drop pre json)
               = json_pattern key ++ replicate sp 32 ++ 34 :: v ++ [34])
  && bool_decide (34 ∉ v)
  && forallb (λ k, negb (bool_decide (take (length (json_pattern key)) (drop k json) = json_pattern key))) (seq 0 pre)
  && (pre <=? length json)%nat.
Lemma field_at_spec json key v pre sp : field_at json key v pre sp = true → json_field json key v.
Proof.
  unfold field_at. rewrite !andb_true_iff, !bool_decide_eq_true, forallb_forall, Nat.leb_le.
  intros (((Heq & Hv) & Hno) & Hpre).
  set (n := (length (json_pattern key) + sp + 1 + length v + 1)%nat) in *.
  exists (take pre json), (replicate sp 32), (drop n (drop pre json)). split_and!.
  - rewrite <-(take_drop pre json) at 1. f_equal. rewrite <-(take_drop n (drop pre json)) at 1. rewrite Heq.
    rewrite <-!app_assoc. cbn [app]. by rewrite <-app_assoc.
  - apply Forall_replicate. done.
  - done.
  - intros k Hk. rewrite length_take in Hk. specialize (Hno k). rewrite in_seq in Hno.
    assert (Hk' : (0 ≤ k < 0 + pre)%nat) by lia. specialize (Hno Hk'). apply negb_true_iff, bool_decide_eq_false in Hno. done.
Qed.

Lemma json_get_str_safe_witness :
  ∃ out', json_get_str login_answer (str "access_token") (zeros 16) 16 = Some (0, out') ∧ cstr out' = str "tok123".
Proof.
  destruct (json_get_str_safe login_answer (str "access_token") (zeros 16) 16) as [_ Hf].
  - cbn. lia.
  - apply Hf.
    + apply (field_at_spec _ _ _ 21 1). vm_compute. reflexivity.
    + apply (bool_decide_unpack _). vm_compute. exact I.
    + cbn. lia.
Defined.

Lemma koe_matrix_login_token_witness :
  ∃ ctx' w', world_at 0 ⊢ koe_matrix_login matrix_zero (KoeIdentity (replicate 32 1) (replicate 64 1)) (str "https://hs") ⇓ (0, ctx') ⊣ w'
    ∧ cstr (mx_access_token ctx') = str "tok123" ∧ cstr (mx_user_id ctx') = str "@me:hs".
Proof.
  destruct (koe_matrix_login_token matrix_zero (KoeIdentity (replicate 32 1) (replicate 64 1)) (str "https://hs") (str "tok123") (str "@me:hs")
    [take 7 login_answer; drop 7 login_answer] 200 (world_at 0)) as (ctx' & w' & R & _ & Ht & Hu & _).
  - split_and!; reflexivity.
  - intros i. reflexivity.
  - apply (bool_decide_unpack _). vm_compute. exact I.
  - apply Nat.ltb_lt. reflexivity.
  - apply Nat.leb_le. reflexivity.
  - reflexivity.
  - lia.
  - apply (bool_decide_unpack _). vm_compute. exact I.
  - apply (field_at_spec _ _ _ 21 1). vm_compute. reflexivity.
  - apply (field_at_spec _ _ _ 1 0). vm_compute. reflexivity.
  - apply Nat.ltb_lt. reflexivity.
  - apply Nat.ltb_lt. reflexivity.
  - exists ctx', w'. split_and!; [exact R|exact Ht|exact Hu].
Defined.
