(* ===== verification/Lifecycle.v ===== *)
(** The life of the program (src/koe_core.c, include/koe.h): bringing the
    context up and down, switching accounts, and the convenience calls that span
    several components. The context is complete here; Core.v works on the part of
    it that messages need. *)

From S2P Require Import Prelude Version Crc32 Packet Crypto Handshake Session Message Db Queue Transport Net Core ContextOps Event.
From S2P Require Import Plugin Presence Media Audio Identity Ghost Account Files Matrix.
Import Strings.String.StringSyntax.

(** * Database connections

    Two structures hold the same connection pointer, so connections are handles
    into a table: a handle that has been closed dangles, and following it is
    undefined. A file is shared by its connections; the last row id and the
    change count belong to a connection. *)
Record conn_info := ConnInfo { ci_path : bytes; ci_rowid : Z; ci_changes : Z }.
Record db_store := DbStore { ds_files : gmap bytes db; ds_conns : gmap nat conn_info; ds_next : nat }.

Definition with_counters (rowid changes : Z) (d : db) : db :=
  Db (d_messages d) (d_contacts d) (d_queue d) (d_next_message d) (d_next_queue d) rowid changes.
Definition conn_db (s : db_store) (c : conn_info) : db :=
  with_counters (ci_rowid c) (ci_changes c) (default empty_db (ds_files s !! ci_path c)).

(** Two connections without a path share nothing; the name of such a database is
    not a path. *)
Definition file_of (s : db_store) (path : option bytes) : bytes :=
  default (0 :: replicate (ds_next s) 1) path.

Definition db_open (cfg : koe_db_config_t) (s : db_store) : M (option nat * db_store) :=
  let path := file_of s (dbc_sqlite_path cfg) in
  let c := ConnInfo path 0 0 in
  r ← koe_db_open cfg (λ path, conn_db s (ConnInfo (file_of s path) 0 0));
  mret (match r with
        | None => (None, s)
        | Some d => (Some (ds_next s), DbStore (<[path := d]> (ds_files s)) (<[ds_next s := c]> (ds_conns s)) (S (ds_next s)))
        end).

Definition db_close (h : option nat) (s : db_store) : M db_store :=
  match h with
  | None => mret s
  | Some h =>
      match ds_conns s !! h with
      | None => ub
      | Some _ => mret (DbStore (ds_files s) (delete h (ds_conns s)) (ds_next s))
      end
  end.

(** A call on the connection behind a handle. *)
Definition with_conn {A} (h : option nat) (f : koe_db_conn_t → M (A * koe_db_conn_t)) (s : db_store)
  : M (A * db_store) :=
  match h with
  | None => r ← f None; mret (r.1, s)
  | Some h =>
      c ← lift (ds_conns s !! h);
      r ← f (Some (conn_db s c));
      d ← lift r.2;
      mret (r.1, DbStore (<[ci_path c := d]> (ds_files s))
                   (<[h := ConnInfo (ci_path c) (d_last_rowid d) (d_changes d)]> (ds_conns s)) (ds_next s))
  end.

(** The offline queue holds the handle it was opened with. *)
Record app_queue := AppQueue { aq_db : option nat; aq_max_per_peer : Z; aq_count : Z }.

Definition queue_open (h : nat) (max_per_peer : Z) (s : db_store) : M (app_queue * db_store) :=
  r ← with_conn (Some h) (λ c, q ← koe_queue_open c max_per_peer; mret (q.2, q_db q.2)) s;
  mret (AppQueue (Some h) (q_max_per_peer r.1) (q_count r.1), r.2).

Definition queue_push `{SqlOrder} (q : app_queue) (pkt : koe_packet_t) (s : db_store) : M (Z * app_queue * db_store) :=
  r ← with_conn (aq_db q) (λ c, p ← koe_queue_push (KoeQueue c (aq_max_per_peer q) (aq_count q)) pkt;
                                mret (p, q_db p.2)) s;
  mret (r.1.1, AppQueue (aq_db q) (q_max_per_peer r.1.2) (q_count r.1.2), r.2).

(** To the calls of Core.v, the queue is that structure with the store its handle
    points into. *)
#[export] Instance app_packet_queue `{SqlOrder} : PacketQueue (app_queue * db_store) :=
  λ q pkt, r ← queue_push q.1 pkt q.2; mret (r.1.1, (r.1.2, r.2)).

(** * Directories *)

(** The loop over [tmp + 1]: [done] is what is before [p]. *)
Fixpoint mkdir_prefixes (done rest : bytes) (fs : fsys) : M fsys :=
  match rest with
  | [] => mret fs
  | b :: rest' =>
      fs ← (if b =? SLASH then mkdir fs done else mret fs);
      mkdir_prefixes (done ++ [b]) rest' fs
  end.

(** The last byte of [tmp] is not initialised: a path that reaches it is read
    past what was written. *)
Definition mkdir_p (path : bytes) (fs : fsys) : M fsys :=
  if (511 <=? length path)%nat then ub
  else
    fs ← mkdir_prefixes (take 1 path) (drop 1 path) fs;
    mkdir fs path.

(** * The context *)

Record koe_config_t := KoeConfig {
  cf_data_root : bytes; cf_passphrase : bytes; cf_relay_host : option bytes; cf_relay_port : Z; cf_ws_port : Z;
  cf_matrix_homeserver : option bytes; cf_discovery_timeout_ms : Z; cf_bluetooth_enabled : Z;
  cf_queue_max_per_peer : Z; cf_db : koe_db_config_t; cf_cache : koe_cache_config_t;
  cf_plugins_dir : option bytes;
}.

Section Lifecycle.
Context `{Sodium} `{SqlOrder} `{FdAlloc} `{Mruby} `{Curl}.

(** The whole [koe_ctx_t]. *)
Record koe_app_t := KoeApp {
  ap_cfg : koe_config_t;
  ap_registry : koe_account_registry_t;
  ap_account : koe_account_t;
  ap_contacts : koe_contact_book_t;
  ap_transport : koe_transport_ctx_t;
  ap_presence : koe_presence_table_t;
  ap_sessions : koe_session_table_t;
  ap_queue : app_queue;
  ap_ghost : koe_ghost_state_t;
  ap_plugins : koe_plugin_registry_t;
  ap_matrix : koe_matrix_ctx_t;
  ap_db : option nat;
  ap_cache : option koe_cache_conn_t;
  ap_initialised : bool;
}.

(** What the process holds beside the context: directories, databases,
    descriptors, the event queue, whether [g_plugin_registry], which only ever
    points into the context, is set, [g_message_id_counter] and [g_peers]. *)
Record process := Process {
  ps_dirs : fsys; ps_dbs : db_store; ps_fds : fd_table; ps_events : event_state; ps_plugin_registry : bool;
  ps_message_counter : Z; ps_peers : list koe_peer_t;
}.

Definition set_dirs (x : fsys) (p : process) : process :=
  Process x (ps_dbs p) (ps_fds p) (ps_events p) (ps_plugin_registry p) (ps_message_counter p) (ps_peers p).
Definition set_dbs (x : db_store) (p : process) : process :=
  Process (ps_dirs p) x (ps_fds p) (ps_events p) (ps_plugin_registry p) (ps_message_counter p) (ps_peers p).
Definition set_fds (x : fd_table) (p : process) : process :=
  Process (ps_dirs p) (ps_dbs p) x (ps_events p) (ps_plugin_registry p) (ps_message_counter p) (ps_peers p).
Definition set_events (x : event_state) (p : process) : process :=
  Process (ps_dirs p) (ps_dbs p) (ps_fds p) x (ps_plugin_registry p) (ps_message_counter p) (ps_peers p).
Definition set_plugin_registry (x : bool) (p : process) : process :=
  Process (ps_dirs p) (ps_dbs p) (ps_fds p) (ps_events p) x (ps_message_counter p) (ps_peers p).
Definition set_statics (n : Z) (x : list koe_peer_t) (p : process) : process :=
  Process (ps_dirs p) (ps_dbs p) (ps_fds p) (ps_events p) (ps_plugin_registry p) n x.

(** [memset] to zero, with the configuration. *)
Definition zero_app (cfg : koe_config_t) : koe_app_t :=
  KoeApp cfg (KoeAccountRegistry (replicate KOE_ACCOUNT_MAX zero_descriptor) 0 (zeros 512))
    (KoeAccount zero_descriptor (KoeIdentity (zeros 32) (zeros 64)) (zeros 256))
    koe_contact_book_init (KoeTransportCtx 0 0 0 (zeros 256) 0 KOE_TRANSPORT_NONE false)
    koe_presence_init koe_session_table_init (AppQueue None 0 0) (KoeGhost false false false)
    (KoePluginRegistry (replicate KOE_PLUGIN_MAX zero_plugin) 0 (zeros 512))
    (KoeMatrixCtx (zeros 256) (zeros KOE_MATRIX_TOKEN_MAX) (zeros KOE_MATRIX_USER_ID_MAX) false 0) None None false.

Definition set_registry (x : koe_account_registry_t) (a : koe_app_t) : koe_app_t :=
  KoeApp (ap_cfg a) x (ap_account a) (ap_contacts a) (ap_transport a) (ap_presence a) (ap_sessions a) (ap_queue a)
    (ap_ghost a) (ap_plugins a) (ap_matrix a) (ap_db a) (ap_cache a) (ap_initialised a).
Definition set_active_account (x : koe_account_t) (a : koe_app_t) : koe_app_t :=
  KoeApp (ap_cfg a) (ap_registry a) x (ap_contacts a) (ap_transport a) (ap_presence a) (ap_sessions a) (ap_queue a)
    (ap_ghost a) (ap_plugins a) (ap_matrix a) (ap_db a) (ap_cache a) (ap_initialised a).
Definition set_book (x : koe_contact_book_t) (a : koe_app_t) : koe_app_t :=
  KoeApp (ap_cfg a) (ap_registry a) (ap_account a) x (ap_transport a) (ap_presence a) (ap_sessions a) (ap_queue a)
    (ap_ghost a) (ap_plugins a) (ap_matrix a) (ap_db a) (ap_cache a) (ap_initialised a).
Definition set_transport (x : koe_transport_ctx_t) (a : koe_app_t) : koe_app_t :=
  KoeApp (ap_cfg a) (ap_registry a) (ap_account a) (ap_contacts a) x (ap_presence a) (ap_sessions a) (ap_queue a)
    (ap_ghost a) (ap_plugins a) (ap_matrix a) (ap_db a) (ap_cache a) (ap_initialised a).
Definition set_tables (x : koe_presence_table_t) (y : koe_session_table_t) (a : koe_app_t) : koe_app_t :=
  KoeApp (ap_cfg a) (ap_registry a) (ap_account a) (ap_contacts a) (ap_transport a) x y (ap_queue a)
    (ap_ghost a) (ap_plugins a) (ap_matrix a) (ap_db a) (ap_cache a) (ap_initialised a).
Definition set_app_queue (x : app_queue) (a : koe_app_t) : koe_app_t :=
  KoeApp (ap_cfg a) (ap_registry a) (ap_account a) (ap_contacts a) (ap_transport a) (ap_presence a) (ap_sessions a) x
    (ap_ghost a) (ap_plugins a) (ap_matrix a) (ap_db a) (ap_cache a) (ap_initialised a).
Definition set_plugins (x : koe_plugin_registry_t) (a : koe_app_t) : koe_app_t :=
  KoeApp (ap_cfg a) (ap_registry a) (ap_account a) (ap_contacts a) (ap_transport a) (ap_presence a) (ap_sessions a)
    (ap_queue a) (ap_ghost a) x (ap_matrix a) (ap_db a) (ap_cache a) (ap_initialised a).
Definition set_matrix (x : koe_matrix_ctx_t) (a : koe_app_t) : koe_app_t :=
  KoeApp (ap_cfg a) (ap_registry a) (ap_account a) (ap_contacts a) (ap_transport a) (ap_presence a) (ap_sessions a)
    (ap_queue a) (ap_ghost a) (ap_plugins a) x (ap_db a) (ap_cache a) (ap_initialised a).
Definition set_db (x : option nat) (a : koe_app_t) : koe_app_t :=
  KoeApp (ap_cfg a) (ap_registry a) (ap_account a) (ap_contacts a) (ap_transport a) (ap_presence a) (ap_sessions a)
    (ap_queue a) (ap_ghost a) (ap_plugins a) (ap_matrix a) x (ap_cache a) (ap_initialised a).
Definition set_cache (x : option koe_cache_conn_t) (a : koe_app_t) : koe_app_t :=
  KoeApp (ap_cfg a) (ap_registry a) (ap_account a) (ap_contacts a) (ap_transport a) (ap_presence a) (ap_sessions a)
    (ap_queue a) (ap_ghost a) (ap_plugins a) (ap_matrix a) (ap_db a) x (ap_initialised a).
Definition set_initialised (x : bool) (a : koe_app_t) : koe_app_t :=
  KoeApp (ap_cfg a) (ap_registry a) (ap_account a) (ap_contacts a) (ap_transport a) (ap_presence a) (ap_sessions a)
    (ap_queue a) (ap_ghost a) (ap_plugins a) (ap_matrix a) (ap_db a) (ap_cache a) x.

(** The part of the context, and of the static variables, that Core.v works on. *)
Definition core_of (app : koe_app_t) (ps : process) : koe_ctx_t (app_queue * db_store) :=
  KoeCtx (ap_initialised app) (ac_keys (ap_account app)) (ap_sessions app) (ap_queue app, ps_dbs ps)
    (ps_message_counter ps) (ps_peers ps).
Definition put_core (c : koe_ctx_t (app_queue * db_store)) (app : koe_app_t) (ps : process) : koe_app_t * process :=
  (set_tables (ap_presence app) (c_sessions c) (set_app_queue (c_queue c).1 app),
   set_statics (c_counter c) (c_peers c) (set_dbs (c_queue c).2 ps)).

(** * Init *)
Definition db_path (cfg : koe_config_t) (d : koe_account_descriptor_t) : bytes :=
  snprintf_trunc 512 (cf_data_root cfg ++ str "/accounts/" ++ cstr (ad_data_subdir d) ++ str "/history.db").

(** Step 4: the first account, or a new one. *)
Definition activate_first (cfg : koe_config_t) (app : koe_app_t) : M (Z * koe_app_t) :=
  if (rg_count (ap_registry app) =? 0)%nat then
    r ← koe_account_create (ap_account app) (ap_registry app) (str "me") (cf_passphrase cfg);
    mret (r.1.1, set_registry r.2 (set_active_account r.1.2 app))
  else
    r ← koe_account_activate (ap_account app) (ap_registry app) 0 (cf_passphrase cfg);
    mret (r.1, set_active_account r.2 app).

(** Opening the database of the active account. *)
Definition open_account_db (cfg : koe_config_t) (app : koe_app_t) (ps : process)
  : M (option nat * koe_app_t * process) :=
  let db_cfg := match dbc_backend (cf_db cfg) with
                | KOE_DB_SQLITE => set_sqlite_path (db_path cfg (ac_desc (ap_account app))) (cf_db cfg)
                | _ => cf_db cfg
                end in
  o ← db_open db_cfg (ps_dbs ps);
  mret (o.1, set_db o.1 app, set_dbs o.2 ps).

(** [koe_contact_book_init] and an ignored [koe_contact_book_load]. *)
Definition load_contacts (h : nat) (app : koe_app_t) (ps : process) : M (koe_app_t * process) :=
  r ← with_conn (Some h) (λ c, b ← koe_contact_book_load koe_contact_book_init c; mret (b.2, c)) (ps_dbs ps);
  mret (set_book r.1 app, set_dbs r.2 ps).

(** Steps 6 to 12, none of which makes [koe_init] fail. *)
Definition bring_up (cfg : koe_config_t) (h : nat) (app : koe_app_t) (ps : process) : M (koe_app_t * process) :=
  r ← load_contacts h app ps;
  let '(app, ps) := r in
  q ← queue_open h (if 0 <? cf_queue_max_per_peer cfg then cf_queue_max_per_peer cfg else KOE_QUEUE_MAX_PER_PEER)
        (ps_dbs ps);
  let '(app, ps) := (set_app_queue q.1 app, set_dbs q.2 ps) in
  t ← koe_transport_init (cf_relay_host cfg) (cf_relay_port cfg) (cf_ws_port cfg) (ps_fds ps);
  let '(app, ps) := (set_transport t.1.2 app, set_fds t.2 ps) in
  let app := set_tables koe_presence_init koe_session_table_init app in
  c ← koe_cache_open (Some (cf_cache cfg));
  let app := set_cache c app in
  let '(app, ps) :=
    match cf_plugins_dir cfg with
    | None => (app, ps)
    | Some dir =>
        let p := koe_plugin_registry_load dir in
        (set_plugins p.2 app, if p.1 =? 0 then set_plugin_registry true ps else ps)
    end in
  match cf_matrix_homeserver cfg with
  | None => mret (set_initialised true app, ps)
  | Some homeserver =>
      m ← koe_matrix_login (ap_matrix app) (ac_keys (ap_account app)) homeserver;
      mret (set_initialised true (set_matrix m.2 app), ps)
  end.

Definition koe_init (cfg : koe_config_t) (ps : process) : M (Z * koe_app_t * process) :=
  let app := zero_app cfg in
  if negb (koe_crypto_init =? 0) then mret (-1, app, ps)
  else
    dirs ← mkdir_p (cf_data_root cfg) (ps_dirs ps);
    let ps := set_dirs dirs ps in
    l ← koe_account_registry_load (cf_data_root cfg) (cf_passphrase cfg);
    let app := set_registry l.2 app in
    if negb (l.1 =? 0) then mret (-1, app, ps)
    else
      a ← activate_first cfg app;
      let app := a.2 in
      if negb (a.1 =? 0) then mret (-1, app, ps)
      else
        o ← open_account_db cfg app ps;
        let '(conn, app, ps) := o in
        match conn with
        | None => mret (-1, app, ps)
        | Some h => r ← bring_up cfg h app ps; mret (0, r.1, r.2)
        end.

(** * Shutdown *)

(** Saving the contacts, ignoring the result. *)
Definition save_contacts (app : koe_app_t) (ps : process) : M process :=
  r ← with_conn (ap_db app) (koe_contact_book_save (ap_contacts app)) (ps_dbs ps);
  mret (set_dbs r.2 ps).

Definition disable_all (r : koe_plugin_registry_t) : koe_plugin_registry_t :=
  KoePluginRegistry ((koe_plugin_disable <$> take (pr_count r) (pr_plugins r)) ++ drop (pr_count r) (pr_plugins r))
    (pr_count r) (pr_plugins_dir r).

Definition koe_shutdown (app : koe_app_t) (ps : process) : M (koe_app_t * process) :=
  if negb (ap_initialised app) then mret (app, ps)
  else
    ps ← (match ap_db app with Some _ => save_contacts app ps | None => mret ps end);
    m ← (if bool_decide (head (mx_access_token (ap_matrix app)) = Some 0) then mret (ap_matrix app)
         else r ← koe_matrix_logout (ap_matrix app); mret r.2);
    let app := set_plugins (disable_all (ap_plugins app)) (set_matrix m app) in
    let t := koe_transport_shutdown (ap_transport app) (ps_fds ps) in
    let '(app, ps) := (set_transport t.1 app, set_fds t.2 (set_plugin_registry false ps)) in
    let app := set_cache (koe_cache_close (ap_cache app)) app in
    let app := set_app_queue (AppQueue None (aq_max_per_peer (ap_queue app)) (aq_count (ap_queue app))) app in
    s ← db_close (ap_db app) (ps_dbs ps);
    let '(app, ps) := (set_db None app, set_dbs s ps) in
    let app := set_book (koe_contact_book_free (ap_contacts app)) app in
    let app := set_active_account (koe_account_deactivate (ap_account app)) app in
    mret (set_initialised false app, ps).

(** * Account rotation *)

(** The union of an event is as long as its longest member. *)
Definition EVENT_DATA_SIZE : nat := 4392.

Definition koe_switch_account (app : koe_app_t) (ps : process) (idx : Z) (passphrase : bytes)
  : M (Z * koe_app_t * process) :=
  if negb (ap_initialised app) then mret (-1, app, ps)
  else
    ps ← save_contacts app ps;
    s ← db_close (ap_db app) (ps_dbs ps);
    let '(app, ps) := (set_db None app, set_dbs s ps) in
    let app := set_book (koe_contact_book_free (ap_contacts app)) app in
    let app := set_active_account (koe_account_deactivate (ap_account app)) app in
    a ← koe_account_activate (ap_account app) (ap_registry app) idx passphrase;
    let app := set_active_account a.2 app in
    if negb (a.1 =? 0) then mret (-1, app, ps)
    else
      o ← open_account_db (ap_cfg app) app ps;
      let '(conn, app, ps) := o in
      match conn with
      | None => mret (-1, app, ps)
      | Some h =>
          r ← load_contacts h app ps;
          let '(app, ps) := r in
          e ← koe_event_post (ps_events ps) (KoeEvent (event_code KOE_EV_IDENTITY_SWITCHED) 0 false (zeros EVENT_DATA_SIZE));
          mret (0, app, set_events e.2 ps)
      end.

(** * Convenience calls *)

(** [offer] and [pkt] are uninitialised locals; the session is zeroed. *)
Definition koe_send_file (app : koe_app_t) (ps : process) (to file_path : bytes) (transfer_id_out : option bytes)
    (offer : koe_media_offer_t) (pkt : koe_packet_t) : M (Z * koe_app_t * process * option bytes) :=
  if negb (ap_initialised app) then mret (-1, app, ps, transfer_id_out)
  else
    b ← koe_media_offer_build file_path to zero_session offer pkt;
    let '(rc, offer, pkt) := b in
    if negb (rc =? 0) then mret (-1, app, ps, transfer_id_out)
    else
      out ← (match transfer_id_out with
             | None => mret None
             | Some out => o ← lift (poke out 0 (concat (hex_byte <$> of_transfer_id offer) ++ [0])); mret (Some o)
             end);
      q ← queue_push (ap_queue app) pkt (ps_dbs ps);
      mret (0, set_app_queue q.1.2 app, set_dbs q.2 ps, out).

(** The short id is not looked at: every contact is added under the zero key. *)
Definition koe_add_contact (app : koe_app_t) (ps : process) (short_id display_name : bytes)
  : M (Z * koe_app_t * process) :=
  if negb (ap_initialised app) then mret (-1, app, ps)
  else
    a ← koe_contact_add (ap_contacts app) (zeros 32) display_name;
    let app := set_book a.2 app in
    if negb (a.1 =? 0) then mret (-1, app, ps)
    else
      r ← with_conn (ap_db app) (koe_contact_book_save (ap_contacts app)) (ps_dbs ps);
      mret (r.1, app, set_dbs r.2 ps).

Definition koe_start_call `{Opus} (app : koe_app_t) (to : bytes) : M (option koe_audio_ctx_t) :=
  if negb (ap_initialised app) then mret None
  else
    ok ← malloc;
    if negb ok then mret None
    else
      r ← koe_audio_init to;
      mret (if r.1 =? 0 then Some r.2 else None).

(** What is freed. *)
Definition koe_end_call `{Opus} (audio : option koe_audio_ctx_t) : option koe_audio_ctx_t :=
  koe_audio_destroy <$> audio.

Definition koe_group_create (app : koe_app_t) (name topic : bytes) (room_id_out : option bytes)
  : M (Z * option bytes) :=
  if negb (ap_initialised app) then mret (-1, room_id_out)
  else koe_matrix_room_create (ap_matrix app) name topic room_id_out.

(** The path and the body are formatted and dropped. *)
Definition koe_group_send (app : koe_app_t) (room_id text : bytes) : M Z :=
  if negb (ap_initialised app) then mret (-1)
  else
    t ← time_null;
    let path := snprintf_trunc 512 (str "/_matrix/client/r0/rooms/" ++ room_id ++ str "/send/m.room.message/" ++ dec_int64 t) in
    let body := snprintf_trunc 4096
      (json_object (json_member "msgtype" (str "m.text") ++ str "," ++ json_member "body" text)) in
    mret (-1).

Definition koe_version_string_full : bytes := str "koe-core/" ++ str "0.1.0" ++ str " proto/" ++ str "0.1".

End Lifecycle.

(** * Directories are created level by level *)
Lemma resolve_rel_of p : Forall visible p → resolve (rel_of p) = p.
Proof.
  induction p as [|n p IH] using rev_ind; intros Hp; [done|]. apply Forall_app in Hp as [Hp Hn].
  rewrite Forall_singleton in Hn. by rewrite rel_of_snoc, resolve_snoc, IH.
Qed.
Lemma rel_of_cons n p : rel_of (n :: p) = SLASH :: n ++ rel_of p.
Proof. done. Qed.

Lemma mkdir_prefixes_name done n rest fs w :
  SLASH ∉ n → mkdir_prefixes done (n ++ rest) fs w = mkdir_prefixes (done ++ n) rest fs w.
Proof.
  revert done fs w. induction n as [|b n IH]; intros pre fs w Hn; cbn [app mkdir_prefixes]; [by rewrite app_nil_r|].
  apply not_elem_of_cons in Hn as [Hb Hn]. destruct (Z.eqb_spec b SLASH) as [->|_]; [done|].
  rewrite bind_ret, IH by done. by rewrite <-app_assoc.
Qed.

(** [fs'] has the first [k] levels of [comps], and differs from [fs] in levels of
    [comps] only. *)
Definition made (fs : fsys) (comps : list bytes) (k : nat) (fs' : fsys) : Prop :=
  (∀ i, (i ≤ k)%nat → is_dir fs' (take i comps))
  ∧ (∀ i, lookup_node fs' (take i comps) = None ∨ is_dir fs' (take i comps))
  ∧ ∀ p, (∀ i, p ≠ take i comps) → fs' !! p = fs !! p.

Lemma mkdir_at_made fs comps k fs' :
  (k < length comps)%nat → made fs comps k fs' → made fs comps (S k) (mkdir_at fs' (take (S k) comps)).
Proof.
  intros Hk (Hd & Hn & Hf). unfold mkdir_at.
  destruct (lookup_lt_is_Some_2 comps k Hk) as [c Hc]. rewrite (take_S_r _ _ _ Hc), parent_snoc, <-(take_S_r _ _ _ Hc).
  destruct (Hn (S k)) as [Hnone|Hdir].
  - rewrite bool_decide_true by (split; [done|by apply Hd]). split_and!.
    + intros i Hi. destruct (decide (i = S k)) as [->|]; [|by apply is_dir_insert_dir, Hd; lia].
      unfold is_dir. rewrite (take_S_r _ _ _ Hc), lookup_node_snoc. apply lookup_insert_eq.
    + intros i. destruct (decide (take i comps = take (S k) comps)) as [->|Hne].
      * right. unfold is_dir. rewrite (take_S_r _ _ _ Hc), lookup_node_snoc. apply lookup_insert_eq.
      * destruct (Hn i) as [Hi|Hi]; [left|right; by apply is_dir_insert_dir]. revert Hi Hne. unfold lookup_node.
        destruct (take i comps); [done|]. intros Hi Hne. by rewrite lookup_insert_ne.
    + intros p Hp. rewrite lookup_insert_ne; [by apply Hf|]. apply not_eq_sym, Hp.
  - rewrite bool_decide_false by (intros [? _]; unfold is_dir in Hdir; congruence). split_and!; [|done..].
    intros i Hi. destruct (decide (i = S k)) as [->|]; [done|]. apply Hd. lia.
Qed.

Lemma mkdir_made fs comps k fs' w :
  Forall visible comps → (k < length comps)%nat → made fs comps k fs' → io_ok w →
  runs w (mkdir fs' (rel_of (take (S k) comps))) (λ fs'' _, made fs comps (S k) fs'').
Proof.
  intros Hv Hk Hm Hio. unfold mkdir. apply runs_syscall_ok; [done|]. apply runs_ret.
  rewrite resolve_rel_of by by apply Forall_take. by apply mkdir_at_made.
Qed.

Lemma mkdir_prefixes_made fs comps k rest fs' w :
  Forall visible comps → rest = drop (S k) comps → (k < length comps)%nat → made fs comps k fs' → io_ok w →
  runs w (mkdir_prefixes (rel_of (take (S k) comps)) (rel_of rest) fs') (λ fs'' _, made fs comps (length comps - 1) fs'').
Proof.
  intros Hv. revert k fs' w. induction rest as [|n rest IH]; intros k fs' w Hr Hk Hm Hio.
  { apply runs_ret. assert (length comps ≤ S k)%nat.
    { apply (f_equal length) in Hr. rewrite length_drop in Hr. simpl in Hr. lia. }
    by replace (length comps - 1)%nat with k by lia. }
  assert (Hn : comps !! S k = Some n) by (rewrite <-(Nat.add_0_r (S k)), <-lookup_drop, <-Hr; done).
  assert (Hrest : rest = drop (S (S k)) comps).
  { by rewrite <-Nat.add_1_r, <-drop_drop, <-Hr. }
  rewrite rel_of_cons. cbn [mkdir_prefixes Z.eqb SLASH Pos.eqb].
  eapply runs_bind; [by apply mkdir_made|]. intros fs1 w1 E1 Hm1. unfold runs.
  rewrite mkdir_prefixes_name by (eapply Forall_lookup_1 in Hv; [|exact Hn]; apply Hv).
  replace ((rel_of (take (S k) comps) ++ [SLASH]) ++ n) with (rel_of (take (S (S k)) comps)).
  - apply IH; [done|by eapply lookup_lt_Some|done|by eauto with koe].
  - rewrite (take_S_r _ (S k) n Hn), rel_of_snoc. unfold join. by rewrite <-app_assoc.
Qed.

(** On a path [/a/b/...] of ordinary names shorter than the buffer, of which no
    level is taken by something that is not a directory, every level exists as a
    directory afterwards, and nothing else in the tree has changed. *)
Lemma mkdir_p_creates (comps : list bytes) (fs : fsys) (w : world) :
  Forall visible comps → comps ≠ [] → (length (rel_of comps) < 511)%nat → io_ok w →
  (∀ i, lookup_node fs (take i comps) = None ∨ is_dir fs (take i comps)) →
  ∃ fs' w', w ⊢ mkdir_p (rel_of comps) fs ⇓ fs' ⊣ w'
    ∧ (∀ i, is_dir fs' (take i comps)) ∧ (∀ p, (∀ i, p ≠ take i comps) → fs' !! p = fs !! p).
Proof.
  intros Hv Hne Hl Hio Hfree. destruct comps as [|n comps]; [done|].
  assert (Hrun : runs w (mkdir_p (rel_of (n :: comps)) fs) (λ fs' _, made fs (n :: comps) (length (n :: comps)) fs')).
  { unfold mkdir_p. rewrite (proj2 (Nat.leb_gt _ _)) by done.
    change (take 1 (rel_of (n :: comps))) with [SLASH]. change (drop 1 (rel_of (n :: comps))) with (n ++ rel_of comps).
    eapply runs_bind.
    - unfold runs. rewrite mkdir_prefixes_name by (apply Forall_cons in Hv as [[[_ [? _]] _] _]; done).
      change ([SLASH] ++ n) with (SLASH :: n). rewrite <-(app_nil_r (SLASH :: n)).
      apply (mkdir_prefixes_made fs (n :: comps) 0 comps fs w); [done|done|simpl; lia| |done].
      split_and!; [|done..]. intros i Hi. by replace i with 0%nat by lia.
    - intros fs1 w1 E1 Hm. rewrite <-(take_ge (n :: comps) (S (length (n :: comps) - 1))) at 1 by (simpl; lia).
      eapply runs_mono; [apply mkdir_made; [done| |exact Hm|by eauto with koe]|]; [simpl; lia|].
      intros fs2 w2 _ Hm2. by replace (S (length (n :: comps) - 1)) with (length (n :: comps)) in Hm2 by (simpl; lia). }
  destruct Hrun as (fs' & w' & R & _ & Hd & _ & Hf). exists fs', w'. split_and!; [done| |done].
  intros i. destruct (decide (i ≤ length (n :: comps))%nat); [by apply Hd|].
  rewrite take_ge by lia. rewrite <-(take_ge (n :: comps) (length (n :: comps))) by done. by apply Hd.
Qed.

(** * No step before the transport is undefined *)
Section Totality.
Context `{SodiumLaws}.

Lemma total_fwrite_chunk f c : total (fwrite_chunk f c).
Proof. unfold fwrite_chunk. total. Qed.
Lemma total_write_descriptors ds f : total (write_descriptors ds f).
Proof.
  revert f. induction ds as [|d ds IH]; intros f; cbn [write_descriptors]; [apply total_ret|].
  apply total_bind; [apply total_fwrite_chunk|done].
Qed.
Hint Resolve total_fwrite_chunk total_write_descriptors : total.

Lemma total_account_mkdir_p path : (length path < 511)%nat → total (account_mkdir_p path).
Proof. intros Hl w. eexists _, _. split; [by apply account_mkdir_p_run|done]. Qed.
Lemma total_koe_account_registry_save reg passphrase :
  (length (cstr (rg_data_root reg)) < 511)%nat → total (koe_account_registry_save reg passphrase).
Proof. intros Hl. unfold koe_account_registry_save. apply total_bind; [by apply total_account_mkdir_p|total]. Qed.
Lemma total_koe_account_registry_load root passphrase : total (koe_account_registry_load root passphrase).
Proof. unfold koe_account_registry_load. total. Qed.
Lemma total_koe_identity_generate id : total (koe_identity_generate id).
Proof. unfold koe_identity_generate. total. Qed.
Lemma total_koe_identity_save id path pass : total (koe_identity_save id path pass).
Proof. unfold koe_identity_save, koe_nonce_generate. total. Qed.
Lemma total_koe_identity_load id path pass : total (koe_identity_load id path pass).
Proof.
  unfold koe_identity_load. apply total_bind; [apply total_fopen_rb|]. intros [f|]; [|apply total_ret].
  destruct (peek f 0 5) as [magic|]; [|apply total_ret]. destruct (memeq 5 magic KOEID); [|apply total_ret].
  destruct (peek f 5 16) as [salt|], (peek f 21 24) as [nonce|], (peek f 45 112) as [ct|] eqn:Hct; try apply total_ret.
  apply total_bind; [apply total_malloc|]. intros []; [|apply total_ret]. cbn [negb].
  destruct (koe_decrypt _ _ _) as [plain|] eqn:Hd; [|apply total_ret].
  apply koe_decrypt_length in Hd. apply peek_Some in Hct as [Hct _].
  intros w. unfold peek. rewrite !decide_True by lia. eapply runs_lift; [done|]. eapply runs_lift; [done|].
  by apply runs_ret.
Qed.
Hint Resolve total_koe_account_registry_load total_koe_identity_generate
  total_koe_identity_save total_koe_identity_load : total.

Lemma total_koe_account_create out reg name pass :
  (length (cstr (rg_data_root reg)) < 480)%nat → total (koe_account_create out reg name pass).
Proof.
  intros Hl. unfold koe_account_create. case_decide; [total|]. apply total_bind; [total|]. intros g.
  destruct (negb _); [total|]. apply total_bind; [total|]. intros created. apply total_bind; [total|]. intros last.
  apply total_bind; [by apply total_account_mkdir_p, account_dir_short|]. intros _. apply total_bind; [total|].
  intros rc. destruct (negb _); [total|]. apply total_bind; [apply total_koe_account_registry_save; cbn; lia|total].
Qed.
Lemma total_koe_account_activate out reg idx pass : total (koe_account_activate out reg idx pass).
Proof. unfold koe_account_activate. total. Qed.
End Totality.

Lemma total_mkdir_p path fs : (length path < 511)%nat → total (mkdir_p path fs).
Proof.
  intros Hl. unfold mkdir_p, mkdir. rewrite (proj2 (Nat.leb_gt _ _)) by done. apply total_bind; [|total].
  generalize (take 1 path). revert fs. induction (drop 1 path) as [|b rest IH]; intros fs pre; cbn [mkdir_prefixes]; [total|].
  apply total_bind; [|done]. unfold mkdir. total.
Qed.
Lemma total_koe_contact_book_load book c : total (koe_contact_book_load book c).
Proof. unfold koe_contact_book_load. cbn. total. Qed.
Lemma total_koe_queue_open c n : total (koe_queue_open c n).
Proof. unfold koe_queue_open, koe_db_migrate. total. Qed.
Lemma total_koe_cache_open c : total (koe_cache_open c).
Proof. unfold koe_cache_open. total. Qed.
Lemma total_koe_event_post s ev : total (koe_event_post s ev).
Proof. unfold koe_event_post. total. Qed.
Lemma total_koe_contact_add book pk name : total (koe_contact_add book pk name).
Proof. unfold koe_contact_add. total. Qed.

(** * Who holds which connection *)
Definition store_ok (s : db_store) : Prop := ∀ h, is_Some (ds_conns s !! h) → (h < ds_next s)%nat.

(** Beside the connections [conns0], the one behind [h] is open if there is one. *)
Definition owns (conns0 : gmap nat conn_info) (h : option nat) (s : db_store) : Prop :=
  store_ok s
  ∧ match h with
    | Some h => conns0 !! h = None ∧ ∃ c, ds_conns s = <[h := c]> conns0
    | None => ds_conns s = conns0
    end.

Lemma db_open_runs conns0 cfg s w :
  owns conns0 None s →
  runs w (db_open cfg s) (λ r _, owns conns0 r.1 r.2 ∧ (r.1 = None ∨ r.1 = Some (ds_next s))).
Proof.
  intros [Hok E]. unfold db_open. eapply total_bind_runs; [unfold koe_db_open; total|]. intros r w' _. apply runs_ret.
  destruct r as [d|]; cbn [fst snd]; [|split; [by split|by left]]. split; [|by right]. split.
  - intros h. cbn [ds_conns ds_next]. destruct (decide (h = ds_next s)) as [->|]; [lia|].
    rewrite lookup_insert_ne by done. intros Hh. specialize (Hok h Hh). lia.
  - cbn [ds_conns]. rewrite <-E. split; [|by eexists].
    destruct (ds_conns s !! ds_next s) eqn:Hn; [|done]. assert (Hlt : is_Some (ds_conns s !! ds_next s)) by by eexists.
    specialize (Hok _ Hlt). lia.
Qed.

Lemma db_close_runs conns0 h s w : owns conns0 h s → runs w (db_close h s) (λ s' _, owns conns0 None s' ∧ ds_next s' = ds_next s).
Proof.
  intros [Hok Hh]. destruct h as [h|]; cbn [db_close]; [|by apply runs_ret]. destruct Hh as (Hn & c & E).
  rewrite E, lookup_insert_eq. apply runs_ret. split; [|done]. split; cbn [ds_conns ds_next].
  - intros k [x Hk]. apply Hok. rewrite E. destruct (decide (k = h)) as [->|]; [by rewrite lookup_insert_eq|].
    rewrite lookup_insert_ne by done. rewrite delete_insert_id in Hk by done. by eexists.
  - by rewrite delete_insert_id.
Qed.

(** A call through a handle that is open only changes what is behind it. *)
Definition same_conn (h : nat) (s s' : db_store) : Prop :=
  ∃ c, ds_conns s' = <[h := c]> (ds_conns s) ∧ ds_next s' = ds_next s.

Lemma owns_same_conn conns0 h s s' : owns conns0 (Some h) s → same_conn h s s' → owns conns0 (Some h) s'.
Proof.
  intros (Hok & Hn & c & E) (c' & E' & En). split.
  - intros k. rewrite E', En. destruct (decide (k = h)) as [->|].
    + intros _. apply Hok. rewrite E. by rewrite lookup_insert_eq.
    + rewrite lookup_insert_ne by done. apply Hok.
  - split; [done|]. exists c'. by rewrite E', E, insert_insert_eq.
Qed.

Lemma with_conn_runs {A} conns0 h (f : koe_db_conn_t → M (A * koe_db_conn_t)) s w :
  (∀ c w, runs w (f c) (λ r _, is_Some c → is_Some r.2)) → owns conns0 h s →
  runs w (with_conn h f s) (λ r _, owns conns0 h r.2 ∧ ds_next r.2 = ds_next s).
Proof.
  intros Hf Ho. destruct h as [h|]; cbn [with_conn].
  - pose proof Ho as (_ & _ & c & E).
    eapply runs_lift; [by rewrite E, lookup_insert_eq|]. eapply runs_bind; [apply Hf|]. intros r w1 _ Hr.
    destruct Hr as [d Hd]; [by eexists|]. eapply runs_lift; [exact Hd|]. apply runs_ret.
    split; [|done]. eapply owns_same_conn; [exact Ho|]. by eexists.
  - eapply runs_bind; [apply Hf|]. intros r w1 _ _. by apply runs_ret.
Qed.

(** What the contact book writes is terminated. *)
Lemma read_cstr_strncpy n m s : (m < n)%nat → is_Some (read_cstr (strncpy (zeros n) s m)).
Proof.
  intros Hm. unfold read_cstr. rewrite decide_True; [by eexists|]. rewrite strncpy_zeros by lia.
  apply elem_of_app. right. unfold zeros. apply list_elem_of_lookup. exists 0%nat.
  apply lookup_replicate. split; [done|lia].
Qed.

Lemma koe_db_contact_upsert_runs conn c w :
  runs w (koe_db_contact_upsert conn (row_of_contact c)) (λ r _, is_Some conn → is_Some r.2).
Proof.
  destruct conn as [d|]; cbn [koe_db_contact_upsert]; [|by apply runs_ret]. unfold prepare, step.
  apply runs_syscall. destruct (w_io w _); cbn [negb]; [|by apply runs_ret].
  destruct (read_cstr_strncpy 64 63 (cstr (ct_display_name c))) as [name Hname]; [lia|].
  destruct (read_cstr_strncpy 16 15 (cstr (ct_short_id c))) as [short Hshort]; [lia|].
  eapply runs_lift; [exact Hname|]. eapply runs_lift; [exact Hshort|]. apply runs_syscall.
  destruct (w_io _ _); by apply runs_ret.
Qed.

Lemma koe_contact_book_save_runs book conn w :
  runs w (koe_contact_book_save book conn) (λ r _, is_Some conn → is_Some r.2).
Proof.
  unfold koe_contact_book_save. eapply (runs_bind _ _ _ (λ c _, is_Some conn → is_Some c));
    [|intros c w' _ Hc; by apply runs_ret].
  revert conn w. induction (bk_contacts book) as [|c cs IH]; intros conn w; cbn [save_loop]; [by apply runs_ret|].
  eapply runs_bind; [apply koe_db_contact_upsert_runs|]. intros r w1 _ Hr.
  eapply runs_mono; [apply IH|]. naive_solver.
Qed.

(** * The context owns its resources *)
Section Balance.
Context `{SodiumLaws} `{SqlOrder} `{FdAlloc} `{Mruby} `{Curl}.

(** Against the descriptors and the connections there were before: closing the
    transport gives back the former, the handle of the context is all there is of
    the latter, and the queue's handle, which may dangle, is nobody else's. *)
Definition app_ok (fds0 : fd_table) (conns0 : gmap nat conn_info) (app : koe_app_t) (ps : process) : Prop :=
  if ap_initialised app then
    (koe_transport_shutdown (ap_transport app) (ps_fds ps)).2 = fds0
    ∧ all_closed (koe_transport_shutdown (ap_transport app) (ps_fds ps)).1
    ∧ owns conns0 (ap_db app) (ps_dbs ps)
    ∧ (∀ h, aq_db (ap_queue app) = Some h → conns0 !! h = None)
    ∧ matrix_ok (ap_matrix app)
  else ps_fds ps = fds0 ∧ owns conns0 None (ps_dbs ps).

Lemma load_contacts_runs conns0 h app ps w :
  owns conns0 (Some h) (ps_dbs ps) →
  runs w (load_contacts h app ps) (λ r _, ∃ b s, r = (set_book b app, set_dbs s ps) ∧ owns conns0 (Some h) s).
Proof.
  intros Ho. unfold load_contacts. eapply runs_bind.
  - eapply with_conn_runs; [|exact Ho]. intros c w1.
    eapply total_bind_runs; [apply total_koe_contact_book_load|]. intros b w2 _. by apply runs_ret.
  - intros r w1 _ [Hs _]. apply runs_ret. by eexists _, _.
Qed.

Lemma open_account_db_runs conns0 cfg app ps w :
  owns conns0 None (ps_dbs ps) →
  runs w (open_account_db cfg app ps) (λ o _, ∃ h s, o = (h, set_db h app, set_dbs s ps) ∧ owns conns0 h s
    ∧ (h = None ∨ h = Some (ds_next (ps_dbs ps)))).
Proof.
  intros Ho. unfold open_account_db. eapply runs_bind; [by apply db_open_runs|].
  intros o w1 _ [Hs Hn]. apply runs_ret. by eexists _, _.
Qed.

Lemma queue_open_runs conns0 h n s w :
  owns conns0 (Some h) s →
  runs w (queue_open h n s) (λ r _, aq_db r.1 = Some h ∧ owns conns0 (Some h) r.2).
Proof.
  intros Ho. unfold queue_open.
  eapply (runs_bind _ _ _ (λ r _, owns conns0 (Some h) r.2 ∧ ds_next r.2 = ds_next s)); [|intros r w1 _ [Hs _]; by apply runs_ret].
  eapply with_conn_runs; [|exact Ho]. intros c w1.
  eapply (runs_bind _ _ _ (λ q _, q_db q.2 = c)); [|intros q w2 _ Hq; apply runs_ret; by rewrite <-Hq].
  unfold koe_queue_open, koe_db_migrate. eapply total_bind_runs; [total|]. intros rc w2 _. by apply runs_ret.
Qed.

Lemma bring_up_runs fds0 conns0 cfg h app ps w :
  (cf_matrix_homeserver cfg = None ∨ heap_ok w) → ap_db app = Some h → matrix_ok (ap_matrix app) → ps_fds ps = fds0 → owns conns0 (Some h) (ps_dbs ps) →
  runs w (bring_up cfg h app ps) (λ r _, ap_initialised r.1 = true ∧ app_ok fds0 conns0 r.1 r.2
    ∧ ap_account r.1 = ap_account app ∧ ap_registry r.1 = ap_registry app ∧ ap_db r.1 = Some h
    ∧ (cf_matrix_homeserver cfg = None → ap_matrix r.1 = ap_matrix app)).
Proof.
  intros Hheap Hdb Hm Hfds Ho. unfold bring_up. eapply runs_bind; [by apply load_contacts_runs|].
  intros r w1 E1 (b & s1 & -> & Ho1). eapply runs_bind; [by apply queue_open_runs|].
  intros [q s2] w2 E2 [Hq Ho2]. cbn [fst snd] in *. eapply runs_bind; [apply koe_transport_init_runs|].
  intros [[rc t] fds'] w3 E3 Hup%set_up_closes. cbn [fst snd] in *.
  eapply total_bind_runs; [apply total_koe_cache_open|]. intros c w4 E4.
  set (app1 := set_cache c _). set (pp := match cf_plugins_dir cfg with Some _ => _ | None => _ end).
  assert (Hpp : ∃ pl reg, pp = (set_plugins pl app1, set_plugin_registry reg (set_fds fds' (set_dbs s2 (set_dbs s1 ps))))).
  { unfold pp. destruct (cf_plugins_dir cfg) as [dir|]; cbn.
    - by eexists _, true.
    - exists (ap_plugins app1), (ps_plugin_registry ps). by destruct app1. }
  destruct Hpp as (pl & reg & ->).
  assert (Hfresh : ∀ k, aq_db q = Some k → conns0 !! k = None).
  { intros k Hk. rewrite Hq in Hk. injection Hk as <-. apply Ho. }
  assert (Hok : ∀ m, matrix_ok m → app_ok fds0 conns0 (set_initialised true (set_matrix m (set_plugins pl app1)))
                  (set_plugin_registry reg (set_fds fds' (set_dbs s2 (set_dbs s1 ps))))).
  { intros m Hm'. unfold app_ok. cbn. rewrite Hdb, <-Hfds. by split_and!; [apply Hup|apply Hup| | |]. }
  destruct (cf_matrix_homeserver cfg) as [hs|].
  - destruct Hheap as [|Hheap]; [done|].
    eapply runs_bind; [apply koe_matrix_login_safe; [done|by eauto 8 using heap_ok_env]|]. intros m w5 _ Hm'. apply runs_ret.
    split; [done|]. split; [by apply Hok|]. by cbn.
  - apply runs_ret. split; [done|]. split; [|by cbn]. exact (Hok (ap_matrix app) Hm).
Qed.

(** The root of a registry, as a string. *)
Lemma cstr_data_root root : nonul root → (length root < 511)%nat → cstr (strncpy (zeros 512) root 511) = root.
Proof. intros Hn Hl. rewrite cstr_strncpy_zeros by (done || lia). apply take_ge. lia. Qed.

Lemma koe_account_registry_load_runs root passphrase w :
  runs w (koe_account_registry_load root passphrase) (λ l _, rg_data_root l.2 = strncpy (zeros 512) root 511).
Proof.
  destruct (total_koe_account_registry_load root passphrase w) as (l & w' & R & E & _). exists l, w'. split; [done|]. split; [done|].
  unfold koe_account_registry_load in R. apply bind_inv in R as (f & w1 & _ & R).
  repeat (case_match; try (injection R as <- _; done)).
Qed.

Lemma activate_first_keeps cfg app r w w' :
  w ⊢ activate_first cfg app ⇓ r ⊣ w' → ap_matrix r.2 = ap_matrix app ∧ ap_initialised r.2 = ap_initialised app.
Proof.
  unfold activate_first. destruct (_ =? 0)%nat; intros (x & w1 & _ & [= <- _])%bind_inv; done.
Qed.

(** Memory only matters to the Matrix login. *)
Lemma koe_init_runs cfg ps w :
  (cf_matrix_homeserver cfg = None ∨ heap_ok w) → nonul (cf_data_root cfg) → (length (cf_data_root cfg) < 480)%nat → store_ok (ps_dbs ps) →
  runs w (koe_init cfg ps) (λ r _,
    app_ok (ps_fds ps) (ds_conns (ps_dbs ps)) r.1.2 r.2 ∧ (r.1.1 = 0 ∧ ap_initialised r.1.2 = true
      ∨ r.1.1 = -1 ∧ ap_initialised r.1.2 = false)
    ∧ (cf_matrix_homeserver cfg = None → head (mx_access_token (ap_matrix r.1.2)) = Some 0)).
Proof.
  intros Hheap Hn Hl Hs. unfold koe_init.
  assert (Hfail : ∀ app dirs, ap_initialised app = false →
    app_ok (ps_fds ps) (ds_conns (ps_dbs ps)) app (set_dirs dirs ps)).
  { intros app dirs Hi. unfold app_ok. by rewrite Hi. }
  destruct (negb _); [apply runs_ret; split_and!; [by destruct ps|by right|done]|].
  eapply total_bind_runs; [apply total_mkdir_p; lia|]. intros dirs w1 E1.
  eapply runs_bind; [apply koe_account_registry_load_runs|]. intros [rc reg] w2 E2 Hreg. cbn [fst snd] in *.
  assert (Hroot : (length (cstr (rg_data_root reg)) < 480)%nat) by (rewrite Hreg, cstr_data_root by (done || lia); lia).
  destruct (negb _); [apply runs_ret; split_and!; [by apply Hfail|by right|done]|].
  eapply (runs_bind _ _ _ (λ a _, ap_initialised a.2 = false ∧ ap_matrix a.2 = ap_matrix (zero_app cfg))).
  { unfold activate_first. destruct (_ =? 0)%nat;
      (eapply total_bind_runs; [by apply total_koe_account_create || apply total_koe_account_activate|]);
      intros r w3 _; by apply runs_ret. }
  intros [rca app] w3 E3 [Hi Hm]. cbn [fst snd] in *.
  destruct (negb _); [apply runs_ret; cbn [fst snd]; rewrite Hm; split_and!; [by apply Hfail|by right|done]|].
  eapply runs_bind; [apply (open_account_db_runs (ds_conns (ps_dbs ps))); by split|].
  intros o w4 E4 (h & s & -> & Ho & _). destruct h as [h|].
  - eapply runs_bind; [apply bring_up_runs; [|done|cbn; by rewrite Hm|done|exact Ho]|].
    { destruct Hheap as [|Hheap]; [by left|right]. by eauto 8 using heap_ok_env. }
    intros r w5 _ (Hi' & Hok & _ & _ & _ & Hm'). apply runs_ret. split_and!; [done|by left|]. cbn [fst snd].
    intros Hnone. rewrite Hm' by done. cbn. by rewrite Hm.
  - apply runs_ret. cbn [fst snd ap_matrix set_db]. rewrite Hm. split_and!; [|by right|done]. unfold app_ok. cbn. by rewrite Hi.
Qed.

(** ** Shutdown *)
Definition released (app : koe_app_t) : Prop :=
  ac_keys (ap_account app) = KoeIdentity (zeros 32) (zeros 64) ∧ ac_passphrase (ap_account app) = zeros 256
  ∧ head (mx_access_token (ap_matrix app)) = Some 0 ∧ all_closed (ap_transport app)
  ∧ ap_db app = None ∧ aq_db (ap_queue app) = None ∧ ap_contacts app = koe_contact_book_init
  ∧ Forall (λ p, pl_vm p = None ∧ pl_loaded p = false) (take (pr_count (ap_plugins app)) (pr_plugins (ap_plugins app))).

Lemma disable_all_disables r :
  Forall (λ p, pl_vm p = None ∧ pl_loaded p = false) (take (pr_count (disable_all r)) (pr_plugins (disable_all r))).
Proof.
  cbn [disable_all pr_count pr_plugins]. destruct (decide (pr_count r ≤ length (pr_plugins r))%nat) as [Hl|Hl].
  - rewrite take_app_length' by (rewrite length_fmap, length_take; lia). apply Forall_fmap, Forall_true. done.
  - apply Forall_take, Forall_app. rewrite drop_ge by lia. split; [apply Forall_fmap, Forall_true; done|constructor].
Qed.

Lemma save_contacts_runs conns0 app ps w :
  owns conns0 (ap_db app) (ps_dbs ps) →
  runs w (save_contacts app ps) (λ ps' _, ∃ s, ps' = set_dbs s ps ∧ owns conns0 (ap_db app) s ∧ ds_next s = ds_next (ps_dbs ps)).
Proof.
  intros Ho. unfold save_contacts. eapply runs_bind; [eapply with_conn_runs; [|exact Ho]; apply koe_contact_book_save_runs|].
  intros r w1 _ [Hs Hn]. apply runs_ret. by eexists.
Qed.

Lemma koe_shutdown_runs fds0 conns0 app ps w :
  app_ok fds0 conns0 app ps → (head (mx_access_token (ap_matrix app)) = Some 0 ∨ heap_ok w) →
  runs w (koe_shutdown app ps) (λ r _,
    ps_fds r.2 = fds0 ∧ owns conns0 None (ps_dbs r.2) ∧ ap_initialised r.1 = false
    ∧ ap_sessions r.1 = ap_sessions app ∧ (ap_initialised app = true → released r.1)).
Proof.
  unfold app_ok, koe_shutdown. destruct (ap_initialised app) eqn:Hi; cbn [negb].
  2:{ intros [Hf Ho] _. apply runs_ret. split_and!; try done. }
  intros (Hf & Hc & Ho & _ & Hm) Hheap.
  eapply (runs_bind _ _ _ (λ ps' _, ∃ s, ps' = set_dbs s ps ∧ owns conns0 (ap_db app) s ∧ ds_next s = ds_next (ps_dbs ps))).
  { destruct (ap_db app) as [h|] eqn:Hdb.
    - rewrite <-Hdb in *. by apply save_contacts_runs.
    - apply runs_ret. exists (ps_dbs ps). split; [by destruct ps|done]. }
  intros ? w1 E1 (s1 & -> & Ho1 & _).
  eapply (runs_bind _ _ _ (λ m _, head (mx_access_token m) = Some 0)).
  { case_bool_decide as Ht; [by apply runs_ret|]. destruct Hheap as [|Hheap]; [done|].
    eapply runs_bind; [apply koe_matrix_logout_safe; [done|by eauto with koe]|]. intros r w2 _ [_ Ht'].
    apply runs_ret. by rewrite Ht'. }
  intros m w2 _ Ht. cbn [ap_db set_transport set_app_queue set_cache set_matrix set_plugins ps_dbs set_fds set_plugin_registry set_dbs].
  eapply runs_bind; [apply db_close_runs; exact Ho1|]. intros s w3 _ [Hs _]. apply runs_ret. cbn [fst snd].
  split; [exact Hf|]. split; [exact Hs|]. split; [done|]. split; [done|]. intros _.
  unfold released. cbn. split_and!; try done. apply disable_all_disables.
Qed.

(** ** Operations *)
Inductive app_op :=
  | AppSwitch (idx : Z) (passphrase : bytes)
  | AppAddContact (short_id name : bytes)
  | AppSendFile (to path : bytes) (out : option bytes) (offer : koe_media_offer_t) (pkt : koe_packet_t)
  | AppCore (op : ctx_op).

Definition app_run (op : app_op) (app : koe_app_t) (ps : process) : M (koe_app_t * process) :=
  match op with
  | AppSwitch idx pass => r ← koe_switch_account app ps idx pass; mret (r.1.2, r.2)
  | AppAddContact sid name => r ← koe_add_contact app ps sid name; mret (r.1.2, r.2)
  | AppSendFile to path out offer pkt =>
      r ← koe_send_file app ps to path out offer pkt; mret (r.1.1.2, r.1.2)
  | AppCore op => c ← ctx_run op (core_of app ps); mret (put_core c app ps)
  end.

Inductive app_step : koe_app_t * process * world → koe_app_t * process * world → Prop :=
  | AppStep op app ps w app' ps' w' :
      w ⊢ app_run op app ps ⇓ (app', ps') ⊣ w' → app_step (app, ps, w) (app', ps', w').

Lemma koe_switch_account_runs fds0 conns0 app ps idx pass w :
  app_ok fds0 conns0 app ps →
  runs w (koe_switch_account app ps idx pass) (λ r _,
    app_ok fds0 conns0 r.1.2 r.2 ∧ ap_queue r.1.2 = ap_queue app ∧ ap_matrix r.1.2 = ap_matrix app
    ∧ (ap_initialised app = true → ap_db r.1.2 = None ∨ ap_db r.1.2 = Some (ds_next (ps_dbs ps)))).
Proof.
  intros Hok. unfold koe_switch_account. destruct (ap_initialised app) eqn:Hi; cbn [negb]; [|by apply runs_ret].
  pose proof Hok as Hok'. unfold app_ok in Hok'. rewrite Hi in Hok'. destruct Hok' as (Hf & Hc & Ho & Hq & Hm).
  eapply runs_bind; [by apply save_contacts_runs|]. intros ? w1 _ (s1 & -> & Ho1 & Hn1).
  eapply runs_bind; [apply db_close_runs; exact Ho1|]. intros s2 w2 _ [Ho2 Hn2].
  set (app1 := set_active_account _ _).
  eapply total_bind_runs; [apply total_koe_account_activate|]. intros [rc acc] w3 _. cbn [fst snd].
  assert (Hkeep : ∀ a h b s, owns conns0 h s →
    app_ok fds0 conns0 (set_book b (set_db h (set_active_account a app1))) (set_dbs s ps)).
  { intros a h b s Hs. unfold app_ok. cbn. by rewrite Hi. }
  destruct (negb _).
  { apply runs_ret. split; [exact (Hkeep acc None _ s2 Ho2)|]. split_and!; [done|done|by left]. }
  eapply runs_bind; [apply open_account_db_runs; exact Ho2|]. intros o w4 _ (h & s & -> & Hs & Hh).
  cbn [ps_dbs set_dbs] in Hh, Hn2. rewrite Hn2, Hn1 in Hh. destruct h as [h|].
  - eapply runs_bind; [by apply load_contacts_runs|]. intros r w5 _ (b & s' & -> & Hs').
    eapply total_bind_runs; [apply total_koe_event_post|]. intros e w6 _. apply runs_ret.
    split; [exact (Hkeep acc (Some h) b s' Hs')|]. by split.
  - apply runs_ret. split; [exact (Hkeep acc None _ s Hs)|]. by split.
Qed.

Lemma koe_add_contact_runs fds0 conns0 app ps sid name w :
  app_ok fds0 conns0 app ps →
  runs w (koe_add_contact app ps sid name) (λ r _, app_ok fds0 conns0 r.1.2 r.2 ∧ ap_matrix r.1.2 = ap_matrix app).
Proof.
  intros Hok. unfold koe_add_contact. destruct (ap_initialised app) eqn:Hi; cbn [negb]; [|by apply runs_ret].
  pose proof Hok as Hok'. unfold app_ok in Hok'. rewrite Hi in Hok'. destruct Hok' as (Hf & Hc & Ho & Hq & Hm).
  assert (Hkeep : ∀ b s, owns conns0 (ap_db app) s → app_ok fds0 conns0 (set_book b app) (set_dbs s ps)).
  { intros b s Hs. unfold app_ok. cbn. by rewrite Hi. }
  eapply total_bind_runs; [apply total_koe_contact_add|]. intros a w1 _. destruct (negb _).
  - apply runs_ret. cbn [fst snd]. replace ps with (set_dbs (ps_dbs ps) ps) by by destruct ps. split; [by apply Hkeep|done].
  - eapply runs_bind; [eapply with_conn_runs; [apply koe_contact_book_save_runs|exact Ho]|].
    intros r w2 _ [Hs _]. apply runs_ret. split; [by apply Hkeep|done].
Qed.

(** Pushing a packet, when it is defined, goes through an open handle. *)
Lemma queue_push_inv q pkt s w r w' :
  w ⊢ queue_push q pkt s ⇓ r ⊣ w' →
  aq_db r.1.2 = aq_db q ∧ (r.2 = s ∨ ∃ h, aq_db q = Some h ∧ is_Some (ds_conns s !! h) ∧ same_conn h s r.2).
Proof.
  intros ([a s'] & w1 & Hc & [= <- <-])%bind_inv. split; [done|]. cbn [fst snd].
  destruct (aq_db q) as [h|]; cbn [with_conn] in Hc.
  - right. exists h. split; [done|]. apply bind_inv in Hc as (c & w2 & Hl & Hc).
    unfold lift in Hl. destruct (ds_conns s !! h) as [c'|]; [|done]. split; [by eexists|].
    apply bind_inv in Hc as (x & w3 & _ & Hc). apply bind_inv in Hc as (d & w4 & _ & [= <- <- <-]). by eexists.
  - left. by apply bind_inv in Hc as (x & w2 & _ & [= <- <- <-]).
Qed.

Lemma queue_push_keeps fds0 conns0 app ps pkt w r w' :
  ap_initialised app = true → app_ok fds0 conns0 app ps → w ⊢ queue_push (ap_queue app) pkt (ps_dbs ps) ⇓ r ⊣ w' →
  app_ok fds0 conns0 (set_app_queue r.1.2 app) (set_dbs r.2 ps).
Proof.
  unfold app_ok. cbn. intros -> (Hf & Hc & Ho & Hq & Hm) [Eq Hs]%queue_push_inv. rewrite Eq. split_and!; try done.
  destruct Hs as [->|(h & Hh & Hin & Hs)]; [done|]. specialize (Hq h Hh).
  destruct (ap_db app) as [k|] eqn:Hdb.
  - assert (h = k) as ->; [|by eapply owns_same_conn].
    destruct Ho as (_ & _ & c & E). rewrite E in Hin. destruct (decide (h = k)) as [|Hne]; [done|].
    rewrite lookup_insert_ne, Hq in Hin by done. by destruct Hin.
  - destruct Ho as [_ E]. rewrite E, Hq in Hin. by destruct Hin.
Qed.

(** Sessions, counters and peers are not resources. *)
Lemma app_ok_core fds0 conns0 c app ps :
  app_ok fds0 conns0 (set_app_queue (c_queue c).1 app) (set_dbs (c_queue c).2 ps) →
  app_ok fds0 conns0 (put_core c app ps).1 (put_core c app ps).2.
Proof. done. Qed.

Lemma app_run_keeps fds0 conns0 op app ps w app' ps' w' :
  app_ok fds0 conns0 app ps → w ⊢ app_run op app ps ⇓ (app', ps') ⊣ w' →
  app_ok fds0 conns0 app' ps' ∧ ap_matrix app' = ap_matrix app.
Proof.
  intros Hok Hrun. destruct op as [idx pass|sid name|to path out offer pkt|op]; cbn [app_run] in Hrun.
  - apply bind_inv in Hrun as (r & w1 & Hr & [= <- <- <-]).
    destruct (koe_switch_account_runs fds0 conns0 app ps idx pass w Hok) as (a & w2 & R & _ & Hk & _ & Hm & _). naive_solver.
  - apply bind_inv in Hrun as (r & w1 & Hr & [= <- <- <-]).
    destruct (koe_add_contact_runs fds0 conns0 app ps sid name w Hok) as (a & w2 & R & _ & Hk). naive_solver.
  - apply bind_inv in Hrun as (r & w1 & Hr & [= <- <- <-]). unfold koe_send_file in Hr.
    destruct (ap_initialised app) eqn:Hi; cbn [negb] in Hr; [|by injection Hr as <- <-].
    apply bind_inv in Hr as ([[rc o] p] & w2 & _ & Hr). destruct (negb _); [by injection Hr as <- <-|].
    apply bind_inv in Hr as (x & w3 & _ & Hr). apply bind_inv in Hr as (q & w4 & Hq & [= <- <-]).
    split; [by eapply queue_push_keeps|done].
  - apply bind_inv in Hrun as (c & w1 & Hc & [= <- <- <-]). split; [|done]. apply ctx_run_pushes in Hc as (_ & _ & [Hc|(Hi & pkt & r & w2 & w3 & Hp)]).
    + apply app_ok_core. rewrite Hc. by destruct app, ps.
    + apply app_ok_core. apply bind_inv in Hp as (q & w4 & Hq & E). apply (f_equal (option_map fst)) in E. cbn in E.
      injection E as _ <-. by eapply queue_push_keeps.
Qed.

Lemma app_steps_keep fds0 conns0 x y :
  rtc app_step x y → app_ok fds0 conns0 x.1.1 x.1.2 →
  app_ok fds0 conns0 y.1.1 y.1.2 ∧ ap_matrix y.1.1 = ap_matrix x.1.1.
Proof.
  induction 1 as [|x y z [op app ps w app' ps' w' Hrun] _ IH]; [done|]. intros Hok. cbn [fst snd] in *.
  destruct (app_run_keeps _ _ _ _ _ _ _ _ _ Hok Hrun) as [Hok' <-]. by apply IH.
Qed.

End Balance.

(** * Nothing but the accounts writes files while the context comes up *)
Section QuietSteps.
Context `{Sodium} `{SqlOrder} `{FdAlloc} `{Mruby} `{Curl}.

Lemma quiet_mkdir_p path fs : quiet (mkdir_p path fs).
Proof.
  unfold mkdir_p, mkdir. destruct (_ <=? _)%nat; [apply quiet_ub|]. apply quiet_bind; [|quiet].
  generalize (take 1 path). revert fs. induction (drop 1 path) as [|b rest IH]; intros fs pre; cbn [mkdir_prefixes]; [quiet|].
  apply quiet_bind; [|done]. unfold mkdir. quiet.
Qed.
Lemma quiet_db_open cfg s : quiet (db_open cfg s).
Proof. unfold db_open, koe_db_open. quiet. Qed.
Lemma quiet_with_conn {A} h (f : koe_db_conn_t → M (A * koe_db_conn_t)) s : (∀ c, quiet (f c)) → quiet (with_conn h f s).
Proof. intros Hf. unfold with_conn. quiet. Qed.
Lemma quiet_load_contacts h app ps : quiet (load_contacts h app ps).
Proof. unfold load_contacts, koe_contact_book_load. apply quiet_bind; [apply quiet_with_conn|]; cbn; quiet. Qed.
Lemma quiet_queue_open h n s : quiet (queue_open h n s).
Proof.
  unfold queue_open, koe_queue_open, koe_db_migrate. apply quiet_bind; [apply quiet_with_conn|]; quiet.
Qed.
Lemma quiet_listen_on port t : quiet (listen_on port t).
Proof. unfold listen_on, socket, set_reuseaddr, bind, listen. quiet. Qed.
Hint Resolve quiet_listen_on : quiet.
Lemma quiet_koe_transport_init host port ws_port t : quiet (koe_transport_init host port ws_port t).
Proof. unfold koe_transport_init, socket, set_reuseaddr, bind. quiet. Qed.
Lemma quiet_koe_cache_open c : quiet (koe_cache_open c).
Proof. unfold koe_cache_open. quiet. Qed.
Lemma quiet_feed r chunks : quiet (feed r chunks).
Proof.
  revert r. induction chunks as [|c chunks IH]; intros r; cbn [feed]; [quiet|].
  apply quiet_bind; [unfold write_cb; quiet|]. intros g. destruct (_ =? _)%nat; [apply IH|quiet].
Qed.
Lemma quiet_curl_easy_perform rq resp : quiet (curl_easy_perform rq resp).
Proof.
  unfold curl_easy_perform. apply quiet_bind; [by intros w ? ? [= <- <-]|]. intros [[chunks ok] code].
  apply quiet_bind; [apply quiet_feed|quiet].
Qed.
Hint Resolve quiet_curl_easy_perform : quiet.
Lemma quiet_koe_matrix_login ctx id hs : quiet (koe_matrix_login ctx id hs).
Proof. unfold koe_matrix_login, response_init, matrix_http. quiet. Qed.
Hint Resolve quiet_load_contacts quiet_queue_open quiet_koe_transport_init quiet_koe_cache_open
  quiet_koe_matrix_login : quiet.
Lemma quiet_bring_up cfg h app ps : quiet (bring_up cfg h app ps).
Proof. unfold bring_up. quiet. Qed.
End QuietSteps.

(** * The account survives a restart *)
Section Restart.
Context `{SodiumLaws} `{SqlOrder} `{FdAlloc} `{Mruby} `{Curl}.

Lemma open_account_db_ok cfg app ps w :
  dbc_backend (cf_db cfg) = KOE_DB_SQLITE → heap_ok w → io_ok w → store_ok (ps_dbs ps) →
  runs w (open_account_db cfg app ps) (λ o w', ∃ h s, o = (Some h, set_db (Some h) app, set_dbs s ps)
    ∧ owns (ds_conns (ps_dbs ps)) (Some h) s ∧ w_fs w' = w_fs w).
Proof.
  intros Hb Hheap Hio Hs.
  assert (Ho : owns (ds_conns (ps_dbs ps)) None (ps_dbs ps)) by by split.
  destruct (open_account_db_runs _ cfg app ps w Ho) as (o & w' & R & E & h & s & -> & Hh & _).
  eexists _, w'. split; [exact R|]. split; [done|].
  assert (Hq : quiet (open_account_db cfg app ps)) by (unfold open_account_db, db_open, koe_db_open; quiet).
  specialize (Hq _ _ _ R). destruct h as [h|]; [by eexists _, _|].
  exfalso. unfold open_account_db, db_open in R. rewrite Hb in R.
  apply bind_inv in R as (o & w1 & R & [= Eo _ _ _]). apply bind_inv in R as (c & w2 & R & [= <- _]).
  destruct c; [discriminate Eo|]. unfold koe_db_open in R. cbn [dbc_backend set_sqlite_path] in R. rewrite Hb in R.
  rewrite bind_malloc_ok in R by done. cbn [negb] in R. rewrite bind_syscall_ok in R by done. cbn [negb] in R.
  rewrite bind_syscall_ok in R by done. discriminate R.
Qed.

(** Initialisation succeeds when the first account does. *)
Lemma koe_init_ok (cfg : koe_config_t) (ps : process) (w : world) (Q : koe_account_t → koe_account_registry_t → gmap bytes bytes → Prop) :
  koe_crypto_init = 0 → (length (cf_data_root cfg) < 511)%nat → dbc_backend (cf_db cfg) = KOE_DB_SQLITE →
  heap_ok w → io_ok w → store_ok (ps_dbs ps) →
  (∀ w1, same_env w w1 → w_fs w1 = w_fs w →
     runs w1 (koe_account_registry_load (cf_data_root cfg) (cf_passphrase cfg)) (λ l w2, l.1 = 0
       ∧ runs w2 (activate_first cfg (set_registry l.2 (zero_app cfg)))
           (λ a w3, a.1 = 0 ∧ Q (ap_account a.2) (ap_registry a.2) (w_fs w3)))) →
  runs w (koe_init cfg ps) (λ r w', r.1.1 = 0 ∧ Q (ap_account r.1.2) (ap_registry r.1.2) (w_fs w')).
Proof.
  intros Hc Hl Hb Hheap Hio Hs Hacc. unfold koe_init. rewrite Hc. cbn [Z.eqb negb].
  eapply runs_bind; [apply quiet_runs; [apply quiet_mkdir_p|by apply total_mkdir_p]|]. intros dirs w1 E1 [_ F1].
  eapply runs_bind; [by apply Hacc|]. intros l w2 E2 [-> Hact]. cbn [Z.eqb negb].
  destruct Hact as (a & w3 & R3 & E3 & Hrc & HQ). pose proof (activate_first_keeps _ _ _ _ _ R3) as [Hm _].
  eapply (runs_bind _ _ _ (λ x y, x = a ∧ y = w3)); [by exists a, w3|]. intros ? ? _ [-> ->]. rewrite Hrc. cbn [Z.eqb negb].
  assert (Henv : same_env w w3) by (etrans; [exact E1|]; by etrans).
  eapply runs_bind; [apply open_account_db_ok; [done|by eauto with koe..|done]|].
  intros o w4 E4 (h & s & -> & Ho & F4).
  eapply runs_bind.
  { apply quiet_runs; [apply quiet_bring_up|]. eapply (bring_up_runs (ps_fds ps)); [right|done| |done|exact Ho].
    - eapply heap_ok_env, Hheap. by etrans.
    - cbn. rewrite Hm. by split_and!. }
  intros r w5 _ [(_ & _ & Ha & Hr & _) F5]. apply runs_ret. split; [done|]. cbn [fst snd].
  rewrite Ha, Hr, F5, F4. exact HQ.
Qed.

(** A registry with one account, stored under the data root. *)
Definition restartable (cfg : koe_config_t) (acc : koe_account_t) (reg : koe_account_registry_t)
    (fs : gmap bytes bytes) : Prop :=
  keypair (ac_keys acc) ∧ ad_active (ac_desc acc) = 1 ∧ registry_ok reg ∧ rg_count reg = 1%nat
  ∧ rg_data_root reg = strncpy (zeros 512) (cf_data_root cfg) 511
  ∧ rg_accounts reg !! 0%nat = Some (ac_desc acc) ∧ account_stored fs reg acc (cf_passphrase cfg).

Lemma restartable_mono cfg acc reg fs fs' :
  (∀ p, is_Some (fs !! p) → fs' !! p = fs !! p) → restartable cfg acc reg fs → restartable cfg acc reg fs'.
Proof.
  intros Hfs (? & ? & ? & ? & ? & ? & (salt & nonce & ct & ? & ? & ? & Hf & Hd) & Hr). split_and!; try done.
  split.
  - exists salt, nonce, ct. split_and!; try done. rewrite Hfs; [done|by eexists].
  - rewrite Hfs; [done|by eexists].
Qed.

Lemma fresh_account cfg w :
  nonul (cf_data_root cfg) → (length (cf_data_root cfg) < 480)%nat → heap_ok w → io_ok w → clock_fits w →
  w_fs w !! snprintf_trunc 512 (cf_data_root cfg ++ str "/accounts.koe") = None →
  runs w (koe_account_registry_load (cf_data_root cfg) (cf_passphrase cfg)) (λ l w2, l.1 = 0
    ∧ runs w2 (activate_first cfg (set_registry l.2 (zero_app cfg)))
        (λ a w3, a.1 = 0 ∧ restartable cfg (ap_account a.2) (ap_registry a.2) (w_fs w3))).
Proof.
  intros Hn Hl Hheap Hio Hclock Hfs.
  set (reg0 := KoeAccountRegistry (replicate KOE_ACCOUNT_MAX zero_descriptor) 0 (strncpy (zeros 512) (cf_data_root cfg) 511)).
  assert (Hroot : cstr (rg_data_root reg0) = cf_data_root cfg) by (apply cstr_data_root; [done|lia]).
  exists (0, reg0), (iotick w). split; [|split; [done|split; [done|]]].
  { unfold koe_account_registry_load. fold reg0. rewrite bind_fopen_absent; [done|].
    unfold registry_path. by rewrite Hroot, Hfs. }
  unfold activate_first. cbn [snd ap_registry set_registry reg0 rg_count Nat.eqb].
  eapply runs_bind.
  - apply koe_account_create_run; [|cbn; unfold KOE_ACCOUNT_MAX; lia|by rewrite Hroot| |done..].
    + split_and!; cbn [reg0 rg_accounts rg_count rg_data_root]; [done|unfold KOE_ACCOUNT_MAX; lia| |].
      * apply Forall_replicate. apply (bool_decide_unpack _). vm_compute. exact I.
      * rewrite length_strncpy; [done|]. unfold zeros. rewrite length_replicate. lia.
    + apply (bool_decide_unpack _). vm_compute. exact I.
  - intros [[rc acc] reg] w' _ (-> & Hk & Ha & Hok & Hc & Hr & Hd & Hst). apply runs_ret. by split_and!.
Qed.

Lemma restart_account cfg acc reg w :
  heap_ok w → io_ok w → restartable cfg acc reg (w_fs w) →
  runs w (koe_account_registry_load (cf_data_root cfg) (cf_passphrase cfg)) (λ l w2, l.1 = 0
    ∧ runs w2 (activate_first cfg (set_registry l.2 (zero_app cfg)))
        (λ a w3, a.1 = 0 ∧ ac_keys (ap_account a.2) = ac_keys acc ∧ ac_desc (ap_account a.2) = ac_desc acc)).
Proof.
  intros Hheap Hio (Hk & Ha & Hok & Hc & Hr & Hd & Hsaved & Himg).
  destruct (koe_account_registry_load_run reg (cf_data_root cfg) (cf_passphrase cfg) w Hok Hr Hio Himg) as (reg' & R & Hc' & Hr' & Hl).
  exists (0, reg'), (iotick w). split; [done|]. split; [done|]. split; [done|]. cbn [snd].
  unfold activate_first. cbn [ap_registry set_registry]. rewrite Hc', Hc in *. cbn [Nat.eqb].
  assert (Hat : account_at reg' 0 = Some (set_active 0 (ac_desc acc))).
  { unfold account_at. rewrite Hc'. cbn [Z.ltb Z.leb Z.of_nat orb Z.compare Z.to_nat].
    assert (Hhd : take 1 (rg_accounts reg') !! 0%nat = Some (set_active 0 (ac_desc acc))).
    { rewrite Hl, list_lookup_fmap, lookup_take_lt, Hd by lia. done. }
    by rewrite lookup_take_lt in Hhd by lia. }
  assert (Hsaved' : identity_saved (w_fs w) (account_identity_path reg' (set_active 0 (ac_desc acc)))
                      (cf_passphrase cfg) (ac_keys acc)) by (unfold account_identity_path in *; by rewrite Hr').
  pose proof (koe_account_activate_run (ap_account (zero_app cfg)) reg' 0 _ _ _ (iotick w) Hat (keypair_ok _ Hk) Hheap Hio Hsaved') as Ract.
  eexists _, _. split; [by erewrite bind_run by exact Ract|]. split; [done|]. split; [done|]. split; [done|].
  cbn. destruct (ac_desc acc). cbn in *. by subst.
Qed.

(** C18: on a data root without accounts, initialisation creates one; every later
    initialisation with the same configuration, in any environment that has lost
    none of the files and in which calls succeed, whatever the process holds by
    then, comes up with the same identity and the same account, and so with the
    same database. The backend is SQLite and the data root is shorter than 480
    bytes. *)
Theorem koe_restart_same_account (cfg : koe_config_t) (ps : process) (w : world) :
  koe_crypto_init = 0 → nonul (cf_data_root cfg) → (length (cf_data_root cfg) < 480)%nat →
  dbc_backend (cf_db cfg) = KOE_DB_SQLITE → heap_ok w → io_ok w → clock_fits w → store_ok (ps_dbs ps) →
  w_fs w !! snprintf_trunc 512 (cf_data_root cfg ++ str "/accounts.koe") = None →
  ∃ app1 ps1 w1, w ⊢ koe_init cfg ps ⇓ (0, app1, ps1) ⊣ w1 ∧ keypair (ac_keys (ap_account app1))
    ∧ ∀ ps2 w2, heap_ok w2 → io_ok w2 → store_ok (ps_dbs ps2) →
        (∀ p, is_Some (w_fs w1 !! p) → w_fs w2 !! p = w_fs w1 !! p) →
        ∃ app3 ps3 w3, w2 ⊢ koe_init cfg ps2 ⇓ (0, app3, ps3) ⊣ w3
          ∧ ac_keys (ap_account app3) = ac_keys (ap_account app1)
          ∧ ac_desc (ap_account app3) = ac_desc (ap_account app1).
Proof.
  intros Hc Hn Hl Hb Hheap Hio Hclock Hs Hfs.
  destruct (koe_init_ok cfg ps w (restartable cfg)) as ([[rc app1] ps1] & w1 & R1 & _ & Hrc & Hst); try done; [lia| |].
  { intros w' E F. apply fresh_account; [done|done|by eapply heap_ok_env|by eapply io_ok_env| |by rewrite F].
    intros i. destruct E as (Ec & _). rewrite Ec. apply Hclock. }
  cbn [fst snd] in *. subst rc. exists app1, ps1, w1. split; [exact R1|]. split; [apply Hst|].
  intros ps2 w2 Hheap2 Hio2 Hs2 Hfs2. pose proof (restartable_mono _ _ _ _ _ Hfs2 Hst) as Hst2.
  destruct (koe_init_ok cfg ps2 w2 (λ a _ _, ac_keys a = ac_keys (ap_account app1) ∧ ac_desc a = ac_desc (ap_account app1)))
    as ([[rc app3] ps3] & w3 & R3 & _ & Hrc & Hacc); try done; [lia| |].
  { intros w' E F. eapply restart_account; [by eapply heap_ok_env|by eapply io_ok_env|]. by rewrite F. }
  cbn [fst snd] in *. subst rc. exists app3, ps3, w3. split; [exact R3|exact Hacc].
Qed.
End Restart.

(** * What a failed initialisation leaves behind *)

Lemma open_account_db_other `{SqlOrder} `{Mruby} cfg app ps w :
  dbc_backend (cf_db cfg) ≠ KOE_DB_SQLITE →
  ∃ w', w ⊢ open_account_db cfg app ps ⇓ (None, set_db None app, ps) ⊣ w' ∧ same_env w w'.
Proof.
  intros Hb. exists (alloc w). split; [|done]. unfold open_account_db, db_open, koe_db_open.
  destruct (dbc_backend (cf_db cfg)) eqn:E; [done|..];
    cbn; unfold mbind, M_bind, malloc; rewrite E; destruct (w_heap w (w_allocs w)); cbn; by destruct ps.
Qed.

(** With a database backend that is not compiled in, initialisation has created
    and activated the account when it fails, and shutdown then does nothing: the
    secret key and the passphrase stay in the context. *)
Lemma koe_init_failure_keeps_keys `{SodiumLaws} `{SqlOrder} `{FdAlloc} `{Mruby} `{Curl} cfg ps w :
  koe_crypto_init = 0 → nonul (cf_data_root cfg) → (length (cf_data_root cfg) < 480)%nat →
  dbc_backend (cf_db cfg) ≠ KOE_DB_SQLITE → heap_ok w → io_ok w → clock_fits w →
  w_fs w !! snprintf_trunc 512 (cf_data_root cfg ++ str "/accounts.koe") = None →
  runs w (koe_init cfg ps) (λ r _, r.1.1 = -1 ∧ keypair (ac_keys (ap_account r.1.2))
    ∧ ∀ w2, w2 ⊢ koe_shutdown r.1.2 r.2 ⇓ (r.1.2, r.2) ⊣ w2).
Proof.
  intros Hc Hn Hl Hb Hheap Hio Hclock Hfs. unfold koe_init. rewrite Hc. cbn [Z.eqb negb].
  eapply runs_bind; [apply quiet_runs; [apply quiet_mkdir_p|apply total_mkdir_p; lia]|]. intros dirs w1 E1 [_ F1].
  eapply runs_bind.
  { apply fresh_account; [done|done|by eapply heap_ok_env|by eapply io_ok_env| |by rewrite F1].
    intros i. destruct E1 as (Ec & _). rewrite Ec. apply Hclock. }
  intros l w2 E2 [-> Hact]. cbn [Z.eqb negb]. destruct Hact as (a & w3 & R3 & E3 & Hrc & Hst).
  pose proof (activate_first_keeps _ _ _ _ _ R3) as [_ Hi].
  eapply (runs_bind _ _ _ (λ x y, x = a ∧ y = w3)); [by exists a, w3|]. intros ? ? _ [-> ->]. rewrite Hrc. cbn [Z.eqb negb].
  destruct (open_account_db_other cfg a.2 (set_dirs dirs ps) w3 Hb) as (w4 & R4 & E4).
  eapply (runs_bind _ _ _ (λ o y, o = (None, set_db None a.2, set_dirs dirs ps))); [by eexists _, w4|].
  intros o w5 _ ->. apply runs_ret. cbn [fst snd]. split; [done|]. split; [apply Hst|].
  intros w6. unfold koe_shutdown. cbn [ap_initialised set_db]. by rewrite Hi.
Qed.

(** * What a switch leaves behind *)

(** The queue keeps the connection that the switch closes, whether or not the
    switch succeeds: the next packet to be queued goes through freed memory. *)
Lemma koe_switch_account_dangles `{SodiumLaws} `{SqlOrder} `{FdAlloc} `{Mruby} `{Curl} fds0 conns0 app ps h idx pass w :
  app_ok fds0 conns0 app ps → ap_initialised app = true → ap_db app = Some h → aq_db (ap_queue app) = Some h →
  runs w (koe_switch_account app ps idx pass)
    (λ r _, ∀ pkt w', queue_push (ap_queue r.1.2) pkt (ps_dbs r.2) w' = None).
Proof.
  intros Hok Hi Hdb Hq. eapply runs_mono; [by apply koe_switch_account_runs|].
  intros [[rc app'] ps'] w' _ (Hok' & Eq & _ & Hnext). cbn [fst snd] in *. specialize (Hnext Hi).
  assert (Hh : (h < ds_next (ps_dbs ps))%nat ∧ conns0 !! h = None).
  { unfold app_ok in Hok. rewrite Hi, Hdb in Hok. destruct Hok as (_ & _ & (Hs & Hn & c & E) & _).
    split; [|done]. apply Hs. rewrite E, lookup_insert_eq. by eexists. }
  assert (Hgone : ds_conns (ps_dbs ps') !! h = None).
  { assert (Ho : ds_conns (ps_dbs ps') = conns0 ∨ ∃ c, ds_conns (ps_dbs ps') = <[ds_next (ps_dbs ps) := c]> conns0).
    { unfold app_ok in Hok'. destruct (ap_initialised app'); [|left; apply Hok'].
      destruct Hok' as (_ & _ & [_ Ho] & _). destruct Hnext as [E|E]; rewrite E in Ho; [by left|right; apply Ho]. }
    destruct Ho as [->|[c ->]]; [apply Hh|]. rewrite lookup_insert_ne by lia. apply Hh. }
  intros pkt w2. unfold queue_push. rewrite Eq, Hq. cbn [with_conn]. by rewrite Hgone.
Qed.

(** Every contact added by short id has the zero key, so there can be one. *)
Lemma koe_add_contact_once `{Sodium} `{SqlOrder} `{FdAlloc} `{Mruby} `{Curl} app ps sid name c w :
  ap_initialised app = true → koe_contact_find (ap_contacts app) (zeros 32) = Some c →
  koe_add_contact app ps sid name w = Some ((-1, app, ps), w).
Proof.
  intros Hi Hf. unfold koe_add_contact. rewrite Hi. cbn [negb]. unfold koe_contact_add. rewrite Hf.
  rewrite bind_ret. cbn. by destruct app.
Qed.

(** * Witnesses *)
#[local] Existing Instance toy_sodium.
#[local] Existing Instance toy_laws.
#[local] Existing Instance first_tie.
#[local] Existing Instance next_fd.
#[local] Existing Instance toy_mruby.
#[local] Existing Instance toy_curl.

Definition demo_config : koe_config_t :=
  KoeConfig (str "/data/koe") (str "secret") (Some (str "relay")) 0 9477 (Some (str "https://hs")) 0 0 0
    (KoeDbConfig KOE_DB_SQLITE None None 0 None None None false 0)
    (KoeCacheConfig KOE_CACHE_REDIS None 6379 None 0 true) (Some (str "/data/plugins")).
Definition demo_process : process := Process ∅ (DbStore ∅ ∅ 0) ∅ event_boot false 0 [].

Lemma demo_store_ok : store_ok (ps_dbs demo_process).
Proof. intros h [c Hc]. done. Qed.

Lemma mkdir_p_creates_witness :
  ∃ fs' w', world_at 0 ⊢ mkdir_p (str "/data/koe") ∅ ⇓ fs' ⊣ w'
    ∧ is_dir fs' [str "data"] ∧ is_dir fs' [str "data"; str "koe"].
Proof.
  destruct (mkdir_p_creates [str "data"; str "koe"] ∅ (world_at 0)) as (fs' & w' & R & Hd & _).
  - apply (bool_decide_unpack _). vm_compute. exact I.
  - discriminate.
  - vm_compute. lia.
  - intros i. reflexivity.
  - intros [|[|i]]; [right; reflexivity|left; reflexivity..].
  - exists fs', w'. split; [exact R|]. split; [exact (Hd 1%nat)|exact (Hd 2%nat)].
Defined.


Lemma koe_restart_same_account_witness :
  ∃ app1 ps1 w1 app3 ps3 w3, world_at 7 ⊢ koe_init demo_config demo_process ⇓ (0, app1, ps1) ⊣ w1
    ∧ set_fs (w_fs w1) (world_at 9) ⊢ koe_init demo_config demo_process ⇓ (0, app3, ps3) ⊣ w3
    ∧ ac_keys (ap_account app3) = ac_keys (ap_account app1).
Proof.
  destruct (koe_restart_same_account demo_config demo_process (world_at 7)) as (app1 & ps1 & w1 & R & _ & Hr).
  - reflexivity.
  - apply (bool_decide_unpack _). vm_compute. exact I.
  - vm_compute. lia.
  - reflexivity.
  - intros i. reflexivity.
  - intros i. reflexivity.
  - intros i. split; vm_compute; [discriminate|reflexivity].
  - apply demo_store_ok.
  - reflexivity.
  - destruct (Hr demo_process (set_fs (w_fs w1) (world_at 9))) as (app3 & ps3 & w3 & R3 & Hk & _).
    + intros i. reflexivity.
    + intros i. reflexivity.
    + apply demo_store_ok.
    + intros p _. reflexivity.
    + exists app1, ps1, w1, app3, ps3, w3. split; [exact R|]. split; [|exact Hk]. exact R3.
Defined.
