(* ===== verification/Layout.v ===== *)
(** Memory layouts (include/koe_event.h, koe_media.h, koe_revoke.h, koe_account.h,
    koe_backup.h): where the System V ABI puts the members of the structures that
    the code writes to files and packets or shares between components, computed
    from their declarations. The images the other files spell out byte by byte
    are these layouts. *)

From S2P Require Import Prelude Version Crc32 Packet Crypto Handshake Sealed Session Message Db Queue Transport Net Core ContextOps.
From S2P Require Import Event Plugin Presence Revoke Media Audio Identity Ghost Account Files Backup Matrix Lifecycle.
Import Strings.String.StringSyntax.

(** * The rule *)
Record ctype := CType { ty_size : nat; ty_align : nat }.
Definition scalar (n : nat) : ctype := CType n n.
Definition array (n : nat) (t : ctype) : ctype := CType (n * ty_size t) (ty_align t).

Definition c_char : ctype := scalar 1.
Definition c_int16 : ctype := scalar 2.
Definition c_int : ctype := scalar 4.
Definition c_long : ctype := scalar 8.

(** A structure is its members in order. *)
Abbreviation layout := (list (String.string * ctype)).
Definition member (name : String.string) (t : ctype) : String.string * ctype := (name, t).
#[global] Arguments member name%_string_scope t.

(** What is missing from [pos] to the next multiple of [align]. *)
Definition gap (pos align : nat) : nat := ((align - pos mod align) mod align)%nat.

(** Where the members start, laid out from [pos] on, and where the last ends. *)
Fixpoint offsets (pos : nat) (ts : list ctype) : list nat :=
  match ts with
  | [] => []
  | t :: ts' => let o := (pos + gap pos (ty_align t))%nat in o :: offsets (o + ty_size t) ts'
  end.
Fixpoint extent (pos : nat) (ts : list ctype) : nat :=
  match ts with
  | [] => pos
  | t :: ts' => extent (pos + gap pos (ty_align t) + ty_size t) ts'
  end.

(** A structure is aligned as its strictest member, and its size is a multiple of
    that; a union is as large as its largest member. *)
Definition struct_align (l : layout) : nat := foldr max 1%nat (ty_align <$> l.*2).
Definition sizeof (l : layout) : nat := (extent 0 l.*2 + gap (extent 0 l.*2) (struct_align l))%nat.
Definition union_size (ls : list layout) : nat :=
  let n := foldr max 0%nat (sizeof <$> ls) in (n + gap n (foldr max 1%nat (struct_align <$> ls)))%nat.
Definition offsetof (l : layout) (name : String.string) : option nat :=
  i ← list_find (λ m, m.1 = name) l; offsets 0 l.*2 !! i.1.
#[global] Arguments offsetof l name%_string_scope.

(** The object in memory, with the octets [vs] of its members; [pad p n] are the
    [n] octets of padding at [p], [post] what follows the last member. *)
Fixpoint abi_fields (pad : nat → nat → bytes) (pos : nat) (ts : list ctype) (vs : list bytes) (post : bytes) : bytes :=
  match ts, vs with
  | t :: ts', v :: vs' =>
      let g := gap pos (ty_align t) in
      pad pos g ++ v ++ abi_fields pad (pos + g + ty_size t) ts' vs' post
  | _, _ => post
  end.
Definition abi_image (pad : nat → nat → bytes) (l : layout) (vs : list bytes) : bytes :=
  let e := extent 0 l.*2 in abi_fields pad 0 l.*2 vs (pad e (gap e (struct_align l))).

(** [b] holds, at the offset of every member of [l], the octets in [vs]. *)
Definition laid_out (l : layout) (vs : list bytes) (b : bytes) : Prop :=
  length b = sizeof l
  ∧ ∀ i t v, l.*2 !! i = Some t → vs !! i = Some v →
      ∃ o, offsets 0 l.*2 !! i = Some o ∧ peek b o (ty_size t) = Some v.

Section Rule.
Context (pad : nat → nat → bytes) (pad_length : ∀ p n, length (pad p n) = n).

Lemma length_abi_fields ts vs pos post :
  Forall2 (λ t v, length v = ty_size t) ts vs →
  (pos + length (abi_fields pad pos ts vs post) = extent pos ts + length post)%nat.
Proof.
  intros Hall. revert pos. induction Hall as [|t v ts vs Hv _ IH]; intros pos; cbn [abi_fields extent]; [done|].
  rewrite <-IH, !length_app, pad_length, Hv. lia.
Qed.

Lemma abi_fields_peek ts vs pos pre post i t v :
  Forall2 (λ t v, length v = ty_size t) ts vs → length pre = pos → ts !! i = Some t → vs !! i = Some v →
  ∃ o, offsets pos ts !! i = Some o ∧ peek (pre ++ abi_fields pad pos ts vs post) o (ty_size t) = Some v.
Proof.
  intros Hall. revert pos pre i. induction Hall as [|t' v' ts vs Hv _ IH]; intros pos pre i Hpre Ht Hiv; [done|].
  cbn [offsets abi_fields]. destruct i as [|i].
  - injection Ht as ->. injection Hiv as ->. eexists. split; [reflexivity|].
    rewrite (app_assoc pre). apply peek_app; [rewrite length_app, pad_length; lia|done].
  - destruct (IH (pos + gap pos (ty_align t') + ty_size t')%nat (pre ++ pad pos (gap pos (ty_align t')) ++ v') i)
      as (o & Ho & Hp); [|done|done|].
    { rewrite !length_app, pad_length, Hv. lia. }
    exists o. split; [exact Ho|]. rewrite <-Hp. by rewrite <-!app_assoc.
Qed.

Lemma abi_image_laid_out l vs :
  Forall2 (λ t v, length v = ty_size t) l.*2 vs → laid_out l vs (abi_image pad l vs).
Proof.
  intros Hall. split.
  - unfold abi_image, sizeof. pose proof (length_abi_fields _ _ 0 (pad (extent 0 l.*2) (gap (extent 0 l.*2) (struct_align l))) Hall) as E.
    rewrite pad_length in E. exact E.
  - intros i t v Ht Hv. by apply (abi_fields_peek _ _ 0 [] _ i).
Qed.
End Rule.

Definition zero_pad (p n : nat) : bytes := zeros n.
Lemma length_zero_pad p n : length (zero_pad p n) = n.
Proof. apply length_replicate. Qed.

(** * Structures in files and packets *)
Definition koe_media_offer_layout : layout :=
  [member "transfer_id" (array 16 c_char); member "filename" (array 256 c_char); member "mime_type" (array 128 c_char);
   member "file_size" c_long; member "chunk_count" c_int; member "sha256" (array 32 c_char); member "sender_pk" (array 32 c_char);
   member "recipient_pk" (array 32 c_char); member "offered_at" c_long].
Definition koe_revocation_layout : layout :=
  [member "old_pk" (array 32 c_char); member "new_pk" (array 32 c_char); member "revoked_at" c_long; member "reason" (array 128 c_char);
   member "sig" (array 64 c_char)].
Definition koe_account_descriptor_layout : layout :=
  [member "id" (array 32 c_char); member "display_name" (array 64 c_char); member "data_subdir" (array 256 c_char);
   member "created_at" c_long; member "last_active_at" c_long; member "active" c_int].
Definition koe_backup_header_layout : layout :=
  [member "magic" (array 6 c_char); member "version" c_char; member "created_at" c_long; member "salt" (array 32 c_char);
   member "nonce" (array 24 c_char); member "payload_len" c_long].

(** The octets of their members. *)
Definition offer_members (o : koe_media_offer_t) : list bytes :=
  [of_transfer_id o; of_filename o; of_mime_type o; le64 (of_file_size o); le_bytes 4 (of_chunk_count o); of_sha256 o;
   of_sender_pk o; of_recipient_pk o; le64 (of_offered_at o)].
Definition revocation_members (r : koe_revocation_t) : list bytes :=
  [rv_old_pk r; rv_new_pk r; le64 (rv_revoked_at r); rv_reason r; rv_sig r].
Definition descriptor_members (d : koe_account_descriptor_t) : list bytes :=
  [ad_id d; ad_display_name d; ad_data_subdir d; le64 (ad_created_at d); le64 (ad_last_active_at d);
   le_bytes 4 (u32 (ad_active d))].
Definition backup_header_members (h : koe_backup_header_t) : list bytes :=
  [bh_magic h; [bh_version h]; le64 (bh_created_at h); bh_salt h; bh_nonce h; le64 (bh_payload_len h)].

Definition backup_header_ok (h : koe_backup_header_t) : Prop :=
  length (bh_magic h) = 6%nat ∧ length (bh_salt h) = 32%nat ∧ length (bh_nonce h) = 24%nat.

(** The one octet of padding of the backup header is whatever was there. *)
Definition pad_with (b : bytes) (p n : nat) : bytes := take n (b ++ zeros n).
Lemma length_pad_with b p n : length (pad_with b p n) = n.
Proof. unfold pad_with. rewrite length_take, length_app. unfold zeros. rewrite length_replicate. lia. Qed.

(** The images of the other files are the layouts of these structures. *)
Lemma offer_image_abi o : offer_image o = abi_image zero_pad koe_media_offer_layout (offer_members o).
Proof. reflexivity. Qed.
Lemma revocation_image_abi r : revocation_image r = abi_image zero_pad koe_revocation_layout (revocation_members r).
Proof. unfold revocation_image. rewrite <-(app_nil_r (rv_sig r)). reflexivity. Qed.
Lemma descriptor_image_abi d : descriptor_image d = abi_image zero_pad koe_account_descriptor_layout (descriptor_members d).
Proof. reflexivity. Qed.
Lemma backup_header_image_abi pad h :
  length pad = 1%nat → backup_header_image pad h = abi_image (pad_with pad) koe_backup_header_layout (backup_header_members h).
Proof. destruct pad as [|x [|]]; try done. Qed.

(** * Payloads of events *)
Definition koe_ev_message_t : layout :=
  [member "message_id" c_long; member "from" (array 32 c_char); member "body" (array 4096 c_char); member "body_len" c_long;
   member "is_secret" c_int; member "sent_at" c_long; member "destruct_ttl" c_long].
Definition koe_ev_peer_t : layout :=
  [member "pk" (array 32 c_char); member "transport" c_int; member "addr" (array 64 c_char)].
Definition koe_ev_delivery_t : layout := [member "message_id" c_long; member "error_code" c_int].
Definition koe_ev_typing_t : layout := [member "from" (array 32 c_char); member "is_typing" c_int].
Definition koe_ev_media_offer_t : layout :=
  [member "from" (array 32 c_char); member "transfer_id" (array 32 c_char); member "filename" (array 256 c_char);
   member "mime_type" (array 128 c_char); member "file_size" c_long].
Definition koe_ev_media_progress_t : layout :=
  [member "transfer_id" (array 32 c_char); member "chunks_done" c_int; member "chunks_total" c_int].
Definition koe_ev_media_done_t : layout := [member "transfer_id" (array 32 c_char); member "save_path" (array 512 c_char)].
Definition koe_ev_call_t : layout := [member "from" (array 32 c_char)].
Definition koe_ev_audio_frame_t : layout := [member "samples" (array 960 c_int16); member "sample_count" c_int].
Definition koe_ev_group_msg_t : layout :=
  [member "room_id" (array 256 c_char); member "sender_pk" (array 32 c_char); member "body" (array 4096 c_char);
   member "body_len" c_long].
Definition koe_ev_group_member_t : layout := [member "room_id" (array 256 c_char); member "user_id" (array 256 c_char)].
Definition koe_ev_group_meta_t : layout :=
  [member "room_id" (array 256 c_char); member "new_name" (array 128 c_char); member "new_topic" (array 1024 c_char)].
Definition koe_ev_destruct_t : layout := [member "message_id" c_long].
Definition koe_ev_error_t : layout := [member "code" c_int; member "desc" (array 256 c_char)].

(** The union [data] of [koe_event_t]. *)
Definition koe_event_data : list layout :=
  [koe_ev_message_t; koe_ev_peer_t; koe_ev_delivery_t; koe_ev_typing_t; koe_ev_media_offer_t; koe_ev_media_progress_t;
   koe_ev_media_done_t; koe_ev_call_t; koe_ev_audio_frame_t; koe_ev_group_msg_t; koe_ev_group_member_t;
   koe_ev_group_meta_t; koe_ev_destruct_t; koe_ev_error_t].

(** The offsets the plugins use, and the size of what [koe_switch_account] clears. *)
Lemma event_layout :
  union_size koe_event_data = EVENT_DATA_SIZE
  ∧ sizeof koe_ev_message_t = MESSAGE_SIZE
  ∧ offsets 0 koe_ev_message_t.*2 !! 2%nat = Some BODY_OFFSET
  ∧ offsets 0 koe_ev_message_t.*2 !! 3%nat = Some BODY_LEN_OFFSET.
Proof. by vm_compute. Qed.

(** A message event whose payload is laid out as the structure: the plugins are
    handed the first [body_len] octets of its body. *)
Lemma message_body_abi id from body len secret sent ttl data post ev :
  laid_out koe_ev_message_t [id; from; body; le64 len; secret; sent; ttl] data →
  ev_data ev = data ++ post → length body = BODY_SIZE → 0 ≤ len ≤ Z.of_nat BODY_SIZE →
  message_body ev = Some (take (Z.to_nat len) body).
Proof.
  intros [_ Hat] Hd Hb Hlen. destruct event_layout as (_ & _ & Ho & Hl).
  assert (Hpost : ∀ o n v, peek data o n = Some v → peek (ev_data ev) o n = Some v).
  { intros o n v. rewrite Hd. unfold peek. rewrite length_app. case_decide; [|done]. rewrite decide_True by lia.
    intros [= <-]. rewrite drop_app_le, take_app_le by (rewrite ?length_drop; lia). done. }
  destruct (Hat 2%nat (array 4096 c_char) body) as (o1 & Ho1 & P1); [done..|].
  destruct (Hat 3%nat c_long (le64 len)) as (o2 & Ho2 & P2); [done..|].
  rewrite Ho in Ho1. rewrite Hl in Ho2. injection Ho1 as <-. injection Ho2 as <-.
  apply Hpost in P1, P2. change (ty_size c_long) with 8%nat in P2. change (ty_size (array 4096 c_char)) with BODY_SIZE in P1.
  unfold message_body. rewrite P2. cbn [mbind option_bind]. rewrite P1. cbn [mbind option_bind].
  assert (Z.of_nat BODY_SIZE < 2 ^ 64) by done. unfold le64. rewrite u64_id by lia.
  rewrite le_val_le_bytes by (simpl; lia). rewrite peek_defined by lia. by rewrite drop_0.
Qed.

(** The structures the program stores and sends are laid out as the System V
    ABI lays out their declarations: in the image of a media offer, a revocation
    notice, an account descriptor and a backup header, every member is at the
    offset its declaration gives it, and the image has the size of the structure;
    the union of event payloads and the offsets the plugins use in it are those
    of koe_event.h. *)
Lemma stored_structures_abi (o : koe_media_offer_t) (r : koe_revocation_t) (d : koe_account_descriptor_t)
    (h : koe_backup_header_t) (pad : bytes) :
  offer_ok o → revocation_ok r → descriptor_ok d → backup_header_ok h → length pad = 1%nat →
  laid_out koe_media_offer_layout (offer_members o) (offer_image o)
  ∧ laid_out koe_revocation_layout (revocation_members r) (revocation_image r)
  ∧ laid_out koe_account_descriptor_layout (descriptor_members d) (descriptor_image d)
  ∧ laid_out koe_backup_header_layout (backup_header_members h) (backup_header_image pad h)
  ∧ sizeof koe_media_offer_layout = OFFER_SIZE ∧ sizeof koe_revocation_layout = REVOCATION_SIZE
  ∧ sizeof koe_account_descriptor_layout = DESCRIPTOR_SIZE ∧ sizeof koe_backup_header_layout = BACKUP_HEADER_SIZE
  ∧ union_size koe_event_data = EVENT_DATA_SIZE
  ∧ offsetof koe_ev_message_t "body" = Some BODY_OFFSET ∧ offsetof koe_ev_message_t "body_len" = Some BODY_LEN_OFFSET.
Proof.
  intros ([] & [] & [] & _ & _ & [] & [] & [] & _) ([] & [] & _ & [] & []) ([] & [] & [] & _) (? & ? & ?) Hpad.
  split; [|split; [|split; [|split; [|by vm_compute]]]].
  - rewrite offer_image_abi. apply abi_image_laid_out; [apply length_zero_pad|]. repeat constructor; done || apply length_le64 || apply length_le_bytes.
  - rewrite revocation_image_abi. apply abi_image_laid_out; [apply length_zero_pad|]. repeat constructor; done || apply length_le64.
  - rewrite descriptor_image_abi. apply abi_image_laid_out; [apply length_zero_pad|].
    repeat constructor; done || apply length_le64 || apply length_le_bytes.
  - rewrite backup_header_image_abi by done. apply abi_image_laid_out; [apply length_pad_with|].
    repeat constructor; done || apply length_le64.
Qed.

(** * Witness *)
Lemma stored_structures_abi_witness :
  laid_out koe_media_offer_layout (offer_members zero_offer) (offer_image zero_offer)
  ∧ laid_out koe_backup_header_layout
      (backup_header_members (KoeBackupHeader KOE_BACKUP_MAGIC 1 7 (zeros 32) (zeros 24) 16))
      (backup_header_image [9] (KoeBackupHeader KOE_BACKUP_MAGIC 1 7 (zeros 32) (zeros 24) 16)).
Proof.
  destruct (stored_structures_abi zero_offer (KoeRevocation (zeros 32) (zeros 32) 5 (zeros 128) (zeros 64)) zero_descriptor
    (KoeBackupHeader KOE_BACKUP_MAGIC 1 7 (zeros 32) (zeros 24) 16) [9]) as (H1 & _ & _ & H2 & _).
  - apply (bool_decide_unpack _). vm_compute. exact I.
  - apply (bool_decide_unpack _). vm_compute. exact I.
  - apply (bool_decide_unpack _). vm_compute. exact I.
  - split_and!; reflexivity.
  - reflexivity.
  - split; [exact H1|exact H2].
Defined.
