(* ===== verification/Program.v ===== *)
(** The whole program: initialise, call, poll, shut down (src/koe_core.c). The
    calls of Core.v, proved against the queue interface of ContextOps.v, run here
    on the queue and the databases of Lifecycle.v, and the event loop of Event.v
    through the plugins of the context; no run has undefined behaviour. *)

From S2P Require Import Prelude Version Crc32 Packet Crypto Sealed Handshake Session Message Db Queue Transport Net Core ContextOps.
From S2P Require Import Event Plugin Presence Media Audio Identity Ghost Account Files Matrix Lifecycle.

(** * Database files stay well formed *)
Definition files_ok (s : db_store) : Prop := map_Forall (λ _ d, db_ok d) (ds_files s).
Definition handle_open (s : db_store) (h : option nat) : Prop := opt_ok (λ h, is_Some (ds_conns s !! h)) h.

Lemma files_ok_conn s c : files_ok s → db_ok (conn_db s c).
Proof.
  intros Hs. unfold conn_db, db_ok. cbn. destruct (ds_files s !! ci_path c) as [d|] eqn:E; [exact (Hs _ _ E)|].
  cbn. split_and!; constructor.
Qed.

Lemma handle_open_insert files n s h c k :
  handle_open s k → handle_open (DbStore files (<[h := c]> (ds_conns s)) n) k.
Proof.
  destruct k as [k|]; [|done]. cbn. destruct (decide (k = h)) as [->|]; [by rewrite lookup_insert_eq|].
  by rewrite lookup_insert_ne.
Qed.

(** A call through a handle that keeps a database well formed keeps them all, and
    every handle. *)
Lemma with_conn_yields {A} h (f : koe_db_conn_t → M (A * koe_db_conn_t)) s :
  files_ok s → (∀ c, opt_ok db_ok c → yields (f c) (λ r, opt_ok db_ok r.2)) →
  yields (with_conn h f s) (λ r, files_ok r.2 ∧ ∀ k, handle_open s k → handle_open r.2 k).
Proof.
  intros Hs Hf. destruct h as [h|]; cbn [with_conn]; [|by apply yields_then; intros r; apply yields_ret].
  apply yields_then. intros c. eapply yields_bind; [apply Hf, files_ok_conn, Hs|]. intros [a [d|]] Hd; cbn [fst snd] in *.
  - intros w r w' (x & w1 & [= <- <-] & [= <- <-])%bind_inv. split.
    + by apply map_Forall_insert_2.
    + by apply handle_open_insert.
  - by intros w r w' (x & w1 & [=] & _)%bind_inv.
Qed.

(** The same, through an open handle, for a call that is defined. *)
Lemma with_conn_sound {A} h (f : koe_db_conn_t → M (A * koe_db_conn_t)) s w :
  files_ok s → handle_open s h →
  (∀ c, opt_ok db_ok c → runs w (f c) (λ r _, opt_ok db_ok r.2 ∧ (is_Some c → is_Some r.2))) →
  runs w (with_conn h f s) (λ r _, files_ok r.2 ∧ ∀ k, handle_open s k → handle_open r.2 k).
Proof.
  intros Hs Hh Hf. destruct h as [h|]; cbn [with_conn].
  - destruct Hh as [c Hc]. eapply runs_lift; [exact Hc|]. eapply runs_bind; [apply Hf, files_ok_conn, Hs|].
    intros [a cd] w1 _ [Hd [d E]]; [by eexists|]. cbn [fst snd] in *. subst cd. eapply runs_lift; [done|]. apply runs_ret.
    split; [by apply map_Forall_insert_2|by apply handle_open_insert].
  - eapply runs_bind; [by apply Hf|]. intros r w1 _ _. by apply runs_ret.
Qed.

Lemma runs_yields {A} w (m : M A) P R : runs w m P → yields m R → runs w m (λ a w', P a w' ∧ R a).
Proof. intros (a & w' & E & Henv & HP) HR. exists a, w'. split; [done|]. split; [done|]. split; [done|]. by eapply HR. Qed.

(** * The queue of the application is a sound queue *)
Definition app_queue_ok (q : app_queue * db_store) : Prop := files_ok q.2 ∧ handle_open q.2 (aq_db q.1).

Section Program.
Context `{SodiumLaws} `{SqlOrder} `{FdAlloc} `{Mruby} `{Curl}.

#[export] Instance app_queue_sound : SoundQueue app_queue_ok.
Proof.
  intros [q s] pkt w [Hs Hh] Hok Hlen Hc. cbn [fst snd] in *. unfold packet_queue_push, app_packet_queue, queue_push.
  cbn [fst snd]. eapply (runs_bind _ _ _ (λ r _, app_queue_ok (r.1.2, r.2))); [|intros r w' _ Hr; by apply runs_ret].
  eapply runs_bind; [apply with_conn_sound; [done|exact Hh|]|].
  - intros c Hdb. eapply runs_bind; [apply koe_queue_push_sound; [exact Hdb|done..]|].
    intros p w1 _ (Hq & Hsome & _). apply runs_ret. by split.
  - intros r w1 _ [Hr Hk]. apply runs_ret. split; [done|]. by apply Hk.
Qed.

(** * Calls *)
Definition app_op_ok (op : app_op) : Prop :=
  match op with
  | AppCore op => ctx_op_ok op
  | AppAddContact _ _ => True
  | AppSendFile to path out _ _ => array_ok 32 to ∧ bytes_ok path ∧ opt_ok (λ b : bytes, 33 ≤ length b)%nat out
  | AppSwitch _ _ => False
  end.

Definition running (fds0 : fd_table) (conns0 : gmap nat conn_info) (app : koe_app_t) (ps : process) : Prop :=
  app_ok fds0 conns0 app ps ∧ ctx_ok app_queue_ok (core_of app ps).

(** Only the queue and the files of a context change. *)
Lemma ctx_ok_files app ps q s book :
  ctx_ok app_queue_ok (core_of app ps) → app_queue_ok (q, s) →
  ctx_ok app_queue_ok (core_of (set_app_queue q (set_book book app)) (set_dbs s ps)).
Proof. intros (? & ? & ? & ? & ? & ?) Hq. by unfold ctx_ok. Qed.

Lemma core_of_put c app ps :
  c_initialised c = ap_initialised app → c_keys c = ac_keys (ap_account app) →
  core_of (put_core c app ps).1 (put_core c app ps).2 = c.
Proof. destruct c as [i k t [q s] n p]. cbn. by intros -> ->. Qed.

Lemma upsert_keeps conn c : opt_ok db_ok conn → yields (koe_db_contact_upsert conn c) (λ r, opt_ok db_ok r.2).
Proof.
  intros Hd. destruct conn as [d|]; cbn [koe_db_contact_upsert]; [|by apply yields_ret].
  apply yields_then. intros ok. destruct (negb _); [by apply yields_ret|]. apply yields_then. intros name.
  apply yields_then. intros short. apply yields_then. intros []; [|by apply yields_ret].
  apply yields_ret. by apply db_ok_upsert_contact.
Qed.
Lemma book_save_keeps book conn : opt_ok db_ok conn → yields (koe_contact_book_save book conn) (λ r, opt_ok db_ok r.2).
Proof.
  intros Hd. unfold koe_contact_book_save. eapply yields_bind; [|intros c Hc; by apply yields_ret, Hc].
  revert conn Hd. induction (bk_contacts book) as [|c cs IH]; intros conn Hd; cbn [save_loop]; [by apply yields_ret|].
  eapply yields_bind; [by apply upsert_keeps|]. intros r Hr. by apply IH.
Qed.

Lemma add_contact_sound fds0 conns0 app ps sid name w :
  running fds0 conns0 app ps →
  runs w (app_run (AppAddContact sid name) app ps) (λ r _, running fds0 conns0 r.1 r.2).
Proof.
  intros [Hok Hctx]. cbn [app_run].
  eapply (runs_bind _ _ _ (λ r _, running fds0 conns0 r.1.2 r.2)); [|intros r w' _ Hr; by apply runs_ret].
  eapply runs_mono; [apply (runs_yields _ _ (λ r _, app_ok fds0 conns0 r.1.2 r.2) (λ r, ctx_ok app_queue_ok (core_of r.1.2 r.2)))|by intros r w' _ []].
  - eapply runs_mono; [by apply koe_add_contact_runs|]. by intros r w' _ [].
  - unfold koe_add_contact. destruct (negb _); [by apply yields_ret|]. apply yields_then. intros a.
    destruct (negb _); [by apply yields_ret|].
    eapply yields_bind; [apply with_conn_yields; [apply Hctx|intros c; apply book_save_keeps]|].
    intros r [Hr Hk]. apply yields_ret. apply (ctx_ok_files app ps (ap_queue app)); [done|].
    split; [done|]. apply Hk, Hctx.
Qed.

Lemma length_hex l : length (concat (hex_byte <$> l)) = (2 * length l)%nat.
Proof. induction l as [|b l IH]; [done|]. cbn [fmap list_fmap concat hex_byte app length]. rewrite IH. lia. Qed.

Lemma send_file_sound fds0 conns0 app ps to path out offer pkt w :
  running fds0 conns0 app ps → app_op_ok (AppSendFile to path out offer pkt) → sane_clock w →
  runs w (app_run (AppSendFile to path out offer pkt) app ps) (λ r _, ctx_ok app_queue_ok (core_of r.1 r.2)).
Proof.
  intros [Hok Hctx] (Hto & Hpath & Hout) Hc. cbn [app_run].
  eapply (runs_bind _ _ _ (λ r _, ctx_ok app_queue_ok (core_of r.1.1.2 r.1.2))); [|intros r w' _ Hr; by apply runs_ret].
  unfold koe_send_file. destruct (negb _); [by apply runs_ret|].
  eapply runs_bind; [apply koe_media_offer_build_sound; [done|done|by apply (bool_decide_unpack _); vm_compute|]|].
  { intros i. specialize (Hc i). unfold sane in Hc. lia. }
  intros [[rc o] p] w1 E1 Hp. cbn [fst snd] in *. destruct (Z.eqb_spec rc 0) as [->|]; cbn [negb]; [|by apply runs_ret].
  destruct Hp as ([Hid _] & Hp & Hl); [done|].
  eapply (runs_bind _ _ _ (λ _ _, True)).
  { destruct out as [out|]; [|by apply runs_ret]. eapply runs_lift; [|by apply runs_ret]. apply poke_app. cbn in Hout.
    rewrite length_app. cbn [length].
    pose proof (length_hex (of_transfer_id o)) as Hhex. rewrite Hhex, Hid. lia. }
  intros out' w2 E2 _.
  eapply (runs_bind _ _ _ (λ q _, app_queue_ok (q.1.2, q.2))).
  - destruct (app_queue_sound (ap_queue app, ps_dbs ps) p w2) as (x & w3 & Hx & Henv & Hq).
    { apply Hctx. } { done. } { rewrite Hl. unfold OFFER_SIZE. lia. } { by eauto with koe. }
    apply bind_inv in Hx as (q & w4 & Hq' & [= <- <-]). by exists q, w4.
  - intros q w3 _ Hq. apply runs_ret. cbn [fst snd]. by apply (ctx_ok_files app ps _ _ (ap_contacts app)) in Hq; [destruct app|].
Qed.

Lemma app_run_sound fds0 conns0 op app ps w :
  running fds0 conns0 app ps → app_op_ok op → sane_clock w →
  runs w (app_run op app ps) (λ r _, running fds0 conns0 r.1 r.2).
Proof.
  intros Hrun Hop Hc. destruct op as [idx pass|sid name|to path out offer pkt|op]; [done|by apply add_contact_sound| |].
  - destruct (send_file_sound fds0 conns0 app ps to path out offer pkt w Hrun Hop Hc) as ([app' ps'] & w' & E & Henv & Hr).
    exists (app', ps'), w'. split; [done|]. split; [done|]. split; [|done]. eapply app_run_keeps; [apply Hrun|exact E].
  - destruct (ctx_run_sound app_queue_ok (core_of app ps) op w (proj2 Hrun) Hop Hc) as (c & w' & E & Henv & Hr).
    assert (E' : w ⊢ app_run (AppCore op) app ps ⇓ put_core c app ps ⊣ w') by (cbn [app_run]; by erewrite bind_run by exact E).
    eexists _, w'. split; [exact E'|]. split; [done|]. split; [eapply app_run_keeps; [apply Hrun|]|].
    + rewrite E'. by destruct (put_core c app ps).
    + pose proof (ctx_run_pushes op (core_of app ps) _ _ _ E) as (Hi & Hk & _). by rewrite core_of_put.
Qed.

(** * Coming up *)
Definition process_ok (ps : process) : Prop :=
  store_ok (ps_dbs ps) ∧ files_ok (ps_dbs ps) ∧ 0 ≤ ps_message_counter ps < 2 ^ 64
  ∧ (length (ps_peers ps) ≤ KOE_MAX_SESSIONS)%nat ∧ Forall peer_ok (ps_peers ps).

(** The files of the disk hold bytes. *)
Definition disk_ok (w : world) : Prop := map_Forall (λ _ f, bytes_ok f) (w_fs w).

Lemma lift_peek_ok l off n w b w' : bytes_ok l → w ⊢ lift (peek l off n) ⇓ b ⊣ w' → array_ok n b.
Proof.
  intros Hl. unfold lift. destruct (peek l off n) as [x|] eqn:Hx; [|done]. intros [= <- _].
  apply peek_Some in Hx as [Hn ->]. split; [done|]. by apply bytes_ok_take, bytes_ok_drop.
Qed.

Lemma quiet_koe_account_registry_load root passphrase : quiet (koe_account_registry_load root passphrase).
Proof. unfold koe_account_registry_load. quiet. Qed.

Lemma koe_identity_load_ok id path pass w r w' :
  disk_ok w → identity_ok id → w ⊢ koe_identity_load id path pass ⇓ r ⊣ w' → identity_ok r.2.
Proof.
  intros Hd Hid. unfold koe_identity_load, fopen_rb. unfold mbind at 1, M_bind at 1.
  destruct (if w_io w (w_ios w) then _ else None) as [f|] eqn:Hf; [|by intros [= <- _]].
  assert (bytes_ok f) as Hok by (destruct (w_io w _); [exact (Hd _ _ Hf)|done]).
  destruct (peek f 0 5) as [magic|]; [|by intros [= <- _]]. destruct (negb _); [by intros [= <- _]|].
  destruct (peek f 5 16) as [salt|], (peek f 21 24) as [nonce|], (peek f 45 112) as [ct|] eqn:Hct; try by intros [= <- _].
  intros (ok & w1 & _ & E)%bind_inv. destruct (negb _); [by injection E as <- _|].
  destruct (koe_decrypt _ _ _) as [plain|] eqn:Hdec; [|by injection E as <- _].
  apply peek_Some in Hct as [_ Hct]. unfold koe_decrypt in Hdec. case_decide; [done|].
  apply aead_decrypt_ok in Hdec; [|subst ct; by apply bytes_ok_take, bytes_ok_drop].
  apply bind_inv in E as (pk & w2 & Hpk & E). apply bind_inv in E as (sk & w3 & Hsk & [= <- _]).
  split; by eapply lift_peek_ok.
Qed.

Lemma koe_identity_generate_ok id w r w' :
  identity_ok id → w ⊢ koe_identity_generate id ⇓ r ⊣ w' → identity_ok r.2.
Proof.
  intros Hid. unfold koe_identity_generate. rewrite bind_random.
  destruct (sign_keypair_total (random_bytes w 32)) as (pk & sk & -> & Hpk & Hsk); [apply random_array_ok|].
  by intros [= <- _].
Qed.

Lemma activate_first_core cfg app ps w a w' :
  disk_ok w → ctx_ok app_queue_ok (core_of app ps) → w ⊢ activate_first cfg app ⇓ a ⊣ w' →
  ctx_ok app_queue_ok (core_of a.2 ps).
Proof.
  intros Hd Hctx Hrun.
  enough (Hid : identity_ok (ac_keys (ap_account a.2)) ∧ ap_sessions a.2 = ap_sessions app ∧ ap_queue a.2 = ap_queue app).
  { destruct Hctx as (? & ? & ? & ? & ? & ?), Hid as (? & Ht & Hq). unfold ctx_ok, core_of in *. cbn in *. by rewrite Ht, Hq. }
  assert (Hid : identity_ok (ac_keys (ap_account app))) by apply Hctx.
  unfold activate_first in Hrun. destruct (_ =? 0)%nat; apply bind_inv in Hrun as (r & w1 & Hr & [= <- _]).
  - split; [|done]. cbn. unfold koe_account_create in Hr. case_decide; [by injection Hr as <- _|].
    apply bind_inv in Hr as (g & w2 & Hg%koe_identity_generate_ok & Hr); [|done].
    destruct (negb _); [by injection Hr as <- _|]. revert Hr. generalize w2.
    match goal with |- ∀ w, ?m w = _ → _ => enough (Hy : yields m (λ r, identity_ok (ac_keys r.1.2))) by (intros w3; apply Hy) end.
    do 4 (apply yields_then; intros ?). destruct (negb _); [by apply yields_ret|]. apply yields_then. intros _. by apply yields_ret.
  - split; [|done]. cbn. unfold koe_account_activate in Hr. destruct (account_at _ _) as [d|]; [|by injection Hr as <- _].
    apply bind_inv in Hr as (l & w2 & Hl%koe_identity_load_ok & Hr); [|done..].
    destruct (negb _); by injection Hr as <- _.
Qed.

Lemma open_account_db_core cfg app ps :
  ctx_ok app_queue_ok (core_of app ps) →
  yields (open_account_db cfg app ps) (λ o, ctx_ok app_queue_ok (core_of o.1.2 o.2) ∧ handle_open (ps_dbs o.2) o.1.1).
Proof.
  intros Hctx. pose proof Hctx as (_ & _ & [Hs Hh] & _). unfold open_account_db, db_open, koe_db_open.
  eapply (yields_bind _ _ _ (λ o, files_ok o.2 ∧ handle_open o.2 o.1 ∧ ∀ k, handle_open (ps_dbs ps) k → handle_open o.2 k)).
  - eapply (yields_bind _ _ _ (λ r, opt_ok db_ok r)).
    + apply yields_then. intros ok. destruct (negb _); [by apply yields_ret|]. destruct (dbc_backend _); try by apply yields_ret.
      apply yields_then. intros o1. destruct (negb _); [by apply yields_ret|]. apply yields_then. intros o2.
      destruct (negb _); [by apply yields_ret|]. by apply yields_ret, files_ok_conn.
    + intros [d|] Hd; apply yields_ret; [|done]. split; [by apply map_Forall_insert_2|]. split.
      * cbn. rewrite lookup_insert_eq. by eexists.
      * intros k. apply handle_open_insert.
  - intros o (Hs' & Ho & Hall). apply yields_ret. split; [|done].
    apply (ctx_ok_files app ps (ap_queue app) o.2 (ap_contacts app)); [done|]. split; [done|]. by apply Hall.
Qed.

Lemma load_contacts_core h app ps :
  ctx_ok app_queue_ok (core_of app ps) →
  yields (load_contacts h app ps) (λ r, ctx_ok app_queue_ok (core_of r.1 r.2)
    ∧ ∀ k, handle_open (ps_dbs ps) k → handle_open (ps_dbs r.2) k).
Proof.
  intros Hctx. unfold load_contacts. eapply yields_bind; [apply with_conn_yields; [apply Hctx|]|].
  - intros c Hc. apply yields_then. intros b. by apply yields_ret.
  - intros r [Hr Hk]. apply yields_ret. split; [|done].
    eapply (ctx_ok_files app ps (ap_queue app)); [done|]. split; [done|]. apply Hk, Hctx.
Qed.

Lemma queue_open_core h n s :
  files_ok s → handle_open s (Some h) → yields (queue_open h n s) (λ r, app_queue_ok (r.1, r.2)).
Proof.
  intros Hs Hh. unfold queue_open. eapply yields_bind; [apply with_conn_yields; [done|]|].
  - intros c Hc. unfold koe_queue_open. eapply (yields_bind _ _ _ (λ q, opt_ok db_ok (q_db q.2))); [|intros q Hq; by apply yields_ret].
    apply yields_then. intros rc. by apply yields_ret.
  - intros r [Hr Hk]. apply yields_ret. split; [done|]. by apply Hk.
Qed.

Lemma bring_up_core cfg h app ps :
  ctx_ok app_queue_ok (core_of app ps) → handle_open (ps_dbs ps) (Some h) →
  yields (bring_up cfg h app ps) (λ r, ctx_ok app_queue_ok (core_of r.1 r.2)).
Proof.
  intros Hctx Hh. unfold bring_up. eapply yields_bind; [by apply load_contacts_core|]. intros [app1 ps1] [Hctx1 Hk].
  cbn [fst snd] in *. eapply yields_bind; [apply queue_open_core; [apply Hctx1|by apply Hk]|].
  intros [q s] Hq. cbn [fst snd] in *. apply yields_then. intros t. apply yields_then. intros c.
  assert (Hnew : ∀ app2 ps2, ap_account app2 = ap_account app1 → ap_sessions app2 = koe_session_table_init →
    ap_queue app2 = q → ps_dbs ps2 = s → ps_message_counter ps2 = ps_message_counter ps1 → ps_peers ps2 = ps_peers ps1 →
    ctx_ok app_queue_ok (core_of app2 ps2)).
  { intros app2 ps2 E1 E2 E3 E4 E5 E6. unfold core_of. rewrite E1, E2, E3, E4, E5, E6.
    destruct Hctx1 as (Hid & _ & _ & Hn & Hp). exact (conj Hid (conj koe_session_table_init_ok (conj Hq (conj Hn Hp)))). }
  assert (Hend : ∀ app2 ps2, ctx_ok app_queue_ok (core_of app2 ps2) →
    yields (match cf_matrix_homeserver cfg with
            | None => mret (set_initialised true app2, ps2)
            | Some homeserver =>
                m ← koe_matrix_login (ap_matrix app2) (ac_keys (ap_account app2)) homeserver;
                mret (set_initialised true (set_matrix m.2 app2), ps2)
            end) (λ r, ctx_ok app_queue_ok (core_of r.1 r.2))).
  { intros app2 ps2 Hc2. destruct (cf_matrix_homeserver cfg); [apply yields_then; intros m|]; by apply yields_ret. }
  destruct (cf_plugins_dir cfg) as [dir|]; apply Hend, Hnew; try reflexivity; by destruct (_ =? 0).
Qed.

Lemma zero_app_core cfg ps : process_ok ps → ctx_ok app_queue_ok (core_of (zero_app cfg) ps).
Proof.
  intros (_ & Hs & Hn & Hp). assert (Hid : identity_ok (KoeIdentity (zeros 32) (zeros 64))) by by apply (bool_decide_unpack _); vm_compute.
  exact (conj Hid (conj koe_session_table_init_ok (conj (conj Hs I) (conj Hn Hp)))).
Qed.

Lemma koe_init_core cfg ps w r w' :
  process_ok ps → disk_ok w → w ⊢ koe_init cfg ps ⇓ r ⊣ w' → ctx_ok app_queue_ok (core_of r.1.2 r.2).
Proof.
  intros Hps Hd. pose proof (zero_app_core cfg ps Hps) as H0'. unfold koe_init. destruct (negb _); [by intros [= <- _]|].
  intros (dirs & w1 & Hdirs%quiet_mkdir_p & Hrun)%bind_inv. cbv zeta in Hrun.
  apply bind_inv in Hrun as (l & w2 & Hl%quiet_koe_account_registry_load & Hrun).
  destruct (negb _); [by injection Hrun as <- _|].
  apply bind_inv in Hrun as (a & w3 & Ha & Hrun).
  apply (activate_first_core cfg _ (set_dirs dirs ps)) in Ha; [|by unfold disk_ok; rewrite Hl, Hdirs|exact H0'].
  destruct (negb _); [by injection Hrun as <- _|].
  apply bind_inv in Hrun as ([[conn app] ps2] & w4 & [Ho Hh]%open_account_db_core & Hrun); [|exact Ha].
  cbn [fst snd] in *. destruct conn as [h|]; [|by injection Hrun as <- _].
  apply bind_inv in Hrun as (b & w5 & Hb%bring_up_core & [= <- _]); done.
Qed.

End Program.

(** * The event loop

    What the program does besides the calls above: it registers and unregisters
    listeners, posts events and polls, makes voice calls and speaks and hears in
    them, and uses groups. *)
Inductive call :=
  | Call (op : app_op)
  | RegisterListener (l : koe_listener_t)
  | UnregisterListener (fn : nat)
  | PostEvent (ev : koe_event_t)
  | PollEvents
  | StartCall (to : bytes)
  | SpeakFrame (i : nat) (pcm : list Z) (sess : koe_session_t) (out : koe_packet_t)
  | HearFrame (i : nat) (pkt : koe_packet_t) (sess : koe_session_t) (pcm : list Z)
  | EndCall (i : nat)
  | GroupCreate (name topic : bytes) (room_id_out : option bytes)
  | GroupSend (room_id text : bytes).

Section Run.
Context `{SodiumLaws} `{SqlOrder} `{FdAlloc} `{Mruby} `{Curl} `{Opus}.

(** The application: its own state, and its listeners, which change that state
    and may post, register and unregister while they run. By some measure of the
    event types, what they post counts for less than what they were called with;
    the measure of the pending events bounds the iterations of a poll. *)
Context {U : Type} (listener : koe_listener_t → koe_event_t → U → U * list action) (measure : Z → nat).

(** What the application holds: its state, and the voice calls it started and
    has not ended. *)
Record user := User { us_state : U; us_calls : list koe_audio_ctx_t }.
Definition set_calls (cs : list koe_audio_ctx_t) (u : user) : user := User (us_state u) cs.

(** The hook is [koe_plugin_dispatch] on the registry of the context, when
    [g_plugin_registry] is set. *)
Definition poll_events (app : koe_app_t) (ps : process) (u : user) : M (koe_app_t * process * user) :=
  r ← koe_event_poll (call_app listener) (if ps_plugin_registry ps then Some plugin_hook else None)
        (total_cost (measure ∘ ev_type) (contents (es_ring (ps_events ps)))) (ps_events ps) (ap_plugins app, us_state u);
  r ← lift r;
  mret (set_plugins r.2.1 app, set_events r.1.2 ps, User r.2.2 (us_calls u)).

(** The voice call number [i], when the application holds it, after [f]. *)
Definition with_voice (i : nat) (f : koe_audio_ctx_t → M koe_audio_ctx_t) (u : user) : M user :=
  match us_calls u !! i with
  | Some ctx => ctx ← f ctx; mret (set_calls (<[i := ctx]> (us_calls u)) u)
  | None => mret u
  end.

Definition run_call (c : call) (app : koe_app_t) (ps : process) (u : user) : M (koe_app_t * process * user) :=
  match c with
  | Call op => r ← app_run op app ps; mret (r.1, r.2, u)
  | RegisterListener l => mret (app, set_events (koe_event_register (ps_events ps) l).2 ps, u)
  | UnregisterListener fn => mret (app, set_events (koe_event_unregister (ps_events ps) fn).2 ps, u)
  | PostEvent ev => r ← koe_event_post (ps_events ps) ev; mret (app, set_events r.2 ps, u)
  | PollEvents => poll_events app ps u
  | StartCall to => c ← koe_start_call app to; mret (app, ps, set_calls (us_calls u ++ option_list c) u)
  | SpeakFrame i pcm sess out =>
      u ← with_voice i (λ ctx, r ← koe_audio_encode_frame ctx pcm sess out; mret r.1.2) u; mret (app, ps, u)
  | HearFrame i pkt sess pcm =>
      u ← with_voice i (λ ctx, r ← koe_audio_decode_frame ctx pkt sess pcm; mret r.1.2) u; mret (app, ps, u)
  | EndCall i =>
      let freed := koe_end_call (us_calls u !! i) in
      mret (app, ps, set_calls (delete i (us_calls u)) u)
  | GroupCreate name topic out => _ ← koe_group_create app name topic out; mret (app, ps, u)
  | GroupSend room_id text => _ ← koe_group_send app room_id text; mret (app, ps, u)
  end.

Definition call_ok (c : call) : Prop :=
  match c with
  | Call op => app_op_ok op
  | PostEvent ev => event_ok ev
  | HearFrame _ pkt _ _ => packet_ok pkt
  | GroupCreate _ _ out => opt_ok (λ b : bytes, KOE_MATRIX_ROOM_ID_MAX ≤ length b)%nat out
  | _ => True
  end.

(** Making a group goes to the Matrix server, through a response buffer whose
    allocation is not checked. *)
Definition needs_memory (c : call) : bool := match c with GroupCreate _ _ _ => true | _ => false end.

(** The event queue before or after its first use. *)
Definition events_ok (s : event_state) : Prop :=
  ring_ok (es_ring s) ∧ (length (es_listeners s) ≤ KOE_MAX_LISTENERS)%nat ∧ Forall event_ok (contents (es_ring s))
  ∧ (es_initialised s = true ∨ contents (es_ring s) = []).

(** The registry [koe_init] loads is empty, and stays so. *)
Definition no_plugins (r : koe_plugin_registry_t) : Prop := plugins_ok r ∧ pr_count r = 0%nat.

Definition live (fds0 : fd_table) (conns0 : gmap nat conn_info) (r : koe_app_t * process * user) : Prop :=
  running fds0 conns0 r.1.1 r.1.2 ∧ no_plugins (ap_plugins r.1.1) ∧ events_ok (ps_events r.1.2)
  ∧ Forall voice_ok (us_calls r.2).

Lemma ensure_init_inv s : events_ok s → queue_inv event_ok (ensure_init s).
Proof.
  intros (Hok & Hl & Hall & Hi). unfold ensure_init. destruct (es_initialised s) eqn:E; [by split_and!|].
  destruct ring_init_ok as [Hok' _]. by split_and!.
Qed.
Lemma ensure_init_twice s : ensure_init (ensure_init s) = ensure_init s.
Proof. unfold ensure_init. by destruct (es_initialised s) eqn:E; [rewrite E|]. Qed.
Lemma queue_inv_events s : queue_inv event_ok s → events_ok s.
Proof. intros (? & ? & ? & ?). split_and!; try done. by left. Qed.

Lemma register_events_ok s l : events_ok s → events_ok (koe_event_register s l).2.
Proof.
  intros Hs. apply queue_inv_events. replace (koe_event_register s l) with (koe_event_register (ensure_init s) l)
    by (unfold koe_event_register; by rewrite ensure_init_twice).
  by apply register_inv, ensure_init_inv.
Qed.
Lemma unregister_events_ok s fn : events_ok s → events_ok (koe_event_unregister s fn).2.
Proof.
  intros (Hok & Hl & Hall & Hi). unfold koe_event_unregister. destruct (list_find _ _) as [[i l]|]; [|done].
  destruct (es_listeners s !! _); [|done]. split_and!; try done. cbn. rewrite length_take, length_insert. lia.
Qed.

(** An empty registry lets every event pass. *)
Lemma no_plugins_dispatch reg ev : no_plugins reg → koe_plugin_dispatch reg ev = Some (if ev_suppressed ev then 1 else 0, reg, ev).
Proof. intros [_ Hc]. unfold koe_plugin_dispatch. rewrite Hc. cbn. rewrite drop_0. destruct reg. cbn in *. by subst. Qed.

Lemma plugin_free_listeners hook :
  posts_less listener measure →
  Listeners (call_app listener) (if (hook : bool) then Some plugin_hook else None) event_ok (λ st, no_plugins st.1)
    (measure ∘ ev_type).
Proof.
  intros Hp. pose proof (plugin_listeners listener measure hook Hp) as HL. split; try apply HL.
  - intros l ev [reg a] Hr. unfold call_app. cbn. by destruct (listener l ev a).
  - destruct hook; [|done]. intros f ev [reg a] ev' st' [= <-] Hev Hr. unfold plugin_hook. cbn [fst snd] in *.
    rewrite no_plugins_dispatch by done. by intros [= <- <-].
Qed.

Lemma post_events_ok s ev w :
  posts_less listener measure → events_ok s → event_ok ev → runs w (koe_event_post s ev) (λ r _, events_ok r.2).
Proof.
  intros Hp Hs Hev. pose proof (plugin_free_listeners false Hp) as HL.
  replace (koe_event_post s ev) with (koe_event_post (ensure_init s) ev) by (unfold koe_event_post; by rewrite ensure_init_twice).
  eapply runs_mono; [apply (post_inv (call_app listener) None event_ok (λ st, no_plugins st.1) (measure ∘ ev_type)); [|exact Hev]|].
  - by apply ensure_init_inv.
  - intros r w' _ [Hr _]. by apply queue_inv_events.
Qed.

Lemma poll_loop_events_ok hook fuel s st w :
  posts_less listener measure → events_ok s → no_plugins st.1 →
  (total_cost (measure ∘ ev_type) (contents (es_ring s)) ≤ fuel)%nat →
  runs w (poll_loop (call_app listener) (if (hook : bool) then Some plugin_hook else None) fuel s st 0)
    (λ r _, ∃ k' s' st', r = Some (k', s', st') ∧ events_ok s' ∧ no_plugins st'.1).
Proof.
  intros Hp Hs Hst Hfuel. pose proof (plugin_free_listeners hook Hp) as HL. pose proof Hs as (Hok & Hl & Hall & [Hi|Hc]).
  - destruct (poll_loop_ends (call_app listener) _ event_ok (λ st, no_plugins st.1) (measure ∘ ev_type) fuel s st 0 w)
      as [[_ (f & ev & [reg a] & Ef & _ & Hr & Hstop)]|Hr]; [by split_and!|done|done|..].
    + destruct hook; [|done]. injection Ef as <-. unfold plugin_hook in Hstop. cbn [fst snd] in *.
      by rewrite no_plugins_dispatch in Hstop.
    + eapply runs_mono; [exact Hr|]. intros r w' _ (k & s' & st' & -> & Hs' & _ & Hst').
      eexists _, _, _. split; [done|]. split; [by apply queue_inv_events|done].
  - destruct (ring_pop_spec (es_ring s) Hok) as [[Hht _]|(_ & Hc' & _)]; [|by rewrite Hc in Hc'].
    destruct fuel; cbn [poll_loop]; rewrite Hht, Z.eqb_refl; apply runs_ret; by eexists _, _, _.
Qed.

Lemma poll_events_sound fds0 conns0 app ps u w :
  posts_less listener measure → live fds0 conns0 (app, ps, u) →
  runs w (poll_events app ps u) (λ r _, live fds0 conns0 r ∧ ap_matrix r.1.1 = ap_matrix app).
Proof.
  intros Hp (Hrun & Hpl & Hev & Hv). cbn [fst snd] in *. unfold poll_events.
  eapply runs_bind; [by apply poll_loop_events_ok|]. intros r w1 _ (k & s' & [reg a] & -> & Hs' & Hr).
  eapply runs_lift; [done|]. apply runs_ret. cbn [fst snd] in *. split; [|done].
  split; [exact Hrun|]. by split_and!.
Qed.

(** Voice calls stay in shape. *)
Lemma with_voice_sound i f u w :
  Forall voice_ok (us_calls u) → (∀ ctx, voice_ok ctx → runs w (f ctx) (λ ctx' _, voice_ok ctx')) →
  runs w (with_voice i f u) (λ u' _, Forall voice_ok (us_calls u')).
Proof.
  intros Hv Hf. unfold with_voice. destruct (us_calls u !! i) as [ctx|] eqn:Hi; [|by apply runs_ret].
  eapply runs_bind; [by apply Hf; eapply Forall_lookup_1|]. intros ctx' w' _ Hc. apply runs_ret. by apply Forall_insert.
Qed.

Lemma koe_start_call_sound app to w : runs w (koe_start_call app to) (λ c _, opt_ok voice_ok c).
Proof.
  unfold koe_start_call. destruct (negb _); [by apply runs_ret|]. apply runs_malloc. destruct (w_heap w _); [|by apply runs_ret].
  cbn [negb]. eapply runs_bind; [apply koe_audio_init_ok|]. intros [rc ctx] w' _ Hc. apply runs_ret. cbn [fst snd] in *.
  destruct (Z.eqb_spec rc 0); [by apply Hc|done].
Qed.

Lemma koe_group_create_sound app name topic out w :
  opt_ok (λ b : bytes, KOE_MATRIX_ROOM_ID_MAX ≤ length b)%nat out → heap_ok w →
  runs w (koe_group_create app name topic out) (λ r _, length <$> r.2 = length <$> out).
Proof.
  intros Hout Hheap. unfold koe_group_create. destruct (negb _); [by apply runs_ret|]. by apply koe_matrix_room_create_safe.
Qed.

(** The calls leave plugins, events and the Matrix session alone. *)
Lemma app_run_frame op app ps :
  app_op_ok op → yields (app_run op app ps) (λ r, ap_plugins r.1 = ap_plugins app ∧ ps_events r.2 = ps_events ps ∧ ap_matrix r.1 = ap_matrix app).
Proof.
  destruct op as [idx pass|sid name|to path out offer pkt|op]; intros Hop; [done|..]; cbn [app_run].
  - eapply (yields_bind _ _ _ (λ r, ap_plugins r.1.2 = ap_plugins app
      ∧ ps_events r.2 = ps_events ps ∧ ap_matrix r.1.2 = ap_matrix app)); [|intros r Hr; by apply yields_ret].
    unfold koe_add_contact. destruct (negb _); [by apply yields_ret|]. apply yields_then. intros a.
    destruct (negb _); [by apply yields_ret|]. apply yields_then. intros r. by apply yields_ret.
  - eapply (yields_bind _ _ _ (λ r, ap_plugins r.1.1.2 = ap_plugins app
      ∧ ps_events r.1.2 = ps_events ps ∧ ap_matrix r.1.1.2 = ap_matrix app)); [|intros r Hr; by apply yields_ret].
    unfold koe_send_file. destruct (negb _); [by apply yields_ret|]. apply yields_then. intros [[rc o] p].
    destruct (negb _); [by apply yields_ret|]. apply yields_then. intros x. apply yields_then. intros q. by apply yields_ret.
  - apply yields_then. intros c. by apply yields_ret.
Qed.

Lemma run_call_sound fds0 conns0 c app ps u w :
  posts_less listener measure → live fds0 conns0 (app, ps, u) → call_ok c → sane_clock w →
  heap_ok w ∨ needs_memory c = false →
  runs w (run_call c app ps u) (λ r _, live fds0 conns0 r ∧ ap_matrix r.1.1 = ap_matrix app).
Proof.
  intros Hpost Hl Hc Hclk Hheap. pose proof Hl as (Hrun & Hp & Hev & Hv). cbn [fst snd] in *.
  assert (Hkeep : ∀ cs, Forall voice_ok cs → live fds0 conns0 (app, ps, set_calls cs u)) by by intros cs.
  assert (Hevs : ∀ s, events_ok s → live fds0 conns0 (app, set_events s ps, u)) by (intros s Hs; split; [exact Hrun|by split_and!]).
  destruct c as [op|l|fn|ev| |to|i pcm sess out|i pkt sess pcm|i|name topic out|room text]; cbn [run_call].
  - eapply runs_bind; [apply runs_yields; [by apply app_run_sound|by apply app_run_frame]|].
    intros r w' _ [Hr (E1 & E2 & E3)]. apply runs_ret. unfold live. cbn [fst snd]. by rewrite E1, E2.
  - apply runs_ret. split; [by apply Hevs, register_events_ok|done].
  - apply runs_ret. split; [by apply Hevs, unregister_events_ok|done].
  - eapply runs_bind; [by apply post_events_ok|]. intros r w' _ Hr. apply runs_ret. split; [by apply Hevs|done].
  - by apply poll_events_sound.
  - eapply runs_bind; [apply koe_start_call_sound|]. intros c w' _ Hco. apply runs_ret. split; [|done]. apply Hkeep, Forall_app.
    split; [done|]. by destruct c; [apply Forall_singleton|constructor].
  - eapply runs_bind; [apply with_voice_sound; [done|]|intros u' w' _ Hu; by apply runs_ret].
    intros ctx Hctx. eapply runs_bind; [by apply koe_audio_encode_frame_ok|]. intros r w' _ Hr. by apply runs_ret.
  - eapply runs_bind; [apply with_voice_sound; [done|]|intros u' w' _ Hu; by apply runs_ret].
    intros ctx Hctx. eapply runs_bind; [by apply koe_audio_decode_frame_ok|]. intros r w' _ Hr. by apply runs_ret.
  - apply runs_ret. split; [|done]. by apply Hkeep, Forall_delete.
  - destruct Hheap as [Hheap|]; [|done].
    eapply runs_bind; [by apply koe_group_create_sound|]. intros r w' _ _. by apply runs_ret.
  - eapply total_bind_runs; [unfold koe_group_send; total|]. intros r w' _. by apply runs_ret.
Qed.

(** * A whole run *)
Fixpoint run_calls (cs : list call) (app : koe_app_t) (ps : process) (u : user) : M (koe_app_t * process * user) :=
  match cs with
  | [] => mret (app, ps, u)
  | c :: cs' => r ← run_call c app ps u; run_calls cs' r.1.1 r.1.2 r.2
  end.

Lemma run_calls_sound fds0 conns0 cs app ps u w :
  posts_less listener measure → live fds0 conns0 (app, ps, u) → Forall call_ok cs → sane_clock w →
  heap_ok w ∨ Forall (λ c, needs_memory c = false) cs →
  runs w (run_calls cs app ps u) (λ r _, live fds0 conns0 r ∧ ap_matrix r.1.1 = ap_matrix app).
Proof.
  intros Hpost Hl Hcs. revert app ps u w Hl. induction Hcs as [|c cs Hc _ IH]; intros app ps u w Hl Hclk Hheap; cbn [run_calls].
  - by apply runs_ret.
  - eapply runs_bind.
    { apply run_call_sound; try done. destruct Hheap as [|Hn]; [by left|right]. by apply Forall_cons in Hn as [? _]. }
    intros [[app' ps'] u'] w' E [Hr Hm]. cbn [fst snd] in *. rewrite <-Hm. apply IH; [done|by eauto with koe|].
    destruct Hheap as [Hheap|Hn]; [left; by eapply heap_ok_env|right]. by apply Forall_cons in Hn as [_ ?].
Qed.

(** Initialise, make the calls, shut down; what the application is left with. *)
Definition koe_program (cfg : koe_config_t) (cs : list call) (ps : process) (st : U) : M (koe_app_t * process * user) :=
  i ← koe_init cfg ps;
  r ← run_calls cs i.1.2 i.2 (User st []);
  s ← koe_shutdown r.1.1 r.1.2;
  mret (s.1, s.2, r.2).

(** Initialisation loads an empty plugin registry and posts nothing. *)
Lemma koe_init_loop cfg ps :
  yields (koe_init cfg ps) (λ r, no_plugins (ap_plugins r.1.2) ∧ ps_events r.2 = ps_events ps).
Proof.
  assert (Hzero : ∀ dir, no_plugins (KoePluginRegistry (replicate KOE_PLUGIN_MAX zero_plugin) 0 dir)).
  { intros dir. split; [|done]. split; [apply length_replicate|]. split; [cbn; lia|]. by apply Forall_replicate. }
  unfold koe_init. destruct (negb _); [apply yields_ret; split; [apply Hzero|done]|].
  apply yields_then. intros dirs. apply yields_then. intros l.
  destruct (negb _); [apply yields_ret; split; [apply Hzero|done]|].
  eapply (yields_bind _ _ _ (λ a, no_plugins (ap_plugins a.2))).
  { unfold activate_first. destruct (_ =? 0)%nat; apply yields_then; intros r; apply yields_ret, Hzero. }
  intros a Ha. destruct (negb _); [by apply yields_ret|].
  eapply (yields_bind _ _ _ (λ o, no_plugins (ap_plugins o.1.2) ∧ ps_events o.2 = ps_events ps)).
  { unfold open_account_db. apply yields_then. intros o. by apply yields_ret. }
  intros [[[h|] app] ps1] [Hp He]; cbn [fst snd] in *; [|by apply yields_ret].
  eapply (yields_bind _ _ _ (λ r, no_plugins (ap_plugins r.1) ∧ ps_events r.2 = ps_events ps)); [|intros r Hr; by apply yields_ret].
  unfold bring_up. eapply (yields_bind _ _ _ (λ r, no_plugins (ap_plugins r.1) ∧ ps_events r.2 = ps_events ps)).
  { unfold load_contacts. apply yields_then. intros r. by apply yields_ret. }
  intros [app1 ps2] [Hp1 He1]. cbn [fst snd] in *. apply yields_then. intros q. apply yields_then. intros t. apply yields_then. intros c.
  assert (Hend : ∀ app2 ps3, no_plugins (ap_plugins app2) → ps_events ps3 = ps_events ps →
    yields (match cf_matrix_homeserver cfg with
            | None => mret (set_initialised true app2, ps3)
            | Some homeserver =>
                m ← koe_matrix_login (ap_matrix app2) (ac_keys (ap_account app2)) homeserver;
                mret (set_initialised true (set_matrix m.2 app2), ps3)
            end) (λ r, no_plugins (ap_plugins r.1) ∧ ps_events r.2 = ps_events ps)).
  { intros app2 ps3 Hp2 He2. destruct (cf_matrix_homeserver cfg); [apply yields_then; intros m|]; by apply yields_ret. }
  destruct (cf_plugins_dir cfg) as [dir|]; apply Hend; [apply Hzero|by destruct (_ =? 0)|exact Hp1|exact He1].
Qed.

End Run.

(** * Witness *)
#[local] Existing Instance toy_sodium.
#[local] Existing Instance toy_laws.
#[local] Existing Instance first_tie.
#[local] Existing Instance next_fd.
#[local] Existing Instance toy_mruby.
#[local] Existing Instance toy_curl.
#[local] Existing Instance toy_opus.

Definition demo_calls : list call :=
  let peer := Some (replicate 32 2) in
  [ RegisterListener (KoeListener 1 0); RegisterListener (KoeListener 2 0); UnregisterListener 2; Call (AppCore (CtxSessionEstablish peer (Some (witness_session 8 9))));
    Call (AppCore (CtxSendText peer (Some [104; 105]) 60)); PostEvent toy_message; Call (AppAddContact [97] [98]);
    PollEvents; StartCall (replicate 32 2); SpeakFrame 0 (zeros 160) (witness_session 8 9) witness_packet;
    HearFrame 0 witness_packet (witness_session 8 9) (zeros 160); EndCall 0; GroupCreate [97] [98] (Some (zeros 256));
    GroupSend [97] [98]; Call (AppSendFile (replicate 32 2) [120] None zero_offer witness_packet);
    Call (AppCore CtxPoll); Call (AppCore (CtxSessionClose peer)) ].

